(* ===== verification/_CoqProject ===== *)
-Q . S2P
Prelude.v
Bytes.v
Crypto.v
Net.v
NetText.v
Identity.v
Wire.v
WireRoute.v
WireGossip.v
WireForward.v
RoutePath.v
RouteTable.v
RouteSelect.v
Propagation.v
Peers.v
Gossip.v
GossipNet.v
Session.v
Frame.v
Conn.v
Socks5.v
SocksServer.v
TCPRelay.v
EndToEnd.v
Pipe.v
Control.v
Tunnel.v
Answer.v
Float.v
Duration.v
Json.v
PinFile.v
RateLimit.v
Acceptor.v
Node.v
Associate.v
Dialer.v
Tls.v
Lifecycle.v
Network.v
Spread.v
NodeRun.v
Overlay.v
Hosts.v
Loops.v
Config.v
Program.v
Health.v
