(* ===== verification/Prelude.v ===== *)
(** * MagicTun: verification of an overlay proxy

    MagicTun is an overlay network of nodes. Each node keeps TCP connections to its
    neighbours, learns of other nodes by gossip, exchanges path-vector routes, and
    offers a local SOCKS5 proxy whose connections and datagrams are carried to the node
    attached to their destination. This library is a shallow embedding of the program,
    translated from the Go sources, with the theorems that make its parts correct.

    ** Files and what they model

    - [Prelude]: outcomes of Go calls ([res]: value, error or run-time panic), integers
      of a given width, time, and the tactics and list lemmas of the library.
    - [Bytes]: bytes, big-endian integers, slices with the spare capacity of their backing
      array, fixed-size arrays, hexadecimal text. Reads out of range are panics.
    - [Crypto]: Ed25519 and SHA-256 as an interface (a class), its documented laws, and
      a concrete instance with these laws.
    - [Net]: the parts of Go's [net] that the program relies on: addresses, masks,
      prefixes, and their text.
    - [Identity] (identity/identity.go, keyfile.go, pinstore.go): node identifiers, the key
      file, trust on first use.
    - [Wire] (wire/header.go, sign.go), [WireRoute] (wire/route.go), [WireGossip]
      (wire/gossip.go), [WireForward] (wire/forward_tcp.go, forward_udp.go): the messages,
      one encoder and one decoder each.
    - [RoutePath] (route/path.go), [RouteTable] and [RouteSelect] (route/table.go),
      [Propagation] (route/propagation.go): paths, the table and its operations, the
      choice of a route, and what received routes make a node send.
    - [Peers] (gossip/peer.go) and [Gossip] (gossip/gossip.go): the peer table with its
      versions and states, and the engine that exchanges it and probes peers.
    - [GossipNet]: a network of such engines whose pushes cross an unreliable wire, and the news that
      travel with them.
    - [Session] (forward/session.go, udp_relay.go): UDP sessions and their relay.
    - [Frame] (transport/frame.go) and [Conn] (transport/conn.go): the frame format and
      the streams multiplexed on one connection.
    - [NetText]: addresses, ports and prefixes as text, as Go's [net] and [fmt] print and
      parse them; [Float] ([float64]), [Duration] ([time.ParseDuration] and printing) and
      [Json] (decoding of JSON trees) are the other parts of Go's library that are modelled.
    - [Socks5] (socks5/handshake.go) and [SocksServer] (socks5/server.go, udp.go): the
      handshake on the bytes of a client, its datagrams and their session numbers, the
      choice of a route, the replies and the copies.
    - [TCPRelay] (forward/tcp_relay.go and the dial callbacks of node/node.go): the header
      that goes through a stream of [Conn], and the exit node that reads it.
    - [EndToEnd]: the SOCKS5 server, the tunnel and the connection put together, from the
      bytes of the client to the address that the exit node dials.
    - [Pipe]: the read loop of [Conn] fed with the bytes of the frames that the other end wrote.
    - [Control]: the control stream of such a connection, as the queue of messages that its readers take it for.
    - [Tunnel]: one stream of such a connection with the exit node that reads it: its header, its data
      and its end, among the frames and the users of all the other streams. [Answer]: the other direction, from
      the target of the exit node to the client of the entry node.
    - [RateLimit] (node/node.go) and [Acceptor] (transport/listener.go, [acceptLoop] in
      node/node.go): the token bucket, and the two goroutines that let connections in.
    - [Node] (node/node.go): the callbacks between the components, the dispatch of
      control messages, and the life of a connection as the steps of its handlers. [NodeRun]: what holds in every run of it.
      [Associate] (socks5/udp.go, node/node.go): the goroutines of a UDP association, and its datagrams
      from the client into the node that is the next hop.
    - [Loops] (gossip/gossip.go, route/propagation.go, node/node.go): the loops of the tickers, with
      what other goroutines do between their turns.
    - [Dialer] (node/node.go, [Dial] in transport/conn.go): the goroutines of
      [connectToPeer], [reconnectPeer] and [bootstrapPeer] as tasks stepped by events, with
      the marks of the addresses being dialled, the backoff and the stop.
    - [Lifecycle] ([Start] and [Stop] in node/node.go and in the components): what a start
      acquires, each step of which can fail, what a stop releases, and the goroutines in between,
      those of [Acceptor] and [Dialer] included, as events. Of the sockets it tracks the four that are listened on;
      connections are tracked as far as they are registered.
    - [PinFile] (identity/pinstore.go): loading and saving the pins. [Tls] (transport/tls.go, udp.go):
      the certificate of a node as a sequence of library calls, the pins that it breaks, and the
      wrapper of UDP sockets; the library is an interface with its documented laws.
    - [Config] (config/config.go, cmd/magictun/main.go, [New] and [Start] in node/node.go):
      from the flags or the file to the validated configuration, the node and its tickers.
    - [Health] (obs/health.go): the statistics and the handlers of the health server.
    - [Program] (cmd/magictun/main.go, [New] in node/node.go): [main] from the flags to the stop.
    - [Network]: a network of nodes whose propagators exchange messages over an unreliable
      wire, as a step relation; [Spread]: schedules of such a network; [Overlay]: a network of whole
      nodes, each a [Node], that write on the connections between them.
    - [Hosts] (node/node.go): nodes with their goroutines, the tasks of [Dialer] and [Acceptor] and the handlers of
      connections among them, whose messages wait in the queues of [Control]. Which node a dial reaches is a relation;
      that it is the one that was meant is a hypothesis of the theorems that need it, and fails for nodes that
      announce the default address [":9443"]. Hosts do not close control streams, as nothing in the program does.

    ** How the model corresponds to the code

    A component is a record with one function per method. Maps are finite maps; where the
    code iterates over a map, the function takes the enumeration as an argument and the
    theorems hold for every one. Locks make each method atomic, so concurrency is the
    interleaving of operations. A handler of a connection registers it in one critical section ([Node.claim]) and then calls one
    component after the other: each call is a step of its own ([Node.conn_step]), and runs ([NodeRun], [Overlay], [Hosts])
    interleave the steps of all handlers. [Node.handleIncomingConn] and [Node.peer_lost] are the same steps
    in a row. Within one such call, what a component does under several of its locks in turn is one step. The clock and
    the outcomes of system calls are arguments.
    What a component sends or reports through a callback is the list of effects of the
    operation; [Node] interprets the effects of each component as the callbacks do. Where
    pointers are shared and written ([Conn]), there is a store of references; elsewhere
    the shared values are never written after they are published. Operations that would
    block have no result. Panics are outcomes, and are tracked up to the node, where the control messages of an operation
    are written once it has finished ([Node.perform]): that panics if the peer has closed the control stream. A run ends
    with its first panic.

    Errors, which the code only logs, are kept apart by what the code distinguishes; texts
    of log lines are not modelled.

    ** What is shown

    - The routing table is well formed in every run and refines a finite map; look-ups are
      longest-prefix look-ups, default routes aside, and independent of the iteration order; the
      removals and the garbage collection are exact.
    - In every run of a network, with messages delayed, repeated, reordered or lost, the
      paths of all routes are simple paths that avoid their node, and no message of a node
      makes another one panic; and a route can reach every node along a chain of neighbours.
    - Updates are relayed one hop further to everyone but their source, withdrawals undo
      them, and what is sent is what the receiver decodes. Signed control messages take effect
      at the receiver, and once a peer's key is known its dispatched messages must be signed with it; the first message of
      a connection and datagrams are acted upon without a signature.
    - Every message decodes to what was encoded; the decoders are safe or the exact
      inputs that make them panic are given, up to the whole node.
    - Peer versions never decrease, and random choices are choices among the peers alive. In every
      run of a network of engines, whoever is reached by a chain of pushes knows what its first
      sender knew, and has news at least as good.
    - Frames survive any splitting of the writes, and the streams of a connection are
      independent queues of bytes, in order and without loss in every run, from the writer of one
      end to the reader of the other; control messages arrive whole as long as they fit the
      reader's buffer; identifiers are well chosen.
    - Sessions expire exactly when idle, and the relay forwards datagrams unchanged.
    - The SOCKS5 handshake and the datagrams of a client are understood exactly as the protocol
      says, connect requests are answered as the specification of look-ups demands, and the
      exit node of a TCP tunnel dials the address and port of the header, as printing and
      parsing addresses are inverse; [EndToEnd] joins the two ends, for a stream that can be opened and accepted. What reaches the target is what
      the client sent, in order, whatever else goes on ([Tunnel]), and what comes back is what the target
      sent ([Answer]).
    - In every run of a node, however its handlers interleave, its parts stay well formed, what it sends is signed, and only
      known messages, and control streams that a peer has closed, make it panic. In every run of hosts, down to their
      goroutines, no message of one makes another panic, every registered connection is read from or about to be
      forgotten, and their routes are those of a run of [Network] ([Hosts], by way of [Overlay]); no route stays
      for more than three intervals and a tick.
    - The rate limiter, for all its floating-point rounding, is a token bucket; connections
      come in in order and within its bound.
    - In any interleaving of the dialling goroutines the marks are exact, the delays follow the
      backoff, and when the node stops all goroutines end but those that are in a call into the network. The wait
      group of the node is exact, a stop closes the listening sockets of any start, also one that failed, and the
      registered connections, and it is known exactly what can hold it up.
    - A valid configuration without IPv4-mapped networks makes a node that satisfies the hypotheses of [Network];
      [main] starts unless a call that it makes fails, and its stop succeeds.
    - Identities survive restarts; a trusted certificate stays the only one trusted.
    - Theorems also state behaviour that surprises: default routes are never used, costs wrap
      around, a reconnected peer stays dead, UDP answers are never delivered, session numbers
      collide, a peer can take the control stream away, a lost connection can take its successor out of the gossip engine, one stream that nobody reads stops its
      connection, the end of a stream whose queue is full is lost, the end of an answer is never
      sent, a datagram for a network behind a peer ends at that peer and one for an own network is
      never answered ([Associate]), closing a connection wakes no reader, the order of gossip
      messages decides whether a peer is dead, one failed accept closes the node to its peers and
      holds up its stop, a connection belongs to whoever claims it, a configuration with an empty
      interval is valid and panics.

    ** Fuel and bounds

    [Frame.writeFull] has one unit of fuel per byte and one more, which is always enough:
    [Frame.writeFull_spec] shows that it returns. [Conn.open_loop] is bounded by the 1000
    attempts of the source. [Net.leading_ones] counts the eight bits of a byte, and
    [NetText.v6_loop] the eight groups of an address. [Duration.values] has the length of the
    text as fuel, and more changes nothing ([Duration.values_fuel]). [SocksServer.fresh_id]
    reads the clock once per unit; [SocksServer.session_number_found] shows how many
    readings are enough. The tasks of [Dialer] have no fuel: [Dialer.dialers_stop] bounds
    their steps once the node is stopping. All other recursion is structural.

    ** What is not modelled

    Sockets and cryptography, the HTTP server behind obs, the parsing of flags and the signal
    handling of cmd, and the syntax of JSON texts: calls into the system and the standard library
    without logic of their own. The names that the system resolves are arguments. The tickers fire
    as events ([Loops]); [Lifecycle] follows goroutines to their end only where the node waits for them.
    The theorems about [Hosts] suppose that control messages fit the buffer of their readers; what becomes of longer
    ones is in [Control]. There a connection may be lost at any time, and what a node writes to one that the other end
    has closed is not read; the sockets below the frames are reliable, in-order byte streams. *)

From stdpp Require Export base tactics list gmap strings pretty relations.
From Stdlib Require Export ZArith Lia Strings.Byte.
From stdpp Require Import options.

#[global] Open Scope Z_scope.
#[global] Set Default Proof Using "Type".

(** ** Outcomes of fallible Go code

    A Go function that returns [(T, error)] either returns a value, returns an
    error, or panics at run time (an index or a slice bound out of range). *)

Inductive res (E A : Type) : Type :=
| Ok (a : A)
| Err (e : E)
| Panic.
Arguments Ok {E A} a.
Arguments Err {E A} e.
Arguments Panic {E A}.

#[export] Instance res_eq_dec `{EqDecision E, EqDecision A} : EqDecision (res E A).
Proof. solve_decision. Defined.

#[export] Instance res_ret {E} : MRet (res E) := λ A, Ok.
#[export] Instance res_bind {E} : MBind (res E) := λ A B f m,
  match m with Ok a => f a | Err e => Err e | Panic => Panic end.

Definition panics {E A} (r : res E A) : Prop := r = Panic.
Definition is_ok {E A} (r : res E A) : Prop := ∃ a, r = Ok a.

Lemma Ok_inj {E A} (a b : A) : Ok (E:=E) a = Ok b → a = b.
Proof. by intros [= ->]. Qed.

Lemma res_bind_Ok {E A B} (m : res E A) (f : A → res E B) b :
  m ≫= f = Ok b ↔ ∃ a, m = Ok a ∧ f a = Ok b.
Proof.
  destruct m; simpl; split; [eauto| |intros [=]| |intros [=]|]; by intros (? & [= ->] & ?).
Qed.

Lemma res_bind_Panic {E A B} (m : res E A) (f : A → res E B) :
  m ≫= f = Panic ↔ m = Panic ∨ ∃ a, m = Ok a ∧ f a = Panic.
Proof.
  destruct m; simpl; split; eauto; try (intros [=]); by intros [[=]|(? & [= <-] & ?)].
Qed.

(** [guard_err b e k]: the source's [if !b { return nil, e }] followed by [k]. *)
Definition guard_err {E A} (b : bool) (e : E) (k : res E A) : res E A :=
  if b then k else Err e.

(** ** Machine integers

    A Go [uintN] is a [Z] in [[0, 2^N)]; [wrap N] is its wrap-around. *)

Declare Scope go_scope.
Delimit Scope go_scope with go.

Definition wrap (w : Z) (z : Z) : Z := z mod 2 ^ w.
Notation "a +u32 b" := (wrap 32 (a + b)) (at level 50, left associativity) : go_scope.
Notation "a +u64 b" := (wrap 64 (a + b)) (at level 50, left associativity) : go_scope.
#[global] Open Scope go_scope.

Definition fits (w : Z) (z : Z) : Prop := 0 <= z < 2 ^ w.

#[export] Instance fits_dec w z : Decision (fits w z).
Proof. unfold fits. apply _. Defined.

Lemma wrap_fits w z : 0 <= w → fits w (wrap w z).
Proof. intros ?. apply Z.mod_pos_bound. by apply Z.pow_pos_nonneg. Qed.

Lemma wrap_small w z : fits w z → wrap w z = z.
Proof. intros ?. by apply Z.mod_small. Qed.

(** ** Go's time

    [time.Time] is a number of nanoseconds; [t.Sub(u)] saturates at the range of
    [time.Duration] (an int64). *)

Definition min_duration : Z := - 2 ^ 63.
Definition max_duration : Z := 2 ^ 63 - 1.
Definition time_sub (t u : Z) : Z := Z.max min_duration (Z.min max_duration (t - u)).
Definition Second : Z := 1000000000.

(** The value of a signed 64-bit result. *)
Definition signed64 (z : Z) : Z := (z + 2 ^ 63) `mod` 2 ^ 64 - 2 ^ 63.

(** ** Automation *)

Create HintDb go discriminated.
Create Rewrite HintDb go.
#[export] Hint Resolve wrap_fits : go.

(** Take apart the hypotheses [m ≫= f = Ok b] and [guard_err b e k = Ok a]. *)
Ltac res_inv :=
  repeat match goal with
    | H : _ ≫= _ = Ok _ |- _ =>
        let a := fresh "a" in let H1 := fresh "H" in
        apply res_bind_Ok in H as (a & H1 & H)
    | H : guard_err ?b _ _ = Ok _ |- _ =>
        unfold guard_err in H
    | H : (if ?b then _ else Err _) = Ok _ |- _ =>
        let E := fresh "Hg" in destruct b eqn:E; [|discriminate H]
    | H : Ok _ = Ok _ |- _ => injection H as H
    | H : Err _ = Ok _ |- _ => discriminate H
    | H : Panic = Ok _ |- _ => discriminate H
    end.

(** Case analysis on every boolean test and [decide] of the goal. *)
Ltac case_tests :=
  repeat match goal with
    | |- context [ if decide ?P then _ else _ ] => destruct (decide P)
    | |- context [ if ?b then _ else _ ] => let E := fresh "E" in destruct b eqn:E
    end.

(** ** Lists *)

Lemma take_app_length' {A} (l k : list A) n : length l = n → take n (l ++ k) = l.
Proof. intros <-. by rewrite take_app_length. Qed.

Lemma drop_app_length' {A} (l k : list A) n : length l = n → drop n (l ++ k) = k.
Proof. intros <-. by rewrite drop_app_length. Qed.

Lemma take_all' {A} (l : list A) n : length l = n → take n l = l.
Proof. intros <-. by rewrite firstn_all. Qed.

Lemma filter_nil_iff {A} (P : A → Prop) `{∀ x, Decision (P x)} (l : list A) :
  filter P l = [] ↔ ∀ x, x ∈ l → ¬ P x.
Proof.
  split.
  - intros Hf x Hx HP. assert (x ∈ filter P l) as Hin by by apply list_elem_of_filter.
    rewrite Hf in Hin. by apply not_elem_of_nil in Hin.
  - intros Hall. induction l as [|x l IH]; [done|].
    rewrite filter_cons_False by (apply Hall; left). apply IH. intros y Hy. apply Hall. by right.
Qed.

Lemma Forall_filter_keep {A} (P Q : A → Prop) `{∀ x, Decision (Q x)} (l : list A) :
  Forall P l → Forall P (filter Q l).
Proof.
  rewrite !Forall_forall. intros HP x Hx. apply list_elem_of_filter in Hx as [_ Hx]. auto.
Qed.

Lemma NoDup_map_filter {A B} (f : A → B) (Q : A → Prop) `{∀ x, Decision (Q x)} (l : list A) :
  NoDup (map f l) → NoDup (map f (filter Q l)).
Proof.
  intros Hd. induction l as [|x l IH]; [done|]. simpl in Hd.
  apply NoDup_cons in Hd as [Hn Hd]. rewrite filter_cons. case_decide; [|auto].
  simpl. apply NoDup_cons. split; [|auto]. intros Hin. apply Hn.
  apply list_elem_of_fmap in Hin as (y & Hy & Hin). apply list_elem_of_filter in Hin as [_ Hin].
  apply list_elem_of_fmap. eauto.
Qed.

(** ** Checking a range of integers by computation *)

Fixpoint all_from (f : Z → bool) (n : nat) (z : Z) : bool :=
  match n with
  | O => true
  | S n => if f z then all_from f n (z + 1) else false
  end.

Lemma all_from_spec f n z x :
  all_from f n z = true → z ≤ x < z + Z.of_nat n → f x = true.
Proof.
  revert z. induction n as [|n IH]; intros z H Hx; [lia|]. simpl in H.
  destruct (f z) eqn:E; [|done]. destruct (decide (x = z)) as [->|]; [done|].
  apply (IH (z + 1)); [done|lia].
Qed.

(** What holds of every 16-bit integer by computation. *)
Lemma all_16_bits f x : all_from f (Z.to_nat 65536) 0 = true → fits 16 x → f x = true.
Proof. intros H Hx. apply (all_from_spec _ _ _ x H). unfold fits in Hx. simpl in Hx. lia. Qed.
