(* ===== verification/Bytes.v ===== *)
(** * Bytes, slices, fixed-size arrays and big-endian integers

    The parts of Go's runtime and of [encoding/binary] and [encoding/hex] that the
    program uses: byte values, byte slices with their capacity, [[n]byte] arrays,
    [binary.BigEndian] and the hexadecimal codec. *)

From S2P Require Import Prelude.
From stdpp Require Import options.

(** ** Bytes *)

#[export] Instance byte_eq_dec : EqDecision byte := Byte.byte_eq_dec.
#[export] Program Instance byte_countable : Countable byte :=
  inj_countable Byte.to_N Byte.of_N _.
Next Obligation. intros b. apply Byte.of_to_N. Qed.

Definition byte_val (b : byte) : Z := Z.of_N (Byte.to_N b).
(** The conversion [byte(z)]: the low eight bits. *)
Definition byte_of (z : Z) : byte := default x00 (Byte.of_N (Z.to_N (wrap 8 z))).

Lemma byte_val_fits b : fits 8 (byte_val b).
Proof.
  unfold fits, byte_val. pose proof (Byte.to_N_bounded b). change (2 ^ 8) with 256. lia.
Qed.

Lemma byte_of_val b : byte_of (byte_val b) = b.
Proof.
  unfold byte_of. rewrite wrap_small by apply byte_val_fits.
  unfold byte_val. by rewrite N2Z.id, Byte.of_to_N.
Qed.

Lemma byte_val_of z : byte_val (byte_of z) = wrap 8 z.
Proof.
  unfold byte_val, byte_of. pose proof (wrap_fits 8 z) as Hf.
  unfold fits in Hf. change (2 ^ 8) with 256 in Hf.
  destruct (Byte.of_N (Z.to_N (wrap 8 z))) as [b|] eqn:E; simpl.
  - apply Byte.to_of_N in E. rewrite E. lia.
  - apply Byte.of_N_None_iff in E. lia.
Qed.

#[export] Instance byte_val_inj : Inj (=) (=) byte_val.
Proof. intros a b E. by rewrite <- (byte_of_val a), <- (byte_of_val b), E. Qed.

#[export] Hint Resolve byte_val_fits : go.

(** ** Big-endian integers ([binary.BigEndian.PutUintN] and [UintN])

    [be_put n z] is the [n]-byte big-endian form of [z] truncated to [8n] bits. *)

Fixpoint be_put (n : nat) (z : Z) : list byte :=
  match n with
  | O => []
  | S m => byte_of (z ≫ (8 * Z.of_nat m)) :: be_put m z
  end.

Definition be_get (l : list byte) : Z :=
  foldl (λ acc b, acc * 256 + byte_val b) 0 l.

Lemma length_be_put n z : length (be_put n z) = n.
Proof. induction n; simpl; auto. Qed.
#[export] Hint Rewrite length_be_put : go.

Lemma be_get_acc l acc :
  foldl (λ acc b, acc * 256 + byte_val b) acc l = acc * 2 ^ (8 * Z.of_nat (length l)) + be_get l.
Proof.
  revert acc. unfold be_get. induction l as [|b l IH]; intros acc; [simpl; lia|].
  cbn [foldl length]. rewrite IH, (IH (0 * 256 + byte_val b)).
  replace (8 * Z.of_nat (S (length l))) with (8 + 8 * Z.of_nat (length l)) by lia.
  rewrite Z.pow_add_r by lia. change (2 ^ 8) with 256. lia.
Qed.

Lemma be_get_cons b l : be_get (b :: l) = byte_val b * 2 ^ (8 * Z.of_nat (length l)) + be_get l.
Proof. unfold be_get at 1. simpl. by rewrite be_get_acc. Qed.

Lemma be_get_fits l : fits (8 * Z.of_nat (length l)) (be_get l).
Proof.
  unfold fits. induction l as [|b l IH]; [by cbv|].
  rewrite be_get_cons. cbn [length]. pose proof (byte_val_fits b) as Hb. unfold fits in Hb.
  change (2 ^ 8) with 256 in Hb.
  replace (8 * Z.of_nat (S (length l))) with (8 + 8 * Z.of_nat (length l)) by lia.
  rewrite Z.pow_add_r by lia. change (2 ^ 8) with 256. nia.
Qed.

Lemma be_get_put n z : be_get (be_put n z) = wrap (8 * Z.of_nat n) z.
Proof.
  unfold wrap. induction n as [|n IH]; [by rewrite Z.mod_1_r|].
  cbn [be_put]. rewrite be_get_cons, IH, length_be_put, byte_val_of. unfold wrap.
  rewrite Z.shiftr_div_pow2 by lia.
  replace (8 * Z.of_nat (S n)) with (8 * Z.of_nat n + 8) by lia.
  rewrite Z.pow_add_r by lia.
  rewrite (Z.rem_mul_r z) by lia. lia.
Qed.

Lemma be_put_get l : be_put (length l) (be_get l) = l.
Proof.
  assert (∀ l k, be_put (length l) (be_get l + k * 2 ^ (8 * Z.of_nat (length l))) = l) as Hk.
  { clear l. induction l as [|b l IH]; intros k; [done|]. cbn [length be_put].
    replace (8 * Z.of_nat (S (length l))) with (8 + 8 * Z.of_nat (length l)) by lia.
    rewrite be_get_cons, Z.pow_add_r by lia. change (2 ^ 8) with 256.
    set (p := 2 ^ (8 * Z.of_nat (length l))).
    replace (byte_val b * p + be_get l + k * (256 * p))
      with (be_get l + (byte_val b + k * 256) * p) by ring.
    f_equal; [|apply IH].
    rewrite Z.shiftr_div_pow2 by lia. fold p.
    pose proof (be_get_fits l) as Hf. unfold fits in Hf. fold p in Hf.
    rewrite Z.div_add, Z.div_small, Z.add_0_l by lia.
    apply byte_val_inj. rewrite byte_val_of. unfold wrap. change (2 ^ 8) with 256.
    rewrite Z.mod_add by lia. apply (wrap_small 8), byte_val_fits. }
  specialize (Hk l 0). by rewrite Z.mul_0_l, Z.add_0_r in Hk.
Qed.

Lemma be_get_put_fits n z : fits (8 * Z.of_nat n) z → be_get (be_put n z) = z.
Proof. intros. by rewrite be_get_put, wrap_small. Qed.

(** ** Slices

    A Go byte slice sees [contents], and its backing array holds [spare] after them:
    a slice expression may reach up to the capacity, an index only up to the length. *)

Record Slice := mkSlice { contents : list byte; spare : list byte }.

(** [data[off]] *)
Definition at_ {E} (s : Slice) (off : nat) : res E byte :=
  match contents s !! off with Some b => Ok b | None => Panic end.

(** [data[a:b]] *)
Definition sub {E} (s : Slice) (a b : nat) : res E (list byte) :=
  if decide (a ≤ b ≤ length (contents s) + length (spare s))%nat
  then Ok (take (b - a) (drop a (contents s ++ spare s))) else Panic.

(** [data[a:]] *)
Definition from {E} (s : Slice) (a : nat) : res E Slice :=
  if decide (a ≤ length (contents s))%nat
  then Ok (mkSlice (drop a (contents s)) (spare s)) else Panic.

(** [data[:b]], which keeps the rest of the backing array as spare capacity. *)
Definition upto {E} (s : Slice) (b : nat) : res E Slice :=
  if decide (b ≤ length (contents s) + length (spare s))%nat
  then Ok (mkSlice (take b (contents s ++ spare s)) (drop b (contents s ++ spare s))) else Panic.

(** [binary.BigEndian.UintN(data[off:])], [n] the number of bytes. *)
Definition uint_at {E} (n : nat) (s : Slice) (off : nat) : res E Z :=
  if decide (off + n ≤ length (contents s))%nat
  then Ok (be_get (take n (drop off (contents s)))) else Panic.

(** The slice of a freshly made [[]byte] of exact size. *)
Definition whole (l : list byte) : Slice := mkSlice l [].

(** [copy(dst[off:], src)] into [n] zeroed bytes: [src] cut or padded to [n]. *)
Definition copy_to (n : nat) (src : list byte) : list byte :=
  take n (src ++ replicate n x00).

Lemma length_copy_to n src : length (copy_to n src) = n.
Proof. unfold copy_to. rewrite length_take, length_app, length_replicate. lia. Qed.

Lemma copy_to_exact n src : length src = n → copy_to n src = src.
Proof. intros <-. unfold copy_to. by rewrite take_app_length. Qed.
#[export] Hint Rewrite length_copy_to : go.

(** ** Fixed-size arrays [[n]byte] *)

Record array (n : nat) := mkArray {
  bytes_of : list byte;
  array_ok : bool_decide (length bytes_of = n) = true }.
Arguments mkArray {n} bytes_of array_ok.
Arguments bytes_of {n} a.
Arguments array_ok {n} a.

Lemma length_array {n} (a : array n) : length (bytes_of a) = n.
Proof. destruct a as [l H]. simpl. by apply bool_decide_eq_true in H. Qed.
#[export] Hint Rewrite @length_array : go.

Lemma array_eq {n} (a b : array n) : bytes_of a = bytes_of b → a = b.
Proof.
  destruct a as [l Hl], b as [k Hk]. simpl. intros ->. f_equal. apply (proof_irrel Hl Hk).
Qed.

#[export] Instance array_eq_dec n : EqDecision (array n).
Proof.
  intros a b. destruct (decide (bytes_of a = bytes_of b)) as [H|H].
  - left. by apply array_eq.
  - right. intros ->. by apply H.
Defined.

(** [var a [n]byte; copy(a[:], src)] *)
Definition array_copy (n : nat) (src : list byte) : array n :=
  mkArray (copy_to n src) (bool_decide_eq_true_2 _ (length_copy_to n src)).

Lemma bytes_of_array_copy n src : length src = n → bytes_of (array_copy n src) = src.
Proof. apply copy_to_exact. Qed.

Lemma array_copy_bytes_of {n} (a : array n) : array_copy n (bytes_of a) = a.
Proof. apply array_eq. by rewrite bytes_of_array_copy by apply length_array. Qed.

#[export] Program Instance array_countable n : Countable (array n) :=
  inj_countable bytes_of (λ l, Some (array_copy n l)) _.
Next Obligation. intros n a. cbv beta. by rewrite array_copy_bytes_of. Qed.

#[export] Instance array_inhabited n : Inhabited (array n) := populate (array_copy n []).

(** ** Reading a slice field by field

    [cursor s off l]: the bytes of [s] from offset [off] on are [l]. *)

Definition cursor (s : Slice) (off : nat) (l : list byte) : Prop :=
  drop off (contents s) = l ∧ (off + length l)%nat = length (contents s).

Lemma cursor_start l sp : cursor (mkSlice l sp) 0 l.
Proof. done. Qed.

Section cursor.
Context {E : Type} (s : Slice) (off : nat).

Lemma cursor_app f l n : cursor s off (f ++ l) → length f = n → cursor s (off + n) l.
Proof.
  intros [Hd Hl] <-. split.
  - by rewrite <- drop_drop, Hd, drop_app_length.
  - rewrite length_app in Hl. lia.
Qed.

Lemma cursor_cons b l : cursor s off (b :: l) → cursor s (off + 1) l.
Proof. intros H. by apply (cursor_app [b]). Qed.

Lemma cursor_at b l : cursor s off (b :: l) → at_ (E:=E) s off = Ok b.
Proof.
  intros [Hd _]. unfold at_.
  assert (contents s !! off = Some b) as ->; [|done].
  by rewrite <- (Nat.add_0_r off), <- lookup_drop, Hd.
Qed.

Lemma cursor_uint f l n : cursor s off (f ++ l) → length f = n →
  uint_at (E:=E) n s off = Ok (be_get f).
Proof.
  intros [Hd Hl] <-. unfold uint_at. rewrite length_app in Hl.
  rewrite decide_True by lia. by rewrite Hd, take_app_length.
Qed.

Lemma cursor_sub f l n : cursor s off (f ++ l) → length f = n →
  sub (E:=E) s off (off + n) = Ok f.
Proof.
  intros [Hd Hl] <-. unfold sub. rewrite length_app in Hl.
  rewrite decide_True by lia.
  replace (off + length f - off)%nat with (length f) by lia.
  rewrite drop_app_le by lia. rewrite Hd, <- app_assoc. by rewrite take_app_length.
Qed.
End cursor.

(** Consume the next field of the message: the read at offset [o] takes it from
    the hypothesis [cursor s o _]. *)
Ltac cursor_step :=
  match goal with
  | H : cursor ?s ?o (?b :: _) |- context [ at_ ?s ?o ] =>
      rewrite (cursor_at s o b _ H); apply cursor_cons in H
  | H : cursor ?s ?o (?f ++ _) |- context [ uint_at ?n ?s ?o ] =>
      rewrite (cursor_uint s o f _ n H) by (autorewrite with go; reflexivity);
      apply (cursor_app s o f _ n) in H; [|autorewrite with go; reflexivity]
  | H : cursor ?s ?o (?f ++ _) |- context [ sub ?s ?o (?o + ?n)%nat ] =>
      rewrite (cursor_sub s o f _ n H) by (autorewrite with go; reflexivity);
      apply (cursor_app s o f _ n) in H; [|autorewrite with go; reflexivity]
  end.

(** ** Reads within the length never panic, and never see the spare capacity *)

Lemma at_ok {E} s off : (off < length (contents s))%nat → ∃ b, at_ (E:=E) s off = Ok b.
Proof.
  intros H. unfold at_. destruct (lookup_lt_is_Some_2 _ _ H) as [b ->]. eauto.
Qed.

Lemma uint_at_ok {E} n s off : (off + n ≤ length (contents s))%nat →
  ∃ z, uint_at (E:=E) n s off = Ok z ∧ fits (8 * Z.of_nat n) z.
Proof.
  intros H. unfold uint_at. rewrite decide_True by done. eexists; split; [done|].
  set (l := take n _). replace (Z.of_nat n) with (Z.of_nat (length l)); [apply be_get_fits|].
  unfold l. rewrite length_take, length_drop. lia.
Qed.

Lemma uint_at_panic {E} n s off :
  (length (contents s) < off + n)%nat → uint_at (E:=E) n s off = Panic.
Proof. intros H. unfold uint_at. by rewrite decide_False by lia. Qed.

(** Reads fail only by panicking. *)
Lemma uint_at_no_err {E} n s off (e : E) : uint_at n s off ≠ Err e.
Proof. unfold uint_at. by destruct (decide _). Qed.

Lemma sub_no_err {E} s a b (e : E) : sub s a b ≠ Err e.
Proof. unfold sub. by destruct (decide _). Qed.

Lemma sub_ok {E} s a b : (a ≤ b ≤ length (contents s))%nat →
  sub (E:=E) s a b = Ok (take (b - a) (drop a (contents s))).
Proof.
  intros H. unfold sub. rewrite decide_True by lia. f_equal.
  rewrite drop_app_le by lia. by rewrite take_app_le by (rewrite length_drop; lia).
Qed.

Lemma take_drop_length {A} (l : list A) a n :
  (a + n ≤ length l)%nat → length (take n (drop a l)) = n.
Proof. intros. rewrite length_take, length_drop. lia. Qed.

(** ** Hexadecimal ([encoding/hex]) *)

Definition hextable : string := "0123456789abcdef".
Definition hex_char (v : Z) : Ascii.ascii :=
  default Ascii.zero (String.get (Z.to_nat v) hextable).

Fixpoint hex_EncodeToString (l : list byte) : string :=
  match l with
  | [] => ""
  | b :: l => String (hex_char (byte_val b ≫ 4))
      (String (hex_char (Z.land (byte_val b) 15)) (hex_EncodeToString l))
  end.

Inductive hex_error := InvalidByteError (c : Ascii.ascii) | ErrLength.
#[export] Instance hex_error_eq_dec : EqDecision hex_error.
Proof. solve_decision. Defined.

(** [reverseHexTable]: both cases of the letters are accepted. *)
Definition unhex (c : Ascii.ascii) : option Z :=
  let n := Z.of_N (Ascii.N_of_ascii c) in
  if (48 <=? n) && (n <=? 57) then Some (n - 48)
  else if (97 <=? n) && (n <=? 102) then Some (n - 87)
  else if (65 <=? n) && (n <=? 70) then Some (n - 55)
  else None.

Fixpoint hex_DecodeString (s : string) : res hex_error (list byte) :=
  match s with
  | EmptyString => Ok []
  | String p EmptyString =>
      match unhex p with None => Err (InvalidByteError p) | Some _ => Err ErrLength end
  | String p (String q r) =>
      match unhex p, unhex q with
      | None, _ => Err (InvalidByteError p)
      | _, None => Err (InvalidByteError q)
      | Some a, Some b => rest ← hex_DecodeString r; Ok (byte_of (a * 16 + b) :: rest)
      end
  end.

Lemma unhex_byte b :
  unhex (hex_char (byte_val b ≫ 4)) = Some (byte_val b ≫ 4) ∧
  unhex (hex_char (Z.land (byte_val b) 15)) = Some (Z.land (byte_val b) 15) ∧
  byte_of (byte_val b ≫ 4 * 16 + Z.land (byte_val b) 15) = b.
Proof. destruct b; vm_compute; auto. Qed.

Lemma hex_decode_encode l : hex_DecodeString (hex_EncodeToString l) = Ok l.
Proof.
  induction l as [|b l IH]; [done|]. destruct (unhex_byte b) as (E1 & E2 & E3).
  cbn [hex_EncodeToString hex_DecodeString]. rewrite E1, E2, IH. simpl. by rewrite E3.
Qed.

#[export] Instance hex_EncodeToString_inj : Inj (=) (=) hex_EncodeToString.
Proof.
  intros l k E. apply (f_equal hex_DecodeString) in E.
  rewrite !hex_decode_encode in E. by injection E.
Qed.

Lemma hex_DecodeString_no_panic s : hex_DecodeString s ≠ Panic.
Proof.
  induction s as [s IH] using (well_founded_induction (well_founded_ltof _ String.length)).
  destruct s as [|p [|q r]]; [done|cbn; by destruct (unhex p)|]. cbn [hex_DecodeString].
  destruct (unhex p), (unhex q); try done. specialize (IH r ltac:(unfold ltof; cbn; lia)).
  by destruct (hex_DecodeString r).
Qed.

Lemma length_hex_encode l : String.length (hex_EncodeToString l) = (2 * length l)%nat.
Proof. induction l as [|b l IH]; simpl in *; [done|]. rewrite IH. lia. Qed.

(** ** What a successful read says about the bytes

    Inversions of the reads: the field read is the next part of the bytes. *)

Lemma drop_split {A} (l : list A) off n :
  drop off l = take n (drop off l) ++ drop (off + n) l.
Proof. by rewrite <- drop_drop, take_drop. Qed.

Lemma at_inv {E} s off b :
  at_ (E:=E) s off = Ok b → drop off (contents s) = b :: drop (off + 1) (contents s).
Proof.
  unfold at_. destruct (contents s !! off) as [b'|] eqn:Hb; [|done]. intros [= ->].
  rewrite (drop_S _ b off Hb). do 2 f_equal. lia.
Qed.

Lemma uint_at_inv {E} n s off z :
  uint_at (E:=E) n s off = Ok z →
  drop off (contents s) = be_put n z ++ drop (off + n) (contents s) ∧ fits (8 * Z.of_nat n) z.
Proof.
  unfold uint_at. destruct (decide _) as [Hl|]; [|done]. intros [= <-].
  assert (length (take n (drop off (contents s))) = n) as Hn by by apply take_drop_length.
  split.
  - pose proof (be_put_get (take n (drop off (contents s)))) as E'. rewrite Hn in E'.
    rewrite E'. apply drop_split.
  - pose proof (be_get_fits (take n (drop off (contents s)))) as F. by rewrite Hn in F.
Qed.

Lemma sub_inv {E} s off n l :
  sub (E:=E) s off (off + n) = Ok l → (off + n ≤ length (contents s))%nat →
  drop off (contents s) = l ++ drop (off + n) (contents s) ∧ length l = n.
Proof.
  intros H Hl. rewrite sub_ok in H by lia. injection H as <-.
  replace (off + n - off)%nat with n by lia. split; [apply drop_split|].
  by apply take_drop_length.
Qed.
