(* ===== verification/Crypto.v ===== *)
(** * The cryptographic primitives as an interface

    [crypto/ed25519] and [crypto/sha256] are used as black boxes. The class
    [Ed25519] names the operations the program calls; [Ed25519Laws] states the
    documented behaviour the theorems rely on: sizes, and that a signature made
    with a private key verifies under its public key. The instance at the end is a
    concrete function that has these laws. *)

From S2P Require Import Prelude Bytes.
From stdpp Require Import options.

Class Ed25519 := {
  NewKeyFromSeed : list byte → list byte;
  Public : list byte → list byte;
  Seed : list byte → list byte;
  ed_Sign : list byte → list byte → list byte;
  ed_Verify : list byte → list byte → list byte → bool;
  Sum256 : list byte → array 32 }.

Definition SignatureSize : nat := 64.

Class Ed25519Laws (C : Ed25519) := {
  length_sign priv msg : length (ed_Sign priv msg) = SignatureSize;
  length_public seed : length seed = 32%nat → length (Public (NewKeyFromSeed seed)) = 32%nat;
  seed_new_key seed : length seed = 32%nat → Seed (NewKeyFromSeed seed) = seed;
  verify_sign seed msg : length seed = 32%nat →
    ed_Verify (Public (NewKeyFromSeed seed)) msg (ed_Sign (NewKeyFromSeed seed) msg) = true }.

#[export] Hint Rewrite @length_sign : go.

(** A toy signature scheme: the key is the seed and the signature is the message
    padded to 64 bytes after the first 32 bytes of the key. *)
Definition toy_sign (key msg : list byte) : list byte := copy_to 64 (copy_to 32 key ++ msg).

Definition toy_ed25519 : Ed25519 := {|
  NewKeyFromSeed seed := seed;
  Public key := key;
  Seed key := key;
  ed_Sign := toy_sign;
  ed_Verify key msg sig := bool_decide (sig = toy_sign key msg);
  Sum256 l := array_copy 32 (rev l) |}.

#[export] Instance toy_ed25519_laws : Ed25519Laws toy_ed25519.
Proof.
  split; simpl; auto.
  - intros. apply length_copy_to.
  - intros. by apply bool_decide_true.
Qed.
