(* ===== verification/Net.v ===== *)
(** * The parts of Go's [net] package the program relies on

    Addresses, masks and prefixes are byte slices: [nil] and the empty slice are not
    told apart by any operation below, and both are [[]]. *)

From S2P Require Import Prelude Bytes.
From stdpp Require Import options.

(** ** Addresses *)

Definition v4InV6Prefix : list byte := replicate 10 x00 ++ [xff; xff].

(** [net.IPv4(a, b, c, d)]: the 16-byte form of an IPv4 address. *)
Definition IPv4 (l : list byte) : list byte := v4InV6Prefix ++ l.

(** [IP.To4]: [None] is Go's [nil]. *)
Definition To4 (ip : list byte) : option (list byte) :=
  if decide (length ip = 4%nat) then Some ip
  else if decide (length ip = 16%nat ∧ take 12 ip = v4InV6Prefix) then Some (drop 12 ip)
  else None.

Definition To16 (ip : list byte) : option (list byte) :=
  if decide (length ip = 4%nat) then Some (IPv4 ip)
  else if decide (length ip = 16%nat) then Some ip
  else None.

(** [IP.Equal]: an IPv4 address and its 16-byte form are equal. *)
Definition IP_Equal (a b : list byte) : bool :=
  if decide (length a = length b) then bool_decide (a = b)
  else if decide (length a = 4%nat ∧ length b = 16%nat)
       then bool_decide (take 12 b = v4InV6Prefix ∧ a = drop 12 b)
  else if decide (length a = 16%nat ∧ length b = 4%nat)
       then bool_decide (take 12 a = v4InV6Prefix ∧ drop 12 a = b)
  else false.

(** ** Textual form of addresses ([IP.String]) *)

Definition dec (z : Z) : string := pretty (Z.to_N z).

Fixpoint join (sep : string) (l : list string) : string :=
  match l with
  | [] => ""
  | [s] => s
  | s :: l => s +:+ sep +:+ join sep l
  end.

Definition String4 (ip : list byte) : string := join "." (map (dec ∘ byte_val) ip).

(** The 16-bit groups of a 16-byte address. *)
Fixpoint groups (l : list byte) : list Z :=
  match l with
  | a :: b :: l => (byte_val a * 256 + byte_val b) :: groups l
  | _ => []
  end.

(** [appendHex]: lower-case hexadecimal without leading zeros. *)
Definition hex16 (x : Z) : string :=
  let d k := String (hex_char (Z.land (x ≫ (4 * k)) 15)) "" in
  (if 4096 <=? x then d 3 else "") +:+ (if 256 <=? x then d 2 else "") +:+
  (if 16 <=? x then d 1 else "") +:+ d 0.

(** Length of the run of zero groups a list starts with. *)
Fixpoint zero_run (l : list Z) : nat :=
  match l with 0 :: l => S (zero_run l) | _ => 0%nat end.

(** The run [[start, end)] that [::] replaces: the first longest of length two or more. *)
Fixpoint best_run (i : nat) (l : list Z) (best : nat * nat) : nat * nat :=
  match l with
  | [] => best
  | _ :: t =>
      let n := zero_run l in
      best_run (S i) t
        (if (2 <=? n)%nat && (snd best - fst best <? n)%nat then (i, i + n)%nat else best)
  end.

Definition String6 (ip : list byte) : string :=
  let g := groups ip in
  let '(s, e) := best_run 0 g (0, 0)%nat in
  if (s =? e)%nat then join ":" (map hex16 g)
  else join ":" (map hex16 (take s g)) +:+ "::" +:+ join ":" (map hex16 (drop e g)).

Definition IP_String (ip : list byte) : string :=
  if decide (length ip = 0%nat) then "<nil>"
  else match To4 ip with
  | Some ip4 => String4 ip4
  | None => if decide (length ip = 16%nat) then String6 ip
            else "?" +:+ hex_EncodeToString ip
  end.

(** ** Masks *)

(** [^byte(0xff >> n)] for the byte that holds the end of the prefix. *)
Definition mask_byte (n : nat) : byte := byte_of (255 - 255 ≫ Z.of_nat n).

Fixpoint mask_bytes (len n : nat) : list byte :=
  match len with
  | O => []
  | S len => if (8 <=? n)%nat then xff :: mask_bytes len (n - 8)
             else mask_byte n :: mask_bytes len 0
  end.

(** [net.CIDRMask(ones, bits)]: [nil] when out of range. *)
Definition CIDRMask (ones bits : nat) : list byte :=
  if decide ((bits = 32 ∨ bits = 128)%nat ∧ (ones ≤ bits)%nat)
  then mask_bytes (bits / 8) ones else [].

(** The leading one bits of a byte, when all its other bits are zero. *)
Fixpoint leading_ones (fuel : nat) (v : Z) : option nat :=
  match fuel with
  | O => if v =? 0 then Some 0%nat else None
  | S f => if Z.testbit v 7 then S <$> leading_ones f (wrap 8 (v ≪ 1))
           else if v =? 0 then Some 0%nat else None
  end.

(** [simpleMaskLength]: [None] is the source's [-1]. *)
Fixpoint simpleMaskLength (m : list byte) : option nat :=
  match m with
  | [] => Some 0%nat
  | v :: m =>
      if decide (v = xff) then (λ n, 8 + n)%nat <$> simpleMaskLength m
      else n ← leading_ones 8 (byte_val v);
           if forallb (λ b, bool_decide (b = x00)) m then Some n else None
  end.

(** [IPMask.Size]: the number of ones, 0 for a mask that is not in canonical form. *)
Definition Mask_ones (m : list byte) : nat := default 0%nat (simpleMaskLength m).

Definition Mask_String (m : list byte) : string :=
  if decide (length m = 0%nat) then "<nil>" else hex_EncodeToString m.

(** ** Prefixes *)

Record IPNet := mkIPNet { IPNet_IP : list byte; IPNet_Mask : list byte }.

#[export] Instance IPNet_eq_dec : EqDecision IPNet.
Proof. solve_decision. Defined.

(** [networkNumberAndMask]: [None] is the source's [nil, nil]. *)
Definition networkNumberAndMask (n : IPNet) : option (list byte * list byte) :=
  ip ← match To4 (IPNet_IP n) with
       | Some ip => Some ip
       | None => if decide (length (IPNet_IP n) = 16%nat) then Some (IPNet_IP n) else None
       end;
  let m := IPNet_Mask n in
  if decide (length m = 4%nat) then
    if decide (length ip = 4%nat) then Some (ip, m) else None
  else if decide (length m = 16%nat) then
    if decide (length ip = 4%nat) then Some (ip, drop 12 m) else Some (ip, m)
  else None.

Definition and_bytes (a b : byte) : byte := byte_of (Z.land (byte_val a) (byte_val b)).

(** [IPNet.Contains] *)
Definition Contains (n : IPNet) (ip : list byte) : bool :=
  let '(nn, m) := default ([], []) (networkNumberAndMask n) in
  let ip := default ip (To4 ip) in
  bool_decide (length ip = length nn) &&
  bool_decide (zip_with and_bytes nn m = zip_with and_bytes ip m).

(** [IPNet.String]: the key of the routing table. *)
Definition IPNet_String (n : IPNet) : string :=
  match networkNumberAndMask n with
  | None => "<nil>"
  | Some (nn, m) =>
      match simpleMaskLength m with
      | None => IP_String nn +:+ "/" +:+ Mask_String m
      | Some l => IP_String nn +:+ "/" +:+ dec (Z.of_nat l)
      end
  end.

(** ** Facts *)

Lemma length_To4 ip ip4 : To4 ip = Some ip4 → length ip4 = 4%nat.
Proof.
  unfold To4. case_decide; [by intros [= <-]|]. case_decide as Ha; [|done].
  intros [= <-]. rewrite length_drop. lia.
Qed.

Lemma length_IPv4 l : length (IPv4 l) = (12 + length l)%nat.
Proof. done. Qed.
#[export] Hint Rewrite length_IPv4 : go.

Lemma To4_IPv4 l : length l = 4%nat → To4 (IPv4 l) = Some l.
Proof.
  intros Hl. unfold To4. rewrite length_IPv4.
  rewrite decide_False by lia. rewrite decide_True by (split; [lia|done]). done.
Qed.

Lemma To4_short l : length l = 4%nat → To4 l = Some l.
Proof. intros Hl. unfold To4. by rewrite decide_True. Qed.

(** The 16-byte form of an address that has a 4-byte form. *)
Lemma To16_To4 ip ip4 : To4 ip = Some ip4 → To16 ip = Some (IPv4 ip4).
Proof.
  unfold To4, To16. case_decide; [by intros [= ->]|]. case_decide as Ha; [|done].
  destruct Ha as [Hl Ht]. intros [= <-]. rewrite decide_True by done. f_equal.
  unfold IPv4. rewrite <- Ht. by rewrite take_drop.
Qed.

Lemma mask_table :
  forallb (λ n, bool_decide (simpleMaskLength (CIDRMask n 32) = Some n)) (seq 0 33) = true ∧
  forallb (λ n, bool_decide (simpleMaskLength (CIDRMask n 128) = Some n)) (seq 0 129) = true.
Proof. by vm_compute. Qed.

(** [Size] undoes [CIDRMask]. *)
Lemma simpleMaskLength_CIDRMask n bits :
  bits = 32%nat ∨ bits = 128%nat → (n ≤ bits)%nat → simpleMaskLength (CIDRMask n bits) = Some n.
Proof.
  intros Hb Hn. destruct mask_table as [H32 H128].
  rewrite forallb_forall in H32, H128.
  apply (bool_decide_eq_true_1 _).
  destruct Hb as [-> | ->]; [apply H32|apply H128]; apply in_seq; lia.
Qed.

Lemma Mask_ones_CIDRMask n bits :
  bits = 32%nat ∨ bits = 128%nat → (n ≤ bits)%nat → Mask_ones (CIDRMask n bits) = n.
Proof. intros. unfold Mask_ones. by rewrite simpleMaskLength_CIDRMask. Qed.

Lemma length_mask_bytes len n : length (mask_bytes len n) = len.
Proof. revert n. induction len; intros n; simpl; [done|]. case_match; simpl; by f_equal. Qed.

(** The canonical prefixes: a 4-byte mask for an IPv4 address in either form, a
    16-byte mask for an address without a 4-byte form. *)
Definition prefix_ok (n : IPNet) : Prop :=
  ∃ ones, match To4 (IPNet_IP n) with
          | Some _ => (ones ≤ 32)%nat ∧ IPNet_Mask n = CIDRMask ones 32
          | None => (ones ≤ 128)%nat ∧ length (IPNet_IP n) = 16%nat ∧
                    IPNet_Mask n = CIDRMask ones 128
          end.

(** The form in which a prefix comes back from the wire: a 16-byte address. *)
Definition prefix_norm (n : IPNet) : IPNet :=
  mkIPNet (default [] (To16 (IPNet_IP n))) (IPNet_Mask n).

Lemma To4_norm n : prefix_ok n → To4 (IPNet_IP (prefix_norm n)) = To4 (IPNet_IP n).
Proof.
  intros [ones H]. simpl. destruct (To4 (IPNet_IP n)) as [ip4|] eqn:E.
  - rewrite (To16_To4 _ _ E). simpl. rewrite To4_IPv4; [done|]. by eapply length_To4.
  - destruct H as (_ & Hl & _). unfold To16. rewrite Hl. simpl. done.
Qed.

(** Both forms name the same network, so they have the same key in the routing
    table and match the same addresses. *)
Lemma networkNumberAndMask_norm n :
  prefix_ok n → networkNumberAndMask (prefix_norm n) = networkNumberAndMask n.
Proof.
  intros Hn. pose proof (To4_norm n Hn) as E. unfold networkNumberAndMask. rewrite E.
  destruct (To4 (IPNet_IP n)) eqn:E4; [done|].
  destruct Hn as [ones Hn]. rewrite E4 in Hn. destruct Hn as (_ & Hl & _).
  simpl. unfold To16. repeat (rewrite Hl; simpl). done.
Qed.

Lemma prefix_ok_norm n : prefix_ok n → prefix_ok (prefix_norm n).
Proof.
  intros Hn. pose proof (To4_norm n Hn) as E. destruct Hn as [ones Hn]. exists ones. rewrite E.
  destruct (To4 (IPNet_IP n)) eqn:E4; [done|]. destruct Hn as (? & Hl & ?).
  split; [done|]. split; [|done]. simpl. unfold To16. by rewrite Hl.
Qed.

Lemma prefix_norm_idem n : prefix_ok n → prefix_norm (prefix_norm n) = prefix_norm n.
Proof.
  intros [ones Hn]. unfold prefix_norm. simpl. f_equal.
  destruct (To4 (IPNet_IP n)) as [ip4|] eqn:E4.
  - rewrite (To16_To4 _ _ E4). simpl. rewrite (To16_To4 _ ip4); [done|].
    apply To4_IPv4. by eapply length_To4.
  - destruct Hn as (_ & Hl & _). unfold To16. rewrite Hl. simpl. by rewrite Hl.
Qed.

Lemma IPNet_String_norm n : prefix_ok n → IPNet_String (prefix_norm n) = IPNet_String n.
Proof. intros. unfold IPNet_String. by rewrite networkNumberAndMask_norm. Qed.

Lemma Contains_norm n ip : prefix_ok n → Contains (prefix_norm n) ip = Contains n ip.
Proof. intros. unfold Contains. by rewrite networkNumberAndMask_norm. Qed.
