(* ===== verification/NetText.v ===== *)
(** * Addresses as text ([net], [net/netip] and [fmt], as the program uses them)

    Targets travel through the program as text: the SOCKS5 server joins a host and a
    port, the forwarding code splits them again and parses both. This file models these
    functions of Go's standard library, and shows that parsing undoes printing. *)

From Stdlib Require Import Strings.Ascii Btauto.
From S2P Require Import Prelude Bytes Net.
From stdpp Require Import options.

(** ** Strings *)

Definition ascii_is (c d : ascii) : bool := bool_decide (c = d).

(** [strings.Contains(s, c)] for one byte. *)
Fixpoint has (c : ascii) (s : string) : bool :=
  match s with
  | EmptyString => false
  | String d s => ascii_is c d || has c s
  end.

(** What is before and after the first occurrence of a byte. *)
Fixpoint cut (c : ascii) (s : string) : option (string * string) :=
  match s with
  | EmptyString => None
  | String d s =>
      if ascii_is c d then Some (EmptyString, s)
      else prod_map (String d) id <$> cut c s
  end.

(** What is before and after the last one. *)
Fixpoint cut_last (c : ascii) (s : string) : option (string * string) :=
  match s with
  | EmptyString => None
  | String d s =>
      match cut_last c s with
      | Some (a, b) => Some (String d a, b)
      | None => if ascii_is c d then Some (EmptyString, s) else None
      end
  end.

(** ** Host and port *)

Inductive addr_error := ErrMissingPort | ErrTooManyColons | ErrMissingBracket | ErrUnexpectedBracket.

#[export] Instance addr_error_eq_dec : EqDecision addr_error.
Proof. solve_decision. Defined.

Definition JoinHostPort (host port : string) : string :=
  if has ":"%char host then "[" +:+ host +:+ "]:" +:+ port else host +:+ ":" +:+ port.

(** In the bracketed case [rest] is what follows the first closing bracket. *)
Definition SplitHostPort (hostport : string) : res addr_error (string * string) :=
  match cut_last ":"%char hostport with
  | None => Err ErrMissingPort
  | Some (before, port) =>
      match hostport with
      | String "[" tail =>
          match cut "]"%char tail with
          | None => Err ErrMissingBracket
          | Some (host, rest) =>
              if decide (rest = EmptyString) then Err ErrMissingPort
              else if decide (before = String "[" (host +:+ "]")) then
                if has "["%char tail then Err ErrUnexpectedBracket
                else if has "]"%char rest then Err ErrUnexpectedBracket
                else Ok (host, port)
              else match rest with String ":" _ => Err ErrTooManyColons | _ => Err ErrMissingPort end
          end
      | _ =>
          if has ":"%char before then Err ErrTooManyColons
          else if has "["%char hostport then Err ErrUnexpectedBracket
          else if has "]"%char hostport then Err ErrUnexpectedBracket
          else Ok (before, port)
      end
  end.

(** ** Decimal numbers *)

Definition digit (c : ascii) : option Z :=
  let n := Z.of_N (N_of_ascii c) in
  if (48 <=? n) && (n <=? 57) then Some (n - 48) else None.

(** The leading digits of [s], read after [acc]. *)
Fixpoint digits_val (acc : Z) (s : string) : Z :=
  match s with
  | String c s => match digit c with Some d => digits_val (acc * 10 + d) s | None => acc end
  | EmptyString => acc
  end.

(** The blanks [fmt] skips, all but the newline, which is an error. Blanks outside ASCII
    are left out: the texts scanned are printed by the program. *)
Definition is_blank (c : ascii) : bool :=
  let n := Z.of_N (N_of_ascii c) in (n =? 32) || (n =? 9) || (n =? 11) || (n =? 12) || (n =? 13).

Fixpoint skip_blanks (s : string) : string :=
  match s with
  | String c s' => if is_blank c then skip_blanks s' else s
  | EmptyString => s
  end.

(** [fmt.Sscanf(s, "%d", &n)] for an [n] of 16 bits: what follows the digits is ignored. *)
Definition scan_uint16 (s : string) : option Z :=
  match skip_blanks s with
  | String c s =>
      d ← digit c;
      let v := digits_val d s in
      if v <? 2 ^ 16 then Some v else None
  | EmptyString => None
  end.

(** ** IP addresses

    [netip.ParseAddr], for addresses without a zone: all callers reject those with one. *)

(** [parseIPv4Fields]: the value and the number of digits of the current field, and the
    fields before it. *)
Fixpoint v4_fields (s : string) (val : Z) (digLen : nat) (fields : list byte) : option (list byte) :=
  match s with
  | EmptyString => if (length fields <? 3)%nat then None else Some (fields ++ [byte_of val])
  | String c s =>
      match digit c with
      | Some d =>
          if (digLen =? 1)%nat && (val =? 0) then None
          else let val := val * 10 + d in
               if 255 <? val then None else v4_fields s val (S digLen) fields
      | None =>
          if ascii_is c "."%char then
            if (digLen =? 0)%nat || bool_decide (s = EmptyString) then None
            else if (length fields =? 3)%nat then None
            else v4_fields s 0 0 (fields ++ [byte_of val])
          else None
      end
  end.

Definition parseIPv4 (s : string) : option (list byte) := v4_fields s 0 0 [].

(** The hexadecimal digits of a group: how many, their value, and the rest. [None] when
    there are more than four. *)
Fixpoint hex_run (off : nat) (acc : Z) (s : string) : option (nat * Z * string) :=
  match s with
  | EmptyString => Some (off, acc, s)
  | String c s' =>
      match unhex c with
      | None => Some (off, acc, s)
      | Some d => if (3 <? off)%nat then None else hex_run (S off) (acc * 16 + d) s'
      end
  end.

(** The loop of [parseIPv6]: the bytes so far, the position of the ellipsis, the rest. One
    unit of fuel is two of the sixteen bytes. *)
Fixpoint v6_loop (fuel : nat) (s : string) (ip : list byte) (ellipsis : option nat)
    : option (list byte * option nat * string) :=
  match fuel with
  | O => Some (ip, ellipsis, s)
  | S fuel =>
      '(off, acc, rest) ← hex_run 0 0 s;
      if (off =? 0)%nat then None else
      match rest with
      | EmptyString => Some (ip ++ be_put 2 acc, ellipsis, EmptyString)
      | String "." _ =>
          if bool_decide (ellipsis = None) && negb (length ip =? 12)%nat then None
          else if (16 <? length ip + 4)%nat then None
          else fields ← v4_fields s 0 0 []; Some (ip ++ fields, ellipsis, EmptyString)
      | String ":" EmptyString => None
      | String ":" (String ":" s) =>
          if bool_decide (ellipsis = None) then
            let ip := ip ++ be_put 2 acc in
            if bool_decide (s = EmptyString) then Some (ip, Some (length ip), s)
            else v6_loop fuel s ip (Some (length ip))
          else None
      | String ":" s => v6_loop fuel s (ip ++ be_put 2 acc) ellipsis
      | _ => None
      end
  end.

(** The ellipsis stands for the missing bytes, at least one group. *)
Definition v6_finish (r : list byte * option nat * string) : option (list byte) :=
  let '(ip, ellipsis, s) := r in
  if negb (bool_decide (s = EmptyString)) then None
  else if (length ip <? 16)%nat then
    match ellipsis with
    | None => None
    | Some e => Some (take e ip ++ replicate (16 - length ip) x00 ++ drop e ip)
    end
  else match ellipsis with None => Some ip | Some _ => None end.

Definition parseIPv6 (s : string) : option (list byte) :=
  if has "%"%char s then None else
  match s with
  | String ":" (String ":" EmptyString) => Some (replicate 16 x00)
  | String ":" (String ":" s) => v6_loop 8 s [] (Some 0%nat) ≫= v6_finish
  | _ => v6_loop 8 s [] None ≫= v6_finish
  end.

Inductive Addr := A4 (b : list byte) | A6 (b : list byte).

Fixpoint addr_kind (s : string) : ascii :=
  match s with
  | EmptyString => Ascii.zero
  | String c s => if ascii_is c "."%char || ascii_is c ":"%char || ascii_is c "%"%char then c else addr_kind s
  end.

Definition ParseAddr (s : string) : option Addr :=
  if ascii_is (addr_kind s) "."%char then A4 <$> parseIPv4 s
  else if ascii_is (addr_kind s) ":"%char then A6 <$> parseIPv6 s
  else None.

Definition BitLen (a : Addr) : nat := match a with A4 _ => 32 | A6 _ => 128 end.
Definition As16 (a : Addr) : list byte := match a with A4 b => IPv4 b | A6 b => b end.

(** [net.ParseIP]: [None] is nil. *)
Definition ParseIP (s : string) : option (list byte) := As16 <$> ParseAddr s.

(** [IP.Mask], where it does not fail *)
Definition IP_Mask (ip mask : list byte) : list byte :=
  let mask := if decide (length mask = 16%nat ∧ length ip = 4%nat ∧ take 12 mask = replicate 12 xff)
              then drop 12 mask else mask in
  let ip := if decide (length mask = 4%nat ∧ length ip = 16%nat ∧ take 12 ip = v4InV6Prefix)
            then drop 12 ip else ip in
  if decide (length ip = length mask) then zip_with and_bytes ip mask else [].

(** [dtoi]: a decimal number below 16777215, which is all of [s]. *)
Fixpoint dtoi_go (acc : Z) (s : string) : option Z :=
  match s with
  | EmptyString => Some acc
  | String c s =>
      d ← digit c;
      let acc := acc * 10 + d in
      if 16777215 <=? acc then None else dtoi_go acc s
  end.

Definition dtoi (s : string) : option Z :=
  if bool_decide (s = EmptyString) then None else dtoi_go 0 s.

(** [net.ParseCIDR]: the address and the network. *)
Definition ParseCIDR (s : string) : option (list byte * IPNet) :=
  '(addr, mask) ← cut "/"%char s;
  a ← ParseAddr addr;
  n ← dtoi mask;
  if Z.of_nat (BitLen a) <? n then None
  else let m := CIDRMask (Z.to_nat n) (BitLen a) in
       Some (As16 a, mkIPNet (IP_Mask (As16 a) m) m).

(** ** Strings: facts *)

#[local] Arguments String.append !_ _ / : simpl nomatch.

Lemma ascii_is_true c d : ascii_is c d = true ↔ c = d.
Proof. apply bool_decide_eq_true. Qed.

Lemma string_app_assoc s1 s2 s3 : (s1 +:+ s2) +:+ s3 = s1 +:+ s2 +:+ s3.
Proof. induction s1 as [|c s1 IH]; [done|]. cbn. by f_equal. Qed.

Lemma string_app_nil s : s +:+ "" = s.
Proof. induction s as [|c s IH]; [done|]. cbn. by f_equal. Qed.

Lemma has_app c s1 s2 : has c (s1 +:+ s2) = has c s1 || has c s2.
Proof. induction s1 as [|d s1 IH]; [done|]. cbn. by rewrite IH, orb_assoc. Qed.

Lemma cut_app c s1 s2 : has c s1 = false → cut c (s1 +:+ String c s2) = Some (s1, s2).
Proof.
  induction s1 as [|d s1 IH]; cbn.
  - intros _. unfold ascii_is. by rewrite bool_decide_true.
  - intros [Hd Hs]%orb_false_iff. by rewrite Hd, IH.
Qed.

Lemma cut_last_None c s : has c s = false → cut_last c s = None.
Proof.
  induction s as [|d s IH]; [done|]. cbn. intros [Hd Hs]%orb_false_iff. by rewrite IH, Hd.
Qed.

Lemma cut_last_app c s1 s2 : has c s2 = false → cut_last c (s1 +:+ String c s2) = Some (s1, s2).
Proof.
  intros Hs. induction s1 as [|d s1 IH]; cbn.
  - rewrite cut_last_None by done. unfold ascii_is. by rewrite bool_decide_true.
  - by rewrite IH.
Qed.

(** ** Host and port: splitting undoes joining *)

Lemma SplitHostPort_JoinHostPort host port :
  has "["%char host = false → has "]"%char host = false →
  has ":"%char port = false → has "["%char port = false → has "]"%char port = false →
  SplitHostPort (JoinHostPort host port) = Ok (host, port).
Proof.
  intros H1 H2 P0 P1 P2. unfold JoinHostPort. destruct (has ":"%char host) eqn:Hc.
  - assert ("[" +:+ host +:+ "]:" +:+ port = String "[" (host +:+ "]") +:+ String ":" port) as E.
    { cbn. by rewrite string_app_assoc. }
    unfold SplitHostPort. rewrite E at 1. rewrite cut_last_app by done. cbn [String.append].
    change (host +:+ String "]" (String ":" port)) with (host +:+ String "]" (":" +:+ port)).
    rewrite cut_app by done. rewrite decide_False by done. rewrite decide_True by done.
    rewrite has_app, H1. cbn. by rewrite P1, P2.
  - unfold SplitHostPort. cbn [String.append]. rewrite cut_last_app by done.
    destruct host as [|c host].
    { cbn. by rewrite P1, P2. }
    cbn [String.append]. cbn in H1. apply orb_false_iff in H1 as [Hc1 H1].
    assert (c ≠ "["%char) as Hne by (intros ->; discriminate Hc1).
    assert (has "["%char (String c (host +:+ String ":" port)) = false) as E1.
    { cbn. rewrite Hc1, has_app, H1. by cbn. }
    assert (has "]"%char (String c (host +:+ String ":" port)) = false) as E2.
    { change (String c (host +:+ String ":" port)) with (String c host +:+ String ":" port).
      rewrite has_app, H2. by cbn. }
    rewrite Hc, E1, E2. destruct c as [[] [] [] [] [] [] [] []]; done.
Qed.

(** ** Numbers: scanning undoes printing *)

Definition plain (s : string) : bool :=
  negb (has ":"%char s) && negb (has "["%char s) && negb (has "]"%char s) && negb (has "%"%char s).

Lemma digit_pretty x : (x < 10)%N → digit (pretty_N_char x) = Some (Z.of_N x).
Proof.
  intros Hx. assert (x ∈ (0 :: 1 :: 2 :: 3 :: 4 :: 5 :: 6 :: 7 :: 8 :: [9])%N) as Hin.
  { rewrite !elem_of_cons. lia. }
  by repeat (apply elem_of_cons in Hin as [->|Hin]; [done|]); apply not_elem_of_nil in Hin.
Qed.

Lemma plain_digit c s d : digit c = Some d → plain (String c s) = plain s.
Proof.
  intros H. unfold plain. cbn [has]. unfold ascii_is.
  by do 4 (rewrite bool_decide_false by (intros <-; discriminate H)).
Qed.

(** Printing a number puts its digits in front. *)
Lemma pretty_N_go_digits x : (0 < x)%N →
  ∃ k, ∀ s, plain (pretty_N_go x s) = plain s ∧ (∃ c w d, pretty_N_go x s = String c w ∧ digit c = Some d) ∧
    ∀ acc, digits_val acc (pretty_N_go x s) = digits_val (acc * 10 ^ Z.of_nat k + Z.of_N x) s.
Proof.
  induction (N.lt_wf_0 x) as [x _ IH]. intros Hx.
  assert (x `mod` 10 < 10)%N as Hm by by apply N.mod_lt.
  pose proof (digit_pretty _ Hm) as Hd. pose proof (N.div_mod x 10) as Hdm.
  destruct (decide (x `div` 10 = 0)%N) as [E|E].
  - exists 1%nat. intros s. rewrite pretty_N_go_step, E, pretty_N_go_0 by done. split_and!.
    + by eapply plain_digit.
    + eauto.
    + intros acc. cbn [digits_val]. rewrite Hd. f_equal. lia.
  - destruct (IH (x `div` 10)%N) as [k Hk]; [by apply N.div_lt|lia|].
    exists (S k). intros s. rewrite pretty_N_go_step by done.
    destruct (Hk (String (pretty_N_char (x `mod` 10)) s)) as (H1 & H2 & H3). split_and!.
    + rewrite H1. by eapply plain_digit.
    + done.
    + intros acc. rewrite H3. cbn [digits_val]. rewrite Hd. f_equal.
      rewrite Nat2Z.inj_succ, Z.pow_succ_r by lia. lia.
Qed.

Lemma skip_blanks_digit c s d : digit c = Some d → skip_blanks (String c s) = String c s.
Proof. intros H. cbn. destruct (is_blank c) eqn:E; [|done]. destruct c as [[] [] [] [] [] [] [] []]; done. Qed.

Lemma dec_spec p : 0 ≤ p →
  plain (dec p) = true ∧ ∃ c w d, dec p = String c w ∧ digit c = Some d ∧ digits_val d w = p.
Proof.
  intros Hp. unfold dec, pretty, pretty_N. case_decide as H0.
  { split; [done|]. exists "0"%char, EmptyString, 0. split_and!; [done..|]. simpl. lia. }
  destruct (pretty_N_go_digits (Z.to_N p)) as [k Hk]; [lia|].
  destruct (Hk EmptyString) as (H1 & (c & w & d & E & Hd) & H2). split; [by rewrite H1|].
  exists c, w, d. split_and!; [done..|]. specialize (H2 0). rewrite E in H2. cbn [digits_val] in H2.
  rewrite Hd in H2. replace (0 * 10 + d) with d in H2 by lia. rewrite H2. simpl. lia.
Qed.

Lemma scan_dec p : fits 16 p → scan_uint16 (dec p) = Some p.
Proof.
  intros [Hp Hp']. destruct (dec_spec p Hp) as (_ & c & w & d & E & Hd & Hv).
  unfold scan_uint16. rewrite E, (skip_blanks_digit _ _ d), Hd by done. cbn [mbind option_bind].
  by rewrite Hv, (proj2 (Z.ltb_lt p (2 ^ 16))).
Qed.

Lemma plain_dec p : 0 ≤ p → plain (dec p) = true.
Proof. intros Hp. by apply dec_spec. Qed.

Lemma plain_has s : plain s = true →
  has ":"%char s = false ∧ has "["%char s = false ∧ has "]"%char s = false ∧ has "%"%char s = false.
Proof. unfold plain. rewrite !andb_true_iff, !negb_true_iff. tauto. Qed.

Lemma plain_app s1 s2 : plain (s1 +:+ s2) = plain s1 && plain s2.
Proof. unfold plain. rewrite !has_app, !negb_orb. btauto. Qed.

(** ** Addresses: parsing undoes printing *)

(** A run of digits within a field: its value and length. *)
Fixpoint v4_digits (s : string) (val : Z) (digLen : nat) : option (Z * nat) :=
  match s with
  | EmptyString => Some (val, digLen)
  | String c s =>
      d ← digit c;
      if (digLen =? 1)%nat && (val =? 0) then None
      else let val := val * 10 + d in
           if 255 <? val then None else v4_digits s val (S digLen)
  end.

Lemma v4_fields_digits w s val n f val' n' :
  v4_digits w val n = Some (val', n') → v4_fields (w +:+ s) val n f = v4_fields s val' n' f.
Proof.
  revert val n. induction w as [|c w IH]; intros val n; cbn; [by intros [= -> ->]|].
  destruct (digit c) as [d|]; cbn; [|done].
  destruct (_ && _); [done|]. destruct (255 <? _); [done|]. apply IH.
Qed.

Lemma v4_digits_dec b : v4_digits (dec (byte_val b)) 0 0 = Some (byte_val b, String.length (dec (byte_val b))).
Proof. destruct b; vm_compute; reflexivity. Qed.

Lemma length_dec b : String.length (dec (byte_val b)) ≠ 0%nat.
Proof. destruct b; vm_compute; congruence. Qed.

(** What the parser of IPv4 addresses makes of a printed byte, whatever follows it. *)
Lemma v4_fields_dec b s f :
  ∃ d, d ≠ 0%nat ∧ v4_fields (dec (byte_val b) +:+ s) 0 0 f = v4_fields s (byte_val b) d f.
Proof. eexists. split; [apply (length_dec b)|apply v4_fields_digits, v4_digits_dec]. Qed.

Lemma v4_fields_dot b s f :
  s ≠ "" → length f ≠ 3%nat →
  v4_fields (dec (byte_val b) +:+ "." +:+ s) 0 0 f = v4_fields s 0 0 (f ++ [b]).
Proof.
  intros Hs Hf. destruct (v4_fields_dec b ("." +:+ s) f) as (d & Hd & ->). cbn.
  rewrite (proj2 (Nat.eqb_neq d 0)), (proj2 (Nat.eqb_neq (length f) 3)) by done.
  rewrite bool_decide_false by done. cbn. by rewrite byte_of_val.
Qed.

Lemma dec_not_empty b s : dec (byte_val b) +:+ s ≠ "".
Proof. pose proof (length_dec b). by destruct (dec (byte_val b)). Qed.

Lemma parseIPv4_String4 ip : length ip = 4%nat → parseIPv4 (String4 ip) = Some ip.
Proof.
  destruct ip as [|a [|b [|c [|d [|]]]]]; try done. intros _.
  change (String4 [a; b; c; d]) with
    (dec (byte_val a) +:+ "." +:+ dec (byte_val b) +:+ "." +:+ dec (byte_val c) +:+ "." +:+ dec (byte_val d)).
  pose proof (dec_not_empty b). pose proof (dec_not_empty c).
  pose proof (dec_not_empty d "") as Hd. rewrite string_app_nil in Hd.
  unfold parseIPv4. rewrite 3!v4_fields_dot by done.
  destruct (v4_fields_dec d "" [a; b; c]) as (n & _ & E). rewrite string_app_nil in E.
  etrans; [exact E|]. cbn. by rewrite byte_of_val.
Qed.

(** The kind of an address is told by what follows its first digits. *)
Lemma addr_kind_app w s : addr_kind w = Ascii.zero → addr_kind (w +:+ s) = addr_kind s.
Proof.
  induction w as [|c w IH]; [done|]. cbn. destruct (_ || _) eqn:E; [|done]. by intros ->.
Qed.

Lemma addr_kind_dec b s : addr_kind (dec (byte_val b) +:+ s) = addr_kind s.
Proof. apply addr_kind_app. destruct b; vm_compute; reflexivity. Qed.

Lemma ParseAddr_String4 ip : length ip = 4%nat → ParseAddr (String4 ip) = Some (A4 ip).
Proof.
  intros Hl. unfold ParseAddr. rewrite parseIPv4_String4 by done.
  destruct ip as [|a [|b [|c [|d [|]]]]]; try done.
  change (String4 [a; b; c; d]) with (dec (byte_val a) +:+ "." +:+ join "." (map (dec ∘ byte_val) [b; c; d])).
  by rewrite addr_kind_dec.
Qed.

(** ** IPv6 *)

(** Groups printed and read back. *)
Definition starts_hex (s : string) : bool :=
  match s with String c _ => bool_decide (is_Some (unhex c)) | EmptyString => false end.

Lemma hex_run_app w t n acc o a :
  hex_run n acc w = Some (o, a, EmptyString) → starts_hex t = false →
  hex_run n acc (w +:+ t) = Some (o, a, t).
Proof.
  intros H Ht. revert n acc H.
  induction w as [|c w IH]; intros n acc; cbn [hex_run String.append].
  - intros [= <- <-]. destruct t as [|c t]; [done|]. cbn in Ht |- *.
    apply bool_decide_eq_false in Ht. destruct (unhex c); [|done]. by destruct Ht.
  - destruct (unhex c); [|done]. destruct (3 <? n)%nat; [done|]. apply IH.
Qed.

Lemma hex_char_table :
  all_from (λ v, bool_decide (unhex (hex_char v) = Some v) && plain (String (hex_char v) "") &&
    bool_decide (addr_kind (String (hex_char v) "") = Ascii.zero)) 16 0 = true.
Proof. by vm_compute. Qed.

Lemma hex_char_spec v : 0 ≤ v < 16 →
  unhex (hex_char v) = Some v ∧ (∀ s, plain (String (hex_char v) s) = plain s) ∧
  ∀ s, addr_kind (String (hex_char v) s) = addr_kind s.
Proof.
  intros Hv.
  apply (all_from_spec _ 16 0 v hex_char_table) in Hv.
  rewrite !andb_true_iff in Hv. destruct Hv as [[H1%bool_decide_eq_true H2] H3%bool_decide_eq_true].
  split_and!; [done| |]; intros s.
  - change (String (hex_char v) s) with (String (hex_char v) "" +:+ s). by rewrite plain_app, H2.
  - change (String (hex_char v) s) with (String (hex_char v) "" +:+ s).
    generalize dependent (hex_char v). intros c _ _. cbn. destruct (_ || _) eqn:E; [|done].
    by intros ->.
Qed.

Lemma hex16_spec x : fits 16 x →
  starts_hex (hex16 x) = true ∧ plain (hex16 x) = true ∧ addr_kind (hex16 x) = Ascii.zero ∧
  ∃ o, o ≠ 0%nat ∧ hex_run 0 0 (hex16 x) = Some (o, x, EmptyString).
Proof.
  intros [Hx Hx']. change (2 ^ 16) with 65536 in Hx'. unfold hex16.
  assert (∀ k, 0 ≤ Z.land (x ≫ (4 * k)) 15 < 16) as Hn.
  { intros k. change 15 with (Z.ones 4). rewrite Z.land_ones by lia. by apply Z.mod_pos_bound. }
  assert (∀ k, 0 ≤ k → Z.land (x ≫ (4 * k)) 15 = (x `div` 16 ^ k) `mod` 16) as E.
  { intros k Hk. change 15 with (Z.ones 4). rewrite Z.land_ones, Z.shiftr_div_pow2, Z.pow_mul_r by lia. done. }
  assert (∀ k, _) as Hc by exact (λ k, hex_char_spec _ (Hn k)).
  destruct (Hc 0) as (U0 & P0 & K0), (Hc 1) as (U1 & P1 & K1), (Hc 2) as (U2 & P2 & K2), (Hc 3) as (U3 & P3 & K3).
  rewrite !E in U0, U1, U2, U3 by lia. rewrite !E in P0, P1, P2, P3 by lia.
  rewrite !E in K0, K1, K2, K3 by lia. rewrite !E by lia.
  change (16 ^ 0) with 1 in *. change (16 ^ 1) with 16 in *. change (16 ^ 2) with 256 in *.
  change (16 ^ 3) with 4096 in *.
  destruct (Z.leb_spec 4096 x), (Z.leb_spec 256 x), (Z.leb_spec 16 x); try lia;
    cbn [String.append starts_hex];
    (split_and!; [by rewrite ?U0, ?U1, ?U2, ?U3|by rewrite ?P3, ?P2, ?P1, ?P0|by rewrite ?K3, ?K2, ?K1, ?K0|]);
    eexists; (split; [|cbn [hex_run]; rewrite ?U3; cbn [hex_run Nat.ltb Nat.leb]; rewrite ?U2;
      cbn [hex_run Nat.ltb Nat.leb]; rewrite ?U1; cbn [hex_run Nat.ltb Nat.leb]; rewrite ?U0;
      cbn [hex_run Nat.ltb Nat.leb]; do 3 f_equal; Z.to_euclidean_division_equations; lia]); done.
Qed.

(** The text of a list of groups. *)
Definition text (l : list Z) : string := join ":" (map hex16 l).

Lemma text_cons x y l : text (x :: y :: l) = hex16 x +:+ ":" +:+ text (y :: l).
Proof. done. Qed.

Lemma text_starts x l t : fits 16 x → starts_hex (text (x :: l) +:+ t) = true.
Proof.
  intros Hx. destruct (hex16_spec x Hx) as (Hs & _). unfold text. cbn [map join].
  destruct (hex16 x) as [|c w]; [done|]. destruct l; exact Hs.
Qed.

(** One group of the loop: what the group is followed by decides. *)
Lemma v6_loop_group fuel x t ip e :
  fits 16 x → starts_hex t = false →
  v6_loop (S fuel) (hex16 x +:+ t) ip e =
  match t with
  | EmptyString => Some (ip ++ be_put 2 x, e, EmptyString)
  | String "." _ =>
      if bool_decide (e = None) && negb (length ip =? 12)%nat then None
      else if (16 <? length ip + 4)%nat then None
      else fields ← v4_fields (hex16 x +:+ t) 0 0 []; Some (ip ++ fields, e, EmptyString)
  | String ":" EmptyString => None
  | String ":" (String ":" s) =>
      if bool_decide (e = None) then
        let ip := ip ++ be_put 2 x in
        if bool_decide (s = EmptyString) then Some (ip, Some (length ip), s)
        else v6_loop fuel s ip (Some (length ip))
      else None
  | String ":" s => v6_loop fuel s (ip ++ be_put 2 x) e
  | _ => None
  end.
Proof.
  intros Hx Ht. destruct (hex16_spec x Hx) as (_ & _ & _ & o & Ho & Hr).
  cbn [v6_loop]. rewrite (hex_run_app _ t _ _ _ _ Hr Ht). cbn [mbind option_bind].
  by rewrite (proj2 (Nat.eqb_neq o 0) Ho).
Qed.

Definition group_bytes (l : list Z) : list byte := concat (map (be_put 2) l).

Lemma group_bytes_cons x l : group_bytes (x :: l) = be_put 2 x ++ group_bytes l.
Proof. done. Qed.

Lemma length_group_bytes l : length (group_bytes l) = (2 * length l)%nat.
Proof. induction l as [|x l IH]; [done|]. rewrite group_bytes_cons, length_app, IH, length_be_put. simpl. lia. Qed.

(** A colon followed by a group goes on with the group. *)
Lemma v6_loop_colon fuel x s ip e :
  fits 16 x → starts_hex s = true →
  v6_loop (S fuel) (hex16 x +:+ ":" +:+ s) ip e = v6_loop fuel s (ip ++ be_put 2 x) e.
Proof.
  intros Hx Hs. rewrite v6_loop_group by done. cbn.
  destruct s as [|c s]; [done|]. unfold starts_hex in Hs. apply bool_decide_eq_true in Hs.
  destruct (decide (c = ":"%char)) as [->|Hne]; [by destruct Hs|].
  destruct c as [[] [] [] [] [] [] [] []]; done.
Qed.

Lemma v6_loop_text fuel l ip e :
  Forall (fits 16) l → l ≠ [] → (length l ≤ fuel)%nat →
  v6_loop fuel (text l) ip e = Some (ip ++ group_bytes l, e, EmptyString).
Proof.
  intros Hl. revert fuel ip. induction Hl as [|x l Hx Hl IH]; intros fuel ip; [done|]. intros _ Hf.
  destruct fuel as [|fuel]; [simpl in Hf; lia|]. destruct l as [|y l].
  - change (text [x]) with (hex16 x). rewrite <- (string_app_nil (hex16 x)).
    rewrite v6_loop_group by done. by rewrite group_bytes_cons, app_nil_r.
  - rewrite text_cons, group_bytes_cons, app_assoc. rewrite v6_loop_colon; [apply IH; [done|simpl in *; lia]|done|].
    rewrite <- (string_app_nil (text (y :: l))). apply text_starts. by inversion Hl.
Qed.

Lemma v6_loop_ellipsis fuel l t ip :
  Forall (fits 16) l → l ≠ [] →
  let ip' := ip ++ group_bytes l in
  v6_loop (length l + fuel) (text l +:+ "::" +:+ t) ip None =
  if bool_decide (t = EmptyString) then Some (ip', Some (length ip'), t)
  else v6_loop fuel t ip' (Some (length ip')).
Proof.
  intros Hl. revert ip. induction Hl as [|x l Hx Hl IH]; intros ip; [done|]. intros _. cbn [length Nat.add].
  destruct l as [|y l].
  - change (text [x]) with (hex16 x). rewrite v6_loop_group by done.
    by rewrite group_bytes_cons, app_nil_r.
  - rewrite text_cons, !string_app_assoc, group_bytes_cons, app_assoc.
    rewrite v6_loop_colon; [by apply IH|done|]. apply text_starts. by inversion Hl.
Qed.

(** The groups of an address are its bytes. *)
Lemma groups_spec n l : length l = (2 * n)%nat →
  group_bytes (groups l) = l ∧ length (groups l) = n ∧ Forall (fits 16) (groups l).
Proof.
  revert l. induction n as [|n IH]; intros l Hl.
  { by destruct l. }
  destruct l as [|a [|b l]]; [simpl in Hl; lia..|]. destruct (IH l) as (E & L & F); [simpl in Hl; lia|].
  cbn [groups]. replace (byte_val a * 256 + byte_val b) with (be_get [a; b]) by (unfold be_get; simpl; lia).
  rewrite group_bytes_cons, E. cbn [length]. rewrite L. split_and!; [|done|].
  - exact (f_equal (.++ l) (be_put_get [a; b])).
  - apply Forall_cons. split; [exact (be_get_fits [a; b])|done].
Qed.

(** The run that is replaced: none, or two or more groups, all zero. *)
Definition run_ok (g : list Z) (r : nat * nat) : Prop :=
  fst r = 0%nat ∧ snd r = 0%nat ∨
  (fst r + 2 ≤ snd r ≤ length g)%nat ∧ take (snd r - fst r) (drop (fst r) g) = replicate (snd r - fst r) 0.

Lemma zero_run_spec l : (zero_run l ≤ length l)%nat ∧ take (zero_run l) l = replicate (zero_run l) 0.
Proof.
  induction l as [|[|p|p] l [IH1 IH2]]; simpl; try (split; [lia|done]).
  split; [lia|]. by f_equal.
Qed.

Lemma run_split g s e :
  (s ≤ e)%nat → take (e - s) (drop s g) = replicate (e - s) 0 →
  g = take s g ++ replicate (e - s) 0 ++ drop e g.
Proof.
  intros Hse Hz. rewrite <- Hz. replace (drop e g) with (drop (e - s) (drop s g)).
  - by rewrite !take_drop.
  - rewrite drop_drop. f_equal. lia.
Qed.

Lemma group_bytes_app l k : group_bytes (l ++ k) = group_bytes l ++ group_bytes k.
Proof. unfold group_bytes. by rewrite map_app, concat_app. Qed.

Lemma group_bytes_zeros n : group_bytes (replicate n 0) = replicate (2 * n) x00.
Proof.
  induction n as [|n IH]; [done|]. cbn [replicate]. rewrite group_bytes_cons, IH.
  by replace (2 * S n)%nat with (S (S (2 * n))) by lia.
Qed.

Lemma best_run_ok g i best : run_ok g best → run_ok g (best_run i (drop i g) best).
Proof.
  remember (drop i g) as l eqn:E. revert i best E.
  induction l as [|x l IH]; intros i best E Hb; [done|].
  assert (l = drop (S i) g) as El by (replace (S i) with (i + 1)%nat by lia; by rewrite <- drop_drop, <- E).
  cbn [best_run]. apply IH; [done|].
  destruct (_ && _) eqn:Hc; [|done]. apply andb_true_iff in Hc as [H2 _]. apply Nat.leb_le in H2.
  right. cbn [fst snd]. destruct (zero_run_spec (x :: l)) as [Hz1 Hz2].
  pose proof (f_equal length E) as Hlen. rewrite length_drop in Hlen.
  split; [lia|]. replace (i + zero_run (x :: l) - i)%nat with (zero_run (x :: l)) by lia.
  by rewrite <- E.
Qed.

(** What follows an ellipsis, up to the end. *)
Lemma v6_after_ellipsis fuel l ip :
  Forall (fits 16) l → (length l ≤ fuel)%nat →
  (if bool_decide (text l = EmptyString) then Some (ip, Some (length ip), text l)
   else v6_loop fuel (text l) ip (Some (length ip))) = Some (ip ++ group_bytes l, Some (length ip), EmptyString).
Proof.
  intros Hl Hf. destruct l as [|x l].
  - by rewrite app_nil_r.
  - rewrite bool_decide_false; [by apply v6_loop_text|].
    apply Forall_cons_1 in Hl as [Hx _]. pose proof (text_starts x l "" Hx) as Hs.
    rewrite string_app_nil in Hs. intros E. by rewrite E in Hs.
Qed.

Lemma plain_text l : Forall (fits 16) l → has "%"%char (text l) = false ∧ has "["%char (text l) = false ∧ has "]"%char (text l) = false.
Proof.
  intros Hl. induction Hl as [|x l Hx Hl IH]; [done|].
  destruct (hex16_spec x Hx) as (_ & (_ & P1 & P2 & P3)%plain_has & _). destruct l as [|y l]; [done|].
  rewrite text_cons, !has_app. destruct IH as (-> & -> & ->). rewrite P1, P2, P3. by cbn.
Qed.

(** A first group and then a colon: the text is one of an IPv6 address. *)
Lemma addr_kind_text x l t : fits 16 x → addr_kind (text (x :: l) +:+ ":" +:+ t) = ":"%char.
Proof.
  intros Hx. destruct (hex16_spec x Hx) as (_ & _ & K & _). destruct l as [|y l].
  - change (text [x]) with (hex16 x). by rewrite addr_kind_app.
  - rewrite text_cons, !string_app_assoc. by rewrite addr_kind_app.
Qed.

Lemma parseIPv6_starts s : starts_hex s = true → has "%"%char s = false →
  parseIPv6 s = v6_loop 8 s [] None ≫= v6_finish.
Proof.
  intros Hs Hp. unfold parseIPv6. rewrite Hp. destruct s as [|c s]; [done|].
  cbn in Hs. apply bool_decide_eq_true in Hs.
  destruct (decide (c = ":"%char)) as [->|Hne]; [by destruct Hs|].
  destruct c as [[] [] [] [] [] [] [] []]; done.
Qed.

(** An address with some groups left out. *)
Lemma parseIPv6_ellipsis l1 l2 :
  Forall (fits 16) l1 → Forall (fits 16) l2 → (length l1 + length l2 < 8)%nat →
  parseIPv6 (text l1 +:+ "::" +:+ text l2) =
  Some (group_bytes l1 ++ replicate (16 - 2 * (length l1 + length l2)) x00 ++ group_bytes l2).
Proof.
  intros H1 H2 Hl.
  assert (v6_finish (group_bytes l1 ++ group_bytes l2, Some (length (group_bytes l1)), EmptyString) =
    Some (group_bytes l1 ++ replicate (16 - 2 * (length l1 + length l2)) x00 ++ group_bytes l2)) as Hfin.
  { unfold v6_finish. rewrite bool_decide_true by done. cbn [negb].
    rewrite length_app, !length_group_bytes. rewrite (proj2 (Nat.ltb_lt _ 16)) by lia.
    rewrite <- length_group_bytes, take_app_length, drop_app_length.
    rewrite length_group_bytes. do 4 f_equal. lia. }
  destruct (plain_text l1 H1) as (P1 & _), (plain_text l2 H2) as (P2 & _).
  destruct l1 as [|x l1].
  - cbn [text map join String.append]. pose proof (v6_after_ellipsis 8 l2 [] H2 ltac:(lia)) as E.
    unfold parseIPv6. cbn [has]. rewrite P2. cbn [ascii_is bool_decide orb decide].
    change (ascii_is "%" ":" || (ascii_is "%" ":" || false)) with false. cbv iota.
    destruct (text l2) as [|c w] eqn:Ht.
    + destruct l2 as [|y l2]; [done|]. exfalso. apply Forall_cons_1 in H2 as [Hy _].
      pose proof (text_starts y l2 "" Hy) as Hs. by rewrite string_app_nil, Ht in Hs.
    + rewrite bool_decide_false in E by done. cbn [length] in E. rewrite E. exact Hfin.
  - rewrite parseIPv6_starts.
    + pose proof (v6_loop_ellipsis (8 - length (x :: l1)) (x :: l1) (text l2) [] H1 ltac:(done)) as E.
      replace (length (x :: l1) + (8 - length (x :: l1)))%nat with 8%nat in E by lia.
      cbv zeta in E. rewrite v6_after_ellipsis in E by (done || lia). rewrite E. exact Hfin.
    + apply text_starts. by inversion H1.
    + rewrite !has_app, P1, P2. done.
Qed.

(** [IPv6] text of a whole address. *)
Lemma parseIPv6_full l : Forall (fits 16) l → length l = 8%nat → parseIPv6 (text l) = Some (group_bytes l).
Proof.
  intros Hl H8. destruct (plain_text l Hl) as (P & _).
  rewrite parseIPv6_starts; [|destruct l as [|x l]; [done|]|done].
  - rewrite v6_loop_text; [|done|by destruct l|lia]. cbn [mbind option_bind app].
    unfold v6_finish. rewrite length_group_bytes, H8. done.
  - rewrite <- (string_app_nil (text _)). apply text_starts. by inversion Hl.
Qed.

Lemma ParseAddr_String6 ip : length ip = 16%nat → ParseAddr (String6 ip) = Some (A6 ip).
Proof.
  intros Hip. destruct (groups_spec 8 ip Hip) as (Hb & H8 & Hf).
  unfold String6. pose proof (best_run_ok (groups ip) 0 (0, 0)%nat) as Hrun.
  rewrite drop_0 in Hrun. destruct (best_run 0 (groups ip) (0, 0)%nat) as [s e].
  specialize (Hrun (or_introl (conj eq_refl eq_refl))). unfold run_ok in Hrun. cbn [fst snd] in Hrun.
  set (g := groups ip) in *. change (join ":" (map hex16 g)) with (text g).
  unfold ParseAddr. destruct (Nat.eqb_spec s e) as [<-|Hne].
  - rewrite parseIPv6_full, Hb by done. destruct g as [|x [|y l]]; [done..|].
    rewrite text_cons. apply Forall_cons_1 in Hf as [Hx _].
    assert (addr_kind (hex16 x +:+ ":" +:+ text (y :: l)) = ":"%char) as ->; [|done].
    exact (addr_kind_text x [] _ Hx).
  - destruct Hrun as [[-> ->]|[Hse Hz]]; [done|].
    change (join ":" (map hex16 (take s g))) with (text (take s g)).
    change (join ":" (map hex16 (drop e g))) with (text (drop e g)).
    rewrite parseIPv6_ellipsis; [|by apply Forall_take|by apply Forall_drop|rewrite length_take, length_drop; lia].
    assert (addr_kind (text (take s g) +:+ "::" +:+ text (drop e g)) = ":"%char) as ->.
    { destruct (take s g) as [|x l] eqn:Ht; [done|].
      change ("::" +:+ text (drop e g)) with (":" +:+ ":" +:+ text (drop e g)).
      apply addr_kind_text. apply (Forall_take _ s) in Hf. rewrite Ht in Hf. by inversion Hf. }
    change (ascii_is ":" ".") with false. change (ascii_is ":" ":") with true. cbv iota.
    clearbody g. pose proof (f_equal group_bytes (run_split g s e ltac:(lia) Hz)) as E.
    rewrite Hb, !group_bytes_app, group_bytes_zeros in E. rewrite E.
    cbn [fmap option_fmap option_map]. do 5 f_equal. rewrite length_take, length_drop. lia.
Qed.

(** ** [ParseIP] undoes [IP.String] *)

Lemma To4_cases ip : length ip = 4%nat ∨ length ip = 16%nat →
  match To4 ip with
  | Some ip4 => length ip4 = 4%nat ∧ To16 ip = Some (IPv4 ip4)
  | None => length ip = 16%nat ∧ To16 ip = Some ip
  end.
Proof.
  intros Hl. destruct (To4 ip) as [ip4|] eqn:E.
  - split; [by eapply length_To4|by apply To16_To4].
  - destruct Hl as [Hl|Hl]; [by rewrite To4_short in E|]. split; [done|]. unfold To16. by rewrite Hl.
Qed.

Lemma IP_String_cases ip : length ip = 4%nat ∨ length ip = 16%nat →
  IP_String ip = match To4 ip with Some ip4 => String4 ip4 | None => String6 ip end.
Proof.
  intros Hl. unfold IP_String. rewrite decide_False by lia. destruct (To4 ip) eqn:E; [done|].
  destruct Hl as [Hl|Hl]; [by rewrite To4_short in E|]. by rewrite decide_True.
Qed.

Lemma ParseIP_String ip : length ip = 4%nat ∨ length ip = 16%nat → ParseIP (IP_String ip) = To16 ip.
Proof.
  intros Hl. pose proof (To4_cases ip Hl) as H. rewrite IP_String_cases by done. unfold ParseIP.
  destruct (To4 ip) as [ip4|]; destruct H as [H4 ->].
  - by rewrite ParseAddr_String4.
  - by rewrite ParseAddr_String6.
Qed.

(** The text of an address does not depend on its form. *)
Lemma IP_String_To16 ip ip16 : To16 ip = Some ip16 → IP_String ip16 = IP_String ip.
Proof.
  unfold To16. case_decide as H4.
  - intros [= <-]. unfold IP_String. rewrite length_IPv4, To4_IPv4, To4_short, !decide_False by lia. done.
  - case_decide; [by intros [= ->]|done].
Qed.

Lemma plain_join l sep : has "["%char sep = false → has "]"%char sep = false →
  Forall (λ s, has "["%char s = false ∧ has "]"%char s = false) l →
  has "["%char (join sep l) = false ∧ has "]"%char (join sep l) = false.
Proof.
  intros S1 S2 Hl. induction Hl as [|s l [H1 H2] Hl [IH1 IH2]]; [done|].
  destruct l as [|s' l]; [done|]. change (join sep (s :: s' :: l)) with (s +:+ sep +:+ join sep (s' :: l)). by rewrite !has_app, S1, S2, H1, H2, IH1, IH2.
Qed.

Lemma IP_String_no_bracket ip : length ip = 4%nat ∨ length ip = 16%nat →
  has "["%char (IP_String ip) = false ∧ has "]"%char (IP_String ip) = false.
Proof.
  intros Hl. pose proof (To4_cases ip Hl) as H. rewrite IP_String_cases by done.
  destruct (To4 ip) as [ip4|].
  - apply plain_join; [done..|]. apply Forall_fmap, Forall_true. intros b. cbn.
    destruct (plain_has (dec (byte_val b))) as (_ & ? & ? & _); [|done].
    apply plain_dec. apply byte_val_fits.
  - destruct H as [H _]. destruct (groups_spec 8 ip H) as (_ & _ & Hf). unfold String6.
    destruct (best_run _ _ _) as [s e].
    change (join ":" (map hex16 (groups ip))) with (text (groups ip)).
    change (join ":" (map hex16 (take s (groups ip)))) with (text (take s (groups ip))).
    change (join ":" (map hex16 (drop e (groups ip)))) with (text (drop e (groups ip))).
    destruct (_ =? _)%nat; [by apply plain_text|].
    destruct (plain_text _ (Forall_take _ s _ Hf)) as (_ & A1 & A2).
    destruct (plain_text _ (Forall_drop _ e _ Hf)) as (_ & B1 & B2).
    by rewrite !has_app, A1, A2, B1, B2.
Qed.

(** A printed target is split and parsed back to the same address and port. *)
Lemma target_roundtrip ip port :
  length ip = 4%nat ∨ length ip = 16%nat → fits 16 port →
  SplitHostPort (JoinHostPort (IP_String ip) (dec port)) = Ok (IP_String ip, dec port) ∧
  ParseIP (IP_String ip) = To16 ip ∧ scan_uint16 (dec port) = Some port.
Proof.
  intros Hl Hp. destruct (IP_String_no_bracket ip Hl) as [H1 H2].
  destruct (plain_has (dec port)) as (P0 & P1 & P2 & _); [apply plain_dec; apply Hp|].
  split_and!; [by apply SplitHostPort_JoinHostPort|by apply ParseIP_String|by apply scan_dec].
Qed.

(** ** What is parsed is well formed *)

Lemma v4_fields_length s val n f l : (length f ≤ 3)%nat → v4_fields s val n f = Some l → length l = 4%nat.
Proof.
  revert val n f. induction s as [|c s IH]; intros val n f Hf; cbn [v4_fields].
  - destruct (Nat.ltb_spec (length f) 3); [done|]. intros [= <-]. rewrite length_app. cbn. lia.
  - destruct (digit c) as [d|].
    + destruct (_ && _); [done|]. destruct (255 <? _); [done|]. by apply IH.
    + destruct (ascii_is c _); [|done]. destruct (_ || _); [done|].
      destruct (Nat.eqb_spec (length f) 3); [done|]. apply IH. rewrite length_app. cbn. lia.
Qed.

Lemma v6_loop_length fuel s ip e ip' e' s' :
  (length ip + 2 * fuel ≤ 16)%nat → v6_loop fuel s ip e = Some (ip', e', s') → (length ip' ≤ 16)%nat.
Proof.
  revert s ip e. induction fuel as [|fuel IH]; intros s ip e Hl; cbn [v6_loop]; [intros [= <- _ _]; lia|].
  destruct (hex_run 0 0 s) as [[[off acc] rest]|]; cbn [mbind option_bind]; [|done].
  destruct (off =? 0)%nat; [done|].
  assert (length (ip ++ be_put 2 acc) = length ip + 2)%nat as H2 by (rewrite length_app; done).
  destruct rest as [|c rest]; [intros E; assert (ip' = ip ++ be_put 2 acc) as -> by congruence; lia|].
  assert (∀ s e, v6_loop fuel s (ip ++ be_put 2 acc) e = Some (ip', e', s') → (length ip' ≤ 16)%nat) as Hrec.
  { intros s0 e0. apply IH. lia. }
  destruct c as [[] [] [] [] [] [] [] []]; try done.
  - destruct (_ && _); [done|]. destruct (Nat.ltb_spec 16 (length ip + 4)); [done|].
    destruct (v4_fields s 0 0 []) as [f|] eqn:Ef; cbn [mbind option_bind]; [|done].
    apply v4_fields_length in Ef; [|cbn; lia]. intros [= <- _ _]. rewrite length_app. lia.
  - destruct rest as [|c' rest]; [done|].
    destruct c' as [[] [] [] [] [] [] [] []]; try by apply Hrec.
    case_bool_decide; [|done].
    case_bool_decide; [intros E; assert (ip' = ip ++ be_put 2 acc) as -> by congruence; lia|apply Hrec].
Qed.

Lemma v6_finish_length ip e s l :
  (length ip ≤ 16)%nat → v6_finish (ip, e, s) = Some l → length l = 16%nat.
Proof.
  intros Hl. unfold v6_finish. destruct (negb _); [done|].
  destruct (Nat.ltb_spec (length ip) 16); destruct e as [e|]; try done; intros [= <-]; [|lia].
  rewrite !length_app, length_replicate, length_take, length_drop. lia.
Qed.

Lemma parseIPv6_length s l : parseIPv6 s = Some l → length l = 16%nat.
Proof.
  unfold parseIPv6. destruct (has _ s); [done|].
  assert (∀ s e, v6_loop 8 s [] e ≫= v6_finish = Some l → length l = 16%nat) as H.
  { intros s0 e (((ip & e') & s') & H1 & H2)%bind_Some. eapply v6_finish_length; [|exact H2].
    by eapply v6_loop_length; [|exact H1]. }
  destruct s as [|c s]; [apply H|]. destruct c as [[] [] [] [] [] [] [] []]; try apply H.
  destruct s as [|c s]; [apply H|]. destruct c as [[] [] [] [] [] [] [] []]; try apply H.
  destruct s as [|c s]; [by intros [= <-]|apply H].
Qed.

Lemma ParseAddr_length s a :
  ParseAddr s = Some a → match a with A4 b => length b = 4%nat | A6 b => length b = 16%nat end.
Proof.
  unfold ParseAddr. destruct (ascii_is _ _).
  - intros (b & Hb & ->)%fmap_Some. unfold parseIPv4 in Hb. apply v4_fields_length in Hb; [done|cbn; lia].
  - destruct (ascii_is _ _); [|done]. intros (b & Hb & ->)%fmap_Some. by apply parseIPv6_length in Hb.
Qed.

Lemma length_CIDRMask n bits : (n ≤ bits)%nat → (bits = 32%nat ∨ bits = 128%nat) →
  length (CIDRMask n bits) = (bits / 8)%nat.
Proof.
  intros Hn Hb. unfold CIDRMask. rewrite decide_True by tauto. apply length_mask_bytes.
Qed.

(** A network that is parsed is a prefix in canonical form, unless it is an IPv6 network
    inside the range of the IPv4-mapped addresses. *)
Lemma ParseCIDR_prefix_ok s ip n :
  ParseCIDR s = Some (ip, n) → length (IPNet_Mask n) = 4%nat ∨ To4 (IPNet_IP n) = None → prefix_ok n.
Proof.
  unfold ParseCIDR. destruct (cut _ s) as [[addr mask]|]; cbn [mbind option_bind]; [|done].
  destruct (ParseAddr addr) as [a|] eqn:Ea; cbn [mbind option_bind]; [|done].
  destruct (dtoi mask) as [m|]; cbn [mbind option_bind]; [|done].
  destruct (Z.ltb_spec (Z.of_nat (BitLen a)) m) as [|Hm]; [done|]. intros [= <- <-]. cbn [IPNet_IP IPNet_Mask].
  apply ParseAddr_length in Ea. assert (Z.to_nat m ≤ BitLen a)%nat as Hn by lia.
  set (k := Z.to_nat m) in *. intros H. exists k. cbn [IPNet_IP IPNet_Mask]. destruct a as [b|b]; cbn [BitLen As16] in *.
  - assert (length (CIDRMask k 32) = 4%nat) as H4 by (apply length_CIDRMask; auto).
    assert (length (IP_Mask (IPv4 b) (CIDRMask k 32)) = 4%nat) as Hl.
    { unfold IP_Mask. rewrite (decide_False (P := length _ = 16%nat ∧ _)) by (intros (? & _); lia).
      rewrite (decide_True (P := length _ = 4%nat ∧ _)).
      - unfold IPv4. rewrite drop_app_length', Ea, H4, decide_True by done. rewrite length_zip_with. lia.
      - rewrite length_IPv4, Ea. split_and!; [done|done|]. unfold IPv4. by rewrite take_app_length'. }
    by rewrite To4_short.
  - assert (length (CIDRMask k 128) = 16%nat) as H4 by (apply length_CIDRMask; auto).
    destruct H as [H|H]; [lia|]. rewrite H. split_and!; [done| |done].
    unfold IP_Mask. rewrite (decide_False (P := length _ = 16%nat ∧ _)) by (intros (_ & ? & _); lia).
    rewrite (decide_False (P := length _ = 4%nat ∧ _)) by (intros (? & _); lia).
    rewrite Ea, H4, decide_True by done. rewrite length_zip_with. lia.
Qed.
