(* ===== verification/Identity.v ===== *)
(** * Node identities ([identity/identity.go], [identity/keyfile.go],
    [identity/pinstore.go])

    A node identifier is the first 16 bytes of the SHA-256 of the node's Ed25519
    public key; it is printed in hexadecimal, and that text keys every map of the
    program that is indexed by node. *)

From S2P Require Import Prelude Bytes Crypto.
From stdpp Require Import options.

(** ** NodeID *)

Abbreviation NodeID := (array 16).

Definition NodeID_String (nid : NodeID) : string := hex_EncodeToString (bytes_of nid).

Definition NodeID_Equal (nid other : NodeID) : bool := bool_decide (nid = other).

Definition zeroID : NodeID := array_copy 16 [].
Definition IsZero (nid : NodeID) : bool := bool_decide (nid = zeroID).

Inductive id_error := HexError (e : hex_error) | BadIDLength.
#[export] Instance id_error_eq_dec : EqDecision id_error.
Proof. solve_decision. Defined.

Definition lift_hex {E A} (f : hex_error → E) (r : res hex_error A) : res E A :=
  match r with Ok a => Ok a | Err e => Err (f e) | Panic => Panic end.

Definition ParseNodeID (s : string) : res id_error NodeID :=
  b ← lift_hex HexError (hex_DecodeString s);
  guard_err (bool_decide (length b = 16%nat)) BadIDLength (Ok (array_copy 16 b)).

Lemma NodeID_Equal_eq a b : NodeID_Equal a b = true ↔ a = b.
Proof. apply bool_decide_eq_true. Qed.

#[export] Instance NodeID_String_inj : Inj (=) (=) NodeID_String.
Proof. intros a b E. apply array_eq. by apply (inj hex_EncodeToString). Qed.

Lemma ParseNodeID_String nid : ParseNodeID (NodeID_String nid) = Ok nid.
Proof.
  unfold ParseNodeID, NodeID_String. rewrite hex_decode_encode. simpl.
  unfold guard_err. rewrite bool_decide_true by apply length_array.
  by rewrite array_copy_bytes_of.
Qed.

(** Every string that parses has 32 characters, and its node prints as that string
    in lower case; two spellings of the same node parse alike. *)
Lemma ParseNodeID_length s nid : ParseNodeID s = Ok nid → String.length s = 32%nat.
Proof.
  assert (∀ s b, hex_DecodeString s = Ok b → String.length s = (2 * length b)%nat) as Hlen.
  { fix IH 1. intros [|p [|q r]] b; simpl; [by intros [= <-]|case_match; discriminate|].
    destruct (unhex p), (unhex q); try discriminate. intros H. res_inv. subst b.
    simpl. rewrite (IH _ _ H0). lia. }
  unfold ParseNodeID. intros H. res_inv. apply bool_decide_eq_true in Hg.
  destruct (hex_DecodeString s) as [b|e|] eqn:E; simplify_eq/=.
  rewrite (Hlen _ _ E), Hg. lia.
Qed.

(** ** Identities *)

Section identity.
Context `{C : Ed25519}.

Record Identity := mkIdentity {
  id_PubKey : list byte; id_PrivKey : list byte; id_ID : NodeID }.

Definition fromKeypair (pub priv : list byte) : Identity :=
  mkIdentity pub priv (array_copy 16 (take 16 (bytes_of (Sum256 pub)))).

(** [ed25519.NewKeyFromSeed] panics on a seed of the wrong size. *)
Definition FromSeed {E} (seed : list byte) : res E Identity :=
  if decide (length seed = 32%nat)
  then let priv := NewKeyFromSeed seed in Ok (fromKeypair (Public priv) priv) else Panic.

(** [New]: a fresh pair, made of 32 random bytes ([ed25519.GenerateKey] is [NewKeyFromSeed] of them), or the
    error of their source. *)
Definition New_identity {E} (random : res E (array 32)) : res E Identity :=
  seed ← random;
  let priv := NewKeyFromSeed (bytes_of seed) in
  Ok (fromKeypair (Public priv) priv).

Definition Identity_Sign (id : Identity) (msg : list byte) : list byte :=
  ed_Sign (id_PrivKey id) msg.
Definition Identity_Verify (id : Identity) (msg sig : list byte) : bool :=
  ed_Verify (id_PubKey id) msg sig.
Definition Identity_Seed (id : Identity) : list byte := Seed (id_PrivKey id).

(** ** The key file

    [os.ReadFile] has one of three outcomes; the second component of the result
    is the text passed to [os.WriteFile]. *)

Inductive read_result := NotExist | ReadFailed | FileData (data : string).
Inductive key_error :=
| ErrRead | ErrRand | ErrWrite | InvalidIdentityFile (e : hex_error) | InvalidSeedSize (n : nat).

(** [seed]: what [rand.Read] delivers, [None] when it fails; [write_ok]: whether
    [os.WriteFile] succeeds. *)
Definition createAndSave (rnd : option (array 32)) (write_ok : bool)
    : res key_error Identity * option string :=
  match rnd with
  | None => (Err ErrRand, None)
  | Some seed =>
      let id := FromSeed (bytes_of seed) in
      let encoded := hex_EncodeToString (bytes_of seed) in
      ((if write_ok then id else Err ErrWrite), Some encoded)
  end.

Definition LoadOrCreate (file : read_result) (rnd : option (array 32)) (write_ok : bool)
    : res key_error Identity * option string :=
  match file with
  | ReadFailed => (Err ErrRead, None)
  | NotExist => createAndSave rnd write_ok
  | FileData data =>
      ((seed ← lift_hex InvalidIdentityFile (hex_DecodeString data);
        guard_err (bool_decide (length seed = 32%nat)) (InvalidSeedSize (length seed))
          (FromSeed seed)), None)
  end.

Lemma length_fromKeypair pub priv : length (bytes_of (id_ID (fromKeypair pub priv))) = 16%nat.
Proof. apply length_array. Qed.
End identity.
Arguments read_result : clear implicits.
Arguments key_error : clear implicits.

(** ** Trust on first use ([identity/pinstore.go])

    [fp] is the hex SHA-256 of the certificate's public key, always 64 characters;
    [save_ok] says whether writing the store succeeds. *)

Inductive pin_error := ErrSave | PinMismatch (addr expected got : string).
#[export] Instance pin_error_eq_dec : EqDecision pin_error.
Proof. solve_decision. Defined.

(** The slice expression [s[:16]], which panics on a shorter string. *)
Definition prefix16 {E} (s : string) : res E string :=
  if decide (16 ≤ String.length s)%nat then Ok (String.substring 0 16 s) else Panic.

Record PinStore := mkPinStore { pins : gmap string string }.

Definition certSPKIHash `{Ed25519} (spki : list byte) : string :=
  hex_EncodeToString (bytes_of (Sum256 spki)).

Definition Check_pin (ps : PinStore) (addr fp : string) (save_ok : bool)
    : PinStore * res pin_error bool :=
  match pins ps !! addr with
  | None =>
      let ps' := mkPinStore (<[addr := fp]> (pins ps)) in
      (ps', if save_ok then Ok true else Err ErrSave)
  | Some stored =>
      (ps, if decide (stored ≠ fp)
           then s16 ← prefix16 stored; f16 ← prefix16 fp; Err (PinMismatch addr s16 f16)
           else Ok true)
  end.

(** Runs of [Check]: the addresses, fingerprints and outcomes of [save] in order. *)
Fixpoint check_all (ps : PinStore) (l : list (string * string * bool)) : PinStore :=
  match l with
  | [] => ps
  | (addr, fp, ok) :: l => check_all (fst (Check_pin ps addr fp ok)) l
  end.

Lemma Check_pin_keeps ps addr fp ok addr' fp' :
  pins ps !! addr' = Some fp' → pins (fst (Check_pin ps addr fp ok)) !! addr' = Some fp'.
Proof.
  intros H. unfold Check_pin. destruct (pins ps !! addr) eqn:E; simpl; [done|].
  rewrite lookup_insert_ne; [done|]. intros ->. by rewrite E in H.
Qed.

Lemma check_all_keeps l ps addr fp :
  pins ps !! addr = Some fp → pins (check_all ps l) !! addr = Some fp.
Proof.
  revert ps. induction l as [|[[a f] ok] l IH]; intros ps H; simpl; [done|].
  apply IH. by apply Check_pin_keeps.
Qed.

Lemma Check_pin_sets ps addr fp ok :
  ∃ fp', pins (fst (Check_pin ps addr fp ok)) !! addr = Some fp' ∧
         (pins ps !! addr = None → fp' = fp).
Proof.
  unfold Check_pin. destruct (pins ps !! addr) eqn:E; simpl.
  - by exists s.
  - exists fp. by rewrite lookup_insert_eq.
Qed.

Lemma Check_pin_trusted ps addr fp ok :
  snd (Check_pin ps addr fp ok) = Ok true → pins (fst (Check_pin ps addr fp ok)) !! addr = Some fp.
Proof.
  unfold Check_pin. destruct (pins ps !! addr) as [st|] eqn:E; simpl.
  - case_decide as Hd; [|intros _; rewrite E; f_equal; by destruct (decide (st = fp))].
    intros H. by res_inv.
  - intros _. by rewrite lookup_insert_eq.
Qed.

(** ** Properties *)

(** The text of a node identifier, which is what every map of the program is keyed
    by, determines the identifier: it parses back to it, no two identifiers share it, and
    nothing but 32 characters parses. *)
Lemma nodeid_text nid :
  ParseNodeID (NodeID_String nid) = Ok nid ∧ String.length (NodeID_String nid) = 32%nat ∧
  (∀ nid', NodeID_String nid' = NodeID_String nid → nid' = nid) ∧
  (∀ s, ParseNodeID s = Ok nid → String.length s = 32%nat).
Proof.
  split_and!.
  - apply ParseNodeID_String.
  - apply (ParseNodeID_length _ nid), ParseNodeID_String.
  - intros nid' H. by apply (inj NodeID_String).
  - intros s. apply ParseNodeID_length.
Qed.

(** C39: an identity survives restarts. The file written when a node first starts makes
    every later start return the same identity, and write nothing; this identity has the
    seed that was drawn and its signatures verify under its own public key. *)
Theorem identity_persists `{C : Ed25519, L : !Ed25519Laws C} (seed : array 32) :
  ∃ id text,
    LoadOrCreate NotExist (Some seed) true = (Ok id, Some text) ∧
    (∀ rnd write_ok, LoadOrCreate (FileData text) rnd write_ok = (Ok id, None)) ∧
    Identity_Seed id = bytes_of seed ∧
    ∀ msg, Identity_Verify id msg (Identity_Sign id msg) = true.
Proof.
  pose proof (length_array seed) as Hl.
  set (priv := NewKeyFromSeed (bytes_of seed)).
  exists (fromKeypair (Public priv) priv), (hex_EncodeToString (bytes_of seed)).
  assert (∀ E, FromSeed (E:=E) (bytes_of seed) = Ok (fromKeypair (Public priv) priv)) as Hf.
  { intros E. unfold FromSeed. by rewrite decide_True. }
  split_and!.
  - unfold LoadOrCreate, createAndSave. by rewrite Hf.
  - intros rnd w. unfold LoadOrCreate. rewrite hex_decode_encode. cbn [lift_hex mbind res_bind].
    unfold guard_err. by rewrite bool_decide_true, Hf.
  - by apply seed_new_key.
  - intros msg. by apply verify_sign.
Qed.

Lemma identity_persists_witness :
  ∃ id text,
    LoadOrCreate (C := toy_ed25519) NotExist (Some (array_copy 32 [x07])) true = (Ok id, Some text) ∧
    (∀ rnd write_ok, LoadOrCreate (C := toy_ed25519) (FileData text) rnd write_ok = (Ok id, None)) ∧
    Identity_Seed (C := toy_ed25519) id = bytes_of (array_copy 32 [x07]) ∧
    ∀ msg, Identity_Verify (C := toy_ed25519) id msg (Identity_Sign (C := toy_ed25519) id msg) = true.
Proof. apply (identity_persists (C := toy_ed25519) (L := toy_ed25519_laws)). Defined.

(** Trust on first use. Once a fingerprint has been accepted for an address, then
    whatever certificates are checked in between, for any address, exactly that
    fingerprint is accepted for it. *)
Lemma trust_on_first_use ps addr fp save_ok checks fp' save_ok' :
  snd (Check_pin ps addr fp save_ok) = Ok true →
  snd (Check_pin (check_all (fst (Check_pin ps addr fp save_ok)) checks) addr fp' save_ok') = Ok true
    ↔ fp' = fp.
Proof.
  intros H%Check_pin_trusted. apply (check_all_keeps checks) in H.
  set (ps' := check_all _ checks) in *. unfold Check_pin. rewrite H. simpl.
  case_decide as Hd; split; try done.
  intros Hr. by res_inv.
Qed.

Lemma trust_on_first_use_witness :
  snd (Check_pin (check_all (fst (Check_pin (mkPinStore ∅) "h:1" "aa" true)) [("h:2", "bb", true)])
         "h:1" "bb" true) = Ok true ↔ "bb" = "aa".
Proof. apply trust_on_first_use. reflexivity. Defined.
