(* ===== verification/Wire.v ===== *)
(** * Message types and signatures ([wire/header.go], [wire/sign.go]) *)

From S2P Require Import Prelude Bytes Crypto.
From stdpp Require Import options.

(** ** Message types ([wire/header.go]) *)

Definition MsgRouteUpdate : byte := x01.
Definition MsgRouteWithdraw : byte := x02.
Definition MsgGossipPush : byte := x03.
Definition MsgGossipPull : byte := x04.
Definition MsgGossipAck : byte := x05.
Definition MsgPing : byte := x06.
Definition MsgPong : byte := x07.
Definition MsgTCPForward : byte := x08.
Definition MsgTCPClose : byte := x09.
Definition MsgUDPForward : byte := x0a.
Definition MsgUDPSessionCreate : byte := x0b.
Definition MsgUDPSessionClose : byte := x0c.

Definition NodeIDSize : nat := 16.

(** The errors of the decoders of the [wire] package. *)
Inductive wire_error :=
| ErrTooShort
| ErrUnexpectedType (b : byte)
| ErrUnknownFamily (b : byte)
| ErrTruncatedPrefix
| ErrTruncatedAt (i : nat)
| ErrAddrTruncatedAt (i : nat)
| ErrPathTooLong (n : nat)
| ErrInvalidAddrLen (n : nat)
| ErrTruncatedAddress
| ErrNoSignature
| ErrBadSignature.

#[export] Instance wire_error_eq_dec : EqDecision wire_error.
Proof. solve_decision. Defined.

(** The value of a byte as a Go [int] used for a length. *)
Definition byte_int (b : byte) : nat := Z.to_nat (byte_val b).

Lemma byte_int_of n : (n < 256)%nat → byte_int (byte_of (Z.of_nat n)) = n.
Proof.
  intros. unfold byte_int. rewrite byte_val_of, wrap_small; [lia|].
  unfold fits. change (2 ^ 8) with 256. lia.
Qed.

Lemma byte_of_int b : byte_of (Z.of_nat (byte_int b)) = b.
Proof.
  unfold byte_int. pose proof (byte_val_fits b) as H. unfold fits in H.
  rewrite Z2Nat.id by lia. apply byte_of_val.
Qed.

(** [make] the message: what each decoder reads first. *)
Definition check_type (data : Slice) (t : byte) : res wire_error () :=
  b ← at_ data 0; guard_err (bool_decide (b = t)) (ErrUnexpectedType b) (Ok ()).

Lemma check_type_eq t l sp : check_type (mkSlice (t :: l) sp) t = Ok ().
Proof. unfold check_type, at_. simpl. unfold guard_err. by rewrite bool_decide_true. Qed.

Lemma check_type_inv data t u :
  check_type data t = Ok u → contents data = t :: drop 1 (contents data).
Proof.
  unfold check_type. intros H. apply res_bind_Ok in H as (b & Hb & H). res_inv.
  apply bool_decide_eq_true in Hg as ->. by apply at_inv in Hb.
Qed.

(** ** Signed messages ([wire/sign.go]) *)

Section sign.
Context `{C : Ed25519}.

Definition sigSize : nat := SignatureSize.

Definition SignMessage (msg priv : list byte) : list byte := msg ++ ed_Sign priv msg.

(** The message that is returned shares its backing array with [data]: the
    signature becomes its spare capacity. *)
Definition VerifyMessage (data : Slice) (pub : list byte) : res wire_error Slice :=
  let n := length (contents data) in
  guard_err (sigSize <=? n)%nat ErrNoSignature (
    msg ← upto data (n - sigSize);
    sig ← from data (n - sigSize);
    guard_err (ed_Verify pub (contents msg) (contents sig)) ErrBadSignature (Ok msg)).

Lemma VerifyMessage_split pub msg sig sp :
  length sig = sigSize →
  VerifyMessage (mkSlice (msg ++ sig) sp) pub =
    if ed_Verify pub msg sig then Ok (mkSlice msg (sig ++ sp)) else Err ErrBadSignature.
Proof.
  intros Hs. unfold VerifyMessage. cbv zeta. cbn [contents].
  rewrite length_app, Hs. unfold guard_err at 1.
  destruct (Nat.leb_spec sigSize (length msg + sigSize)) as [_|Hlt]; [|lia].
  replace (length msg + sigSize - sigSize)%nat with (length msg) by lia.
  unfold upto, from. cbn [contents spare].
  rewrite !decide_True by (rewrite ?length_app; lia). cbn [mbind res_bind contents].
  rewrite <- !app_assoc, take_app_length, !drop_app_length.
  done.
Qed.

(** What a successful verification says: the data is the message followed by a
    signature that verifies over exactly that message. *)
Lemma VerifyMessage_Ok data pub msg :
  VerifyMessage data pub = Ok msg →
  ∃ sig, contents data = contents msg ++ sig ∧ length sig = sigSize ∧
         ed_Verify pub (contents msg) sig = true.
Proof.
  intros H. unfold VerifyMessage in H. res_inv.
  apply Nat.leb_le in Hg. unfold upto, from in *.
  rewrite decide_True in H0 by lia. rewrite decide_True in H1 by lia.
  simplify_eq/=. exists (drop (length (contents data) - sigSize) (contents data)).
  cbn [contents] in *. rewrite take_app_le in * by lia.
  split; [by rewrite take_drop|]. split; [rewrite length_drop; lia|done].
Qed.

Lemma VerifyMessage_no_panic data pub : VerifyMessage data pub ≠ Panic.
Proof.
  unfold VerifyMessage, guard_err. cbv zeta.
  destruct (Nat.leb_spec sigSize (length (contents data))); [|done].
  unfold upto, from. rewrite !decide_True by lia. simpl. by destruct (ed_Verify _ _ _).
Qed.
End sign.

(** ** Properties *)

(** Signature checking accepts exactly the messages followed by 64 bytes that verify
    over the whole message under the key, and hands on the message without them: no bytes
    that are not signed reach the handlers. *)
Lemma VerifyMessage_exact `{C : Ed25519} l sp pub msg :
  VerifyMessage (mkSlice l sp) pub = Ok msg ↔
  ∃ sig, l = contents msg ++ sig ∧ length sig = sigSize ∧ spare msg = sig ++ sp ∧
         ed_Verify pub (contents msg) sig = true.
Proof.
  split.
  - intros H. pose proof (VerifyMessage_Ok _ _ _ H) as (sig & Hl & Hs & Hv). cbn [contents] in Hl.
    exists sig. split_and!; try done. subst l. rewrite VerifyMessage_split, Hv in H by done.
    by injection H as <-.
  - destruct msg as [m s]. cbn [contents spare]. intros (sig & -> & Hs & -> & Hv).
    by rewrite VerifyMessage_split, Hv.
Qed.

(** What a node signs with its key is accepted under its public key, unchanged. *)
Lemma sign_verify `{C : Ed25519, L : !Ed25519Laws C} seed msg sp :
  length seed = 32%nat →
  let priv := NewKeyFromSeed seed in
  option_map contents
    match VerifyMessage (mkSlice (SignMessage msg priv) sp) (Public priv) with
    | Ok m => Some m | _ => None end = Some msg.
Proof.
  intros Hs priv. unfold SignMessage.
  rewrite VerifyMessage_split by apply length_sign. unfold priv. by rewrite verify_sign.
Qed.
