(* ===== verification/WireRoute.v ===== *)
(** * Route advertisements on the wire ([wire/route.go]) *)

From S2P Require Import Prelude Bytes Net Crypto Wire.
From stdpp Require Import options.

Record RouteMessage := mkRouteMessage {
  rm_Flags : byte;
  rm_Prefix : IPNet;
  rm_Cost : Z;
  rm_Origin : array 16;
  rm_LocalPref : Z;
  rm_ASPath : list (array 16) }.

#[export] Instance RouteMessage_eq_dec : EqDecision RouteMessage.
Proof. solve_decision. Defined.

Definition RouteFlagUpdate : byte := x00.
Definition RouteFlagWithdraw : byte := x01.

Definition encode_prefix (n : IPNet) : list byte :=
  match To4 (IPNet_IP n) with
  | Some ip4 => x04 :: copy_to 4 ip4
  | None => x06 :: copy_to 16 (default [] (To16 (IPNet_IP n)))
  end.

Definition EncodeRouteMessage (msg : RouteMessage) : list byte :=
  MsgRouteUpdate :: rm_Flags msg :: byte_of (Z.of_nat (Mask_ones (IPNet_Mask (rm_Prefix msg)))) ::
  encode_prefix (rm_Prefix msg) ++
  be_put 4 (rm_Cost msg) ++
  bytes_of (rm_Origin msg) ++
  be_put 4 (rm_LocalPref msg) ++
  be_put 2 (Z.of_nat (length (rm_ASPath msg))) ++
  concat (map bytes_of (rm_ASPath msg)).

(** The [switch] on the address family: the prefix and the length of its address. *)
Definition decode_prefix (data : Slice) (off : nat) (family : byte) (ones : nat)
    : res wire_error (IPNet * nat) :=
  let len := length (contents data) in
  if bool_decide (family = x04) then
    guard_err (off + 4 <=? len)%nat ErrTruncatedPrefix (
      a ← at_ data off; b ← at_ data (off + 1); c ← at_ data (off + 2); d ← at_ data (off + 3);
      Ok (mkIPNet (IPv4 [a; b; c; d]) (CIDRMask ones 32), 4%nat))
  else if bool_decide (family = x06) then
    guard_err (off + 16 <=? len)%nat ErrTruncatedPrefix (
      ip ← sub data off (off + 16);
      Ok (mkIPNet (copy_to 16 ip) (CIDRMask ones 128), 16%nat))
  else Err (ErrUnknownFamily family).

(** The loop over the AS path: [n] entries are left, [i] is the index of the next. *)
Fixpoint decode_hops (data : Slice) (n i off : nat) : res wire_error (list (array 16)) :=
  match n with
  | O => Ok []
  | S n =>
      guard_err (off + NodeIDSize <=? length (contents data))%nat (ErrTruncatedAt i) (
        hop ← sub data off (off + NodeIDSize);
        rest ← decode_hops data n (S i) (off + NodeIDSize);
        Ok (array_copy 16 hop :: rest))
  end.

(** The fields after the prefix. [origin] is read with a slice expression, which may
    reach into the spare capacity; the integers are not. *)
Definition decode_rest (data : Slice) (flags : byte) (prefix : IPNet) (off : nat)
    : res wire_error RouteMessage :=
  cost ← uint_at 4 data off;
  let off := (off + 4)%nat in
  origin ← sub data off (off + 16);
  let off := (off + 16)%nat in
  localPref ← uint_at 4 data off;
  let off := (off + 4)%nat in
  asPathLen ← uint_at 2 data off;
  let off := (off + 2)%nat in
  let n := Z.to_nat asPathLen in
  guard_err (n <=? 32)%nat (ErrPathTooLong n) (
    asPath ← decode_hops data n 0 off;
    Ok (mkRouteMessage flags prefix cost (array_copy 16 origin) localPref asPath)).

Definition route_min_len : nat := 1 + 1 + 1 + 1 + 4 + 4 + 16 + 4 + 2.

Definition DecodeRouteMessage (data : Slice) : res wire_error RouteMessage :=
  guard_err (route_min_len <=? length (contents data))%nat ErrTooShort (
    _ ← check_type data MsgRouteUpdate;
    flags ← at_ data 1;
    ones ← at_ data 2;
    family ← at_ data 3;
    '(prefix, addrLen) ← decode_prefix data 4 family (byte_int ones);
    decode_rest data flags prefix (4 + addrLen)).

(** ** Round trip *)

Record route_msg_ok (m : RouteMessage) : Prop := {
  ok_prefix : prefix_ok (rm_Prefix m);
  ok_cost : fits 32 (rm_Cost m);
  ok_pref : fits 32 (rm_LocalPref m);
  ok_path : (length (rm_ASPath m) ≤ 32)%nat }.

(** The message with its prefix in 16-byte form, as [DecodeRouteMessage] builds it. *)
Definition route_norm (m : RouteMessage) : RouteMessage :=
  mkRouteMessage (rm_Flags m) (prefix_norm (rm_Prefix m)) (rm_Cost m) (rm_Origin m) (rm_LocalPref m) (rm_ASPath m).

Lemma decode_hops_encode data path i off tail :
  cursor data off (concat (map bytes_of path) ++ tail) →
  decode_hops data (length path) i off = Ok path.
Proof.
  revert i off. induction path as [|h path IH]; intros i off Hc; [done|].
  cbn [length decode_hops map concat]. cbn [map concat] in Hc. rewrite <- app_assoc in Hc.
  assert (off + NodeIDSize ≤ length (contents data))%nat as Hlen.
  { destruct Hc as [_ Hl]. rewrite length_app, length_array in Hl. unfold NodeIDSize. lia. }
  unfold guard_err. rewrite (proj2 (Nat.leb_le _ _) Hlen). unfold NodeIDSize in *.
  cursor_step. cbn [mbind res_bind].
  rewrite (IH _ _ Hc). cbn [mbind res_bind]. by rewrite array_copy_bytes_of.
Qed.

Lemma encode_prefix_length n : (4 < length (encode_prefix n))%nat.
Proof. unfold encode_prefix. case_match; simpl; rewrite length_copy_to; lia. Qed.

Lemma list_4 {A} (l : list A) : length l = 4%nat → ∃ a b c d, l = [a; b; c; d].
Proof. destruct l as [|? [|? [|? [|? [|? ?]]]]]; try discriminate. intros _. by repeat eexists. Qed.

Lemma decode_prefix_encode data n family rest tail ones :
  prefix_ok n → encode_prefix n = family :: rest →
  cursor data 4 (rest ++ tail) → ones = Mask_ones (IPNet_Mask n) →
  decode_prefix data 4 family ones = Ok (prefix_norm n, length rest).
Proof.
  intros [k Hk] He Hc ->. unfold encode_prefix in He. unfold decode_prefix. cbv zeta.
  unfold prefix_norm.
  destruct (To4 (IPNet_IP n)) as [ip4|] eqn:E4.
  - destruct Hk as [Hk ->]. pose proof (length_To4 _ _ E4) as Hl.
    rewrite copy_to_exact in He by done. injection He as <- <-.
    rewrite (To16_To4 _ _ E4), Mask_ones_CIDRMask by auto.
    destruct (list_4 _ Hl) as (a & b & c & d & ->). cbn [app] in Hc.
    rewrite bool_decide_true by done. unfold guard_err.
    destruct Hc as [Hd Hlen]. rewrite (proj2 (Nat.leb_le _ _)) by (simpl in Hlen; lia).
    assert (cursor data 4 (a :: b :: c :: d :: tail)) as Hc by done.
    cursor_step. cbn [mbind res_bind]. cursor_step. cbn [mbind res_bind].
    cursor_step. cbn [mbind res_bind]. cursor_step. done.
  - destruct Hk as (Hk & Hl & ->). assert (To16 (IPNet_IP n) = Some (IPNet_IP n)) as E16.
    { unfold To16. by rewrite Hl. }
    rewrite E16 in He |- *. simpl in He. rewrite copy_to_exact in He by done.
    injection He as <- <-. rewrite Mask_ones_CIDRMask by auto.
    rewrite bool_decide_false by done. rewrite bool_decide_true by done. unfold guard_err.
    rewrite (proj2 (Nat.leb_le _ _)) by (destruct Hc as [_ Hx]; rewrite length_app in Hx; lia).
    rewrite (cursor_sub data 4 _ _ 16 Hc Hl). cbn [mbind res_bind].
    by rewrite copy_to_exact, Hl.
Qed.

Lemma prefix_ones_byte n : prefix_ok n →
  byte_int (byte_of (Z.of_nat (Mask_ones (IPNet_Mask n)))) = Mask_ones (IPNet_Mask n).
Proof.
  intros [k Hk]. apply byte_int_of.
  destruct (To4 (IPNet_IP n)); [destruct Hk as [? ->]|destruct Hk as (? & _ & ->)];
    rewrite Mask_ones_CIDRMask by auto; lia.
Qed.

Lemma length_EncodeRouteMessage msg : (34 ≤ length (EncodeRouteMessage msg))%nat.
Proof.
  unfold EncodeRouteMessage. pose proof (encode_prefix_length (rm_Prefix msg)).
  cbn [length]. rewrite !length_app, !length_be_put, length_array. lia.
Qed.

Lemma decode_encode_route msg tail sp :
  route_msg_ok msg →
  DecodeRouteMessage (mkSlice (EncodeRouteMessage msg ++ tail) sp) = Ok (route_norm msg).
Proof.
  intros [Hpre Hcost Hpref Hpath]. set (data := mkSlice _ sp).
  assert (34 ≤ length (contents data))%nat as Hlen.
  { unfold data. cbn [contents]. rewrite length_app.
    pose proof (length_EncodeRouteMessage msg). lia. }
  unfold DecodeRouteMessage, decode_rest, guard_err. cbv zeta.
  change route_min_len with 34%nat. rewrite (proj2 (Nat.leb_le _ _) Hlen).
  assert (check_type data MsgRouteUpdate = Ok ()) as -> by done. cbn [mbind res_bind].
  destruct (encode_prefix (rm_Prefix msg)) as [|family rest] eqn:Epre.
  { pose proof (encode_prefix_length (rm_Prefix msg)). rewrite Epre in *. simpl in *. lia. }
  assert (cursor data 0 (contents data)) as Hc by done.
  unfold data at 2 in Hc. cbn [contents] in Hc. unfold EncodeRouteMessage in Hc.
  rewrite Epre in Hc. cbn [app] in Hc. rewrite <- !app_assoc in Hc.
  apply cursor_cons in Hc. change (0 + 1)%nat with 1%nat in Hc.
  cursor_step. cbn [mbind res_bind]. change (1 + 1)%nat with 2%nat in Hc.
  cursor_step. cbn [mbind res_bind]. change (2 + 1)%nat with 3%nat in Hc.
  cursor_step. cbn [mbind res_bind]. change (3 + 1)%nat with 4%nat in Hc.
  rewrite (decode_prefix_encode data _ _ _ _ _ Hpre Epre Hc (prefix_ones_byte _ Hpre)).
  apply (cursor_app _ _ _ _ (length rest)) in Hc; [|done]. cbn [mbind res_bind].
  cursor_step. cbn [mbind res_bind]. cursor_step. cbn [mbind res_bind].
  cursor_step. cbn [mbind res_bind]. cursor_step. cbn [mbind res_bind].
  rewrite !be_get_put_fits by
    first [exact Hcost | exact Hpref | unfold fits; change (2 ^ (8 * Z.of_nat 2)) with 65536; lia].
  rewrite Nat2Z.id. rewrite (proj2 (Nat.leb_le _ _) Hpath).
  rewrite (decode_hops_encode _ _ _ _ _ Hc). cbn [mbind res_bind].
  by rewrite array_copy_bytes_of.
Qed.

(** ** Panics and the spare capacity *)

Lemma guard_err_no_panic {E A} b (e : E) (k : res E A) :
  (b = true → k ≠ Panic) → guard_err b e k ≠ Panic.
Proof. destruct b; simpl; auto. Qed.

Lemma decode_hops_no_panic data n i off : decode_hops data n i off ≠ Panic.
Proof.
  revert i off. induction n as [|n IH]; intros i off; simpl; [done|].
  apply guard_err_no_panic. intros Hle. apply Nat.leb_le in Hle.
  rewrite sub_ok by lia. simpl.
  destruct (decode_hops data n (S i) (off + NodeIDSize)) eqn:E; try done. by apply IH in E.
Qed.

Lemma decode_hops_spare l sp sp' n i off :
  decode_hops (mkSlice l sp) n i off = decode_hops (mkSlice l sp') n i off.
Proof.
  revert i off. induction n as [|n IH]; intros i off; simpl; [done|].
  unfold guard_err. destruct (Nat.leb_spec (off + NodeIDSize) (length l)); [|done].
  rewrite !sub_ok by (simpl; lia). simpl. by rewrite IH.
Qed.

Lemma decode_prefix_no_panic data off family ones : decode_prefix data off family ones ≠ Panic.
Proof.
  unfold decode_prefix. cbv zeta. case_bool_decide; [|case_bool_decide; [|done]];
    apply guard_err_no_panic; intros Hle; apply Nat.leb_le in Hle.
  - destruct (at_ok (E:=wire_error) data off) as [? ->]; [lia|].
    destruct (at_ok (E:=wire_error) data (off + 1)) as [? ->]; [lia|].
    destruct (at_ok (E:=wire_error) data (off + 2)) as [? ->]; [lia|].
    by destruct (at_ok (E:=wire_error) data (off + 3)) as [? ->]; [lia|].
  - by rewrite sub_ok by lia.
Qed.

Lemma decode_prefix_spare l sp sp' off family ones :
  decode_prefix (mkSlice l sp) off family ones = decode_prefix (mkSlice l sp') off family ones.
Proof.
  unfold decode_prefix, guard_err. cbv zeta. cbn [contents].
  case_bool_decide; [done|]. case_bool_decide; [|done].
  destruct (Nat.leb_spec (off + 16) (length l)); [|done]. by rewrite !sub_ok by (simpl; lia).
Qed.

(** The length of the address is 4 or 16, by the family. *)
Lemma decode_prefix_len data off family ones pre n :
  decode_prefix data off family ones = Ok (pre, n) →
  (family = x04 ∧ n = 4%nat) ∨ (family = x06 ∧ n = 16%nat).
Proof.
  unfold decode_prefix. cbv zeta. intros H.
  case_bool_decide; [|case_bool_decide; [|done]]; res_inv; simplify_eq; auto.
Qed.

Lemma decode_rest_no_panic data flags pre off :
  (off + 26 ≤ length (contents data))%nat → decode_rest data flags pre off ≠ Panic.
Proof.
  intros Hl. unfold decode_rest. cbv zeta.
  destruct (uint_at_ok (E:=wire_error) 4 data off) as (? & -> & _); [lia|].
  rewrite sub_ok by lia. cbn [mbind res_bind].
  destruct (uint_at_ok (E:=wire_error) 4 data (off + 4 + 16)) as (? & -> & _); [lia|].
  cbn [mbind res_bind].
  destruct (uint_at_ok (E:=wire_error) 2 data (off + 4 + 16 + 4)) as (? & -> & _); [lia|].
  cbn [mbind res_bind]. apply guard_err_no_panic. intros _.
  destruct (decode_hops _ _ _ _) eqn:E; try done. by apply decode_hops_no_panic in E.
Qed.

Lemma decode_rest_panic data flags pre off :
  (length (contents data) < off + 26)%nat → decode_rest data flags pre off = Panic.
Proof.
  intros Hl. unfold decode_rest. cbv zeta.
  destruct (uint_at 4 data off) as [?|?|] eqn:E1; cbn [mbind res_bind];
    [|by apply uint_at_no_err in E1|done].
  destruct (sub data (off + 4) (off + 4 + 16)) as [?|?|] eqn:E2; cbn [mbind res_bind];
    [|by apply sub_no_err in E2|done].
  destruct (decide (length (contents data) < off + 24)%nat).
  - by rewrite (uint_at_panic 4) by lia.
  - destruct (uint_at_ok (E:=wire_error) 4 data (off + 4 + 16)) as (? & -> & _); [lia|].
    cbn [mbind res_bind]. by rewrite (uint_at_panic 2) by lia.
Qed.

Lemma decode_rest_spare l sp sp' flags pre off :
  decode_rest (mkSlice l sp) flags pre off = decode_rest (mkSlice l sp') flags pre off.
Proof.
  destruct (decide (length l < off + 26)%nat).
  { by rewrite !decode_rest_panic by (simpl; lia). }
  unfold decode_rest. cbv zeta. rewrite !(sub_ok (mkSlice l _)) by (simpl; lia).
  unfold uint_at. cbn [contents].
  repeat (case_decide; [|done]; cbn [mbind res_bind]).
  unfold guard_err. case_match; [|done]. by rewrite (decode_hops_spare l sp sp').
Qed.

(** ** Properties *)

(** C9: encoding a route message and decoding it gives the message back, with its
    prefix in 16-byte form, whatever follows the message in the buffer (such as a
    signature) and whatever the spare capacity of the buffer holds. *)
Theorem route_roundtrip msg tail sp :
  route_msg_ok msg →
  DecodeRouteMessage (mkSlice (EncodeRouteMessage msg ++ tail) sp) = Ok (route_norm msg).
Proof. apply decode_encode_route. Qed.

Definition example_route : RouteMessage :=
  mkRouteMessage RouteFlagUpdate
    (mkIPNet [x0a; x01; x00; x00] (CIDRMask 16 32)) 3 (array_copy 16 [x01; x02]) 100
    [array_copy 16 [x07]; array_copy 16 [x08; x09]].

Lemma example_route_ok : route_msg_ok example_route.
Proof.
  split; [|unfold fits; simpl; lia..]. exists 16%nat. vm_compute. split; [lia|done].
Qed.

Lemma route_roundtrip_witness :
  DecodeRouteMessage (mkSlice (EncodeRouteMessage example_route ++ [xff]) [xee]) =
  Ok (route_norm example_route).
Proof. apply (route_roundtrip example_route [xff] [xee]). exact example_route_ok. Defined.

(** The decoder panics exactly on the IPv6 advertisements of 34 to 45 bytes: the
    length check admits them, and the 12 bytes an IPv6 prefix has more than an IPv4
    one make a later read run past the end. Any peer can send such a message. *)
Lemma route_decode_panic_iff data :
  DecodeRouteMessage data = Panic ↔
  (34 ≤ length (contents data) < 46)%nat ∧
  contents data !! 0%nat = Some MsgRouteUpdate ∧ contents data !! 3%nat = Some x06.
Proof.
  unfold DecodeRouteMessage, guard_err, check_type. change route_min_len with 34%nat.
  destruct (Nat.leb_spec 34 (length (contents data))) as [Hl|Hl];
    [|split; [done|intros ((? & ?) & _); lia]].
  unfold at_.
  destruct (lookup_lt_is_Some_2 (contents data) 0) as [b0 ->]; [lia|].
  destruct (lookup_lt_is_Some_2 (contents data) 1) as [b1 ->]; [lia|].
  destruct (lookup_lt_is_Some_2 (contents data) 2) as [b2 ->]; [lia|].
  destruct (lookup_lt_is_Some_2 (contents data) 3) as [b3 ->]; [lia|].
  cbn [mbind res_bind]. unfold guard_err.
  case_bool_decide as Hb0; [|split; [done|intros (_ & [= ->] & _); done]].
  cbn [mbind res_bind].
  destruct (decode_prefix data 4 b3 (byte_int b2)) as [[pre n]|e|] eqn:Ep; cbn [mbind res_bind].
  - pose proof (decode_prefix_len _ _ _ _ _ _ Ep) as [[-> ->]|[-> ->]].
    + split; [|by intros (_ & _ & [=])]. intros H. by apply decode_rest_no_panic in H; [|lia].
    + split; [|intros ((_ & ?) & _); apply decode_rest_panic; lia].
      intros H. destruct (decide (46 ≤ length (contents data))%nat); [|split; [lia|by subst]].
      by apply decode_rest_no_panic in H; [|lia].
  - split; [done|]. intros ((? & ?) & _ & [= ->]).
    unfold decode_prefix in Ep. cbv zeta in Ep. rewrite bool_decide_false in Ep by done.
    rewrite bool_decide_true in Ep by done. unfold guard_err in Ep.
    rewrite (proj2 (Nat.leb_le _ _)) in Ep by lia. by rewrite sub_ok in Ep by lia.
  - by apply decode_prefix_no_panic in Ep.
Qed.

(** What is decoded depends on the bytes of the message alone: the slice
    expressions that could reach into the spare capacity of the receive buffer
    never make stale bytes visible. *)
Lemma route_decode_spare l sp sp' :
  DecodeRouteMessage (mkSlice l sp) = DecodeRouteMessage (mkSlice l sp').
Proof.
  unfold DecodeRouteMessage, check_type, at_, guard_err. cbn [contents].
  case_match; [|done].
  repeat (case_match; cbn [mbind res_bind]; try done).
  rewrite (decode_prefix_spare l sp sp').
  destruct (decode_prefix _ _ _ _) as [[pre n]|e|]; cbn [mbind res_bind]; [|done..].
  apply decode_rest_spare.
Qed.
