(* ===== verification/WireGossip.v ===== *)
(** * Gossip messages on the wire ([wire/gossip.go]) *)

From S2P Require Import Prelude Bytes Crypto Wire.
From stdpp Require Import options.

(** The peer states: a [uint8], of which four values are named. *)
Definition PeerAlive : byte := x00.
Definition PeerSuspect : byte := x01.
Definition PeerDead : byte := x02.
Definition PeerLeft : byte := x03.

Record PeerEntry := mkPeerEntry {
  pe_ID : array 16;
  pe_PubKey : array 32;
  pe_State : byte;
  pe_Version : Z;
  pe_Addr : list byte }.

#[export] Instance PeerEntry_eq_dec : EqDecision PeerEntry.
Proof. solve_decision. Defined.

Record GossipPushMessage := mkGossipPush { Peers : list PeerEntry }.

#[export] Instance GossipPushMessage_eq_dec : EqDecision GossipPushMessage.
Proof. solve_decision. Defined.

(** The length byte holds the length of the address modulo 256, but the whole
    address is copied. *)
Definition encode_peer (p : PeerEntry) : list byte :=
  bytes_of (pe_ID p) ++ bytes_of (pe_PubKey p) ++ [pe_State p] ++ be_put 8 (pe_Version p) ++
  [byte_of (Z.of_nat (length (pe_Addr p)))] ++ pe_Addr p.

Definition EncodeGossipPush (msg : GossipPushMessage) : list byte :=
  MsgGossipPush :: be_put 2 (Z.of_nat (length (Peers msg))) ++ concat (map encode_peer (Peers msg)).

(** The body of the loop: one entry and the offset after it. *)
Definition decode_peer (data : Slice) (i off : nat) : res wire_error (PeerEntry * nat) :=
  let len := length (contents data) in
  guard_err (off + NodeIDSize + 32 + 1 + 8 + 1 <=? len)%nat (ErrTruncatedAt i) (
    id ← sub data off (off + NodeIDSize);
    let off := (off + NodeIDSize)%nat in
    pk ← sub data off (off + 32);
    let off := (off + 32)%nat in
    st ← at_ data off;
    let off := (off + 1)%nat in
    v ← uint_at 8 data off;
    let off := (off + 8)%nat in
    n ← at_ data off;
    let off := (off + 1)%nat in
    let addrLen := byte_int n in
    guard_err (off + addrLen <=? len)%nat (ErrAddrTruncatedAt i) (
      addr ← sub data off (off + addrLen);
      Ok (mkPeerEntry (array_copy 16 id) (array_copy 32 pk) st v addr, off + addrLen)%nat)).

Fixpoint decode_peers (data : Slice) (n i off : nat) : res wire_error (list PeerEntry) :=
  match n with
  | O => Ok []
  | S n =>
      '(p, off) ← decode_peer data i off;
      rest ← decode_peers data n (S i) off;
      Ok (p :: rest)
  end.

Definition DecodeGossipPush (data : Slice) : res wire_error GossipPushMessage :=
  guard_err (3 <=? length (contents data))%nat ErrTooShort (
    _ ← check_type data MsgGossipPush;
    count ← uint_at 2 data 1;
    peers ← decode_peers data (Z.to_nat count) 0 3;
    Ok (mkGossipPush peers)).

Definition EncodeGossipPull : list byte := [MsgGossipPull].
Definition EncodeGossipAck : list byte := [MsgGossipAck].
Definition EncodePing : list byte := [MsgPing].
Definition EncodePong : list byte := [MsgPong].

(** ** Round trip *)

Definition peer_entry_ok (p : PeerEntry) : Prop :=
  fits 64 (pe_Version p) ∧ (length (pe_Addr p) < 256)%nat.

Definition gossip_push_ok (m : GossipPushMessage) : Prop :=
  Forall peer_entry_ok (Peers m) ∧ fits 16 (Z.of_nat (length (Peers m))).

Lemma length_encode_peer p : length (encode_peer p) = (58 + length (pe_Addr p))%nat.
Proof.
  unfold encode_peer. rewrite !length_app, !length_array, length_be_put. simpl. lia.
Qed.

Lemma decode_peer_encode data i off p tail :
  peer_entry_ok p → cursor data off (encode_peer p ++ tail) →
  ∃ off', decode_peer data i off = Ok (p, off') ∧ cursor data off' tail.
Proof.
  intros [Hv Ha] Hc. pose proof Hc as [_ Hl]. rewrite length_app, length_encode_peer in Hl.
  unfold decode_peer, guard_err, NodeIDSize. cbv zeta.
  rewrite (proj2 (Nat.leb_le _ (length (contents data)))) by lia.
  unfold encode_peer in Hc. rewrite <- !app_assoc in Hc. cbn [app] in Hc.
  cursor_step. cbn [mbind res_bind]. cursor_step. cbn [mbind res_bind].
  cursor_step. cbn [mbind res_bind]. cursor_step. cbn [mbind res_bind].
  cursor_step. cbn [mbind res_bind]. rewrite byte_int_of by done.
  rewrite (proj2 (Nat.leb_le _ (length (contents data))))
    by (destruct Hc as [_ Hc]; rewrite length_app in Hc; lia).
  cursor_step. cbn [mbind res_bind]. rewrite !array_copy_bytes_of, be_get_put_fits by done.
  eexists. split; [by destruct p|done].
Qed.

Lemma decode_peers_encode data ps i off tail :
  Forall peer_entry_ok ps → cursor data off (concat (map encode_peer ps) ++ tail) →
  decode_peers data (length ps) i off = Ok ps.
Proof.
  intros Hok. revert i off. induction Hok as [|p ps Hp Hps IH]; intros i off Hc; [done|].
  cbn [map concat] in Hc. rewrite <- app_assoc in Hc. cbn [length decode_peers].
  destruct (decode_peer_encode _ i _ _ _ Hp Hc) as (off' & -> & Hc'). cbn [mbind res_bind].
  by rewrite (IH _ _ Hc').
Qed.

(** ** No panics, no stale bytes *)

Lemma decode_peer_no_panic data i off : decode_peer data i off ≠ Panic.
Proof.
  unfold decode_peer, guard_err, NodeIDSize. cbv zeta.
  destruct (Nat.leb_spec (off + 16 + 32 + 1 + 8 + 1) (length (contents data))); [|done].
  rewrite !(sub_ok data) by lia. cbn [mbind res_bind].
  destruct (at_ok (E:=wire_error) data (off + 16 + 32)) as [? ->]; [lia|].
  destruct (uint_at_ok (E:=wire_error) 8 data (off + 16 + 32 + 1)) as (? & -> & _); [lia|].
  destruct (at_ok (E:=wire_error) data (off + 16 + 32 + 1 + 8)) as [b ->]; [lia|].
  cbn [mbind res_bind].
  destruct (Nat.leb_spec (off + 16 + 32 + 1 + 8 + 1 + byte_int b) (length (contents data))); [|done].
  by rewrite sub_ok by lia.
Qed.

Lemma decode_peer_spare l sp sp' i off :
  decode_peer (mkSlice l sp) i off = decode_peer (mkSlice l sp') i off.
Proof.
  unfold decode_peer, guard_err, NodeIDSize, at_, uint_at. cbv zeta. cbn [contents].
  destruct (Nat.leb_spec (off + 16 + 32 + 1 + 8 + 1) (length l)); [|done].
  rewrite !(sub_ok (mkSlice l _) off), !(sub_ok (mkSlice l _) (off + 16)) by (simpl; lia).
  cbn [mbind res_bind].
  repeat (case_match; cbn [mbind res_bind]; try done).
  rewrite !sub_ok; [done|..]; cbn [contents]; split; try lia; by apply Nat.leb_le.
Qed.

Lemma decode_peer_ok data i off p off' :
  decode_peer data i off = Ok (p, off') →
  peer_entry_ok p ∧ (off < off' ≤ length (contents data))%nat.
Proof.
  unfold decode_peer. cbv zeta. intros H. res_inv. simplify_eq.
  apply Nat.leb_le in Hg, Hg0. unfold NodeIDSize in *.
  rewrite sub_ok in H5 by lia. simplify_eq/=.
  unfold uint_at in H3. case_decide; simplify_eq. unfold peer_entry_ok. simpl.
  split; [split|lia].
  - set (l := take 8 _). replace 64 with (8 * Z.of_nat (length l)); [apply be_get_fits|].
    unfold l. rewrite take_drop_length by lia. done.
  - rewrite take_drop_length by lia. unfold byte_int.
    pose proof (byte_val_fits a3) as Hb. unfold fits in Hb. change (2 ^ 8) with 256 in Hb. lia.
Qed.

Lemma decode_peers_no_panic data n i off : decode_peers data n i off ≠ Panic.
Proof.
  revert i off. induction n as [|n IH]; intros i off; simpl; [done|].
  destruct (decode_peer data i off) as [[p off']|e|] eqn:E; simpl; [|done|].
  - destruct (decode_peers data n (S i) off') eqn:E'; simpl; try done. by apply IH in E'.
  - by apply decode_peer_no_panic in E.
Qed.

Lemma decode_peers_spare l sp sp' n i off :
  decode_peers (mkSlice l sp) n i off = decode_peers (mkSlice l sp') n i off.
Proof.
  revert i off. induction n as [|n IH]; intros i off; simpl; [done|].
  rewrite (decode_peer_spare l sp sp').
  destruct (decode_peer _ _ _) as [[p off']|e|]; simpl; [|done..]. by rewrite IH.
Qed.

Lemma decode_peers_ok data n i off ps :
  decode_peers data n i off = Ok ps → Forall peer_entry_ok ps ∧ length ps = n.
Proof.
  revert i off ps. induction n as [|n IH]; intros i off ps; simpl; [by intros [= <-]|].
  intros H. res_inv. destruct a as [p off']. res_inv. subst ps.
  apply decode_peer_ok in H0 as [Hp _]. destruct (IH _ _ _ H1) as [Hf Hl]. simpl. auto.
Qed.

(** ** Decoding inverts encoding *)

Lemma decode_peer_inv data i off p off' :
  decode_peer data i off = Ok (p, off') →
  drop off (contents data) = encode_peer p ++ drop off' (contents data).
Proof.
  unfold decode_peer. cbv zeta. intros H. res_inv. simplify_eq.
  apply Nat.leb_le in Hg, Hg0. unfold NodeIDSize in *.
  apply sub_inv in H0 as [E0 L0]; [|lia]. apply sub_inv in H1 as [E1 L1]; [|lia].
  apply at_inv in H2. apply uint_at_inv in H3 as [E3 F3]. apply at_inv in H4.
  apply sub_inv in H5 as [E5 L5]; [|lia].
  unfold encode_peer. simpl.
  rewrite L5, byte_of_int, !(copy_to_exact _ _ L0), !(copy_to_exact _ _ L1).
  rewrite E0, E1, H2, E3, H4, E5. by rewrite <- !app_assoc.
Qed.

Lemma decode_peers_inv data n i off ps :
  decode_peers data n i off = Ok ps →
  ∃ off', drop off (contents data) = concat (map encode_peer ps) ++ drop off' (contents data).
Proof.
  revert i off ps. induction n as [|n IH]; intros i off ps; simpl.
  { intros [= <-]. by exists off. }
  intros H. res_inv. destruct a as [p off']. res_inv. subst ps.
  apply decode_peer_inv in H0. destruct (IH _ _ _ H1) as [off'' E]. exists off''.
  simpl. by rewrite H0, E, <- app_assoc.
Qed.

Lemma decode_encode_gossip msg tail sp :
  gossip_push_ok msg →
  DecodeGossipPush (mkSlice (EncodeGossipPush msg ++ tail) sp) = Ok msg.
Proof.
  intros [Hok Hn]. set (data := mkSlice _ sp).
  assert (cursor data 0 (EncodeGossipPush msg ++ tail)) as Hc by done.
  unfold DecodeGossipPush, guard_err.
  rewrite (proj2 (Nat.leb_le 3 (length (contents data)))) by (simpl; lia).
  assert (check_type data MsgGossipPush = Ok ()) as -> by done. cbn [mbind res_bind].
  unfold EncodeGossipPush in Hc. cbn [app] in Hc. rewrite <- app_assoc in Hc.
  apply cursor_cons in Hc. change (0 + 1)%nat with 1%nat in Hc.
  cursor_step. cbn [mbind res_bind]. rewrite be_get_put_fits, Nat2Z.id by done.
  rewrite (decode_peers_encode _ _ _ _ _ Hok Hc). by destruct msg.
Qed.

Lemma DecodeGossipPush_no_panic data : DecodeGossipPush data ≠ Panic.
Proof.
  intros H. unfold DecodeGossipPush, guard_err in H.
  destruct (Nat.leb_spec 3 (length (contents data))); [|done].
  unfold check_type in H. destruct (at_ok (E:=wire_error) data 0) as [b Hb]; [lia|].
  rewrite Hb in H. cbn [mbind res_bind] in H. unfold guard_err in H.
  destruct (bool_decide _); [|done]. cbn [mbind res_bind] in H.
  destruct (uint_at_ok (E:=wire_error) 2 data 1) as (z & Hz & _); [lia|].
  rewrite Hz in H. cbn [mbind res_bind] in H.
  destruct (decode_peers data (Z.to_nat z) 0 3) eqn:E; try done.
  by apply decode_peers_no_panic in E.
Qed.

(** ** Properties *)

(** A gossip push whose addresses are shorter than 256 bytes and that has fewer
    than 65536 entries is decoded to itself, whatever follows it in the buffer. *)
Lemma gossip_roundtrip msg tail sp :
  gossip_push_ok msg →
  DecodeGossipPush (mkSlice (EncodeGossipPush msg ++ tail) sp) = Ok msg.
Proof. apply decode_encode_gossip. Qed.

Definition example_entry : PeerEntry :=
  mkPeerEntry (array_copy 16 [x01]) (array_copy 32 [x02]) PeerSuspect 7 [x61; x3a; x31].

Lemma gossip_roundtrip_witness :
  DecodeGossipPush
    (mkSlice (EncodeGossipPush (mkGossipPush [example_entry; example_entry]) ++ [x00]) [x01])
  = Ok (mkGossipPush [example_entry; example_entry]).
Proof.
  apply gossip_roundtrip. split; [|unfold fits; simpl; lia].
  repeat constructor; unfold fits; simpl; lia.
Defined.

(** The decoder never panics, does not look past the message, and every message
    it accepts is the encoding of its result followed by bytes it ignores. *)
Lemma gossip_decode_sound l sp :
  match DecodeGossipPush (mkSlice l sp) with
  | Ok m => gossip_push_ok m ∧ ∃ tail, l = EncodeGossipPush m ++ tail
  | Err _ => ∀ sp', DecodeGossipPush (mkSlice l sp') = DecodeGossipPush (mkSlice l sp)
  | Panic => False
  end.
Proof.
  set (data := mkSlice l sp). destruct (DecodeGossipPush data) as [m|e|] eqn:H.
  - unfold DecodeGossipPush in H. res_inv. subst m. apply check_type_inv in H0.
    apply uint_at_inv in H1 as [E1 F1]. pose proof (decode_peers_ok _ _ _ _ _ H2) as [Hok Hn].
    destruct (decode_peers_inv _ _ _ _ _ H2) as [off' E2].
    unfold fits in F1. split; [split; [done|]|].
    + simpl. rewrite Hn, Z2Nat.id by lia. done.
    + exists (drop off' l). unfold EncodeGossipPush. simpl Peers. rewrite Hn, Z2Nat.id by lia.
      change l with (contents data) at 1. rewrite H0, E1.
      change (1 + 2)%nat with 3%nat. rewrite E2. cbn [app]. by rewrite <- app_assoc.
  - intros sp'. rewrite <- H. unfold data, DecodeGossipPush, guard_err. cbn [contents].
    destruct (3 <=? length l)%nat; [|done]. unfold check_type, at_, uint_at. cbn [contents].
    repeat (case_match; cbn [mbind res_bind]; try done).
    by rewrite (decode_peers_spare l sp' sp).
  - by apply DecodeGossipPush_no_panic in H.
Qed.

(** The length byte of an address wraps: an address of [n] bytes comes back as
    its first [n mod 256] bytes, without an error. *)
Lemma gossip_addr_wraps p :
  fits 64 (pe_Version p) →
  DecodeGossipPush (whole (EncodeGossipPush (mkGossipPush [p]))) =
  Ok (mkGossipPush [mkPeerEntry (pe_ID p) (pe_PubKey p) (pe_State p) (pe_Version p)
                      (take (length (pe_Addr p) mod 256) (pe_Addr p))]).
Proof.
  intros Hv. unfold whole. set (n := (length (pe_Addr p) mod 256)%nat).
  set (q := mkPeerEntry _ _ _ _ (take n (pe_Addr p))).
  assert (n < 256 ∧ n ≤ length (pe_Addr p))%nat as [Hn Hle].
  { unfold n. split; [by apply Nat.mod_upper_bound|by apply Nat.Div0.mod_le]. }
  assert (length (pe_Addr q) = n) as Hq by (simpl; rewrite length_take; lia).
  assert (encode_peer p = encode_peer q ++ drop n (pe_Addr p)) as E.
  { unfold encode_peer. rewrite Hq. simpl. rewrite <- !app_assoc. cbn [app].
    rewrite take_drop.
    replace (byte_of (Z.of_nat (length (pe_Addr p)))) with (byte_of (Z.of_nat n)); [done|].
    apply byte_val_inj. rewrite !byte_val_of. unfold wrap, n. change (2 ^ 8) with (Z.of_nat 256).
    rewrite Nat2Z.inj_mod, Z.mod_mod; done. }
  assert (EncodeGossipPush (mkGossipPush [p]) =
          EncodeGossipPush (mkGossipPush [q]) ++ drop n (pe_Addr p)) as ->.
  { unfold EncodeGossipPush. simpl. by rewrite E, <- !app_assoc, !app_nil_r. }
  apply decode_encode_gossip. split; [|unfold fits; simpl; lia].
  apply Forall_singleton. split; [done|lia].
Qed.
