(* ===== verification/WireForward.v ===== *)
(** * Forwarding headers on the wire ([wire/forward_tcp.go], [wire/forward_udp.go]) *)

From S2P Require Import Prelude Bytes Net Crypto Wire.
From stdpp Require Import options.

(** ** Target addresses

    Both headers carry an address as a length byte, 4 or 16, and that many bytes. *)

Definition addr_bytes (ip : list byte) : list byte :=
  match To4 ip with
  | Some ip4 => copy_to 4 ip4
  | None => copy_to 16 (default [] (To16 ip))
  end.

Definition addr_len (ip : list byte) : nat := match To4 ip with Some _ => 4 | None => 16 end.

Lemma length_addr_bytes ip : length (addr_bytes ip) = addr_len ip.
Proof. unfold addr_bytes, addr_len. case_match; apply length_copy_to. Qed.
#[export] Hint Rewrite length_addr_bytes : go.

Lemma addr_len_cases ip : addr_len ip = 4%nat ∨ addr_len ip = 16%nat.
Proof. unfold addr_len. case_match; auto. Qed.

Lemma addr_bytes_To4 ip ip4 : To4 ip = Some ip4 → addr_bytes ip = ip4.
Proof. intros E. unfold addr_bytes. rewrite E. by apply copy_to_exact, (length_To4 ip). Qed.

Lemma addr_bytes_v6 ip : To4 ip = None → length ip = 16%nat → addr_bytes ip = ip.
Proof.
  intros E Hl. unfold addr_bytes, To16. rewrite E, Hl. simpl. by apply copy_to_exact.
Qed.

(** An address of 4 or 16 bytes names the same host after the round trip. *)
Lemma addr_bytes_equal ip :
  length ip = 4%nat ∨ length ip = 16%nat → IP_Equal (addr_bytes ip) ip = true.
Proof.
  intros Hl. unfold IP_Equal. destruct (To4 ip) as [ip4|] eqn:E.
  - rewrite (addr_bytes_To4 _ _ E). pose proof (length_To4 _ _ E) as H4. rewrite H4.
    unfold To4 in E. destruct (decide (length ip = 4%nat)) as [Hi|Hi].
    + rewrite Hi. simplify_eq. simpl. by apply bool_decide_true.
    + destruct Hl as [|Hl]; [done|]. destruct (decide _) as [[_ Ht]|]; [|done].
      simplify_eq. rewrite Hl. simpl. by apply bool_decide_true.
  - destruct Hl as [Hl|Hl]; [by rewrite To4_short in E|].
    rewrite addr_bytes_v6, Hl by done. simpl. by apply bool_decide_true.
Qed.

(** ** TCP ([wire/forward_tcp.go]) *)

Record TCPForwardHeader := mkTCPForwardHeader {
  tf_Flags : byte; tf_StreamID : Z; tf_TargetAddr : list byte; tf_TargetPort : Z }.

#[export] Instance TCPForwardHeader_eq_dec : EqDecision TCPForwardHeader.
Proof. solve_decision. Defined.

Definition TCPFlagNewStream : byte := x01.
Definition TCPFlagData : byte := x00.

Definition EncodeTCPForwardHeader (hdr : TCPForwardHeader) : list byte :=
  MsgTCPForward :: tf_Flags hdr :: be_put 4 (tf_StreamID hdr) ++
  byte_of (Z.of_nat (addr_len (tf_TargetAddr hdr))) ::
  addr_bytes (tf_TargetAddr hdr) ++ be_put 2 (tf_TargetPort hdr).

(** The header and the number of bytes it takes. *)
Definition DecodeTCPForwardHeader (data : Slice) : res wire_error (TCPForwardHeader * nat) :=
  let len := length (contents data) in
  guard_err (1 + 1 + 4 + 1 + 4 + 2 <=? len)%nat ErrTooShort (
    _ ← check_type data MsgTCPForward;
    flags ← at_ data 1;
    streamID ← uint_at 4 data 2;
    l ← at_ data 6;
    let addrLen := byte_int l in
    guard_err ((addrLen =? 4) || (addrLen =? 16))%nat (ErrInvalidAddrLen addrLen) (
      guard_err (7 + addrLen + 2 <=? len)%nat ErrTruncatedAddress (
        addr ← sub data 7 (7 + addrLen);
        let off := (7 + addrLen)%nat in
        port ← uint_at 2 data off;
        Ok (mkTCPForwardHeader flags streamID (copy_to addrLen addr) port, off + 2)%nat))).

Definition EncodeTCPClose (streamID : Z) : list byte := MsgTCPClose :: be_put 4 streamID.

(** The type byte is not looked at. *)
Definition DecodeTCPClose (data : Slice) : res wire_error Z :=
  guard_err (5 <=? length (contents data))%nat ErrTooShort (uint_at 4 data 1).

(** ** UDP ([wire/forward_udp.go]) *)

Record UDPForwardHeader := mkUDPForwardHeader { uf_SessionID : Z }.

#[export] Instance UDPForwardHeader_eq_dec : EqDecision UDPForwardHeader.
Proof. solve_decision. Defined.

Definition EncodeUDPForward (sessionID : Z) (payload : list byte) : list byte :=
  MsgUDPForward :: be_put 4 sessionID ++ payload.

Definition DecodeUDPForward (data : Slice) : res wire_error (UDPForwardHeader * list byte) :=
  guard_err (5 <=? length (contents data))%nat ErrTooShort (
    _ ← check_type data MsgUDPForward;
    id ← sub data 1 5;
    payload ← from data 5;
    Ok (mkUDPForwardHeader (be_get id), contents payload)).

Record UDPSessionCreateMessage := mkUDPSessionCreate {
  usc_RequestID : Z; usc_TargetAddr : list byte; usc_TargetPort : Z }.

#[export] Instance UDPSessionCreateMessage_eq_dec : EqDecision UDPSessionCreateMessage.
Proof. solve_decision. Defined.

Definition EncodeUDPSessionCreate (msg : UDPSessionCreateMessage) : list byte :=
  MsgUDPSessionCreate :: be_put 4 (usc_RequestID msg) ++
  byte_of (Z.of_nat (addr_len (usc_TargetAddr msg))) ::
  addr_bytes (usc_TargetAddr msg) ++ be_put 2 (usc_TargetPort msg).

Definition DecodeUDPSessionCreate (data : Slice) : res wire_error UDPSessionCreateMessage :=
  guard_err (1 + 4 + 1 + 4 + 2 <=? length (contents data))%nat ErrTooShort (
    _ ← check_type data MsgUDPSessionCreate;
    requestID ← uint_at 4 data 1;
    l ← at_ data 5;
    let addrLen := byte_int l in
    guard_err ((addrLen =? 4) || (addrLen =? 16))%nat (ErrInvalidAddrLen addrLen) (
      addr ← sub data 6 (6 + addrLen);
      port ← uint_at 2 data (6 + addrLen);
      Ok (mkUDPSessionCreate requestID (copy_to addrLen addr) port))).

Record UDPSessionCreateAck := mkUDPSessionCreateAck { usa_RequestID : Z; usa_SessionID : Z }.

Definition EncodeUDPSessionCreateAck (msg : UDPSessionCreateAck) : list byte :=
  MsgUDPSessionCreate :: be_put 4 (usa_RequestID msg) ++ be_put 4 (usa_SessionID msg).

Definition EncodeUDPSessionClose (sessionID : Z) : list byte :=
  MsgUDPSessionClose :: be_put 4 sessionID.

Definition DecodeUDPSessionClose (data : Slice) : res wire_error Z :=
  guard_err (5 <=? length (contents data))%nat ErrTooShort (uint_at 4 data 1).

(** ** Lemmas *)

Lemma byte_int_addr_len ip : byte_int (byte_of (Z.of_nat (addr_len ip))) = addr_len ip.
Proof. apply byte_int_of. destruct (addr_len_cases ip); lia. Qed.

Lemma addr_len_test ip : ((addr_len ip =? 4) || (addr_len ip =? 16))%nat = true.
Proof. destruct (addr_len_cases ip) as [-> | ->]; done. Qed.

Lemma length_EncodeTCPForwardHeader hdr :
  length (EncodeTCPForwardHeader hdr) = (9 + addr_len (tf_TargetAddr hdr))%nat.
Proof.
  unfold EncodeTCPForwardHeader. cbn [length].
  rewrite length_app, length_be_put. cbn [length].
  rewrite length_app, length_be_put, length_addr_bytes. lia.
Qed.

Lemma decode_encode_tcp hdr payload sp :
  fits 32 (tf_StreamID hdr) → fits 16 (tf_TargetPort hdr) →
  DecodeTCPForwardHeader (mkSlice (EncodeTCPForwardHeader hdr ++ payload) sp) =
  Ok (mkTCPForwardHeader (tf_Flags hdr) (tf_StreamID hdr) (addr_bytes (tf_TargetAddr hdr))
        (tf_TargetPort hdr), length (EncodeTCPForwardHeader hdr)).
Proof.
  intros Hs Hp. set (data := mkSlice _ sp). rewrite length_EncodeTCPForwardHeader.
  assert (length (contents data) = 9 + addr_len (tf_TargetAddr hdr) + length payload)%nat as Hl.
  { unfold data. cbn [contents]. by rewrite length_app, length_EncodeTCPForwardHeader. }
  assert (cursor data 0 (EncodeTCPForwardHeader hdr ++ payload)) as Hc by done.
  unfold EncodeTCPForwardHeader in Hc. cbn [app] in Hc. rewrite <- app_assoc in Hc.
  cbn [app] in Hc. rewrite <- app_assoc in Hc.
  pose proof (addr_len_cases (tf_TargetAddr hdr)) as Hcases.
  unfold DecodeTCPForwardHeader, guard_err. cbv zeta.
  rewrite (proj2 (Nat.leb_le _ (length (contents data)))) by lia.
  assert (check_type data MsgTCPForward = Ok ()) as -> by done. cbn [mbind res_bind].
  apply cursor_cons in Hc. change (0 + 1)%nat with 1%nat in Hc.
  cursor_step. cbn [mbind res_bind]. change (1 + 1)%nat with 2%nat in Hc.
  cursor_step. cbn [mbind res_bind]. change (2 + 4)%nat with 6%nat in Hc.
  cursor_step. cbn [mbind res_bind]. change (6 + 1)%nat with 7%nat in Hc.
  rewrite byte_int_addr_len, addr_len_test.
  rewrite (proj2 (Nat.leb_le _ (length (contents data)))) by lia.
  cursor_step. cbn [mbind res_bind]. cursor_step. cbn [mbind res_bind].
  rewrite !be_get_put_fits by done. rewrite copy_to_exact by apply length_addr_bytes.
  do 2 f_equal. lia.
Qed.

Lemma decode_encode_udp id payload sp :
  fits 32 id →
  DecodeUDPForward (mkSlice (EncodeUDPForward id payload) sp) = Ok (mkUDPForwardHeader id, payload).
Proof.
  intros Hid. set (data := mkSlice _ sp).
  assert (length (contents data) = 5 + length payload)%nat as Hl.
  { unfold data, EncodeUDPForward. cbn [contents length].
    rewrite length_app, length_be_put. lia. }
  assert (cursor data 0 (EncodeUDPForward id payload)) as Hc by done.
  unfold DecodeUDPForward, guard_err.
  rewrite (proj2 (Nat.leb_le _ (length (contents data)))) by lia.
  assert (check_type data MsgUDPForward = Ok ()) as -> by done. cbn [mbind res_bind].
  apply cursor_cons in Hc. change (0 + 1)%nat with 1%nat in Hc.
  change 5%nat with (1 + 4)%nat. cursor_step. cbn [mbind res_bind].
  unfold from. rewrite decide_True by (simpl; lia). cbn [mbind res_bind contents].
  destruct Hc as [-> _]. by rewrite be_get_put_fits.
Qed.

(** A decoded datagram is the encoding of what was decoded. *)
Lemma DecodeUDPForward_inv data hdr payload :
  DecodeUDPForward data = Ok (hdr, payload) →
  fits 32 (uf_SessionID hdr) ∧ contents data = EncodeUDPForward (uf_SessionID hdr) payload.
Proof.
  unfold DecodeUDPForward. intros H. res_inv. apply Nat.leb_le in Hg.
  subst hdr payload.
  apply check_type_inv in H0. apply (sub_inv data 1 4) in H1 as [E1 L1]; [|lia].
  unfold from in H2. rewrite decide_True in H2 by lia. injection H2 as <-. cbn [contents].
  pose proof (be_get_fits a0) as F. rewrite L1 in F. split; [exact F|].
  pose proof (be_put_get a0) as P. rewrite L1 in P.
  unfold EncodeUDPForward. cbn [uf_SessionID]. rewrite P. rewrite H0 at 1. f_equal. exact E1.
Qed.

Lemma DecodeUDPForward_no_panic data : DecodeUDPForward data ≠ Panic.
Proof.
  unfold DecodeUDPForward, guard_err. destruct (Nat.leb_spec 5 (length (contents data))); [|done].
  unfold check_type. destruct (at_ok (E:=wire_error) data 0) as [b ->]; [lia|].
  cbn [mbind res_bind]. unfold guard_err. case_bool_decide; [|done]. cbn [mbind res_bind].
  rewrite sub_ok by lia. unfold from. cbn [mbind res_bind]. by rewrite decide_True by lia.
Qed.

(** ** Properties *)

(** A TCP forward header is decoded to itself with its address in shortest form,
    which names the same host, and the number of bytes consumed is the length of the
    header: exactly the payload that came in the same read is left over. *)
Lemma tcp_header_roundtrip hdr payload sp :
  fits 32 (tf_StreamID hdr) → fits 16 (tf_TargetPort hdr) →
  length (tf_TargetAddr hdr) = 4%nat ∨ length (tf_TargetAddr hdr) = 16%nat →
  ∃ addr n,
    DecodeTCPForwardHeader (mkSlice (EncodeTCPForwardHeader hdr ++ payload) sp) =
      Ok (mkTCPForwardHeader (tf_Flags hdr) (tf_StreamID hdr) addr (tf_TargetPort hdr), n) ∧
    IP_Equal addr (tf_TargetAddr hdr) = true ∧
    drop n (EncodeTCPForwardHeader hdr ++ payload) = payload.
Proof.
  intros Hs Hp Ha. eexists _, _. split; [by apply decode_encode_tcp|].
  split; [by apply addr_bytes_equal|]. apply drop_app_length.
Qed.

Lemma tcp_header_roundtrip_witness :
  let hdr := mkTCPForwardHeader TCPFlagNewStream 1 (IPv4 [x0a; x00; x00; x01]) 8080 in
  ∃ addr n,
    DecodeTCPForwardHeader (mkSlice (EncodeTCPForwardHeader hdr ++ [x47; x45]) []) =
      Ok (mkTCPForwardHeader TCPFlagNewStream 1 addr 8080, n) ∧
    IP_Equal addr (IPv4 [x0a; x00; x00; x01]) = true ∧
    drop n (EncodeTCPForwardHeader hdr ++ [x47; x45]) = [x47; x45].
Proof.
  intros hdr. apply (tcp_header_roundtrip hdr [x47; x45] []);
    [unfold fits; simpl; lia..|right; reflexivity].
Defined.

(** Unwrapping a datagram is exactly the inverse of wrapping it: the bytes decoded
    to a session identifier and a payload are those, and only those, that wrap this
    payload for this session. *)
Lemma udp_forward_exact l sp id payload :
  DecodeUDPForward (mkSlice l sp) = Ok (mkUDPForwardHeader id, payload) ↔
  fits 32 id ∧ l = EncodeUDPForward id payload.
Proof.
  split; [intros H%DecodeUDPForward_inv; exact H|]. intros [Hid ->]. by apply decode_encode_udp.
Qed.

(** The decoder of session-create messages lacks the check its TCP counterpart
    makes: it panics exactly on the messages of 12 to 23 bytes that announce a
    16-byte address. *)
Lemma udp_session_create_panic_iff data :
  DecodeUDPSessionCreate data = Panic ↔
  (12 ≤ length (contents data) < 24)%nat ∧
  contents data !! 0%nat = Some MsgUDPSessionCreate ∧ contents data !! 5%nat = Some x10.
Proof.
  unfold DecodeUDPSessionCreate, check_type, guard_err. change (1 + 4 + 1 + 4 + 2)%nat with 12%nat.
  destruct (Nat.leb_spec 12 (length (contents data))) as [Hl|Hl];
    [|split; [done|intros ((? & ?) & _); lia]].
  unfold at_.
  destruct (lookup_lt_is_Some_2 (contents data) 0) as [b0 ->]; [lia|].
  destruct (lookup_lt_is_Some_2 (contents data) 5) as [b5 ->]; [lia|].
  destruct (uint_at_ok (E:=wire_error) 4 data 1) as (rid & -> & _); [lia|].
  cbn [mbind res_bind].
  case_bool_decide as Hb0; [|split; [done|intros (_ & [= ->] & _); done]].
  cbn [mbind res_bind].
  destruct ((byte_int b5 =? 4) || (byte_int b5 =? 16))%nat eqn:Hlen.
  - apply orb_true_iff in Hlen as [H4|H16].
    + apply Nat.eqb_eq in H4. rewrite H4, sub_ok by lia. cbn [mbind res_bind].
      destruct (uint_at_ok (E:=wire_error) 2 data (6 + 4)) as (p & -> & _); [lia|].
      split; [done|]. by intros (_ & _ & [= ->]).
    + apply Nat.eqb_eq in H16. rewrite H16.
      assert (b5 = x10) as -> by (apply byte_val_inj; unfold byte_int in H16;
        pose proof (byte_val_fits b5) as Hf; unfold fits in Hf; change (byte_val x10) with 16; lia).
      destruct (decide (24 ≤ length (contents data))%nat).
      * rewrite sub_ok by lia. cbn [mbind res_bind].
        destruct (uint_at_ok (E:=wire_error) 2 data (6 + 16)) as (p & -> & _); [lia|].
        split; [done|intros ((? & ?) & _); lia].
      * split; [intros _; subst; auto with lia|intros _].
        destruct (sub data 6 (6 + 16)) as [?|?|] eqn:E; cbn [mbind res_bind];
          [|by apply sub_no_err in E|done].
        by rewrite (uint_at_panic 2) by lia.
  - split; [done|]. by intros (_ & _ & [= ->]).
Qed.
