(* ===== verification/RoutePath.v ===== *)
(** * AS paths ([route/path.go])

    The list of node identifiers an advertisement went through, most recent first. *)

From S2P Require Import Prelude Bytes Crypto Identity.
From stdpp Require Import options.

Record ASPath := mkASPath { Hops : list NodeID }.

#[export] Instance ASPath_eq_dec : EqDecision ASPath.
Proof. solve_decision. Defined.

Definition NewASPath : ASPath := mkASPath [].

(** [AddHop] mutates its receiver: the result is the receiver afterwards. *)
Definition AddHop (p : ASPath) (id : NodeID) : ASPath := mkASPath (id :: Hops p).

Definition path_Contains (p : ASPath) (id : NodeID) : bool :=
  existsb (λ hop, NodeID_Equal hop id) (Hops p).

Definition path_Len (p : ASPath) : nat := length (Hops p).

Definition path_Copy (p : ASPath) : ASPath := mkASPath (Hops p).

Definition CloneWithHop (p : ASPath) (id : NodeID) : ASPath := mkASPath (id :: Hops p).

(** Node identifiers and their wire form are both [[16]byte]; the conversions copy. *)
Definition ToWire (p : ASPath) : list (array 16) :=
  map (λ hop, array_copy 16 (bytes_of hop)) (Hops p).

Definition ASPathFromWire (wire : list (array 16)) : ASPath :=
  mkASPath (map (λ w, array_copy 16 (bytes_of w)) wire).

Lemma path_Contains_elem p id : path_Contains p id = true ↔ id ∈ Hops p.
Proof.
  unfold path_Contains. rewrite existsb_exists. split.
  - intros (hop & Hin & Heq). apply NodeID_Equal_eq in Heq as ->. by apply list_elem_of_In.
  - intros Hin. exists id. split; [by apply list_elem_of_In|]. by apply NodeID_Equal_eq.
Qed.

Lemma path_Contains_false p id : path_Contains p id = false ↔ id ∉ Hops p.
Proof. rewrite <- path_Contains_elem. by destruct (path_Contains p id). Qed.

Lemma map_array_copy {n} (l : list (array n)) :
  map (λ a, array_copy n (bytes_of a)) l = l.
Proof. induction l as [|a l IH]; simpl; [done|]. by rewrite array_copy_bytes_of, IH. Qed.

Lemma ToWire_hops p : ToWire p = Hops p.
Proof. apply map_array_copy. Qed.

Lemma ASPathFromWire_hops w : ASPathFromWire w = mkASPath w.
Proof. unfold ASPathFromWire. by rewrite map_array_copy. Qed.

Lemma ASPath_wire p : ASPathFromWire (ToWire p) = p.
Proof. rewrite ASPathFromWire_hops, ToWire_hops. by destruct p. Qed.
