(* ===== verification/RouteTable.v ===== *)
(** * The routing table ([route/table.go])

    Routes are grouped by the text of their prefix. A route is identified inside a
    group by its origin and its next hop. The read lock and the write lock make
    every operation atomic, so operations are functions from table to table.

    The table stores pointers to routes. The only field that is written after a
    route is stored is [Timestamp], under the lock, and slices of the map never
    leave the lock, so routes are values here. [Lookup] returns a fresh route with a
    nil AS path for a direct network; its callers read only [NextHop], and the nil
    path is the empty path here. *)

From S2P Require Import Prelude Bytes Net Crypto Identity RoutePath.
From stdpp Require Import options.

Record Route := mkRoute {
  Destination : IPNet;
  NextHop : NodeID;
  r_ASPath : ASPath;
  Cost : Z;
  Origin : NodeID;
  LocalPref : Z;
  Timestamp : Z }.

#[export] Instance Route_eq_dec : EqDecision Route.
Proof. solve_decision. Defined.

Record RoutingTable := mkRoutingTable {
  routes : gmap string (list Route);
  rt_selfID : NodeID;
  directNetworks : list IPNet }.

Definition set_routes (rt : RoutingTable) (m : gmap string (list Route)) : RoutingTable :=
  mkRoutingTable m (rt_selfID rt) (directNetworks rt).

Definition with_Timestamp (r : Route) (now : Z) : Route :=
  mkRoute (Destination r) (NextHop r) (r_ASPath r) (Cost r) (Origin r) (LocalPref r) now.

Definition NewRoutingTable (selfID : NodeID) : RoutingTable := mkRoutingTable ∅ selfID [].

Definition SetDirectNetworks (rt : RoutingTable) (nets : list IPNet) : RoutingTable :=
  mkRoutingTable (routes rt) (rt_selfID rt) nets.

Definition GetDirectNetworks (rt : RoutingTable) : list IPNet := directNetworks rt.

(** ** Insertion *)

(** Same origin and same next hop: the same slot of a group. *)
Definition same_slot (er r : Route) : bool :=
  NodeID_Equal (Origin er) (Origin r) && NodeID_Equal (NextHop er) (NextHop r).

Definition same_metric (er r : Route) : bool :=
  (Cost er =? Cost r) && (LocalPref er =? LocalPref r).

(** The loop over the group: [None] when no slot matches. *)
Fixpoint update_existing (existing : list Route) (r : Route) (now : Z)
    : option (list Route * bool) :=
  match existing with
  | [] => None
  | er :: rest =>
      if same_slot er r then
        if negb (same_metric er r) then Some (r :: rest, true)
        else Some (with_Timestamp er now :: rest, false)
      else '(rest, b) ← update_existing rest r now; Some (er :: rest, b)
  end.

(** [now] and [now'] are the two readings of the clock. *)
Definition AddRoute (rt : RoutingTable) (r : Route) (now now' : Z) : RoutingTable * bool :=
  let key := IPNet_String (Destination r) in
  if path_Contains (r_ASPath r) (rt_selfID rt) then (rt, false) else
  let r := with_Timestamp r now in
  match routes rt !! key with
  | None => (set_routes rt (<[key := [r]]> (routes rt)), true)
  | Some existing =>
      match update_existing existing r now' with
      | Some (existing, b) => (set_routes rt (<[key := existing]> (routes rt)), b)
      | None => (set_routes rt (<[key := existing ++ [r]]> (routes rt)), true)
      end
  end.

(** ** Removal *)

(** Keep some routes of a group; a group left empty is deleted from the map. *)
Definition keep_some (keep : Route → bool) (rs : list Route) : option (list Route) :=
  match filter (λ r, keep r = true) rs with [] => None | rs => Some rs end.

Definition RemoveRoute (rt : RoutingTable) (dest : IPNet) (origin : NodeID) : RoutingTable :=
  let key := IPNet_String dest in
  match routes rt !! key with
  | None => rt
  | Some existing =>
      match keep_some (λ r, negb (NodeID_Equal (Origin r) origin)) existing with
      | None => set_routes rt (delete key (routes rt))
      | Some filtered => set_routes rt (<[key := filtered]> (routes rt))
      end
  end.

(** The loop over the whole map that the next two operations share. *)
Definition sweep (keep : Route → bool) (rt : RoutingTable) : RoutingTable :=
  set_routes rt (omap (keep_some keep) (routes rt)).

Definition RemoveAllFromOrigin (rt : RoutingTable) (origin : NodeID) : RoutingTable :=
  sweep (λ r, negb (NodeID_Equal (Origin r) origin) && negb (NodeID_Equal (NextHop r) origin)) rt.

Definition fresh (ttl now : Z) (r : Route) : bool := time_sub now (Timestamp r) <? ttl.

(** The new table and the number of routes removed. *)
Definition GC (rt : RoutingTable) (ttl now : Z) : RoutingTable * nat :=
  (sweep (fresh ttl now) rt,
   map_fold (λ _ rs n, n + length (filter (λ r, fresh ttl now r = false) rs))%nat 0%nat (routes rt)).

(** ** Enumeration

    Go enumerates a map in an unspecified order: [order] is any enumeration of the
    groups of the table. *)

Definition enumerates (order : list (string * list Route)) (rt : RoutingTable) : Prop :=
  order ≡ₚ map_to_list (routes rt).

Definition GetAllRoutes (order : list (string * list Route)) : list Route :=
  concat (map snd order).

Definition Size (rt : RoutingTable) : nat :=
  map_fold (λ _ rs n, n + length rs)%nat 0%nat (routes rt).

(** ** Selection *)

(** Highest local preference, then shortest path, then lowest cost, then oldest. *)
Definition bestPath (a b : Route) : Route :=
  if LocalPref b <? LocalPref a then a
  else if LocalPref a <? LocalPref b then b
  else if (path_Len (r_ASPath a) <? path_Len (r_ASPath b))%nat then a
  else if (path_Len (r_ASPath b) <? path_Len (r_ASPath a))%nat then b
  else if Cost a <? Cost b then a
  else if Cost b <? Cost a then b
  else if Timestamp a <? Timestamp b then a
  else b.

Definition mask_len (r : Route) : nat := Mask_ones (IPNet_Mask (Destination r)).

(** The body of the loop: [bestMatch] and [bestMaskLen]. *)
Definition lookup_step (ip : list byte) (acc : option Route * nat) (r : Route)
    : option Route * nat :=
  if negb (Contains (Destination r) ip) then acc else
  let ones := mask_len r in
  let '(bestMatch, bestMaskLen) := acc in
  if (bestMaskLen <? ones)%nat then (Some r, ones)
  else match bestMatch with
       | Some b => if (ones =? bestMaskLen)%nat then (Some (bestPath b r), bestMaskLen) else acc
       | None => acc
       end.

Definition direct_route (nw : IPNet) : Route :=
  mkRoute nw zeroID NewASPath 0 zeroID 0 0.

Definition Lookup (rt : RoutingTable) (order : list (string * list Route)) (ip : list byte)
    : option Route :=
  match find (λ nw, Contains nw ip) (directNetworks rt) with
  | Some nw => Some (direct_route nw)
  | None => fst (foldl (λ acc '(_, rs), foldl (lookup_step ip) acc rs) (None, 0%nat) order)
  end.

(** ** Well-formed tables *)

Definition slot_of (r : Route) : NodeID * NodeID := (Origin r, NextHop r).

Record group_ok (self : NodeID) (key : string) (rs : list Route) : Prop := {
  group_nonempty : rs ≠ [];
  group_key : Forall (λ r, IPNet_String (Destination r) = key) rs;
  group_no_self : Forall (λ r, self ∉ Hops (r_ASPath r)) rs;
  group_slots : NoDup (map slot_of rs) }.

Definition table_ok (rt : RoutingTable) : Prop :=
  map_Forall (group_ok (rt_selfID rt)) (routes rt).

Lemma same_slot_eq er r : same_slot er r = true ↔ slot_of er = slot_of r.
Proof.
  unfold same_slot, slot_of. rewrite andb_true_iff, !NodeID_Equal_eq. split; [by intros [-> ->]|].
  by intros [= -> ->].
Qed.

Lemma same_slot_neq er r : same_slot er r = false ↔ slot_of er ≠ slot_of r.
Proof. rewrite <- same_slot_eq. by destruct (same_slot er r). Qed.

Lemma slot_with_Timestamp r now : slot_of (with_Timestamp r now) = slot_of r.
Proof. done. Qed.

(** What the loop of [AddRoute] does to a group: it replaces one route, in place. *)
Lemma update_existing_spec existing r now :
  match update_existing existing r now with
  | None => slot_of r ∉ map slot_of existing
  | Some (rs, b) => ∃ l1 er l2, existing = l1 ++ er :: l2 ∧ slot_of er = slot_of r ∧
      (slot_of r ∉ map slot_of l1) ∧ b = negb (same_metric er r) ∧
      rs = l1 ++ (if b then r else with_Timestamp er now) :: l2
  end.
Proof.
  induction existing as [|er rest IH]; simpl; [apply not_elem_of_nil|].
  destruct (same_slot er r) eqn:Hs.
  - apply same_slot_eq in Hs.
    destruct (same_metric er r) eqn:Hm; simpl; exists [], er, rest;
      rewrite Hm; repeat split; auto; apply not_elem_of_nil.
  - apply same_slot_neq in Hs. destruct (update_existing rest r now) as [[rs b]|]; simpl.
    + destruct IH as (l1 & er' & l2 & -> & Hsl & Hn & Hb & ->).
      exists (er :: l1), er', l2. repeat split; auto. simpl. rewrite not_elem_of_cons. auto.
    + rewrite not_elem_of_cons. auto.
Qed.

Lemma group_ok_update self key l1 er l2 r :
  group_ok self key (l1 ++ er :: l2) → slot_of r = slot_of er →
  IPNet_String (Destination r) = key → self ∉ Hops (r_ASPath r) →
  group_ok self key (l1 ++ r :: l2).
Proof.
  intros [_ Hk Hs Hd] Hslot Hkey Hself. split.
  - by destruct l1.
  - apply Forall_app in Hk as [? Hk]. apply Forall_cons in Hk as [_ ?].
    apply Forall_app; auto.
  - apply Forall_app in Hs as [? Hs]. apply Forall_cons in Hs as [_ ?].
    apply Forall_app; auto.
  - rewrite map_app in *. simpl in *. by rewrite Hslot.
Qed.

Lemma group_ok_snoc self key rs r :
  group_ok self key rs → slot_of r ∉ map slot_of rs →
  IPNet_String (Destination r) = key → self ∉ Hops (r_ASPath r) →
  group_ok self key (rs ++ [r]).
Proof.
  intros [Hne Hk Hs Hd] Hslot Hkey Hself. split.
  - by destruct rs.
  - apply Forall_app; auto.
  - apply Forall_app; auto.
  - rewrite map_app. apply NoDup_app. split; [done|]. split; [|apply NoDup_singleton].
    intros x Hx. simpl. rewrite list_elem_of_singleton. by intros ->.
Qed.

Lemma group_ok_filter self key rs keep rs' :
  group_ok self key rs → keep_some keep rs = Some rs' → group_ok self key rs'.
Proof.
  intros [Hne Hk Hs Hd]. unfold keep_some.
  destruct (filter _ rs) as [|x l] eqn:E; [done|]. intros [= <-]. rewrite <- E. split.
  - by rewrite E.
  - by apply Forall_filter_keep.
  - by apply Forall_filter_keep.
  - by apply NoDup_map_filter.
Qed.

Lemma AddRoute_ok rt r now now' : table_ok rt → table_ok (fst (AddRoute rt r now now')).
Proof.
  intros Hok. unfold AddRoute. destruct (path_Contains _ _) eqn:Hc; [done|].
  apply path_Contains_false in Hc. set (r' := with_Timestamp r now).
  destruct (routes rt !! _) as [existing|] eqn:Hl; simpl.
  - pose proof (Hok _ _ Hl) as Hg. pose proof (update_existing_spec existing r' now') as Hu.
    destruct (update_existing existing r' now') as [[rs b]|]; simpl; unfold table_ok;
      simpl; apply map_Forall_insert_2; try done.
    + destruct Hu as (l1 & er & l2 & -> & Hslot & _ & _ & ->).
      apply group_ok_update with er; [done|by destruct b|..].
      * destruct Hg as [_ Hk _ _]. apply Forall_app in Hk as [_ Hk].
        apply Forall_cons in Hk as [Hk _]. by destruct b.
      * destruct Hg as [_ _ Hs _]. apply Forall_app in Hs as [_ Hs].
        apply Forall_cons in Hs as [Hs _]. by destruct b.
    + by apply group_ok_snoc.
  - unfold table_ok. simpl. apply map_Forall_insert_2; [|done]. split; [done|..].
    + by apply Forall_singleton.
    + by apply Forall_singleton.
    + apply NoDup_singleton.
Qed.

Lemma RemoveRoute_ok rt dest origin : table_ok rt → table_ok (RemoveRoute rt dest origin).
Proof.
  intros Hok. unfold RemoveRoute. destruct (routes rt !! _) as [existing|] eqn:Hl; [|done].
  destruct (keep_some _ existing) eqn:Hk; unfold table_ok; simpl.
  - apply map_Forall_insert_2; [|done]. eapply group_ok_filter; [|done]. by apply Hok.
  - by apply map_Forall_delete.
Qed.

Lemma sweep_ok keep rt : table_ok rt → table_ok (sweep keep rt).
Proof.
  intros Hok k rs. unfold sweep. simpl. rewrite lookup_omap.
  destruct (routes rt !! k) as [rs0|] eqn:Hl; simpl; [|done].
  intros Hk. eapply group_ok_filter; [|done]. by apply Hok.
Qed.
#[export] Hint Resolve AddRoute_ok RemoveRoute_ok sweep_ok : go.

(** ** The table as a map from prefix, origin and next hop to routes *)

Definition find_slot (rs : list Route) (slot : NodeID * NodeID) : option Route :=
  find (λ r, bool_decide (slot_of r = slot)) rs.

Definition get_route (rt : RoutingTable) (key : string) (slot : NodeID * NodeID) : option Route :=
  rs ← routes rt !! key; find_slot rs slot.

Arguments find_slot : simpl never.

Lemma find_slot_Some rs slot r : find_slot rs slot = Some r → slot_of r = slot ∧ r ∈ rs.
Proof.
  unfold find_slot. intros H. apply find_some in H as [Hin Heq].
  apply bool_decide_eq_true in Heq. split; [done|]. by apply list_elem_of_In.
Qed.

Lemma find_slot_not_in rs slot : slot ∉ map slot_of rs → find_slot rs slot = None.
Proof.
  intros Hn. destruct (find_slot rs slot) as [r|] eqn:E; [|done].
  apply find_slot_Some in E as [<- Hin]. destruct Hn. apply list_elem_of_fmap. eauto.
Qed.

Lemma find_slot_app l1 l2 slot :
  find_slot (l1 ++ l2) slot = match find_slot l1 slot with Some r => Some r | None => find_slot l2 slot end.
Proof.
  unfold find_slot. induction l1 as [|r l1 IH]; simpl; [done|]. by case_bool_decide.
Qed.

Lemma find_slot_cons r rs slot :
  find_slot (r :: rs) slot = if decide (slot_of r = slot) then Some r else find_slot rs slot.
Proof. unfold find_slot. simpl. by case_bool_decide; case_decide. Qed.

Lemma find_slot_filter keep rs slot :
  NoDup (map slot_of rs) →
  find_slot (filter (λ r, keep r = true) rs) slot =
  (r ← find_slot rs slot; if keep r then Some r else None).
Proof.
  intros Hd. induction rs as [|r rs IH]; [done|]. simpl in Hd. apply NoDup_cons in Hd as [Hn Hd].
  rewrite filter_cons, (find_slot_cons r rs). destruct (decide (slot_of r = slot)) as [<-|Hne].
  - simpl. destruct (decide (keep r = true)) as [Hk|Hk].
    + rewrite Hk, find_slot_cons. by rewrite decide_True.
    + rewrite IH by done. rewrite (find_slot_not_in _ _ Hn). simpl. by destruct (keep r).
  - destruct (decide (keep r = true)); [|auto]. rewrite find_slot_cons, decide_False by done. auto.
Qed.

Lemma get_route_sweep keep rt key slot :
  table_ok rt →
  get_route (sweep keep rt) key slot = (r ← get_route rt key slot; if keep r then Some r else None).
Proof.
  intros Hok. unfold get_route, sweep. simpl. rewrite lookup_omap.
  destruct (routes rt !! key) as [rs|] eqn:Hl; [|done]. simpl.
  rewrite <- find_slot_filter by apply (Hok _ _ Hl). unfold keep_some.
  by destruct (filter _ rs).
Qed.

(** What [AddRoute] leaves in the slot of the route it is given. *)
Definition added (old : option Route) (r : Route) (now now' : Z) : Route :=
  match old with
  | Some er => if same_metric er r then with_Timestamp er now' else with_Timestamp r now
  | None => with_Timestamp r now
  end.

Lemma get_route_AddRoute rt r now now' :
  rt_selfID rt ∉ Hops (r_ASPath r) →
  let k := IPNet_String (Destination r) in
  let old := get_route rt k (slot_of r) in
  (∀ key slot, get_route (fst (AddRoute rt r now now')) key slot =
     if decide (key = k ∧ slot = slot_of r) then Some (added old r now now')
     else get_route rt key slot) ∧
  snd (AddRoute rt r now now') = match old with Some er => negb (same_metric er r) | None => true end.
Proof.
  intros Hself. apply path_Contains_false in Hself. cbv zeta.
  unfold AddRoute. rewrite Hself. set (r' := with_Timestamp r now).
  set (k := IPNet_String (Destination r)). cbv zeta.
  destruct (routes rt !! k) as [existing|] eqn:Hl.
  - pose proof (update_existing_spec existing r' now') as Hu.
    assert (get_route rt k (slot_of r) = find_slot existing (slot_of r)) as Hold.
    { unfold get_route. by rewrite Hl. }
    rewrite Hold.
    destruct (update_existing existing r' now') as [[rs b]|]; simpl.
    + destruct Hu as (l1 & er & l2 & -> & Hslot & Hn & Hb & ->).
      change (slot_of r') with (slot_of r) in *.
      rewrite find_slot_app, (find_slot_not_in _ _ Hn), find_slot_cons, decide_True by done.
      split; [|by rewrite Hb]. intros key slot. unfold get_route. simpl.
      rewrite lookup_insert. destruct (decide (k = key)) as [<-|Hk]; simpl.
      * rewrite Hl. simpl. rewrite !find_slot_app, !find_slot_cons.
        destruct (decide (slot = slot_of r)) as [->|Hs].
        -- rewrite (decide_True (P := _ ∧ _)) by done. rewrite (find_slot_not_in _ _ Hn).
           rewrite decide_True by (by destruct b). rewrite Hb. unfold same_metric, r'. simpl.
           by destruct (_ && _).
        -- rewrite (decide_False (P := _ ∧ _)) by tauto.
           by rewrite !decide_False
             by (destruct b; unfold r'; rewrite ?slot_with_Timestamp; congruence).
      * by rewrite decide_False by (intros [? _]; congruence).
    + change (slot_of r') with (slot_of r) in *.
      rewrite (find_slot_not_in _ _ Hu). split; [|done]. intros key slot. unfold get_route. simpl.
      rewrite lookup_insert. destruct (decide (k = key)) as [<-|Hk]; simpl.
      * rewrite Hl. simpl. rewrite find_slot_app, find_slot_cons.
        destruct (decide (slot = slot_of r)) as [->|Hs].
        -- rewrite (decide_True (P := _ ∧ _)) by done.
           by rewrite (find_slot_not_in _ _ Hu), decide_True.
        -- rewrite (decide_False (P := _ ∧ _)) by tauto.
           rewrite decide_False by (unfold r'; rewrite slot_with_Timestamp; congruence).
           by destruct (find_slot existing slot).
      * by rewrite decide_False by (intros [? _]; congruence).
  - assert (get_route rt k (slot_of r) = None) as -> by (unfold get_route; by rewrite Hl).
    simpl. split; [|done]. intros key slot.
    unfold get_route. simpl. rewrite lookup_insert. destruct (decide (k = key)) as [<-|Hk]; simpl.
    + rewrite Hl. rewrite find_slot_cons. change (slot_of r') with (slot_of r).
      destruct (decide (slot = slot_of r)) as [->|Hs].
      * by rewrite !decide_True.
      * rewrite (decide_False (P := _ ∧ _)) by tauto. by rewrite decide_False by congruence.
    + by rewrite decide_False by (intros [? _]; congruence).
Qed.

Lemma get_route_RemoveRoute rt dest origin key slot :
  table_ok rt →
  get_route (RemoveRoute rt dest origin) key slot =
  if decide (key = IPNet_String dest ∧ fst slot = origin) then None else get_route rt key slot.
Proof.
  intros Hok. unfold RemoveRoute, get_route.
  set (k := IPNet_String dest). destruct (routes rt !! k) as [rs|] eqn:Hl.
  2:{ destruct (decide (key = k ∧ fst slot = origin)) as [[-> _]|]; [by rewrite Hl|done]. }
  assert (∀ rs', keep_some (λ r, negb (NodeID_Equal (Origin r) origin)) rs = rs' →
    (rs ← rs'; find_slot rs slot) = if decide (fst slot = origin) then None else find_slot rs slot)
    as Hf.
  { intros rs' <-. transitivity (find_slot (filter (λ r, negb (NodeID_Equal (Origin r) origin) = true) rs) slot).
    { unfold keep_some. by destruct (filter _ rs). }
    rewrite find_slot_filter by apply (Hok _ _ Hl).
    destruct (find_slot rs slot) as [r|] eqn:E; simpl; [|by case_decide].
    apply find_slot_Some in E as [<- _]. simpl. unfold NodeID_Equal.
    by case_bool_decide; case_decide. }
  destruct (keep_some _ rs) as [rs'|]; specialize (Hf _ eq_refl); simpl in Hf |- *.
  - rewrite lookup_insert. destruct (decide (k = key)) as [<-|Hk]; simpl.
    + rewrite Hl, Hf. simpl. by destruct (decide (fst slot = origin));
        destruct (decide (k = k ∧ fst slot = origin)); try tauto.
    + by rewrite decide_False by (intros [? _]; congruence).
  - rewrite lookup_delete. destruct (decide (k = key)) as [<-|Hk]; simpl.
    + rewrite Hl. simpl. destruct (decide (k = k ∧ fst slot = origin)) as [|Hn]; [done|].
      by rewrite decide_False in Hf by tauto.
    + by rewrite decide_False by (intros [? _]; congruence).
Qed.

(** ** Counting *)

Definition total (f : list Route → nat) (m : gmap string (list Route)) : nat :=
  map_fold (λ _ rs n, n + f rs)%nat 0%nat m.

Lemma total_insert f m k rs :
  m !! k = None → total f (<[k := rs]> m) = (total f m + f rs)%nat.
Proof. intros H. unfold total. rewrite map_fold_insert_L; [done| |done]. intros. lia. Qed.

Lemma length_filter_split (keep : Route → bool) (rs : list Route) :
  (length (filter (λ r, keep r = true) rs) + length (filter (λ r, keep r = false) rs))%nat = length rs.
Proof.
  induction rs as [|r rs IH]; [done|]. rewrite !filter_cons.
  destruct (keep r); simpl; lia.
Qed.

Lemma total_sweep keep m :
  (total length (omap (keep_some keep) m) + total (λ rs, length (filter (λ r, keep r = false) rs)) m)%nat
  = total length m.
Proof.
  induction m as [|k rs m Hk IH] using map_ind; [done|].
  rewrite (total_insert _ m) by done. rewrite (total_insert _ m k rs) by done.
  assert (total length (omap (keep_some keep) (<[k:=rs]> m)) =
          total length (omap (keep_some keep) m) + length (filter (λ r, keep r = true) rs))%nat as ->.
  { assert (omap (keep_some keep) m !! k = None) as Hk' by by rewrite lookup_omap, Hk.
    destruct (filter (λ r, keep r = true) rs) as [|r l] eqn:E.
    - rewrite omap_insert_None by (unfold keep_some; by rewrite E).
      rewrite delete_id by done. simpl. lia.
    - erewrite omap_insert_Some by (unfold keep_some; by rewrite E). by rewrite total_insert. }
  pose proof (length_filter_split keep rs). lia.
Qed.

Lemma get_route_RemoveAll rt origin key slot :
  table_ok rt →
  get_route (RemoveAllFromOrigin rt origin) key slot =
    (if decide (fst slot = origin ∨ snd slot = origin) then None else get_route rt key slot).
Proof.
  intros Hok. unfold RemoveAllFromOrigin. rewrite get_route_sweep by done.
  destruct (get_route rt key slot) as [r|] eqn:E; simpl; [|by case_decide].
  unfold get_route in E. destruct (routes rt !! key) as [rs|]; [|done].
  apply find_slot_Some in E as [<- _]. simpl. unfold NodeID_Equal.
  repeat case_bool_decide; case_decide; simpl; tauto.
Qed.

(** ** Properties *)

Inductive table_op :=
| OpAdd (r : Route) (now now' : Z)
| OpRemove (dest : IPNet) (origin : NodeID)
| OpRemoveAll (origin : NodeID)
| OpGC (ttl now : Z)
| OpSetDirect (nets : list IPNet).

Definition run_op (rt : RoutingTable) (op : table_op) : RoutingTable :=
  match op with
  | OpAdd r now now' => fst (AddRoute rt r now now')
  | OpRemove dest origin => RemoveRoute rt dest origin
  | OpRemoveAll origin => RemoveAllFromOrigin rt origin
  | OpGC ttl now => fst (GC rt ttl now)
  | OpSetDirect nets => SetDirectNetworks rt nets
  end.

(** C16: whatever operations run on a fresh table, no group is empty, every route
    is filed under the text of its own prefix, no two routes of a group have the same
    origin and next hop, and no route's path contains this node. *)
Theorem table_always_ok self ops :
  table_ok (foldl run_op (NewRoutingTable self) ops) ∧
  rt_selfID (foldl run_op (NewRoutingTable self) ops) = self.
Proof.
  assert (∀ rt op, table_ok rt → table_ok (run_op rt op)) as Hstep.
  { intros rt [] Hok; simpl; try done; auto with go. by apply sweep_ok. }
  assert (∀ rt op, rt_selfID (run_op rt op) = rt_selfID rt) as Hself.
  { intros rt []; simpl; unfold AddRoute, RemoveRoute; repeat case_match; done. }
  assert (∀ rt, table_ok rt → rt_selfID rt = self →
    table_ok (foldl run_op rt ops) ∧ rt_selfID (foldl run_op rt ops) = self) as H.
  { induction ops as [|op ops IH]; intros rt Hok Hs; simpl; [done|].
    apply IH; [auto|by rewrite Hself]. }
  apply H; [|done]. apply map_Forall_empty.
Qed.

(** C2: [AddRoute] refines the update of a map from (prefix, origin, next hop) to
    routes: a route through this node is refused; otherwise the slot holds the new
    route, unless it held one with the same cost and preference, which only gets a
    new timestamp; no other slot changes; and the result says whether the slot was
    new or its metric changed. *)
Theorem AddRoute_refines rt r now now' :
  if decide (rt_selfID rt ∈ Hops (r_ASPath r))
  then AddRoute rt r now now' = (rt, false)
  else let k := IPNet_String (Destination r) in
    let old := get_route rt k (slot_of r) in
    (∀ key slot, get_route (fst (AddRoute rt r now now')) key slot =
       if decide (key = k ∧ slot = slot_of r) then Some (added old r now now')
       else get_route rt key slot) ∧
    snd (AddRoute rt r now now') =
      match old with Some er => negb (same_metric er r) | None => true end.
Proof.
  case_decide as Hin; [|by apply get_route_AddRoute].
  unfold AddRoute. by apply path_Contains_elem in Hin as ->.
Qed.

(** Withdrawing a prefix of an origin removes the routes of that prefix and that
    origin through any next hop, and withdrawing a peer removes the routes that
    originate at it or go through it; no other route is touched. *)
Lemma removal_exact rt dest origin key slot :
  table_ok rt →
  get_route (RemoveRoute rt dest origin) key slot =
    (if decide (key = IPNet_String dest ∧ fst slot = origin) then None
     else get_route rt key slot) ∧
  get_route (RemoveAllFromOrigin rt origin) key slot =
    (if decide (fst slot = origin ∨ snd slot = origin) then None else get_route rt key slot).
Proof.
  intros Hok. split; [by apply get_route_RemoveRoute|by apply get_route_RemoveAll].
Qed.

Definition example_net : IPNet := mkIPNet [x0a; x01; x00; x00] (CIDRMask 16 32).
Definition node_a : NodeID := array_copy 16 [x0a].
Definition node_b : NodeID := array_copy 16 [x0b].
Definition node_c : NodeID := array_copy 16 [x0c].
Definition example_r : Route := mkRoute example_net node_b (mkASPath [node_b; node_c]) 3 node_c 100 0.
Definition example_table : RoutingTable := fst (AddRoute (NewRoutingTable node_a) example_r 50 50).

Lemma example_table_ok : table_ok example_table.
Proof. apply AddRoute_ok, map_Forall_empty. Qed.

Lemma removal_exact_witness :
  get_route (RemoveRoute example_table example_net node_c) "10.1.0.0/16" (node_c, node_b) = None ∧
  get_route (RemoveAllFromOrigin example_table node_c) "10.1.0.0/16" (node_c, node_b) = None.
Proof.
  destruct (removal_exact example_table example_net node_c "10.1.0.0/16" (node_c, node_b)
    example_table_ok) as [H1 H2].
  rewrite H1, H2. split; vm_compute; reflexivity.
Defined.

(** Garbage collection keeps exactly the routes younger than the time to live,
    and its result is the number of routes that went away. *)
Lemma GC_exact rt ttl now key slot :
  table_ok rt →
  get_route (fst (GC rt ttl now)) key slot =
    (r ← get_route rt key slot;
     if decide (time_sub now (Timestamp r) < ttl) then Some r else None) ∧
  (Size (fst (GC rt ttl now)) + snd (GC rt ttl now))%nat = Size rt.
Proof.
  intros Hok. split; [|apply (total_sweep (fresh ttl now))].
  simpl. rewrite get_route_sweep by done. destruct (get_route rt key slot) as [r|]; simpl; [|done].
  unfold fresh. by destruct (Z.ltb_spec (time_sub now (Timestamp r)) ttl); case_decide; try lia.
Qed.

Lemma GC_exact_witness :
  get_route (fst (GC example_table 90 140)) "10.1.0.0/16" (node_c, node_b) = None ∧
  (Size (fst (GC example_table 90 140)) + snd (GC example_table 90 140))%nat = 1%nat.
Proof.
  destruct (GC_exact example_table 90 140 "10.1.0.0/16" (node_c, node_b) example_table_ok)
    as [H1 H2].
  rewrite H1, H2. split; vm_compute; reflexivity.
Defined.
