(* ===== verification/RouteSelect.v ===== *)
(** * Route selection: [Lookup] computes a best route

    The order in which [Lookup] prefers routes is a lexicographic order on the
    criteria of a route. The nested loops of [Lookup] compute a minimum of that
    order over the routes that match, whatever order the map is enumerated in. *)

From S2P Require Import Prelude Bytes Net Crypto Identity RoutePath RouteTable.
From stdpp Require Import options.

(** ** Lexicographic order on lists of criteria *)

Fixpoint lex_ltb (a b : list Z) : bool :=
  match a, b with
  | x :: a, y :: b => if x <? y then true else if y <? x then false else lex_ltb a b
  | _, _ => false
  end.

Definition lex_le (a b : list Z) : Prop := lex_ltb b a = false.

#[export] Instance lex_le_dec a b : Decision (lex_le a b).
Proof. unfold lex_le. apply _. Defined.

Lemma lex_le_refl a : lex_le a a.
Proof.
  unfold lex_le. induction a as [|x a IH]; simpl; [done|].
  destruct (Z.ltb_spec x x); [lia|done].
Qed.

Lemma lex_le_trans a b c :
  length a = length b → length b = length c → lex_le a b → lex_le b c → lex_le a c.
Proof.
  unfold lex_le. revert b c. induction a as [|x a IH]; intros [|y b] [|z c]; simpl; try done.
  intros [= Hab] [= Hbc].
  destruct (Z.ltb_spec y x), (Z.ltb_spec x y), (Z.ltb_spec z y), (Z.ltb_spec y z),
    (Z.ltb_spec z x), (Z.ltb_spec x z); try done; try lia; eauto.
Qed.

Lemma lex_lt_le a b : length a = length b → lex_ltb a b = true → lex_le a b.
Proof.
  unfold lex_le. revert b. induction a as [|x a IH]; intros [|y b]; simpl; try done.
  intros [= Hl]. destruct (Z.ltb_spec x y), (Z.ltb_spec y x); try done; try lia. eauto.
Qed.

Lemma lex_le_antisym a b : length a = length b → lex_le a b → lex_le b a → a = b.
Proof.
  unfold lex_le. revert b. induction a as [|x a IH]; intros [|y b]; simpl; try done.
  intros [= Hl]. destruct (Z.ltb_spec x y), (Z.ltb_spec y x); try done.
  intros. f_equal; [lia|eauto].
Qed.

(** ** The criteria of [bestPath], and those of [Lookup] *)

Definition path_criteria (r : Route) : list Z :=
  [- LocalPref r; Z.of_nat (path_Len (r_ASPath r)); Cost r; Timestamp r].

Definition criteria (r : Route) : list Z := - Z.of_nat (mask_len r) :: path_criteria r.

Definition prefers (a b : Route) : Prop := lex_le (criteria a) (criteria b).

#[export] Instance prefers_refl : Reflexive prefers.
Proof. intros r. apply lex_le_refl. Qed.
#[export] Instance prefers_trans : Transitive prefers.
Proof. intros a b c. by apply lex_le_trans. Qed.

Lemma bestPath_lex a b :
  bestPath a b = if lex_ltb (path_criteria a) (path_criteria b) then a else b.
Proof.
  unfold bestPath, path_criteria. simpl.
  destruct (Z.ltb_spec (LocalPref b) (LocalPref a)), (Z.ltb_spec (- LocalPref a) (- LocalPref b));
    try lia; [done|].
  destruct (Z.ltb_spec (LocalPref a) (LocalPref b)), (Z.ltb_spec (- LocalPref b) (- LocalPref a));
    try lia; [done|].
  destruct (Nat.ltb_spec (path_Len (r_ASPath a)) (path_Len (r_ASPath b))),
    (Z.ltb_spec (Z.of_nat (path_Len (r_ASPath a))) (Z.of_nat (path_Len (r_ASPath b))));
    try lia; [done|].
  destruct (Nat.ltb_spec (path_Len (r_ASPath b)) (path_Len (r_ASPath a))),
    (Z.ltb_spec (Z.of_nat (path_Len (r_ASPath b))) (Z.of_nat (path_Len (r_ASPath a))));
    try lia; [done|].
  by destruct (Cost a <? Cost b), (Cost b <? Cost a), (Timestamp a <? Timestamp b),
    (Timestamp b <? Timestamp a).
Qed.

(** ** The loops of [Lookup] *)

(** A route that the loop can pick: it matches, and its prefix is longer than the initial [bestMaskLen]. *)
Definition picked (ip : list byte) (r : Route) : Prop :=
  Contains (Destination r) ip = true ∧ (0 < mask_len r)%nat.

(** The state of the loop after the routes [seen]. *)
Definition loop_inv (ip : list byte) (seen : list Route) (acc : option Route * nat) : Prop :=
  match acc with
  | (None, n) => n = 0%nat ∧ ∀ r, r ∈ seen → ¬ picked ip r
  | (Some b, n) => n = mask_len b ∧ b ∈ seen ∧ picked ip b ∧
                   ∀ r, r ∈ seen → picked ip r → prefers b r
  end.

Lemma prefers_longer a b : (mask_len b < mask_len a)%nat → prefers a b.
Proof.
  intros H. unfold prefers, lex_le, criteria. simpl.
  destruct (Z.ltb_spec (- Z.of_nat (mask_len b)) (- Z.of_nat (mask_len a))); [lia|].
  by destruct (Z.ltb_spec (- Z.of_nat (mask_len a)) (- Z.of_nat (mask_len b))); [|lia].
Qed.

Lemma prefers_same a b : mask_len a = mask_len b →
  lex_le (path_criteria a) (path_criteria b) → prefers a b.
Proof.
  intros H Hp. unfold prefers, lex_le, criteria. cbn [lex_ltb]. rewrite H.
  by rewrite Z.ltb_irrefl.
Qed.

Lemma lookup_step_inv ip seen acc r :
  loop_inv ip seen acc → loop_inv ip (seen ++ [r]) (lookup_step ip acc r).
Proof.
  intros Hinv. unfold lookup_step. destruct (Contains (Destination r) ip) eqn:Hc; simpl.
  2:{ assert (¬ picked ip r) as Hn by (intros [? _]; congruence).
      destruct acc as [[b|] n]; simpl in *; setoid_rewrite elem_of_app;
        setoid_rewrite list_elem_of_singleton.
      - destruct Hinv as (? & ? & ? & Hall). split_and!; auto. by intros x [?| ->]; auto.
      - destruct Hinv as [? Hall]. split; [done|]. by intros x [?| ->]; auto. }
  destruct acc as [[b|] n].
  - destruct Hinv as (-> & Hin & Hcand & Hall).
    destruct (Nat.ltb_spec (mask_len b) (mask_len r)) as [Hlt|Hge].
    + split_and!; [done|set_solver|split; [done|lia]|].
      intros x [Hx|Hx%list_elem_of_singleton]%elem_of_app Hcx; [|by subst].
      transitivity b; [by apply prefers_longer|auto].
    + destruct (Nat.eqb_spec (mask_len r) (mask_len b)) as [Heq|Hne].
      * rewrite bestPath_lex. destruct (lex_ltb _ _) eqn:Hlt.
        -- split_and!; [done|set_solver|done|].
           intros x [Hx|Hx%list_elem_of_singleton]%elem_of_app Hcx; [auto|subst].
           apply prefers_same; [done|]. by apply lex_lt_le.
        -- split_and!; [done|set_solver|split; [done|rewrite Heq; apply Hcand]|].
           intros x [Hx|Hx%list_elem_of_singleton]%elem_of_app Hcx; [|by subst].
           transitivity b; [by apply prefers_same|auto].
      * split_and!; [done|set_solver|done|].
        intros x [Hx|Hx%list_elem_of_singleton]%elem_of_app Hcx; [auto|subst].
        apply prefers_longer. lia.
  - destruct Hinv as [-> Hall]. destruct (Nat.ltb_spec 0 (mask_len r)) as [Hlt|Hge].
    + split_and!; [done|set_solver|done|].
      intros x [Hx|Hx%list_elem_of_singleton]%elem_of_app Hcx; [|by subst]. by apply Hall in Hx.
    + split; [done|]. intros x [Hx|Hx%list_elem_of_singleton]%elem_of_app; [auto|subst].
      intros [_ ?]. lia.
Qed.

Lemma lookup_loop_inv ip rs seen acc :
  loop_inv ip seen acc → loop_inv ip (seen ++ rs) (foldl (lookup_step ip) acc rs).
Proof.
  revert seen acc. induction rs as [|r rs IH]; intros seen acc Hinv; simpl.
  - by rewrite app_nil_r.
  - rewrite cons_middle, app_assoc. apply IH. by apply lookup_step_inv.
Qed.

(** The nested loops are one loop over all the routes in the order of enumeration. *)
Lemma lookup_loops_flat ip order acc :
  foldl (λ acc '(_, rs), foldl (lookup_step ip) acc rs) acc order =
  foldl (lookup_step ip) acc (GetAllRoutes order).
Proof.
  unfold GetAllRoutes. revert acc. induction order as [|[k rs] order IH]; intros acc; simpl; [done|].
  by rewrite foldl_app, IH.
Qed.

Lemma lookup_loops_inv ip order :
  loop_inv ip (GetAllRoutes order)
    (foldl (λ acc '(_, rs), foldl (lookup_step ip) acc rs) (None, 0%nat) order).
Proof.
  rewrite lookup_loops_flat. apply (lookup_loop_inv ip _ []). split; [done|].
  intros r Hr. by apply not_elem_of_nil in Hr.
Qed.

Lemma elem_of_GetAllRoutes order rt r :
  enumerates order rt → r ∈ GetAllRoutes order ↔ ∃ k rs, routes rt !! k = Some rs ∧ r ∈ rs.
Proof.
  intros Hperm. unfold GetAllRoutes. rewrite list_elem_of_In, in_concat. split.
  - intros (rs & Hrs & Hr). apply list_elem_of_In in Hrs, Hr.
    apply list_elem_of_fmap in Hrs as ([k rs'] & -> & Hin). rewrite Hperm in Hin.
    apply elem_of_map_to_list in Hin. eauto.
  - intros (k & rs & Hk & Hr). exists rs. rewrite <- !list_elem_of_In. split; [|done].
    apply list_elem_of_fmap. exists (k, rs). split; [done|]. rewrite Hperm.
    by apply elem_of_map_to_list.
Qed.

(** ** Properties *)

Definition in_table (rt : RoutingTable) (r : Route) : Prop :=
  ∃ k rs, routes rt !! k = Some rs ∧ r ∈ rs.

(** What a look-up has to find: the first direct network that contains the address, else a route that matches
    and to which no route that matches is preferred, of whatever prefix length; nothing only when none matches. *)
Definition lookup_spec (rt : RoutingTable) (ip : list byte) (result : option Route) : Prop :=
  match find (λ nw, Contains nw ip) (directNetworks rt) with
  | Some nw => result = Some (direct_route nw)
  | None =>
      match result with
      | Some r => in_table rt r ∧ Contains (Destination r) ip = true ∧
                  ∀ c, in_table rt c → Contains (Destination c) ip = true → prefers r c
      | None => ∀ c, in_table rt c → Contains (Destination c) ip = false
      end
  end.

(** The table without its default routes, those whose prefix has length zero. *)
Definition without_defaults (rt : RoutingTable) : RoutingTable :=
  set_routes rt (filter (λ r, 0 < mask_len r)%nat <$> routes rt).

Lemma in_without_defaults rt r : in_table (without_defaults rt) r ↔ in_table rt r ∧ (0 < mask_len r)%nat.
Proof.
  unfold in_table. cbn. setoid_rewrite lookup_fmap_Some. split.
  - intros (k & rs & (rs0 & <- & Hk) & [Hl Hin]%list_elem_of_filter). eauto.
  - intros [(k & rs & Hk & Hin) Hl]. exists k, (filter (λ r, 0 < mask_len r)%nat rs).
    split; [by exists rs|]. by apply list_elem_of_filter.
Qed.

Lemma without_defaults_id rt : (∀ r, in_table rt r → mask_len r ≠ 0%nat) → without_defaults rt = rt.
Proof.
  intros H. unfold without_defaults. destruct rt as [m self nets]. unfold set_routes. cbn in *. f_equal.
  apply map_eq. intros k. rewrite lookup_fmap. destruct (m !! k) as [rs|] eqn:Hk; [|done]. cbn. f_equal.
  assert (∀ r, r ∈ rs → (0 < mask_len r)%nat) as Hrs.
  { intros r Hr. assert (mask_len r ≠ 0%nat) by (apply H; by exists k, rs). lia. }
  clear H Hk. induction rs as [|r rs IH]; [done|]. rewrite filter_cons, decide_True by (apply Hrs; left). f_equal.
  apply IH. intros x Hx. apply Hrs. by right.
Qed.

Lemma Lookup_meets_spec rt order ip :
  enumerates order rt → lookup_spec (without_defaults rt) ip (Lookup rt order ip).
Proof.
  intros Hord. unfold lookup_spec, Lookup. cbn [directNetworks without_defaults set_routes].
  destruct (find _ _); [done|]. pose proof (lookup_loops_inv ip order) as Hinv.
  destruct (foldl _ _ _) as [[b|] n]; simpl in *.
  - destruct Hinv as (_ & Hin & Hc & Hall). split.
    { apply in_without_defaults. split; [by eapply elem_of_GetAllRoutes|apply Hc]. }
    split; [apply Hc|]. intros c [Hin' Hl]%in_without_defaults Hm. apply Hall; [by eapply elem_of_GetAllRoutes|by split].
  - destruct Hinv as [_ Hall]. intros c [Hin' Hl]%in_without_defaults. apply not_true_iff_false. intros Hm.
    apply (Hall c); [by eapply elem_of_GetAllRoutes|by split].
Qed.

(** C1: a look-up finds the best route, default routes aside, in whatever order the map is enumerated. A direct
    network wins; otherwise the result matches the address, has the longest prefix among the routes that match, and
    is best by preference, path length, cost and age among those; there is no result only when no route matches.
    This holds of the table without its default routes (0.0.0.0/0 and ::/0), which the code never picks, and so of
    the whole table when it has none. *)
Theorem Lookup_correct rt order ip :
  enumerates order rt →
  lookup_spec (without_defaults rt) ip (Lookup rt order ip) ∧
  ((∀ r, in_table rt r → mask_len r ≠ 0%nat) → lookup_spec rt ip (Lookup rt order ip)).
Proof.
  intros Hord. pose proof (Lookup_meets_spec rt order ip Hord) as H. split; [done|].
  intros Hd. by rewrite without_defaults_id in H.
Qed.

(** A second, longer route to the example network. *)
Definition longer_r : Route :=
  mkRoute (mkIPNet [x0a; x01; x02; x00] (CIDRMask 24 32)) node_c (mkASPath [node_c]) 9 node_c 1 0.
Definition two_routes : RoutingTable := fst (AddRoute example_table longer_r 60 60).

Lemma Lookup_correct_witness :
  lookup_spec (without_defaults two_routes) [x0a; x01; x02; x03]
    (Lookup two_routes (map_to_list (routes two_routes)) [x0a; x01; x02; x03]) ∧
  Lookup two_routes (map_to_list (routes two_routes)) [x0a; x01; x02; x03] =
    Some (with_Timestamp longer_r 60).
Proof.
  split; [|vm_compute; reflexivity].
  refine (proj1 (Lookup_correct two_routes (map_to_list (routes two_routes)) [x0a; x01; x02; x03] _)).
  unfold enumerates. reflexivity.
Defined.

(** The random order of map iteration does not matter: two runs of [Lookup] on
    the same table both fail or return routes with the same prefix length,
    preference, path length, cost and age. *)
Lemma Lookup_deterministic rt order order' ip :
  enumerates order rt → enumerates order' rt →
  criteria <$> Lookup rt order ip = criteria <$> Lookup rt order' ip.
Proof.
  intros H1%(Lookup_meets_spec _ _ ip) H2%(Lookup_meets_spec _ _ ip). unfold lookup_spec in *.
  destruct (find _ _); [by rewrite H1, H2|].
  destruct (Lookup rt order ip) as [r1|], (Lookup rt order' ip) as [r2|]; simpl; [|exfalso..|done].
  - destruct H1 as (Hin1 & Hc1 & Hall1), H2 as (Hin2 & Hc2 & Hall2).
    f_equal. apply lex_le_antisym; [done|apply Hall1; done|apply Hall2; done].
  - destruct H1 as (Hin & Hc & _). by rewrite (H2 _ Hin) in Hc.
  - destruct H2 as (Hin & Hc & _). by rewrite (H1 _ Hin) in Hc.
Qed.

Lemma Lookup_deterministic_witness :
  criteria <$> Lookup two_routes (map_to_list (routes two_routes)) [x0a; x01; x02; x03] =
  criteria <$> Lookup two_routes (rev (map_to_list (routes two_routes))) [x0a; x01; x02; x03].
Proof.
  apply (Lookup_deterministic two_routes (map_to_list (routes two_routes))
    (rev (map_to_list (routes two_routes))) [x0a; x01; x02; x03]).
  - unfold enumerates. reflexivity.
  - unfold enumerates. symmetry. apply Permutation_rev.
Defined.

(** A default route is never used: [bestMaskLen] starts at 0 and only a longer
    prefix replaces it, so when all the routes that match have prefix length 0, as in
    the set-up of the README where an exit node announces 0.0.0.0/0, [Lookup] finds
    nothing. *)
Lemma default_route_ignored rt order ip :
  enumerates order rt →
  (∀ nw, nw ∈ directNetworks rt → Contains nw ip = false) →
  (∀ r, in_table rt r → Contains (Destination r) ip = true → mask_len r = 0%nat) →
  Lookup rt order ip = None.
Proof.
  intros Hord Hdirect Hzero. pose proof (Lookup_meets_spec _ _ ip Hord) as Hs.
  unfold lookup_spec in Hs. cbn [directNetworks without_defaults set_routes] in Hs.
  destruct (find _ (directNetworks rt)) as [nw|] eqn:Hf.
  { apply find_some in Hf as [Hin%list_elem_of_In Hc]. by rewrite Hdirect in Hc. }
  destruct (Lookup rt order ip) as [r|]; [|done].
  destruct Hs as ([Hin Hl]%in_without_defaults & Hc & _). specialize (Hzero r Hin Hc). lia.
Qed.

Definition exit_route : Route :=
  mkRoute (mkIPNet [x00; x00; x00; x00] (CIDRMask 0 32)) node_b (mkASPath [node_b]) 2 node_b 100 0.
Definition entry_table : RoutingTable := fst (AddRoute (NewRoutingTable node_a) exit_route 10 10).

Lemma default_route_ignored_witness :
  Contains (Destination exit_route) [x08; x08; x08; x08] = true ∧
  Lookup entry_table (map_to_list (routes entry_table)) [x08; x08; x08; x08] = None.
Proof.
  split; [vm_compute; reflexivity|].
  apply (default_route_ignored entry_table (map_to_list (routes entry_table)) [x08; x08; x08; x08]).
  - unfold enumerates. reflexivity.
  - intros nw Hnw. exfalso. revert Hnw. apply not_elem_of_nil.
  - intros r (k & rs & Hk & Hr) _.
    assert (routes entry_table = {["0.0.0.0/0" := [with_Timestamp exit_route 10]]}) as E
      by (vm_compute; reflexivity).
    rewrite E in Hk. apply lookup_singleton_Some in Hk as [_ <-].
    apply list_elem_of_singleton in Hr as ->. vm_compute. reflexivity.
Defined.
