(* ===== verification/Propagation.v ===== *)
(** * Route propagation ([route/propagation.go])

    The propagator turns received advertisements into table updates and further
    messages. The callbacks it is given are represented by whether they are set and,
    for [getPeersFunc], by what it returns; what it sends through them is the list of
    effects of an operation, in order. *)

From S2P Require Import Prelude Bytes Net Crypto Identity Wire WireRoute RoutePath RouteTable.
From stdpp Require Import options.

Inductive effect := Send (peer : NodeID) (msg : list byte) | Broadcast (msg : list byte).

#[export] Instance effect_eq_dec : EqDecision effect.
Proof. solve_decision. Defined.

Record Propagator := mkPropagator {
  table : RoutingTable;
  p_selfID : NodeID;
  sendFunc : bool;
  broadcastFunc : bool;
  getPeersFunc : option (list NodeID);
  interval : Z }.

Definition set_table (p : Propagator) (rt : RoutingTable) : Propagator :=
  mkPropagator rt (p_selfID p) (sendFunc p) (broadcastFunc p) (getPeersFunc p) (interval p).

Definition NewPropagator (rt : RoutingTable) (selfID : NodeID) (ival : Z) : Propagator :=
  mkPropagator rt selfID false false None ival.

Definition SetSender (p : Propagator) : Propagator :=
  mkPropagator (table p) (p_selfID p) true (broadcastFunc p) (getPeersFunc p) (interval p).
Definition SetBroadcaster (p : Propagator) : Propagator :=
  mkPropagator (table p) (p_selfID p) (sendFunc p) true (getPeersFunc p) (interval p).
Definition SetPeersFunc (p : Propagator) (peers : list NodeID) : Propagator :=
  mkPropagator (table p) (p_selfID p) (sendFunc p) (broadcastFunc p) (Some peers) (interval p).

(** ** Encoding *)

Definition toWireID (id : NodeID) : array 16 := array_copy 16 (bytes_of id).
Definition ToNodeID (w : array 16) : NodeID := array_copy 16 (bytes_of w).

Definition encodeRoute (r : Route) : list byte :=
  EncodeRouteMessage (mkRouteMessage RouteFlagUpdate (Destination r) (Cost r)
    (toWireID (Origin r)) (LocalPref r) (ToWire (r_ASPath r))).

(** The advertisement of a route: this node is prepended to the path. *)
Definition encodeRouteWithSelf (p : Propagator) (r : Route) : list byte :=
  EncodeRouteMessage (mkRouteMessage RouteFlagUpdate (Destination r) (Cost r)
    (toWireID (Origin r)) (LocalPref r) (ToWire (CloneWithHop (r_ASPath r) (p_selfID p)))).

Definition encodeWithdrawal (r : Route) : list byte :=
  EncodeRouteMessage (mkRouteMessage RouteFlagWithdraw (Destination r) (Cost r)
    (toWireID (Origin r)) (LocalPref r) (ToWire (r_ASPath r))).

(** ** Sending *)

(** Send errors are only logged. *)
Definition propagateExcept (p : Propagator) (msg : list byte) (except : NodeID) : list effect :=
  match getPeersFunc p with
  | Some peers =>
      if sendFunc p
      then map (λ peer, Send peer msg) (filter (λ peer, NodeID_Equal peer except = false) peers)
      else []
  | None => []
  end.

Definition broadcast (p : Propagator) (msg : list byte) : list effect :=
  if broadcastFunc p then [Broadcast msg] else [].

(** ** Handlers *)

Definition is_withdrawal (msg : RouteMessage) : bool :=
  negb (Z.land (byte_val (rm_Flags msg)) (byte_val RouteFlagWithdraw) =? 0).

(** The route a received update describes. *)
Definition received_route (fromPeer : NodeID) (msg : RouteMessage) : Route :=
  mkRoute (rm_Prefix msg) fromPeer (ASPathFromWire (rm_ASPath msg)) (rm_Cost msg +u32 1)
    (ToNodeID (rm_Origin msg)) (rm_LocalPref msg) 0.

(** A decoding error is logged and the message dropped; a panic of the decoder is a
    panic of the node. *)
Definition HandleRouteUpdate (p : Propagator) (fromPeer : NodeID) (data : Slice) (now now' : Z)
    : res wire_error (Propagator * list effect) :=
  match DecodeRouteMessage data with
  | Panic => Panic
  | Err _ => Ok (p, [])
  | Ok msg =>
      let origin := ToNodeID (rm_Origin msg) in
      if is_withdrawal msg then
        let p' := set_table p (RemoveRoute (table p) (rm_Prefix msg) origin) in
        Ok (p', propagateExcept p' (contents data) fromPeer)
      else
        let asPath := ASPathFromWire (rm_ASPath msg) in
        if path_Contains asPath (p_selfID p) then Ok (p, [])
        else if (32 <=? path_Len asPath)%nat then Ok (p, [])
        else
          let route := received_route fromPeer msg in
          let '(rt, changed) := AddRoute (table p) route now now' in
          let p' := set_table p rt in
          if changed
          then Ok (p', propagateExcept p' (encodeRouteWithSelf p' route) fromPeer)
          else Ok (p', [])
  end.

(** The route to a network this node is attached to. *)
Definition local_route (self : NodeID) (nw : IPNet) : Route :=
  mkRoute nw self NewASPath 1 self 100 0.

(** The loop over the direct networks; [clock] gives the successive readings of the
    time, two for each network. *)
Fixpoint advertise_nets (p : Propagator) (nets : list IPNet) (clock : nat → Z) (i : nat)
    : Propagator * list effect :=
  match nets with
  | [] => (p, [])
  | nw :: nets =>
      let route := local_route (p_selfID p) nw in
      let p := set_table p (fst (AddRoute (table p) route (clock i) (clock (S i)))) in
      let msg := encodeRouteWithSelf p route in
      let '(p', eff) := advertise_nets p nets clock (S (S i)) in
      (p', broadcast p msg ++ eff)
  end.

Definition AdvertiseDirectNetworks (p : Propagator) (clock : nat → Z) : Propagator * list effect :=
  advertise_nets p (GetDirectNetworks (table p)) clock 0.

(** [order] enumerates the table before the routes are removed. *)
Definition WithdrawAllFromPeer (p : Propagator) (order : list (string * list Route))
    (peerID : NodeID) : Propagator * list effect :=
  let routes := GetAllRoutes order in
  let p' := set_table p (RemoveAllFromOrigin (table p) peerID) in
  (p', concat (map (λ r, broadcast p' (encodeWithdrawal r))
         (filter (λ r, NodeID_Equal (NextHop r) peerID || NodeID_Equal (Origin r) peerID = true)
            routes))).

(** One tick of [advertiseLoop]: the direct networks, then every route of the table,
    to every peer. [order] enumerates the table after the direct networks are added. *)
Definition advertise_tick (p : Propagator) (clock : nat → Z)
    (order : list (string * list Route)) : Propagator * list effect :=
  let '(p', eff) := AdvertiseDirectNetworks p clock in
  (p', eff ++ concat (map (λ r, broadcast p' (encodeRouteWithSelf p' r)) (GetAllRoutes order))).

(** ** Lemmas *)

Lemma toWireID_id id : toWireID id = id.
Proof. apply array_copy_bytes_of. Qed.
Lemma ToNodeID_id w : ToNodeID w = w.
Proof. apply array_copy_bytes_of. Qed.

(** Routes that can be put on the wire without loss. *)
Record route_ok (r : Route) : Prop := {
  route_prefix : prefix_ok (Destination r);
  route_cost : fits 32 (Cost r);
  route_pref : fits 32 (LocalPref r);
  route_len : (path_Len (r_ASPath r) ≤ 32)%nat }.

(** The message a route is advertised with. *)
Definition advert (self : NodeID) (r : Route) : RouteMessage :=
  mkRouteMessage RouteFlagUpdate (Destination r) (Cost r) (Origin r) (LocalPref r)
    (self :: Hops (r_ASPath r)).

Lemma encodeRouteWithSelf_advert p r :
  encodeRouteWithSelf p r = EncodeRouteMessage (advert (p_selfID p) r).
Proof. unfold encodeRouteWithSelf, advert. by rewrite toWireID_id, ToWire_hops. Qed.

Lemma advert_ok self r :
  route_ok r → (path_Len (r_ASPath r) < 32)%nat → route_msg_ok (advert self r).
Proof. intros [] Hl. split; try done. Qed.

Definition withdrawal (r : Route) : RouteMessage :=
  mkRouteMessage RouteFlagWithdraw (Destination r) (Cost r) (Origin r) (LocalPref r)
    (Hops (r_ASPath r)).

Lemma encodeWithdrawal_eq r : encodeWithdrawal r = EncodeRouteMessage (withdrawal r).
Proof. unfold encodeWithdrawal, withdrawal. by rewrite toWireID_id, ToWire_hops. Qed.

Lemma withdrawal_ok r : route_ok r → route_msg_ok (withdrawal r).
Proof. intros []. by split. Qed.

Lemma propagateExcept_elem p msg except e :
  e ∈ propagateExcept p msg except → ∃ peer, e = Send peer msg ∧ peer ≠ except.
Proof.
  unfold propagateExcept. destruct (getPeersFunc p) as [peers|]; [|by intros ?%not_elem_of_nil].
  destruct (sendFunc p); [|by intros ?%not_elem_of_nil].
  intros (peer & -> & Hin)%list_elem_of_fmap. apply list_elem_of_filter in Hin as [Hne _].
  exists peer. split; [done|]. intros ->. unfold NodeID_Equal in Hne.
  by rewrite bool_decide_true in Hne.
Qed.

Lemma propagateExcept_sends p msg except peers :
  getPeersFunc p = Some peers → sendFunc p = true → ∀ peer, peer ∈ peers → peer ≠ except →
  Send peer msg ∈ propagateExcept p msg except.
Proof.
  intros Hp Hs peer Hin Hne. unfold propagateExcept. rewrite Hp, Hs.
  apply list_elem_of_fmap. exists peer. split; [done|]. apply list_elem_of_filter.
  split; [|done]. unfold NodeID_Equal. by apply bool_decide_false.
Qed.

(** The received route in terms of the message, and what it becomes on the wire again. *)
Lemma received_route_eq from msg :
  received_route from msg =
  mkRoute (rm_Prefix msg) from (mkASPath (rm_ASPath msg)) (rm_Cost msg +u32 1) (rm_Origin msg)
    (rm_LocalPref msg) 0.
Proof. unfold received_route. by rewrite ASPathFromWire_hops, ToNodeID_id. Qed.

Lemma received_route_ok from msg : route_msg_ok msg → route_ok (received_route from msg).
Proof.
  rewrite received_route_eq. intros []. split; try done. simpl. by apply wrap_fits.
Qed.

Lemma route_norm_ok msg : route_msg_ok msg → route_msg_ok (route_norm msg).
Proof. intros []. split; try done. by apply prefix_ok_norm. Qed.

Lemma AddRoute_keeps rt r now now' :
  rt_selfID (fst (AddRoute rt r now now')) = rt_selfID rt ∧
  directNetworks (fst (AddRoute rt r now now')) = directNetworks rt.
Proof. unfold AddRoute. repeat case_match; done. Qed.

(** [HandleRouteUpdate] on a well-formed message, in terms of the message. *)
Lemma handle_update_eq p from msg tail sp now now' :
  route_msg_ok msg → is_withdrawal msg = false →
  p_selfID p ∉ rm_ASPath msg → (length (rm_ASPath msg) < 32)%nat →
  let r := received_route from (route_norm msg) in
  let '(rt, changed) := AddRoute (table p) r now now' in
  HandleRouteUpdate p from (mkSlice (EncodeRouteMessage msg ++ tail) sp) now now' =
  Ok (set_table p rt,
      if changed
      then propagateExcept p (EncodeRouteMessage (advert (p_selfID p) r)) from else []).
Proof.
  intros Hok Hw Hself Hlen. cbv zeta.
  destruct (AddRoute _ _ _ _) as [rt changed] eqn:Hadd.
  unfold HandleRouteUpdate. rewrite decode_encode_route by done. cbv zeta.
  change (is_withdrawal (route_norm msg)) with (is_withdrawal msg). rewrite Hw.
  rewrite ASPathFromWire_hops. change (rm_ASPath (route_norm msg)) with (rm_ASPath msg).
  replace (path_Contains _ _) with false by (symmetry; by apply path_Contains_false).
  change (path_Len (mkASPath (rm_ASPath msg))) with (length (rm_ASPath msg)).
  destruct (Nat.leb_spec 32 (length (rm_ASPath msg))); [lia|].
  rewrite Hadd. destruct changed; [|done]. by rewrite encodeRouteWithSelf_advert.
Qed.

Lemma handle_withdrawal_eq p from msg tail sp now now' :
  route_msg_ok msg → is_withdrawal msg = true →
  HandleRouteUpdate p from (mkSlice (EncodeRouteMessage msg ++ tail) sp) now now' =
  Ok (set_table p (RemoveRoute (table p) (prefix_norm (rm_Prefix msg)) (rm_Origin msg)),
      propagateExcept p (EncodeRouteMessage msg ++ tail) from).
Proof.
  intros Hok Hw. unfold HandleRouteUpdate. rewrite decode_encode_route by done. cbv zeta.
  change (is_withdrawal (route_norm msg)) with (is_withdrawal msg). rewrite Hw.
  rewrite ToNodeID_id. done.
Qed.

Lemma RemoveRoute_norm rt n o : prefix_ok n → RemoveRoute rt (prefix_norm n) o = RemoveRoute rt n o.
Proof. intros Hn. unfold RemoveRoute. by rewrite IPNet_String_norm. Qed.

(** The table after any update is the one before, or before with a route added or
    removed. *)
Lemma HandleRouteUpdate_cases p from data now now' p' eff :
  HandleRouteUpdate p from data now now' = Ok (p', eff) →
  (table p' = table p ∨ (∃ d o, table p' = RemoveRoute (table p) d o) ∨
   (∃ r, table p' = fst (AddRoute (table p) r now now'))) ∧
  (∀ e, e ∈ eff → ∃ peer m, e = Send peer m ∧ peer ≠ from).
Proof.
  unfold HandleRouteUpdate.
  assert (∀ e : effect, e ∈ [] → ∃ peer m, e = Send peer m ∧ peer ≠ from) as Hnil
    by (intros e He; by apply not_elem_of_nil in He).
  assert (∀ q m e, e ∈ propagateExcept q m from → ∃ peer m, e = Send peer m ∧ peer ≠ from) as Hex
    by (intros q m e (peer & -> & ?)%propagateExcept_elem; eauto).
  destruct (DecodeRouteMessage data) as [msg|e|]; [|intros [= <- <-]; auto|done].
  destruct (is_withdrawal msg); [intros [= <- <-]; split; [eauto|apply Hex]|].
  destruct (path_Contains _ _); [intros [= <- <-]; auto|].
  destruct (32 <=? _)%nat; [intros [= <- <-]; auto|].
  destruct (AddRoute _ _ _ _) as [rt [|]] eqn:Hadd; intros [= <- <-]; simpl;
    (split; [|first [apply Hnil | apply Hex]]); right; right; eexists; by rewrite Hadd.
Qed.

(** ** Properties *)

(** C8: an update that does not contain this node and is shorter than 32 hops is
    stored with the sender as next hop, the path as received and the cost plus one;
    when the table changed, every other alive peer, and no one else, is sent a
    message that its own decoder reads as the same route with this node prepended to
    the path. *)
Theorem update_relayed p from msg tail sp now now' peers :
  route_msg_ok msg → is_withdrawal msg = false →
  p_selfID p ∉ rm_ASPath msg → (length (rm_ASPath msg) < 32)%nat →
  getPeersFunc p = Some peers → sendFunc p = true →
  let r := mkRoute (prefix_norm (rm_Prefix msg)) from (mkASPath (rm_ASPath msg))
             (rm_Cost msg +u32 1) (rm_Origin msg) (rm_LocalPref msg) 0 in
  ∃ p' eff,
    HandleRouteUpdate p from (mkSlice (EncodeRouteMessage msg ++ tail) sp) now now' = Ok (p', eff) ∧
    table p' = fst (AddRoute (table p) r now now') ∧
    (∀ peer, (∃ m, Send peer m ∈ eff) ↔
       snd (AddRoute (table p) r now now') = true ∧ peer ∈ peers ∧ peer ≠ from) ∧
    (∀ peer m tail' sp', Send peer m ∈ eff →
       DecodeRouteMessage (mkSlice (m ++ tail') sp') =
       Ok (mkRouteMessage RouteFlagUpdate (prefix_norm (rm_Prefix msg)) (rm_Cost msg +u32 1)
             (rm_Origin msg) (rm_LocalPref msg) (p_selfID p :: rm_ASPath msg))).
Proof.
  intros Hok Hw Hself Hlen Hpeers Hsend r.
  assert (received_route from (route_norm msg) = r) as Hr by apply received_route_eq.
  assert (route_ok r) as Hrok by (rewrite <- Hr; by apply received_route_ok, route_norm_ok).
  pose proof (handle_update_eq p from msg tail sp now now' Hok Hw Hself Hlen) as H.
  cbv zeta in H. rewrite Hr in H. destruct (AddRoute (table p) r now now') as [rt changed].
  eexists _, _. split; [done|]. split; [done|]. simpl. split.
  - intros peer. split.
    + intros [m Hm]. destruct changed; [|by apply not_elem_of_nil in Hm].
      unfold propagateExcept in Hm. rewrite Hpeers, Hsend in Hm.
      apply list_elem_of_fmap in Hm as (q & [= -> ->] & Hq).
      apply list_elem_of_filter in Hq as [Hne Hin]. split_and!; try done.
      intros ->. unfold NodeID_Equal in Hne. by rewrite bool_decide_true in Hne.
    + intros (-> & Hin & Hne). eexists. by eapply propagateExcept_sends.
  - intros peer m tail' sp' Hm. destruct changed; [|by apply not_elem_of_nil in Hm].
    unfold propagateExcept in Hm. rewrite Hpeers, Hsend in Hm.
    apply list_elem_of_fmap in Hm as (q & [= -> ->] & Hq).
    rewrite decode_encode_route by (apply advert_ok; [done|exact Hlen]).
    unfold route_norm, advert. simpl. by rewrite prefix_norm_idem by apply Hok.
Qed.

Definition example_prop : Propagator :=
  SetPeersFunc (SetBroadcaster (SetSender (NewPropagator (NewRoutingTable node_a) node_a 30)))
    [node_b; node_c].
Definition example_msg : RouteMessage :=
  mkRouteMessage RouteFlagUpdate example_net 1 node_b 100 [node_b].

Lemma example_msg_ok : route_msg_ok example_msg.
Proof. split; [|unfold fits; simpl; lia..]. exists 16%nat. vm_compute. split; [lia|done]. Qed.

Lemma update_relayed_witness :
  ∃ p' eff,
    HandleRouteUpdate example_prop node_b (mkSlice (EncodeRouteMessage example_msg ++ []) []) 5 5 =
      Ok (p', eff) ∧
    (∃ m, Send node_c m ∈ eff) ∧ ¬ (∃ m, Send node_b m ∈ eff).
Proof.
  assert (p_selfID example_prop ∉ rm_ASPath example_msg) as Hself.
  { intros Hin. apply list_elem_of_singleton in Hin. by apply (f_equal bytes_of) in Hin. }
  destruct (update_relayed example_prop node_b example_msg [] [] 5 5 [node_b; node_c]
    example_msg_ok eq_refl Hself ltac:(simpl; lia) eq_refl eq_refl) as (p' & eff & H & _ & Hs & _).
  exists p', eff. split; [exact H|]. split.
  - apply Hs. split; [vm_compute; reflexivity|]. split.
    + right. left.
    + intros Heq. by apply (f_equal bytes_of) in Heq.
  - intros Hm. apply Hs in Hm as (_ & _ & Hne). by apply Hne.
Defined.

(** Whatever bytes a peer sends, handling them keeps the table well formed and
    never sends anything back to that peer nor broadcasts (split horizon). *)
Lemma update_split_horizon p from data now now' p' eff :
  table_ok (table p) → HandleRouteUpdate p from data now now' = Ok (p', eff) →
  table_ok (table p') ∧ ∀ e, e ∈ eff → ∃ peer m, e = Send peer m ∧ peer ≠ from.
Proof.
  intros Hok H. apply HandleRouteUpdate_cases in H as [Ht He]. split; [|done].
  destruct Ht as [-> |[(d & o & ->)|(r & ->)]]; auto with go.
Qed.

Lemma update_split_horizon_witness :
  ∃ p' eff,
    HandleRouteUpdate example_prop node_b (whole (EncodeRouteMessage example_msg)) 5 5 = Ok (p', eff) ∧
    table_ok (table p') ∧ ∀ e, e ∈ eff → ∃ peer m, e = Send peer m ∧ peer ≠ node_b.
Proof.
  destruct (HandleRouteUpdate example_prop node_b (whole (EncodeRouteMessage example_msg)) 5 5)
    as [[p' eff]|e|] eqn:H; [|exfalso; vm_compute in H; discriminate H..].
  exists p', eff. split; [reflexivity|].
  apply (update_split_horizon example_prop node_b (whole (EncodeRouteMessage example_msg)) 5 5);
    [apply map_Forall_empty|exact H].
Defined.

(** The cost of an update wraps around: an advertisement of cost [2^32 - 1], the
    worst there is, is stored with cost 0, better than any honest one. *)
Lemma update_cost_wraps p from msg tail sp now now' :
  route_msg_ok msg → is_withdrawal msg = false → rm_Cost msg = 2 ^ 32 - 1 →
  p_selfID p ∉ rm_ASPath msg → (length (rm_ASPath msg) < 32)%nat →
  rt_selfID (table p) = p_selfID p → routes (table p) = ∅ →
  ∃ p' eff r,
    HandleRouteUpdate p from (mkSlice (EncodeRouteMessage msg ++ tail) sp) now now' = Ok (p', eff) ∧
    get_route (table p') (IPNet_String (rm_Prefix msg)) (rm_Origin msg, from) = Some r ∧ Cost r = 0.
Proof.
  intros Hok Hw Hcost Hself Hlen Hrt Hempty.
  pose proof (handle_update_eq p from msg tail sp now now' Hok Hw Hself Hlen) as H.
  cbv zeta in H. destruct (AddRoute _ _ _ _) as [rt changed] eqn:Hadd.
  assert (rt = fst (AddRoute (table p) (received_route from (route_norm msg)) now now')) as Hrt'
    by by rewrite Hadd.
  destruct (get_route_AddRoute (table p) (received_route from (route_norm msg)) now now')
    as [Hget _].
  { by rewrite Hrt, received_route_eq. }
  rewrite received_route_eq in Hget, Hrt'. simpl in Hget. rewrite IPNet_String_norm in Hget by apply Hok.
  eexists _, _, _. split; [exact H|]. simpl. rewrite Hrt', Hget, decide_True by done.
  split; [reflexivity|]. unfold get_route. rewrite Hempty, lookup_empty. simpl.
  by rewrite Hcost.
Qed.

(** C37: when a peer goes away, its routes leave the table, and for each of them the
    message that is broadcast makes any node that receives it drop every route of that
    prefix and origin. *)
Theorem peer_withdrawn p order peer r :
  table_ok (table p) → enumerates order (table p) → broadcastFunc p = true →
  (∃ k rs, routes (table p) !! k = Some rs ∧ r ∈ rs) → route_ok r →
  NextHop r = peer ∨ Origin r = peer →
  let '(p', eff) := WithdrawAllFromPeer p order peer in
  get_route (table p') (IPNet_String (Destination r)) (slot_of r) = None ∧
  Broadcast (encodeWithdrawal r) ∈ eff ∧
  ∀ q from tail sp now now', table_ok (table q) →
    ∃ q' eff',
      HandleRouteUpdate q from (mkSlice (encodeWithdrawal r ++ tail) sp) now now' = Ok (q', eff') ∧
      ∀ nh, get_route (table q') (IPNet_String (Destination r)) (Origin r, nh) = None.
Proof.
  intros Hok Hord Hb Hin Hr Hpeer. unfold WithdrawAllFromPeer. split; [|split].
  - simpl. unfold RemoveAllFromOrigin. rewrite get_route_sweep by done.
    destruct (get_route _ _ _) as [r'|] eqn:E; simpl; [|done].
    unfold get_route in E. destruct (routes (table p) !! _) as [rs|]; [|done].
    apply find_slot_Some in E as [[= Ho Hn] _]. unfold NodeID_Equal. rewrite Ho, Hn.
    destruct Hpeer as [-> | ->].
    + by rewrite (bool_decide_true (peer = peer)), andb_false_r by done.
    + by rewrite (bool_decide_true (peer = peer)) by done.
  - apply list_elem_of_In, in_concat. exists [Broadcast (encodeWithdrawal r)].
    split; [|by left]. apply list_elem_of_In, list_elem_of_fmap. exists r.
    unfold broadcast. simpl. rewrite Hb. split; [done|]. apply list_elem_of_filter.
    split; [|destruct Hin as (k & rs & Hk & Hrs); unfold GetAllRoutes].
    + unfold NodeID_Equal. destruct Hpeer as [-> | ->];
        by rewrite (bool_decide_true (peer = peer)), ?orb_true_r by done.
    + apply list_elem_of_In, in_concat. exists rs. split; [|by apply list_elem_of_In].
      apply list_elem_of_In, list_elem_of_fmap. exists (k, rs). split; [done|].
      rewrite Hord. by apply elem_of_map_to_list.
  - intros q from tail sp now now' Hq. rewrite encodeWithdrawal_eq.
    rewrite handle_withdrawal_eq by (try done; by apply withdrawal_ok).
    eexists _, _. split; [done|]. intros nh. simpl.
    rewrite RemoveRoute_norm by apply Hr. rewrite get_route_RemoveRoute by done.
    by rewrite decide_True.
Qed.

Lemma peer_withdrawn_witness :
  let p := set_table example_prop example_table in
  let '(p', eff) := WithdrawAllFromPeer p (map_to_list (routes example_table)) node_b in
  get_route (table p') "10.1.0.0/16" (node_c, node_b) = None ∧
  Broadcast (encodeWithdrawal (with_Timestamp example_r 50)) ∈ eff.
Proof.
  intros p.
  pose proof (peer_withdrawn p (map_to_list (routes example_table)) node_b
    (with_Timestamp example_r 50) example_table_ok) as H.
  destruct (WithdrawAllFromPeer _ _ _) as [p' eff].
  destruct H as (H1 & H2 & _).
  - unfold enumerates. reflexivity.
  - reflexivity.
  - exists "10.1.0.0/16", [with_Timestamp example_r 50]. split; [vm_compute; reflexivity|left].
  - split; [exists 16%nat; vm_compute; split; [lia|done]|unfold fits, path_Len; simpl; lia..].
  - left. reflexivity.
  - split; [|exact H2].
    change (get_route (table p') (IPNet_String example_net) (slot_of (with_Timestamp example_r 50)) = None).
    exact H1.
Defined.
