(* ===== verification/Peers.v ===== *)
(** * The peer table of the gossip protocol ([gossip/peer.go])

    Entries are never changed in place: every update stores a fresh copy, so a
    pointer obtained from the table is a value. The lock makes each operation
    atomic. *)

From S2P Require Import Prelude Bytes Crypto Identity Wire WireGossip.
From stdpp Require Import options.

Record Peer := mkPeer {
  ID : NodeID;
  PubKey : list byte;
  Addr : list byte;
  State : byte;
  Version : Z;
  LastSeen : Z;
  DirectNets : list string }.

#[export] Instance Peer_eq_dec : EqDecision Peer.
Proof. solve_decision. Defined.

Record PeerManager := mkPeerManager { peers : gmap string Peer; pm_selfID : NodeID }.

Definition set_peer (pm : PeerManager) (key : string) (p : Peer) : PeerManager :=
  mkPeerManager (<[key := p]> (peers pm)) (pm_selfID pm).

Definition NewPeerManager (selfID : NodeID) : PeerManager := mkPeerManager ∅ selfID.

(** [Peer.copy]: the keys and networks are cloned, so the copy is equal. *)
Definition copy_peer (p : Peer) : Peer :=
  mkPeer (ID p) (PubKey p) (Addr p) (State p) (Version p) (LastSeen p) (DirectNets p).

(** A peer seen for the first time starts at version 1, whatever was announced. *)
Definition first_entry (p : Peer) (now : Z) : Peer :=
  mkPeer (ID p) (PubKey p) (Addr p) (State p) 1 now (DirectNets p).

Definition updated_entry (existing p : Peer) (now : Z) : Peer :=
  mkPeer (ID existing) (if decide (PubKey p = []) then PubKey existing else PubKey p)
    (Addr p) (State p) (Version p) now (DirectNets p).

(** News: a higher version, or a sign of life of the same version. *)
Definition is_news (existing p : Peer) : bool :=
  (Version existing <? Version p) ||
  ((Version p =? Version existing) && bool_decide (State p = PeerAlive)).

Definition AddOrUpdate (pm : PeerManager) (p : Peer) (now : Z) : PeerManager * bool :=
  if NodeID_Equal (ID p) (pm_selfID pm) then (pm, false) else
  let key := NodeID_String (ID p) in
  match peers pm !! key with
  | None => (set_peer pm key (first_entry p now), true)
  | Some existing =>
      if is_news existing p then (set_peer pm key (updated_entry existing p now), true)
      else (pm, false)
  end.

Definition Remove (pm : PeerManager) (id : NodeID) : PeerManager :=
  mkPeerManager (delete (NodeID_String id) (peers pm)) (pm_selfID pm).

Definition Get (pm : PeerManager) (id : NodeID) : option Peer := peers pm !! NodeID_String id.

Definition with_state (p : Peer) (st : byte) (v seen : Z) : Peer :=
  mkPeer (ID p) (PubKey p) (Addr p) st v seen (DirectNets p).

Definition MarkSuspect (pm : PeerManager) (id : NodeID) : PeerManager :=
  match Get pm id with
  | None => pm
  | Some p =>
      if bool_decide (State p = PeerAlive)
      then set_peer pm (NodeID_String id) (with_state p PeerSuspect (Version p +u64 1) (LastSeen p))
      else pm
  end.

Definition MarkDead (pm : PeerManager) (id : NodeID) : PeerManager :=
  match Get pm id with
  | None => pm
  | Some p => set_peer pm (NodeID_String id) (with_state p PeerDead (Version p +u64 1) (LastSeen p))
  end.

Definition MarkAlive (pm : PeerManager) (id : NodeID) (now : Z) : PeerManager :=
  match Get pm id with
  | None => pm
  | Some p => set_peer pm (NodeID_String id) (with_state p PeerAlive (Version p) now)
  end.

(** ** Enumeration: [order] is any enumeration of the map *)

Definition peers_order (order : list (string * Peer)) (pm : PeerManager) : Prop :=
  order ≡ₚ map_to_list (peers pm).

Definition GetAll (order : list (string * Peer)) : list Peer := map snd order.

Definition is_alive (p : Peer) : bool := bool_decide (State p = PeerAlive).

Definition GetAlive (order : list (string * Peer)) : list Peer :=
  filter (λ p, is_alive p = true) (GetAll order).

Definition Count (order : list (string * Peer)) (st : byte) : nat :=
  length (filter (λ p, bool_decide (State p = st) = true) (GetAll order)).

(** ** Random choice *)

(** One step of the xorshift generator on a [uint32]. *)
Definition fastRand (s : Z) : Z :=
  let s := Z.lxor s (wrap 32 (s ≪ 13)) in
  let s := Z.lxor s (s ≫ 17) in
  Z.lxor s (wrap 32 (s ≪ 5)).

(** [result[i], result[j] = result[j], result[i]] *)
Definition swap {A} (l : list A) (i j : nat) : list A :=
  match l !! i, l !! j with
  | Some x, Some y => <[j := x]> (<[i := y]> l)
  | _, _ => l
  end.

(** The shuffle loop, from index [i] down to 1. *)
Fixpoint shuffle {A} (i : nat) (l : list A) (rng : Z) : list A * Z :=
  match i with
  | O => (l, rng)
  | S i' =>
      let rng := fastRand rng in
      let j := Z.to_nat (rng mod Z.of_nat (i + 1)) in
      shuffle i' (swap l i j) rng
  end.

Definition GetRandom (order : list (string * Peer)) (n : nat) (exclude : NodeID) (rng : Z)
    : list Peer * Z :=
  let alive := filter (λ p, is_alive p && negb (NodeID_Equal (ID p) exclude) = true) (GetAll order) in
  if (length alive <=? n)%nat then (alive, rng)
  else let '(result, rng) := shuffle (length alive - 1) alive rng in (take n result, rng).

(** ** Well-formed tables *)

(** Every entry is filed under its own identifier, is not this node, and has a
    version that fits in 64 bits. *)
Definition peer_ok (self : NodeID) (key : string) (p : Peer) : Prop :=
  key = NodeID_String (ID p) ∧ ID p ≠ self ∧ fits 64 (Version p).

Definition pm_ok (pm : PeerManager) : Prop := map_Forall (peer_ok (pm_selfID pm)) (peers pm).

Lemma set_peer_ok pm key p :
  pm_ok pm → peer_ok (pm_selfID pm) key p → pm_ok (set_peer pm key p).
Proof. intros Hok Hp. by apply map_Forall_insert_2. Qed.

Lemma Get_ok pm id p : pm_ok pm → Get pm id = Some p → ID p = id ∧ ID p ≠ pm_selfID pm ∧ fits 64 (Version p).
Proof.
  intros Hok Hp. destruct (Hok _ _ Hp) as (Hk & ? & ?). split; [|done]. symmetry.
  by apply (inj NodeID_String).
Qed.

Lemma AddOrUpdate_ok pm p now :
  pm_ok pm → fits 64 (Version p) → pm_ok (fst (AddOrUpdate pm p now)).
Proof.
  intros Hok Hv. unfold AddOrUpdate. destruct (NodeID_Equal _ _) eqn:Hs; [done|].
  assert (ID p ≠ pm_selfID pm) as Hne by (intros E%NodeID_Equal_eq; congruence).
  destruct (peers pm !! _) as [ex|] eqn:Hl.
  - destruct (is_news ex p); [|done]. destruct (Hok _ _ Hl) as (Hk & ? & _).
    by apply set_peer_ok.
  - apply set_peer_ok; [done|]. split_and!; [done..|]. unfold fits. simpl. lia.
Qed.

Lemma MarkSuspect_ok pm id : pm_ok pm → pm_ok (MarkSuspect pm id).
Proof.
  intros Hok. unfold MarkSuspect. destruct (Get pm id) as [p|] eqn:Hp; [|done].
  destruct (Get_ok _ _ _ Hok Hp) as (<- & ? & ?).
  case_bool_decide; [|done]. apply set_peer_ok; [done|]. split_and!; try done. by apply wrap_fits.
Qed.

Lemma MarkDead_ok pm id : pm_ok pm → pm_ok (MarkDead pm id).
Proof.
  intros Hok. unfold MarkDead. destruct (Get pm id) as [p|] eqn:Hp; [|done].
  destruct (Get_ok _ _ _ Hok Hp) as (<- & ? & ?).
  apply set_peer_ok; [done|]. split_and!; try done. by apply wrap_fits.
Qed.

Lemma MarkAlive_ok pm id now : pm_ok pm → pm_ok (MarkAlive pm id now).
Proof.
  intros Hok. unfold MarkAlive. destruct (Get pm id) as [p|] eqn:Hp; [|done].
  destruct (Get_ok _ _ _ Hok Hp) as (<- & ? & ?). by apply set_peer_ok.
Qed.

Lemma Remove_ok pm id : pm_ok pm → pm_ok (Remove pm id).
Proof. intros Hok. by apply map_Forall_delete. Qed.
#[export] Hint Resolve AddOrUpdate_ok MarkSuspect_ok MarkDead_ok MarkAlive_ok Remove_ok : go.

(** ** Reading an entry after an operation *)

Lemma Get_set_peer pm id id' p :
  Get (set_peer pm (NodeID_String id) p) id' = if decide (id = id') then Some p else Get pm id'.
Proof.
  unfold Get. simpl. rewrite lookup_insert.
  destruct (decide (id = id')) as [->|Hne]; [by rewrite decide_True|].
  rewrite decide_False; [done|]. intros H. by apply Hne, (inj NodeID_String).
Qed.

Lemma Get_AddOrUpdate pm p now id :
  Get (fst (AddOrUpdate pm p now)) id =
  if decide (id = ID p ∧ ID p ≠ pm_selfID pm) then
    match Get pm id with
    | None => Some (first_entry p now)
    | Some ex => Some (if is_news ex p then updated_entry ex p now else ex)
    end
  else Get pm id.
Proof.
  unfold AddOrUpdate. unfold NodeID_Equal. case_bool_decide as Hs.
  { rewrite decide_False; [done|]. by intros []. }
  destruct (decide (id = ID p ∧ ID p ≠ pm_selfID pm)) as [[-> _]|Hn].
  - change (peers pm !! NodeID_String (ID p)) with (Get pm (ID p)).
    destruct (Get pm (ID p)) as [ex|] eqn:Hg; [destruct (is_news ex p) eqn:Hnews|]; simpl.
    + by rewrite Get_set_peer, decide_True.
    + done.
    + by rewrite Get_set_peer, decide_True.
  - assert (ID p ≠ id) by (intros <-; tauto).
    destruct (peers pm !! _) as [ex|]; [destruct (is_news ex p)|]; simpl; try done;
      by rewrite Get_set_peer, decide_False.
Qed.

Lemma Get_MarkDead pm id id' :
  Get (MarkDead pm id) id' =
  if decide (id = id')
  then (λ p, with_state p PeerDead (Version p +u64 1) (LastSeen p)) <$> Get pm id
  else Get pm id'.
Proof.
  unfold MarkDead. destruct (Get pm id) as [p|] eqn:Hp; simpl; [apply Get_set_peer|].
  by destruct (decide (id = id')) as [<-|].
Qed.

Lemma Get_MarkAlive pm id now id' :
  Get (MarkAlive pm id now) id' =
  if decide (id = id') then (λ p, with_state p PeerAlive (Version p) now) <$> Get pm id
  else Get pm id'.
Proof.
  unfold MarkAlive. destruct (Get pm id) as [p|] eqn:Hp; simpl; [apply Get_set_peer|].
  by destruct (decide (id = id')) as [<-|].
Qed.

Lemma Get_MarkSuspect pm id id' :
  Get (MarkSuspect pm id) id' =
  if decide (id = id')
  then (λ p, if is_alive p then with_state p PeerSuspect (Version p +u64 1) (LastSeen p) else p)
         <$> Get pm id
  else Get pm id'.
Proof.
  unfold MarkSuspect, is_alive. destruct (Get pm id) as [p|] eqn:Hp; simpl.
  - case_bool_decide; [apply Get_set_peer|]. by destruct (decide (id = id')) as [<-|].
  - by destruct (decide (id = id')) as [<-|].
Qed.

Lemma Get_Remove pm id id' :
  Get (Remove pm id) id' = if decide (id = id') then None else Get pm id'.
Proof.
  unfold Get, Remove. simpl. rewrite lookup_delete.
  destruct (decide (id = id')) as [->|Hne]; [by rewrite decide_True|].
  rewrite decide_False; [done|]. intros H. by apply Hne, (inj NodeID_String).
Qed.

(** ** The random number generator *)

Lemma testbit_above_32 x i : fits 32 x → 32 <= i → Z.testbit x i = false.
Proof.
  intros Hx Hi. rewrite <- (wrap_small 32 x Hx). unfold wrap.
  apply Z.mod_pow2_bits_high. lia.
Qed.

Lemma testbit_wrap x i : Z.testbit (wrap 32 x) i = if decide (i < 32) then Z.testbit x i else false.
Proof.
  unfold wrap. case_decide; [by apply Z.mod_pow2_bits_low|by apply Z.mod_pow2_bits_high; lia].
Qed.

(** A shift to the left, cut to 32 bits, undoes nothing but zero. *)
Lemma xor_shiftl_nonzero x k :
  0 < k → fits 32 x → Z.lxor x (wrap 32 (x ≪ k)) = 0 → x = 0.
Proof.
  intros Hk Hx H.
  assert (∀ i, Z.testbit x i = Z.testbit (wrap 32 (x ≪ k)) i) as Hb.
  { intros i. apply Z.lxor_eq in H. by rewrite <- H. }
  apply Z.bits_inj_0. intros i. destruct (decide (0 <= i)) as [Hi|]; [|apply Z.testbit_neg_r; lia].
  revert i Hi. apply (Z_lt_induction (λ i, Z.testbit x i = false)). intros i IH.
  rewrite Hb, testbit_wrap. case_decide; [|done].
  destruct (decide (0 <= i)); [|apply Z.testbit_neg_r; lia].
  rewrite Z.shiftl_spec by lia. destruct (decide (0 <= i - k)); [apply IH; lia|].
  apply Z.testbit_neg_r. lia.
Qed.

Lemma xor_shiftr_nonzero x k : 0 < k → fits 32 x → Z.lxor x (x ≫ k) = 0 → x = 0.
Proof.
  intros Hk Hx H.
  assert (∀ i, 0 <= i → Z.testbit x i = Z.testbit x (i + k)) as Hb.
  { intros i Hi. apply Z.lxor_eq in H. rewrite <- Z.shiftr_spec by lia. by rewrite <- H. }
  apply Z.bits_inj_0. intros i. destruct (decide (0 <= i)) as [Hi|]; [|apply Z.testbit_neg_r; lia].
  assert (∀ n i, 0 <= i → 32 <= i + Z.of_nat n → Z.testbit x i = false) as Hn.
  { induction n as [|n IH]; intros j Hj Hle; [apply testbit_above_32; [done|lia]|].
    rewrite Hb by done. apply IH; lia. }
  apply (Hn 32%nat); lia.
Qed.

Lemma lxor_fits w x y : 0 <= w → fits w x → fits w y → fits w (Z.lxor x y).
Proof.
  intros Hw Hx Hy. unfold fits. split; [apply Z.lxor_nonneg; unfold fits in *; lia|].
  assert (Z.lxor x y = wrap w (Z.lxor x y)) as ->; [|by apply wrap_fits].
  unfold wrap. rewrite <- Z.land_ones by done. symmetry. apply Z.bits_inj'. intros i Hi.
  rewrite Z.land_spec, Z.lxor_spec. destruct (decide (i < w)).
  - rewrite Z.ones_spec_low, andb_true_r by lia. done.
  - rewrite Z.ones_spec_high, andb_false_r by lia.
    rewrite <- (wrap_small w x Hx), <- (wrap_small w y Hy). unfold wrap.
    rewrite !Z.mod_pow2_bits_high by lia. done.
Qed.

Lemma shiftr_fits x k : 0 <= k → fits 32 x → fits 32 (x ≫ k).
Proof.
  intros Hk [H0 H1]. unfold fits. rewrite Z.shiftr_div_pow2 by done.
  assert (0 < 2 ^ k) by (by apply Z.pow_pos_nonneg). split; [by apply Z.div_pos|].
  apply Z.div_lt_upper_bound; [done|]. nia.
Qed.

(** The state of the generator is never zero, where it would stay for ever. *)
Lemma fastRand_range s : 0 < s < 2 ^ 32 → 0 < fastRand s < 2 ^ 32.
Proof.
  intros Hs. assert (fits 32 s) as Hf by (unfold fits; lia).
  unfold fastRand. cbv zeta.
  set (s1 := Z.lxor s (wrap 32 (s ≪ 13))). set (s2 := Z.lxor s1 (s1 ≫ 17)).
  assert (fits 32 s1) as F1 by (apply lxor_fits; auto using wrap_fits with lia).
  assert (fits 32 s2) as F2 by (apply lxor_fits; auto using shiftr_fits with lia).
  assert (fits 32 (Z.lxor s2 (wrap 32 (s2 ≪ 5)))) as F3
    by (apply lxor_fits; auto using wrap_fits with lia).
  assert (s1 ≠ 0) as N1 by (intros E; apply xor_shiftl_nonzero in E; [lia|lia|done]).
  assert (s2 ≠ 0) as N2 by (intros E; apply xor_shiftr_nonzero in E; [done|lia|done]).
  assert (Z.lxor s2 (wrap 32 (s2 ≪ 5)) ≠ 0) as N3
    by (intros E; apply xor_shiftl_nonzero in E; [done|lia|done]).
  unfold fits in F3. lia.
Qed.

Lemma swap_perm {A} (l : list A) i j : swap l i j ≡ₚ l.
Proof.
  unfold swap. destruct (l !! i) as [x|] eqn:Hi; [|reflexivity].
  destruct (l !! j) as [y|] eqn:Hj; [|reflexivity]. by apply Permutation_insert_swap.
Qed.

Lemma shuffle_perm {A} i (l : list A) rng : fst (shuffle i l rng) ≡ₚ l.
Proof.
  revert l rng. induction i as [|i IH]; intros l rng; [reflexivity|].
  cbn [shuffle]. cbv zeta. by rewrite IH, swap_perm.
Qed.

(** ** Properties *)

Inductive peer_op :=
| PAdd (p : Peer) (now : Z) | PRemove (id : NodeID)
| PSuspect (id : NodeID) | PDead (id : NodeID) | PAlive (id : NodeID) (now : Z).

Definition run_peer_op (pm : PeerManager) (op : peer_op) : PeerManager :=
  match op with
  | PAdd p now => fst (AddOrUpdate pm p now)
  | PRemove id => Remove pm id
  | PSuspect id => MarkSuspect pm id
  | PDead id => MarkDead pm id
  | PAlive id now => MarkAlive pm id now
  end.

Lemma run_peer_op_self pm op : pm_selfID (run_peer_op pm op) = pm_selfID pm.
Proof.
  destruct op; simpl; unfold AddOrUpdate, MarkSuspect, MarkDead, MarkAlive;
    repeat case_match; done.
Qed.

(** Whatever operations run on a fresh peer table, this node is never an entry
    of its own table, every entry is found under its own identifier, and versions stay
    64-bit numbers. *)
Lemma peers_always_ok self ops :
  (∀ p now, PAdd p now ∈ ops → fits 64 (Version p)) →
  let pm := foldl run_peer_op (NewPeerManager self) ops in
  pm_selfID pm = self ∧ Get pm self = None ∧
  ∀ id p, Get pm id = Some p → ID p = id ∧ fits 64 (Version p).
Proof.
  intros Hops pm.
  assert (pm_ok pm ∧ pm_selfID pm = self) as [Hok Hself].
  { unfold pm. clear pm. revert Hops.
    induction ops as [|op ops IH] using rev_ind; intros Hops; [split; [apply map_Forall_empty|done]|].
    rewrite foldl_app. simpl. destruct IH as [Hok Hs].
    { intros p now Hin. eapply Hops, elem_of_app. eauto. }
    split.
    - destruct op; simpl; auto with go. apply AddOrUpdate_ok; [done|].
      eapply Hops, elem_of_app. right. by left.
    - by rewrite run_peer_op_self. }
  split_and!; [done| |intros id p Hp; destruct (Get_ok _ _ _ Hok Hp) as (? & ? & ?); done].
  destruct (Get pm self) as [p|] eqn:Hp; [|done].
  destruct (Get_ok _ _ _ Hok Hp) as (? & ? & _). congruence.
Qed.

Definition node_x : NodeID := array_copy 16 [x0a].
Definition node_y : NodeID := array_copy 16 [x0b].
Definition example_peer : Peer := mkPeer node_y [] [x61] PeerAlive 3 0 [].

Lemma peers_always_ok_witness :
  let pm := foldl run_peer_op (NewPeerManager node_x) [PAdd example_peer 5; PSuspect node_y] in
  pm_selfID pm = node_x ∧ Get pm node_x = None ∧
  ∀ id p, Get pm id = Some p → ID p = id ∧ fits 64 (Version p).
Proof.
  apply (peers_always_ok node_x [PAdd example_peer 5; PSuspect node_y]).
  intros p now Hin. apply elem_of_cons in Hin as [[= -> _]|Hin].
  - unfold fits. simpl. lia.
  - apply list_elem_of_singleton in Hin. discriminate Hin.
Defined.

(** Below the 64-bit limit, no operation but [Remove] makes the version of a
    known peer smaller, and an operation that leaves the version as it is either
    leaves the state as it is or makes the peer alive: suspicion and death always
    come with a new version. *)
Lemma version_progress pm op id p :
  pm_ok pm → (∀ i, op ≠ PRemove i) →
  Get pm id = Some p → Version p < 2 ^ 64 - 1 →
  ∃ p', Get (run_peer_op pm op) id = Some p' ∧ ID p' = ID p ∧ Version p <= Version p' ∧
        (Version p' = Version p → State p' = State p ∨ State p' = PeerAlive).
Proof.
  intros Hok Hop Hp Hlt.
  assert (Version p +u64 1 = Version p + 1) as Hinc.
  { destruct (Get_ok _ _ _ Hok Hp) as (_ & _ & Hf). apply wrap_small. unfold fits in *. lia. }
  destruct op as [q now|i|i|i|i now]; simpl.
  - rewrite Get_AddOrUpdate, Hp. case_decide; [|exists p; auto with lia].
    destruct (is_news p q) eqn:Hn; [|exists p; auto with lia].
    eexists. split; [done|]. split; [done|]. simpl. unfold is_news in Hn.
    apply orb_true_iff in Hn as [Hn|Hn].
    + apply Z.ltb_lt in Hn. lia.
    + apply andb_true_iff in Hn as [Hv Ha]. apply Z.eqb_eq in Hv. apply bool_decide_eq_true in Ha.
      auto with lia.
  - by destruct (Hop i).
  - rewrite Get_MarkSuspect. case_decide as Hi; [subst i|exists p; auto with lia].
    rewrite Hp. simpl. destruct (is_alive p); [|exists p; auto with lia].
    eexists. split; [done|]. simpl. rewrite Hinc. auto with lia.
  - rewrite Get_MarkDead. case_decide as Hi; [subst i|exists p; auto with lia].
    rewrite Hp. simpl. eexists. split; [done|]. simpl. rewrite Hinc. auto with lia.
  - rewrite Get_MarkAlive. case_decide as Hi; [subst i|exists p; auto with lia].
    rewrite Hp. simpl. eexists. split; [done|]. simpl. auto with lia.
Qed.

Lemma version_progress_witness :
  let pm := fst (AddOrUpdate (NewPeerManager node_x) example_peer 5) in
  ∃ p', Get (run_peer_op pm (PSuspect node_y)) node_y = Some p' ∧ ID p' = node_y ∧ 1 <= Version p' ∧
        (Version p' = 1 → State p' = PeerAlive ∨ State p' = PeerAlive).
Proof.
  intros pm. apply (version_progress pm (PSuspect node_y) node_y (first_entry example_peer 5)).
  - apply AddOrUpdate_ok; [apply map_Forall_empty|unfold fits; simpl; lia].
  - intros i. discriminate.
  - vm_compute. reflexivity.
  - simpl. lia.
Defined.

(** [GetRandom] returns [n] peers, or all when there are fewer: alive entries of
    the table, without repetition, never the excluded one, whatever the state of the
    random number generator, which stays a nonzero 32-bit number. *)
Lemma GetRandom_correct pm order n exclude rng :
  peers_order order pm → pm_ok pm → 0 < rng < 2 ^ 32 →
  let candidates := filter (λ p, is_alive p && negb (NodeID_Equal (ID p) exclude) = true) (GetAll order) in
  let '(result, rng') := GetRandom order n exclude rng in
  length result = Nat.min n (length candidates) ∧ NoDup (map ID result) ∧
  (∀ p, p ∈ result → State p = PeerAlive ∧ ID p ≠ exclude ∧ Get pm (ID p) = Some p) ∧
  0 < rng' < 2 ^ 32.
Proof.
  intros Hord Hok Hrng candidates. unfold GetRandom. fold candidates.
  assert (∀ p, p ∈ GetAll order → Get pm (ID p) = Some p) as Hget.
  { intros p ([k q] & -> & Hin)%list_elem_of_fmap. rewrite Hord in Hin.
    apply elem_of_map_to_list in Hin. simpl. by destruct (Hok _ _ Hin) as (-> & _ & _). }
  assert (∀ p, p ∈ candidates → State p = PeerAlive ∧ ID p ≠ exclude ∧ Get pm (ID p) = Some p) as Hc.
  { intros p [Hp Hin]%list_elem_of_filter. apply andb_true_iff in Hp as [Ha He].
    split; [by apply bool_decide_eq_true in Ha|]. split; [|auto].
    intros E%NodeID_Equal_eq. by rewrite E in He. }
  assert (NoDup (map ID candidates)) as Hnd.
  { apply NoDup_map_filter. unfold GetAll. rewrite map_map.
    assert (NoDup (map fst order)) as Hk.
    { rewrite Hord. apply NoDup_fst_map_to_list. }
    assert (∀ kp, kp ∈ order → fst kp = NodeID_String (ID (snd kp))) as Hkey.
    { intros [k p] Hin. rewrite Hord in Hin. apply elem_of_map_to_list in Hin.
      by destruct (Hok _ _ Hin) as (-> & _ & _). }
    clear -Hk Hkey. induction order as [|[k p] order IH]; [constructor|].
    simpl in *. apply NoDup_cons in Hk as [Hn Hk]. apply NoDup_cons. split.
    - intros (kp & E & Hin)%list_elem_of_fmap. apply Hn. apply list_elem_of_fmap.
      exists kp. split; [|done]. rewrite (Hkey kp) by (by right).
      pose proof (Hkey (k, p) ltac:(left)) as Ek. simpl in Ek. by rewrite Ek, E.
    - apply IH; [done|]. intros kp Hin. apply Hkey. by right. }
  clearbody candidates. destruct (Nat.leb_spec (length candidates) n) as [Hle|Hgt].
  { rewrite Nat.min_r by done. split_and!; [done|done|exact Hc|apply Hrng..]. }
  pose proof (shuffle_perm (length candidates - 1) candidates rng) as Hperm.
  assert (0 < snd (shuffle (length candidates - 1) candidates rng) < 2 ^ 32) as Hr.
  { generalize (length candidates - 1)%nat. intros i. clear -Hrng. revert candidates rng Hrng.
    induction i as [|i IH]; intros l rng Hrng; [done|]. cbn [shuffle]. cbv zeta.
    apply IH. by apply fastRand_range. }
  destruct (shuffle _ _ _) as [result rng']. simpl in Hperm, Hr.
  assert (NoDup (map ID result)) as Hnd' by by rewrite Hperm.
  split_and!; [..|apply Hr|apply Hr].
  - rewrite length_take, Hperm. done.
  - rewrite <- firstn_map. eapply sublist_NoDup; [apply Hnd'|apply sublist_take].
  - intros p Hp%elem_of_take. apply Hc. rewrite <- Hperm. destruct Hp as (i & Hi & _).
    by eapply list_elem_of_lookup_2.
Qed.

Definition two_peers : PeerManager :=
  fst (AddOrUpdate (fst (AddOrUpdate (NewPeerManager node_x) example_peer 5))
    (mkPeer (array_copy 16 [x0c]) [] [x62] PeerAlive 1 0 []) 6).

Lemma GetRandom_correct_witness :
  let '(result, rng') := GetRandom (map_to_list (peers two_peers)) 1 zeroID 1 in
  length result = 1%nat ∧ NoDup (map ID result).
Proof.
  pose proof (GetRandom_correct two_peers (map_to_list (peers two_peers)) 1 zeroID 1) as H.
  cbv zeta in H. destruct (GetRandom _ _ _ _) as [result rng'].
  destruct H as (H1 & H2 & _).
  - unfold peers_order. reflexivity.
  - apply AddOrUpdate_ok; [|unfold fits; simpl; lia].
    apply AddOrUpdate_ok; [apply map_Forall_empty|unfold fits; simpl; lia].
  - lia.
  - split; [|exact H2]. rewrite H1. vm_compute. reflexivity.
Defined.
