(* ===== verification/Gossip.v ===== *)
(** * The gossip engine ([gossip/gossip.go])

    The engine exchanges peer tables with its neighbours and probes them. A transport
    connection is a reference here: its identity and its remote address; what the
    engine writes on control streams and the discoveries it reports are the effects
    of its operations. The two callbacks and the signing function are set or not. *)

From S2P Require Import Prelude Bytes Crypto Identity Wire WireGossip Peers.
From stdpp Require Import options.

Record ConnRef := mkConnRef { conn_id : nat; conn_RemoteAddr : list byte }.

#[export] Instance ConnRef_eq_dec : EqDecision ConnRef.
Proof. solve_decision. Defined.

(** [ControlWrite]: [conn.ControlStream().Write(msg)] is called. It takes place in the node, where it panics
    when the control stream of the connection is gone ([Node.perform]). *)
Inductive geffect :=
| ControlWrite (conn : ConnRef) (msg : list byte)
| PeerDiscovered (p : Peer).

#[export] Instance geffect_eq_dec : EqDecision geffect.
Proof. solve_decision. Defined.

Record Config := mkConfig {
  PushInterval : Z; ProbeInterval : Z; PeerTimeout : Z; Fanout : nat }.

Definition DefaultConfig : Config := mkConfig (5 * Second) (3 * Second) (15 * Second) 3.

Record Engine := mkEngine {
  e_selfID : NodeID;
  selfAddr : list byte;
  pubKey : array 32;
  e_peers : PeerManager;
  config : Config;
  conns : gmap string ConnRef;
  onPeerDiscovered : bool;
  signFunc : option (list byte → list byte) }.

Definition set_peers (e : Engine) (pm : PeerManager) : Engine :=
  mkEngine (e_selfID e) (selfAddr e) (pubKey e) pm (config e) (conns e) (onPeerDiscovered e)
    (signFunc e).
Definition set_conns (e : Engine) (m : gmap string ConnRef) : Engine :=
  mkEngine (e_selfID e) (selfAddr e) (pubKey e) (e_peers e) (config e) m (onPeerDiscovered e)
    (signFunc e).

Definition NewEngine (selfID : NodeID) (addr : list byte) (pk : array 32) (cfg : Config) : Engine :=
  mkEngine selfID addr pk (NewPeerManager selfID) cfg ∅ false None.

Definition SetSignFunc (e : Engine) (fn : list byte → list byte) : Engine :=
  mkEngine (e_selfID e) (selfAddr e) (pubKey e) (e_peers e) (config e) (conns e)
    (onPeerDiscovered e) (Some fn).
Definition OnPeerDiscovered (e : Engine) : Engine :=
  mkEngine (e_selfID e) (selfAddr e) (pubKey e) (e_peers e) (config e) (conns e) true (signFunc e).

Definition signMsg (e : Engine) (msg : list byte) : list byte :=
  match signFunc e with None => msg | Some f => f msg end.

(** ** Pushes *)

Definition wire_entry (p : Peer) : PeerEntry :=
  mkPeerEntry (array_copy 16 (bytes_of (ID p)))
    (if decide (length (PubKey p) = 32%nat) then array_copy 32 (PubKey p) else array_copy 32 [])
    (State p) (Version p) (Addr p).

(** This node announces itself alive, always with version 1. *)
Definition self_entry (e : Engine) : PeerEntry :=
  mkPeerEntry (array_copy 16 (bytes_of (e_selfID e))) (pubKey e) PeerAlive 1 (selfAddr e).

Definition buildGossipPush (e : Engine) (order : list (string * Peer)) : list byte :=
  EncodeGossipPush (mkGossipPush (self_entry e :: map wire_entry (GetAll order))).

Definition isZeroPubKey (pk : array 32) : bool :=
  forallb (λ b, bool_decide (b = x00)) (bytes_of pk).

Definition entry_peer (entry : PeerEntry) : Peer :=
  mkPeer (array_copy 16 (bytes_of (pe_ID entry)))
    (if isZeroPubKey (pe_PubKey entry) then [] else copy_to 32 (bytes_of (pe_PubKey entry)))
    (pe_Addr entry) (pe_State entry) (pe_Version entry) 0 [].

(** The loop over the entries; [clock] gives the successive readings of the time. *)
Fixpoint push_entries (e : Engine) (entries : list PeerEntry) (clock : nat → Z) (i : nat)
    : Engine * list geffect :=
  match entries with
  | [] => (e, [])
  | entry :: entries =>
      let newPeer := entry_peer entry in
      if NodeID_Equal (ID newPeer) (e_selfID e) then push_entries e entries clock (S i)
      else
        let '(pm, isNew) := AddOrUpdate (e_peers e) newPeer (clock i) in
        let '(e', eff) := push_entries (set_peers e pm) entries clock (S i) in
        (e', (if isNew && onPeerDiscovered e then [PeerDiscovered newPeer] else []) ++ eff)
  end.

Definition handlePush (e : Engine) (msg : GossipPushMessage) (clock : nat → Z)
    : Engine * list geffect :=
  push_entries e (Peers msg) clock 0.

(** ** Connections and messages *)

Definition SendTo (e : Engine) (id : NodeID) (msg : list byte) : list geffect :=
  match conns e !! NodeID_String id with
  | None => []
  | Some conn => [ControlWrite conn (signMsg e msg)]
  end.

(** [order] enumerates the connections. *)
Definition Broadcast (e : Engine) (order : list (string * ConnRef)) (msg : list byte)
    : list geffect :=
  map (λ '(_, conn), ControlWrite conn (signMsg e msg)) order.

Definition AddDirectConnection (e : Engine) (id : NodeID) (conn : ConnRef) (now : Z)
    (order : list (string * Peer)) : Engine * list geffect :=
  let e := set_conns e (<[NodeID_String id := conn]> (conns e)) in
  let p := mkPeer id [] (conn_RemoteAddr conn) PeerAlive 0 0 [] in
  let e := set_peers e (fst (AddOrUpdate (e_peers e) p now)) in
  (e, [ControlWrite conn (signMsg e (buildGossipPush e order))]).

Definition RemoveDirectConnection (e : Engine) (id : NodeID) : Engine :=
  set_conns e (delete (NodeID_String id) (conns e)).

(** [HandleMessage] returns whether the message was handled. [order] enumerates the
    peer table, for the answer to a pull. *)
Definition HandleMessage (e : Engine) (fromID : NodeID) (data : Slice) (clock : nat → Z)
    (order : list (string * Peer)) : res wire_error (Engine * list geffect * bool) :=
  match contents data with
  | [] => Ok (e, [], false)
  | t :: _ =>
      if bool_decide (t = MsgGossipPush) then
        match DecodeGossipPush data with
        | Panic => Panic
        | Err _ => Ok (e, [], true)
        | Ok msg => let '(e', eff) := handlePush e msg clock in Ok (e', eff, true)
        end
      else if bool_decide (t = MsgGossipPull) then
        Ok (e, SendTo e fromID (buildGossipPush e order), true)
      else if bool_decide (t = MsgPing) then Ok (e, SendTo e fromID EncodePong, true)
      else if bool_decide (t = MsgPong) then
        Ok (set_peers e (MarkAlive (e_peers e) fromID (clock 0%nat)), [], true)
      else Ok (e, [], false)
  end.

(** ** Timers *)

(** One tick of [pushLoop]. The zero identifier is excluded. The table is enumerated for the choice
    of the targets and again for each of their pushes. *)
Definition pushToRandom (e : Engine) (orders : nat → list (string * Peer)) (rng : Z)
    : list geffect * Z :=
  let '(targets, rng) := GetRandom (orders 0%nat) (Fanout (config e)) zeroID rng in
  (concat (imap (λ k target,
     match conns e !! NodeID_String (ID target) with
     | Some _ => SendTo e (ID target) (buildGossipPush e (orders (S k)))
     | None => []
     end) targets), rng).

(** One tick of [probeLoop]: the engine, what is written, the peer whose answer is
    awaited and the generator's state. [write_ok] says whether the write succeeds. *)
Definition probeRandomPeer (e : Engine) (order : list (string * Peer)) (rng : Z)
    (write_ok : bool) : Engine * list geffect * option NodeID * Z :=
  let alive := GetAlive order in
  if decide (alive = []) then (e, [], None, rng) else
  let rng := fastRand rng in
  let idx := Z.to_nat (rng mod Z.of_nat (length alive)) in
  match alive !! idx with
  | None => (e, [], None, rng)
  | Some target =>
      match conns e !! NodeID_String (ID target) with
      | None => (e, [], None, rng)
      | Some conn =>
          if write_ok
          then (e, [ControlWrite conn (signMsg e EncodePing)], Some (ID target), rng)
          else (set_peers e (MarkSuspect (e_peers e) (ID target)), [], None, rng)
      end
  end.

(** The timer started by a probe, three probe intervals later. *)
Definition probe_timeout (e : Engine) (target : NodeID) (now : Z) : Engine :=
  match Get (e_peers e) target with
  | Some p =>
      if is_alive p && (PeerTimeout (config e) <? time_sub now (LastSeen p))
      then set_peers e (MarkSuspect (e_peers e) target) else e
  | None => e
  end.

(** ** Lemmas *)

Lemma entry_peer_wire p : Addr (entry_peer (wire_entry p)) = Addr p ∧
  State (entry_peer (wire_entry p)) = State p ∧ Version (entry_peer (wire_entry p)) = Version p ∧
  ID (entry_peer (wire_entry p)) = ID p.
Proof.
  split_and!; try done. unfold entry_peer, wire_entry. cbn [ID pe_ID].
  by rewrite !array_copy_bytes_of.
Qed.

(** A tick writes pushes only. *)
Lemma pushToRandom_writes e orders rng g :
  g ∈ fst (pushToRandom e orders rng) → ∃ k id, g ∈ SendTo e id (buildGossipPush e (orders k)).
Proof.
  unfold pushToRandom. destruct (GetRandom _ _ _ _) as [targets rng']. cbn [fst].
  intros (l & Hl & Hg)%list_elem_of_In%in_concat. apply list_elem_of_In in Hl, Hg.
  apply elem_of_lookup_imap in Hl as (k & t & -> & _). exists (S k), (ID t). destruct (conns e !! _); [done|by apply not_elem_of_nil in Hg].
Qed.

(** The engine around the table: nothing else changes while a push is handled. *)
Lemma push_entries_frame e entries clock i :
  let e' := fst (push_entries e entries clock i) in
  e_selfID e' = e_selfID e ∧ conns e' = conns e ∧ config e' = config e ∧
  pm_selfID (e_peers e') = pm_selfID (e_peers e).
Proof.
  revert e i. induction entries as [|en entries IH]; intros e i; [done|]. simpl.
  destruct (NodeID_Equal _ _); [apply IH|].
  destruct (AddOrUpdate _ _ _) as [pm isNew] eqn:Ha.
  pose proof (IH (set_peers e pm) (S i)) as H.
  destruct (push_entries (set_peers e pm) entries clock (S i)) as [e' eff]. simpl in *.
  destruct H as (-> & -> & -> & ->). split_and!; try done.
  pose proof (run_peer_op_self (e_peers e) (PAdd (entry_peer en) (clock i))) as Hr.
  simpl in Hr. by rewrite Ha in Hr.
Qed.

(** A property of an entry of the table that every update keeps is kept by a push. *)
Lemma push_entries_keeps (P : option Peer → Prop) id entries clock :
  (∀ pm en now, en ∈ entries → P (Get pm id) → P (Get (fst (AddOrUpdate pm (entry_peer en) now)) id)) →
  ∀ e i, P (Get (e_peers e) id) → P (Get (e_peers (fst (push_entries e entries clock i))) id).
Proof.
  intros Hstep. induction entries as [|en entries IH]; intros e i HP; [done|]. simpl.
  assert (∀ e i, P (Get (e_peers e) id) →
    P (Get (e_peers (fst (push_entries e entries clock i))) id)) as IH'.
  { apply IH. intros pm en' now Hin. apply Hstep. by right. }
  destruct (NodeID_Equal _ _); [by apply IH'|].
  destruct (AddOrUpdate _ _ _) as [pm isNew] eqn:Ha.
  specialize (IH' (set_peers e pm) (S i)).
  destruct (push_entries (set_peers e pm) entries clock (S i)) as [e' eff]. simpl in *.
  apply IH'. specialize (Hstep (e_peers e) en (clock i) ltac:(left) HP).
  by rewrite Ha in Hstep.
Qed.

Lemma push_entries_ok e entries clock i :
  pm_ok (e_peers e) → Forall (λ en, fits 64 (pe_Version en)) entries →
  pm_ok (e_peers (fst (push_entries e entries clock i))).
Proof.
  revert e i. induction entries as [|en entries IH]; intros e i Hok Hf; [done|].
  apply Forall_cons in Hf as [Hen Hf]. simpl.
  destruct (NodeID_Equal _ _); [by apply IH|].
  destruct (AddOrUpdate _ _ _) as [pm isNew] eqn:Ha.
  specialize (IH (set_peers e pm) (S i)).
  destruct (push_entries (set_peers e pm) entries clock (S i)) as [e' eff]. simpl in *.
  apply IH; [|done]. change pm with (fst (pm, isNew)). rewrite <- Ha. by apply AddOrUpdate_ok.
Qed.

Lemma Get_AddOrUpdate_is_Some pm p now id :
  is_Some (Get pm id) → is_Some (Get (fst (AddOrUpdate pm p now)) id).
Proof.
  intros [q Hq]. rewrite Get_AddOrUpdate, Hq. by case_decide.
Qed.

(** Every entry of a push, this node apart, is known afterwards. *)
Lemma push_entries_known e entries clock i en :
  en ∈ entries → pe_ID en ≠ e_selfID e → pm_selfID (e_peers e) = e_selfID e →
  is_Some (Get (e_peers (fst (push_entries e entries clock i))) (pe_ID en)).
Proof.
  revert e i. induction entries as [|en' entries IH]; intros e i Hin Hne Hself;
    [by apply not_elem_of_nil in Hin|].
  simpl. assert (ID (entry_peer en') = pe_ID en') as Hid by apply array_copy_bytes_of.
  unfold NodeID_Equal. apply elem_of_cons in Hin as [<-|Hin].
  - case_bool_decide as Hs; [by rewrite <- Hid in Hne|].
    destruct (AddOrUpdate (e_peers e) (entry_peer en) (clock i)) as [pm isNew] eqn:Ha.
    pose proof (push_entries_keeps is_Some (pe_ID en) entries clock) as Hk.
    specialize (Hk ltac:(intros; by apply Get_AddOrUpdate_is_Some) (set_peers e pm) (S i)).
    destruct (push_entries (set_peers e pm) entries clock (S i)) as [e' eff]. simpl in *.
    apply Hk. pose proof (Get_AddOrUpdate (e_peers e) (entry_peer en) (clock i) (pe_ID en)) as Hg.
    change (ID (entry_peer en)) with (array_copy 16 (bytes_of (pe_ID en))) in *.
    rewrite array_copy_bytes_of, Ha, Hself, decide_True in Hg by done. simpl in Hg. rewrite Hg.
    by destruct (Get (e_peers e) (pe_ID en)).
  - case_bool_decide as Hs; [by apply IH|].
    destruct (AddOrUpdate (e_peers e) (entry_peer en') (clock i)) as [pm isNew] eqn:Ha.
    specialize (IH (set_peers e pm) (S i) Hin Hne).
    destruct (push_entries (set_peers e pm) entries clock (S i)) as [e' eff]. simpl in *.
    apply IH. rewrite <- Hself.
    pose proof (run_peer_op_self (e_peers e) (PAdd (entry_peer en') (clock i))) as Hr.
    simpl in Hr. by rewrite Ha in Hr.
Qed.

(** ** Properties *)

Definition push_fits (e : Engine) (order : list (string * Peer)) : Prop :=
  Forall (λ p, length (Addr p) < 256)%nat (GetAll order) ∧ (length (selfAddr e) < 256)%nat ∧
  Z.of_nat (length order) < 65535.

Lemma built_push_ok e order :
  push_fits e order → peers_order order (e_peers e) → pm_ok (e_peers e) →
  gossip_push_ok (mkGossipPush (self_entry e :: map wire_entry (GetAll order))).
Proof.
  intros (Ha & Hs & Hl) Hord Hok. split; simpl.
  - apply Forall_cons. split; [split; [unfold fits; simpl; lia|done]|].
    apply Forall_fmap, Forall_forall. intros p Hp. split; simpl; [|by eapply Forall_forall in Ha].
    apply list_elem_of_fmap in Hp as ([k q] & -> & Hin). rewrite Hord in Hin.
    apply elem_of_map_to_list in Hin. apply (Hok _ _ Hin).
  - unfold GetAll, fits. rewrite !length_map. change (2 ^ 16) with 65536. lia.
Qed.

(** After a node has handled the push of another node, it knows the sender and
    every peer the sender knows, itself apart, whether the message is signed or not
    (any bytes may follow it). *)
Lemma push_spreads a b order clock order' tail sp :
  push_fits a order → peers_order order (e_peers a) → pm_ok (e_peers a) →
  pm_selfID (e_peers b) = e_selfID b →
  ∃ b' eff,
    HandleMessage b (e_selfID a) (mkSlice (buildGossipPush a order ++ tail) sp) clock order' =
      Ok (b', eff, true) ∧
    (∀ id, id ≠ e_selfID b → id = e_selfID a ∨ is_Some (Get (e_peers a) id) →
       is_Some (Get (e_peers b') id)) ∧
    (∀ id, is_Some (Get (e_peers b) id) → is_Some (Get (e_peers b') id)).
Proof.
  intros Hfit Hord Hok Hself.
  pose proof (decode_encode_gossip _ tail sp (built_push_ok _ _ Hfit Hord Hok)) as Hdec.
  set (entries := self_entry a :: map wire_entry (GetAll order)) in *.
  exists (fst (push_entries b entries clock 0)), (snd (push_entries b entries clock 0)).
  split_and!.
  - unfold HandleMessage. cbn [contents]. unfold buildGossipPush, EncodeGossipPush at 1.
    cbn [app]. rewrite bool_decide_true by done.
    fold entries. rewrite Hdec. unfold handlePush. cbn [Peers]. by destruct (push_entries b entries clock 0).
  - intros id Hne Hid.
    assert (∃ en, en ∈ entries ∧ pe_ID en = id) as (en & Hin & <-).
    { destruct Hid as [->|[p Hp]].
      - exists (self_entry a). split; [left|apply array_copy_bytes_of].
      - exists (wire_entry p). destruct (Get_ok _ _ _ Hok Hp) as (Hp' & _ & _).
        split; [right|by rewrite <- Hp'; apply array_copy_bytes_of].
        apply list_elem_of_fmap. exists p. split; [done|]. apply list_elem_of_fmap.
        exists (NodeID_String id, p). split; [done|]. rewrite Hord. by apply elem_of_map_to_list. }
    by apply push_entries_known.
  - intros id. apply push_entries_keeps. intros. by apply Get_AddOrUpdate_is_Some.
Qed.

Definition engine_a : Engine :=
  set_peers (NewEngine node_x [x31] (array_copy 32 [x07]) DefaultConfig)
    (fst (AddOrUpdate (NewPeerManager node_x) example_peer 5)).
Definition node_z : NodeID := array_copy 16 [x0c].
Definition engine_b : Engine := NewEngine node_z [x32] (array_copy 32 [x08]) DefaultConfig.

Lemma push_spreads_witness :
  ∃ b' eff,
    HandleMessage engine_b node_x
      (mkSlice (buildGossipPush engine_a (map_to_list (peers (e_peers engine_a))) ++ []) [])
      (λ _, 7) [] = Ok (b', eff, true) ∧
    (∀ id, id ≠ e_selfID engine_b → id = node_x ∨ is_Some (Get (e_peers engine_a) id) →
       is_Some (Get (e_peers b') id)) ∧
    (∀ id, is_Some (Get (e_peers engine_b) id) → is_Some (Get (e_peers b') id)).
Proof.
  apply (push_spreads engine_a engine_b).
  - split_and!; [|simpl; lia|vm_compute; reflexivity].
    replace (GetAll _) with [first_entry example_peer 5] by (vm_compute; reflexivity).
    apply Forall_singleton. simpl. lia.
  - unfold peers_order. reflexivity.
  - apply AddOrUpdate_ok; [done|vm_compute; done].
  - reflexivity.
Defined.

Definition dead_entry (p : Peer) : Peer :=
  with_state p PeerDead (Version p +u64 1) (LastSeen p).

Lemma update_old_version pm q now id p :
  Get pm id = Some p → (ID q = id → Version q < Version p) →
  Get (fst (AddOrUpdate pm q now)) id = Some p.
Proof.
  intros Hg Hv. rewrite Get_AddOrUpdate. case_decide as Hd; [|done].
  destruct Hd as [-> _]. rewrite Hg. specialize (Hv eq_refl). unfold is_news.
  rewrite (proj2 (Z.ltb_ge _ _)), (proj2 (Z.eqb_neq _ _)) by lia. done.
Qed.

(** A connection that breaks and is made again leaves its peer dead. The node marks
    the peer dead when the connection is lost, which raises the version; registering the
    new connection (version 0) and the pushes of the peer (a node announces itself
    with version 1) are then old news. The entry is unchanged by both, and the peer is
    in none of the enumerations of the peers alive, from which the peers to probe are
    drawn. *)
Lemma reconnect_stays_dead e id p conn now order msg clock :
  Get (e_peers e) id = Some p → pm_ok (e_peers e) → 1 <= Version p < 2 ^ 64 - 1 →
  (∀ en, en ∈ Peers msg → pe_ID en = id → pe_Version en <= 1) →
  Forall (λ en, fits 64 (pe_Version en)) (Peers msg) →
  let e1 := set_peers e (MarkDead (e_peers e) id) in
  let e2 := fst (AddDirectConnection e1 id conn now order) in
  let e3 := fst (handlePush e2 msg clock) in
  conns e3 !! NodeID_String id = Some conn ∧
  Get (e_peers e3) id = Some (dead_entry p) ∧
  (∀ order', peers_order order' (e_peers e3) → ∀ q, q ∈ GetAlive order' → ID q ≠ id).
Proof.
  intros Hg Hok Hv Hmsg Hfit e1 e2 e3.
  assert (Version (dead_entry p) = Version p + 1) as Hver.
  { simpl. apply wrap_small. unfold fits. lia. }
  assert (Get (e_peers e1) id = Some (dead_entry p)) as H1.
  { unfold e1. simpl. by rewrite Get_MarkDead, decide_True, Hg. }
  assert (Get (e_peers e2) id = Some (dead_entry p)) as H2.
  { apply update_old_version; [done|]. intros _. rewrite Hver. simpl. lia. }
  assert (Get (e_peers e3) id = Some (dead_entry p)) as H3.
  { unfold e3, handlePush.
    apply (push_entries_keeps (λ o, o = Some (dead_entry p))); [|done].
    intros pm en t Hin Hpm. apply update_old_version; [done|]. intros Hid.
    rewrite Hver. cbn [entry_peer Version]. unfold entry_peer in Hid. cbn [ID] in Hid.
    rewrite array_copy_bytes_of in Hid. specialize (Hmsg en Hin Hid). lia. }
  split_and!; [|done|].
  - unfold e3, handlePush. destruct (push_entries_frame e2 (Peers msg) clock 0) as (_ & -> & _).
    apply lookup_insert_eq.
  - intros order' Hord q Hq Hid. unfold GetAlive in Hq.
    apply list_elem_of_filter in Hq as [Ha Hin].
    apply list_elem_of_fmap in Hin as ([k q'] & -> & Hin). rewrite Hord in Hin.
    apply elem_of_map_to_list in Hin. simpl in *.
    assert (pm_ok (e_peers e3)) as Hok3.
    { apply push_entries_ok; [|done]. apply AddOrUpdate_ok; [by apply MarkDead_ok|done]. }
    destruct (Hok3 _ _ Hin) as [-> _]. rewrite Hid in Hin. unfold Get in H3. rewrite H3 in Hin.
    injection Hin as <-. by unfold is_alive in Ha.
Qed.

Definition example_conn : ConnRef := mkConnRef 1 [x61].

Lemma reconnect_stays_dead_witness :
  let e1 := set_peers engine_a (MarkDead (e_peers engine_a) node_y) in
  let e2 := fst (AddDirectConnection e1 node_y example_conn 9 []) in
  let e3 := fst (handlePush e2 (mkGossipPush [self_entry (NewEngine node_y [x61]
    (array_copy 32 [x09]) DefaultConfig)]) (λ _, 10)) in
  conns e3 !! NodeID_String node_y = Some example_conn ∧
  Get (e_peers e3) node_y = Some (dead_entry (first_entry example_peer 5)) ∧
  (∀ order', peers_order order' (e_peers e3) → ∀ q, q ∈ GetAlive order' → ID q ≠ node_y).
Proof.
  apply reconnect_stays_dead.
  - vm_compute. reflexivity.
  - apply AddOrUpdate_ok; [done|vm_compute; done].
  - simpl. lia.
  - intros en Hin _. apply list_elem_of_singleton in Hin as ->. simpl. lia.
  - repeat constructor; unfold fits; simpl; lia.
Defined.
