(* ===== verification/GossipNet.v ===== *)
(** * A network of gossip engines

    Every node runs the engine of [Gossip]. What they write on control streams stays on the
    wire, to be handled late, in any order, repeatedly or never, with its signature or, once it is
    verified, without; only the greeting of a node that has been dialled is not signed. A rumour is the news that one node has at some moment; it travels with the
    pushes of those who have heard it. *)

From S2P Require Import Prelude Bytes Crypto Identity Wire WireGossip Peers Gossip.
From stdpp Require Import options.

(** ** The order of news *)

(** What is known of a peer: the version and the state. *)
Definition news (p : Peer) : Z * byte := (Version p, State p).

(** A higher version is better news, and of one version the sign of life. *)
Definition news_le (a b : Z * byte) : Prop :=
  fst a < fst b ∨ fst a = fst b ∧ (snd a = PeerAlive → snd b = PeerAlive).

#[export] Instance news_le_preorder : PreOrder news_le.
Proof.
  split; [intros a; right; auto|]. intros [v1 s1] [v2 s2] [v3 s3]. unfold news_le. cbn.
  intros [?|[-> ?]] [?|[-> ?]]; auto with lia.
Qed.

(** An update is an upper bound of what was known and what was announced. *)
Lemma AddOrUpdate_news pm q now p :
  ID q ≠ pm_selfID pm → Get pm (ID q) = Some p →
  ∃ p', Get (fst (AddOrUpdate pm q now)) (ID q) = Some p' ∧ news_le (news p) (news p') ∧ news_le (news q) (news p').
Proof.
  intros Hne Hp. rewrite Get_AddOrUpdate, decide_True, Hp by done. eexists. split; [done|].
  unfold is_news. destruct (Z.ltb_spec (Version p) (Version q)), (Z.eqb_spec (Version q) (Version p)); try lia;
    cbn [orb andb].
  - split; [by left|reflexivity].
  - case_bool_decide as Ha; (split; [|by right]); [by right|reflexivity].
  - split; [reflexivity|left; cbn; lia].
Qed.

(** No operation of the table takes news back. *)
Lemma peer_op_news pm op id p :
  pm_ok pm → (∀ i, op ≠ PRemove i) → Get pm id = Some p → Version p < 2 ^ 64 - 1 →
  ∃ p', Get (run_peer_op pm op) id = Some p' ∧ news_le (news p) (news p').
Proof.
  intros Hok Hop Hp Hv. destruct (version_progress pm op id p Hok Hop Hp Hv) as (p' & Hp' & _ & Hle & Hst).
  exists p'. split; [done|]. unfold news_le, news. cbn.
  destruct (Z.eq_dec (Version p') (Version p)) as [E|]; [right|left; lia].
  split; [done|]. intros Ha. destruct (Hst E); congruence.
Qed.

(** ** The network *)

Section net.
#[local] Set Default Proof Using "Type*".
Context `{Sig : Ed25519} `{SigL : !Ed25519Laws Sig}.

(** The messages that were written, and whether they were signed. *)
Record GNet := mkGNet { engines : gmap NodeID Engine; g_wire : list (list byte * bool) }.

(** What happens at a node: it greets the node it has dialled (the node itself builds the same push as its engine,
    [Node.buildSelfGossipPush], and does not sign it), registers or forgets a connection, loses a
    peer, a timer fires, or a message of the wire is handled; [order] enumerates the table. *)
Inductive gop :=
| GGreet (conn : ConnRef) (order : list (string * Peer))
| GConnect (id : NodeID) (conn : ConnRef) (now : Z) (order : list (string * Peer))
| GDisconnect (id : NodeID)
| GLost (id : NodeID)
| GPush (orders : nat → list (string * Peer)) (rng : Z)
| GProbe (order : list (string * Peer)) (rng : Z) (write_ok : bool)
| GTimeout (target : NodeID) (now : Z)
| GHandle (k : nat) (verified : bool) (from : NodeID) (sp : list byte) (clock : nat → Z) (order : list (string * Peer)).

Definition engine_op (e : Engine) (w : list (list byte * bool)) (op : gop) : option (Engine * list geffect) :=
  match op with
  | GGreet conn order => Some (e, [ControlWrite conn (buildGossipPush e order)])
  | GConnect id conn now order => Some (AddDirectConnection e id conn now order)
  | GDisconnect id => Some (RemoveDirectConnection e id, [])
  | GLost id => Some (set_peers e (MarkDead (e_peers e) id), [])
  | GPush orders rng => Some (e, fst (pushToRandom e orders rng))
  | GProbe order rng write_ok => Some (fst (fst (probeRandomPeer e order rng write_ok)))
  | GTimeout target now => Some (probe_timeout e target now, [])
  | GHandle k verified from sp clock order =>
      '(m, _) ← w !! k;
      match HandleMessage e from (mkSlice (if verified then take (length m - sigSize) m else m) sp) clock order with
      | Ok (e', eff, _) => Some (e', eff)
      | _ => None
      end
  end.

Definition signs (op : gop) : bool := match op with GGreet _ _ => false | _ => true end.

(** What is enumerated is the table; who connects is one of [U], with an address of at most 255 bytes. *)
Definition op_valid (U : gset NodeID) (e : Engine) (op : gop) : Prop :=
  match op with
  | GPush orders _ => ∀ k, peers_order (orders k) (e_peers e)
  | GGreet _ order | GProbe order _ _ | GHandle _ _ _ _ _ order => peers_order order (e_peers e)
  | GConnect id conn now order =>
      id ∈ U ∧ (length (conn_RemoteAddr conn) < 256)%nat ∧
      peers_order order (e_peers (fst (AddDirectConnection e id conn now order)))
  | _ => True
  end.

Definition written (eff : list geffect) : list (list byte) :=
  omap (λ f, match f with ControlWrite _ m => Some m | PeerDiscovered _ => None end) eff.

Inductive gnet_step (U : gset NodeID) (n : GNet) (x : NodeID) (op : gop) : GNet → Prop :=
| gnet_step_intro e e' eff :
    engines n !! x = Some e → op_valid U e op → engine_op e (g_wire n) op = Some (e', eff) →
    gnet_step U n x op (mkGNet (<[x := e']> (engines n)) (g_wire n ++ map (., signs op) (written eff))).

Lemma gnet_step_eq U n x op n' e e' eff :
  engines n !! x = Some e → op_valid U e op → engine_op e (g_wire n) op = Some (e', eff) →
  n' = mkGNet (<[x := e']> (engines n)) (g_wire n ++ map (., signs op) (written eff)) → gnet_step U n x op n'.
Proof. intros ??? ->. by apply gnet_step_intro with e. Qed.

(** ** Rumours *)

(** Who has heard the rumour, and which messages on the wire were written by them since. *)
Record Rumour := mkRumour { informed : gset NodeID; carrying : gset nat }.

Definition is_push (m : list byte) : bool :=
  match m with t :: _ => bool_decide (t = MsgGossipPush) | [] => false end.

(** A node of [R] that handles a push of somebody informed is informed, unless it takes the end of a push that was
    not signed for a signature. *)
Definition hears (R : gset NodeID) (x : NodeID) (op : gop) (w : list (list byte * bool)) (r : Rumour) : bool :=
  match op with
  | GHandle k verified _ _ _ _ =>
      bool_decide (x ∈ R) && bool_decide (k ∈ carrying r) &&
      match w !! k with Some (m, signed) => is_push m && (signed || negb verified) | None => false end
  | _ => false
  end.

Definition rumour_step (R : gset NodeID) (x : NodeID) (op : gop) (w w' : list (list byte * bool)) (r : Rumour) : Rumour :=
  let inf := if hears R x op w r then {[x]} ∪ informed r else informed r in
  mkRumour inf (if bool_decide (x ∈ inf) then carrying r ∪ list_to_set (seq (length w) (length w' - length w))
                else carrying r).

(** Runs, with the number of steps. *)
Inductive gossip_run (U R : gset NodeID) (n0 : GNet) (r0 : Rumour) : nat → GNet → Rumour → Prop :=
| gossip_nil : gossip_run U R n0 r0 0 n0 r0
| gossip_snoc m n r x op n' :
    gossip_run U R n0 r0 m n r → gnet_step U n x op n' →
    gossip_run U R n0 r0 (S m) n' (rumour_step R x op (g_wire n) (g_wire n') r).

(** ** Networks that are right *)

Definition table_in (U : gset NodeID) (B : Z) (pm : PeerManager) : Prop :=
  ∀ id p, Get pm id = Some p → id ∈ U ∧ (length (Addr p) < 256)%nat ∧ Version p <= B.

Record engine_ok (U : gset NodeID) (B : Z) (i : NodeID) (e : Engine) : Prop := {
  eo_self : e_selfID e = i ∧ pm_selfID (e_peers e) = i ∧ i ∈ U;
  eo_pm : pm_ok (e_peers e);
  eo_table : table_in U B (e_peers e);
  eo_addr : (length (selfAddr e) < 256)%nat;
  eo_sign : ∃ priv, signFunc e = Some (λ m, SignMessage m priv) }.

Definition entry_in (U : gset NodeID) (B : Z) (en : PeerEntry) : Prop := pe_ID en ∈ U ∧ pe_Version en <= B.

(** What engines write: a signed ping, answer to a ping, or push. *)
Definition body_ok (U : gset NodeID) (B : Z) (body : list byte) : Prop :=
  body = EncodePing ∨ body = EncodePong ∨
  ∃ msg, body = EncodeGossipPush msg ∧ gossip_push_ok msg ∧ Forall (entry_in U B) (Peers msg).

Definition carries (signed : bool) (body sig : list byte) : Prop :=
  if signed then length sig = sigSize else sig = [] ∧ is_push body = true.

Definition message_ok (U : gset NodeID) (B : Z) (m : list byte * bool) : Prop :=
  ∃ body sig, fst m = body ++ sig ∧ carries (snd m) body sig ∧ body_ok U B body.

Definition gnet_ok (U : gset NodeID) (B : Z) (n : GNet) : Prop :=
  map_Forall (engine_ok U B) (engines n) ∧ Forall (message_ok U B) (g_wire n).

(** ** Lemmas: tables *)

Lemma entry_peer_id en : ID (entry_peer en) = pe_ID en.
Proof. apply array_copy_bytes_of. Qed.

Lemma AddOrUpdate_keeps_news pm q now id p :
  Get pm id = Some p → ∃ p', Get (fst (AddOrUpdate pm q now)) id = Some p' ∧ news_le (news p) (news p').
Proof.
  intros Hp. destruct (decide (id = ID q ∧ ID q ≠ pm_selfID pm)) as [[-> Hne]|Hn].
  - destruct (AddOrUpdate_news pm q now p Hne Hp) as (p' & ? & ? & _). by exists p'.
  - exists p. rewrite Get_AddOrUpdate, decide_False by done. by split.
Qed.

Lemma AddOrUpdate_in U B pm q now :
  1 <= B → table_in U B pm → ID q ∈ U → (length (Addr q) < 256)%nat → Version q <= B →
  table_in U B (fst (AddOrUpdate pm q now)).
Proof.
  intros HB Ht Hi Ha Hv id p. rewrite Get_AddOrUpdate. case_decide as Hd; [|apply Ht]. destruct Hd as [-> _].
  destruct (Get pm (ID q)) as [ex|] eqn:Hg; [|by intros [= <-]].
  intros [= <-]. destruct (is_news ex q); [done|by apply (Ht _ _ Hg)].
Qed.

Lemma mark_in U B pm op id0 :
  pm_ok pm → table_in U B pm → op = PSuspect id0 ∨ op = PDead id0 ∨ (∃ now, op = PAlive id0 now) →
  table_in U (B + 1) (run_peer_op pm op).
Proof.
  intros Hok Ht Hop id p Hp.
  assert (∃ p0, Get pm id = Some p0 ∧ Addr p = Addr p0 ∧ Version p <= Version p0 + 1) as (p0 & H0 & -> & Hv).
  { assert (∀ p0, Get pm id = Some p0 → Version p0 +u64 1 <= Version p0 + 1) as Hle.
    { intros p0 H0. destruct (Get_ok _ _ _ Hok H0) as (_ & _ & Hf). unfold wrap, fits in *. apply Z.mod_le; lia. }
    destruct Hop as [->|[->|[now ->]]]; cbn [run_peer_op] in Hp;
      rewrite ?Get_MarkSuspect, ?Get_MarkDead, ?Get_MarkAlive in Hp; case_decide as Hd; try (exists p; repeat split; [done|lia]);
      subst id0; apply fmap_Some in Hp as (p0 & H0 & ->); exists p0; specialize (Hle p0 H0);
      (split; [done|]); [destruct (is_alive p0)|..]; cbn; split; try done; lia. }
  destruct (Ht _ _ H0) as (? & ? & ?). split_and!; [done..|lia].
Qed.

Lemma table_in_mono U B B' pm : B <= B' → table_in U B pm → table_in U B' pm.
Proof. intros HB Ht id p Hp. destruct (Ht id p Hp) as (? & ? & ?). split_and!; [done..|lia]. Qed.

(** The table has at most one entry per identifier. *)
Lemma table_size U B pm order :
  pm_ok pm → table_in U B pm → peers_order order pm → (length order ≤ size U)%nat.
Proof.
  intros Hok Ht Hord. rewrite Hord. rewrite <- (length_fmap fst).
  assert (∀ k, k ∈ (map_to_list (peers pm)).*1 → k ∈ map NodeID_String (elements U)) as Hin.
  { intros k ([k' p] & -> & Hkp)%list_elem_of_fmap. apply elem_of_map_to_list in Hkp. cbn.
    destruct (Hok _ _ Hkp) as (-> & _). apply list_elem_of_fmap. exists (ID p). split; [done|].
    apply elem_of_elements, (Ht (ID p) p Hkp). }
  unfold size, set_size. cbn. rewrite <- (length_map NodeID_String). apply submseteq_length, NoDup_submseteq; [|done].
  apply NoDup_fst_map_to_list.
Qed.

(** ** Lemmas: pushes *)

Lemma push_entries_set e entries clock i :
  fst (push_entries e entries clock i) = set_peers e (e_peers (fst (push_entries e entries clock i))).
Proof.
  revert e i. induction entries as [|en entries IH]; intros e i; [by destruct e|]. simpl.
  destruct (NodeID_Equal _ _); [apply IH|]. destruct (AddOrUpdate _ _ _) as [pm new].
  specialize (IH (set_peers e pm) (S i)). destruct (push_entries (set_peers e pm) entries clock (S i)) as [e' eff].
  simpl in *. by rewrite IH at 1.
Qed.

Lemma push_entries_writes e entries clock i : written (snd (push_entries e entries clock i)) = [].
Proof.
  revert e i. induction entries as [|en entries IH]; intros e i; [done|]. simpl.
  destruct (NodeID_Equal _ _); [apply IH|]. destruct (AddOrUpdate _ _ _) as [pm new].
  specialize (IH (set_peers e pm) (S i)). destruct (push_entries (set_peers e pm) entries clock (S i)) as [e' eff].
  simpl in *. by destruct (new && _).
Qed.

Lemma push_entries_in U B e entries clock i :
  1 <= B → table_in U B (e_peers e) → Forall peer_entry_ok entries → Forall (entry_in U B) entries →
  table_in U B (e_peers (fst (push_entries e entries clock i))).
Proof.
  intros HB. revert e i. induction entries as [|en entries IH]; intros e i Ht Hok Hin; [done|].
  apply Forall_cons in Hok as [[Hv Ha] Hok]. apply Forall_cons in Hin as [[Hi Hb] Hin]. simpl.
  destruct (NodeID_Equal _ _); [by apply IH|].
  assert (table_in U B (fst (AddOrUpdate (e_peers e) (entry_peer en) (clock i)))) as Ht'.
  { apply AddOrUpdate_in; [done..|by rewrite entry_peer_id|cbn; lia|done]. }
  destruct (AddOrUpdate _ _ _) as [pm new]. specialize (IH (set_peers e pm) (S i) Ht' Hok Hin).
  by destruct (push_entries (set_peers e pm) entries clock (S i)).
Qed.

Lemma push_keeps_news e entries clock i id p :
  Get (e_peers e) id = Some p →
  ∃ p', Get (e_peers (fst (push_entries e entries clock i))) id = Some p' ∧ news_le (news p) (news p').
Proof.
  intros Hp. apply (push_entries_keeps (λ o, ∃ p', o = Some p' ∧ news_le (news p) (news p'))); [|by exists p].
  intros pm en now _ (p1 & H1 & Hle). destruct (AddOrUpdate_keeps_news pm (entry_peer en) now id p1 H1) as (p2 & H2 & Hle').
  exists p2. split; [done|]. by etrans.
Qed.

(** What is announced of a peer already known is known afterwards. *)
Lemma push_tells e entries clock i en :
  en ∈ entries → pe_ID en ≠ e_selfID e → pm_selfID (e_peers e) = e_selfID e → is_Some (Get (e_peers e) (pe_ID en)) →
  ∃ p', Get (e_peers (fst (push_entries e entries clock i))) (pe_ID en) = Some p' ∧
    news_le (pe_Version en, pe_State en) (news p').
Proof.
  revert e i. induction entries as [|en' entries IH]; intros e i Hin Hne Hself [p Hp]; [by apply not_elem_of_nil in Hin|].
  cbn [push_entries]. unfold NodeID_Equal. apply elem_of_cons in Hin as [<-|Hin].
  - rewrite bool_decide_false by by rewrite entry_peer_id.
    destruct (AddOrUpdate_news (e_peers e) (entry_peer en) (clock i) p) as (p1 & H1 & _ & Hle);
      [by rewrite Hself, entry_peer_id|by rewrite entry_peer_id|].
    rewrite entry_peer_id in H1. destruct (AddOrUpdate _ _ _) as [pm new]. cbn [fst] in H1.
    destruct (push_keeps_news (set_peers e pm) entries clock (S i) _ _ H1) as (p2 & H2 & Hle').
    destruct (push_entries (set_peers e pm) entries clock (S i)). exists p2. split; [done|]. by etrans.
  - case_bool_decide; [by apply IH; try done; exists p|].
    destruct (AddOrUpdate_keeps_news (e_peers e) (entry_peer en') (clock i) _ _ Hp) as (p1 & H1 & _).
    pose proof (run_peer_op_self (e_peers e) (PAdd (entry_peer en') (clock i))) as Hs. cbn [run_peer_op] in Hs.
    destruct (AddOrUpdate _ _ _) as [pm new]. cbn [fst] in *.
    destruct (IH (set_peers e pm) (S i) Hin Hne ltac:(by cbn; rewrite Hs) ltac:(by exists p1)) as (p2 & H2 & Hle).
    destruct (push_entries (set_peers e pm) entries clock (S i)). by exists p2.
Qed.

(** ** Lemmas: one node *)

Lemma engine_ok_mono U B B' i e : B <= B' → engine_ok U B i e → engine_ok U B' i e.
Proof. intros HB []. split; try done. by eapply table_in_mono. Qed.

Lemma body_ok_mono U B B' m : B <= B' → body_ok U B m → body_ok U B' m.
Proof.
  intros HB [?|[?|(msg & ? & ? & Hin)]]; [by left|by right; left|]. right; right. exists msg. split_and!; [done..|].
  eapply Forall_impl; [done|]. intros en [? ?]. split; [done|lia].
Qed.

(** A push does not decode when its end is missing. *)
Lemma decode_push_cut msg n sp m :
  gossip_push_ok msg → (0 < n ≤ length (EncodeGossipPush msg))%nat →
  DecodeGossipPush (mkSlice (take (length (EncodeGossipPush msg) - n) (EncodeGossipPush msg)) sp) ≠ Ok m.
Proof.
  intros Hok Hn H. set (l := EncodeGossipPush msg) in *.
  pose proof (gossip_decode_sound (take (length l - n) l) sp) as Hs. rewrite H in Hs. destruct Hs as [Hm [rest E]].
  pose proof (take_drop (length l - n) l) as Hl. rewrite E, <- app_assoc in Hl.
  pose proof (decode_encode_gossip m (rest ++ drop (length l - n) l) [] Hm) as D1. rewrite Hl in D1.
  pose proof (decode_encode_gossip msg [] [] Hok) as D2. rewrite app_nil_r in D2. fold l in D2.
  assert (m = msg) as -> by congruence. apply (f_equal length) in E. fold l in E. rewrite length_app, length_take in E. lia.
Qed.

(** The answer to what is on the wire. *)
Lemma handle_message U B e w k m signed verified from sp clock order r :
  message_ok U B (m, signed) → w !! k = Some (m, signed) → engine_op e w (GHandle k verified from sp clock order) = Some r →
  (signed || negb verified = false ∧ r = (e, [])) ∨
  (is_push m = false ∧ (r = (e, SendTo e from EncodePong) ∨ r = (set_peers e (MarkAlive (e_peers e) from (clock 0%nat)), []))) ∨
  ∃ msg sig, m = EncodeGossipPush msg ++ sig ∧ gossip_push_ok msg ∧ Forall (entry_in U B) (Peers msg) ∧ r = handlePush e msg clock.
Proof.
  intros (body & sig & E & Hsig & Hb) Hk. cbn [fst snd] in *. subst m. cbn [engine_op]. rewrite Hk. cbn [mbind option_bind].
  destruct (signed || negb verified) eqn:Hv.
  - assert (∃ tail, (if verified then take (length (body ++ sig) - sigSize) (body ++ sig) else body ++ sig) = body ++ tail) as [tail ->].
    { destruct verified; [|by exists sig]. destruct signed; [|done]. cbn in Hsig.
      exists []. rewrite length_app, Hsig, Nat.add_sub, take_app_length. by rewrite app_nil_r. }
    destruct Hb as [->|[->|(msg & -> & Hok & Hin)]]; unfold HandleMessage; cbn [contents EncodePing EncodePong EncodeGossipPush app].
    + rewrite bool_decide_false, bool_decide_false, bool_decide_true by done. intros [= <-]. right; left. split; [done|]. by left.
    + rewrite !bool_decide_false, bool_decide_true by done. intros [= <-]. right; left. split; [done|]. by right.
    + rewrite bool_decide_true by done. fold (EncodeGossipPush msg ++ tail).
      change (MsgGossipPush :: _ ++ tail) with (EncodeGossipPush msg ++ tail).
      rewrite decode_encode_gossip by done. destruct (handlePush e msg clock) as [e' eff] eqn:E. intros [= <-].
      right; right. exists msg, sig. rewrite E. done.
  - destruct signed, verified; try done. destruct Hsig as [-> Hp]. rewrite app_nil_r.
    destruct Hb as [->|[->|(msg & -> & Hok & Hin)]]; [discriminate..|]. intros H. left. split; [done|].
    set (l := take _ _) in H. unfold HandleMessage in H. cbn [contents] in H. destruct l as [|t l'] eqn:El; [by injection H as <-|].
    assert (t = MsgGossipPush) as ->.
    { pose proof (take_drop (length (EncodeGossipPush msg) - sigSize) (EncodeGossipPush msg)) as Ht. fold l in Ht. rewrite El in Ht.
      by injection Ht as ->. }
    rewrite bool_decide_true in H by done. rewrite <- El in H.
    destruct (DecodeGossipPush (mkSlice l sp)) as [m|x|] eqn:Ed; [|by injection H as <-|done]. exfalso.
    apply (decode_push_cut msg sigSize sp m Hok); [|exact Ed]. apply (f_equal length) in El. unfold l in El.
    rewrite length_take in El. cbn [length] in El. unfold sigSize, SignatureSize in *. lia.
Qed.

(** What an engine writes: a ping, an answer to one, or its table as it is afterwards. *)
Definition op_out (e : Engine) (signed : bool) (m : list byte) : Prop :=
  ∃ body sig, m = body ++ sig ∧ carries signed body sig ∧
    (body = EncodePing ∨ body = EncodePong ∨ ∃ order, peers_order order (e_peers e) ∧ body = buildGossipPush e order).

Lemma signed_out U B i e body :
  engine_ok U B i e →
  (body = EncodePing ∨ body = EncodePong ∨ ∃ order, peers_order order (e_peers e) ∧ body = buildGossipPush e order) →
  op_out e true (signMsg e body).
Proof.
  intros [_ _ _ _ [priv Hs]] Hb. unfold signMsg. rewrite Hs. exists body, (ed_Sign priv body).
  split; [done|]. split; [apply length_sign|done].
Qed.

Lemma SendTo_out U B i e id body m :
  engine_ok U B i e →
  (body = EncodePing ∨ body = EncodePong ∨ ∃ order, peers_order order (e_peers e) ∧ body = buildGossipPush e order) →
  m ∈ written (SendTo e id body) → op_out e true m.
Proof.
  intros Hok Hb. unfold SendTo. destruct (conns e !! _); cbn; [|by intros ?%not_elem_of_nil].
  intros ->%list_elem_of_singleton. by eapply signed_out.
Qed.

Lemma written_app l1 l2 : written (l1 ++ l2) = written l1 ++ written l2.
Proof. apply omap_app. Qed.

Lemma push_random_out U B i e orders rng m :
  engine_ok U B i e → (∀ k, peers_order (orders k) (e_peers e)) → m ∈ written (fst (pushToRandom e orders rng)) → op_out e true m.
Proof.
  intros Hok Hord (g & Hin & Hg)%list_elem_of_omap. apply pushToRandom_writes in Hin as (k & id & Hin).
  eapply (SendTo_out U B i e id (buildGossipPush e (orders k))); [done| |]; [right; right; by exists (orders k)|].
  apply list_elem_of_omap. by exists g.
Qed.

(** What one operation does to a node and to the wire. *)
Record op_spec (U : gset NodeID) (B : Z) (i : NodeID) (s : bool) (e e' : Engine) (eff : list geffect) : Prop := {
  os_ok : engine_ok U (B + 1) i e';
  os_out : ∀ m, m ∈ written eff → op_out e' s m;
  os_news : B + 1 < 2 ^ 64 → ∀ id p, Get (e_peers e) id = Some p →
              ∃ p', Get (e_peers e') id = Some p' ∧ news_le (news p) (news p') }.

Lemma op_spec_same U B i s e eff :
  engine_ok U B i e → (∀ m, m ∈ written eff → op_out e s m) → op_spec U B i s e e eff.
Proof.
  intros Hok Ho. split; [by eapply engine_ok_mono; [|done]; lia|done|]. intros _ id p Hp. by exists p.
Qed.

(** An operation of the table. *)
Lemma op_spec_table U B i s e op id0 :
  engine_ok U B i e → op = PSuspect id0 ∨ op = PDead id0 ∨ (∃ now, op = PAlive id0 now) →
  op_spec U B i s e (set_peers e (run_peer_op (e_peers e) op)) [].
Proof.
  intros [(H1 & H2 & H3) Hok Ht Ha Hs] Hop. split.
  - split; try done.
    + cbn. by rewrite run_peer_op_self.
    + destruct Hop as [->|[->|[now ->]]]; cbn; auto with go.
    + by eapply mark_in.
  - cbn. by intros m ?%not_elem_of_nil.
  - intros HB id p Hp. apply peer_op_news; [done| |done|].
    + intros x. by destruct Hop as [->|[->|[now ->]]].
    + destruct (Ht _ _ Hp) as (_ & _ & ?). lia.
Qed.

Lemma op_spec_push U B i s e msg clock :
  1 <= B → engine_ok U B i e → gossip_push_ok msg → Forall (entry_in U B) (Peers msg) →
  op_spec U B i s e (fst (handlePush e msg clock)) (snd (handlePush e msg clock)).
Proof.
  intros HB Hok [Hp Hn] Hin. pose proof Hok as [(H1 & H2 & H3) Hpm Ht Ha Hs]. unfold handlePush.
  destruct (push_entries_frame e (Peers msg) clock 0) as (F1 & _ & _ & F2). split.
  - apply engine_ok_mono with B; [lia|]. rewrite push_entries_set. split; try done.
    + cbn. by rewrite F2.
    + apply push_entries_ok; [done|]. eapply Forall_impl; [exact Hp|]. by intros en [? ?].
    + by apply push_entries_in.
  - rewrite push_entries_writes. by intros m ?%not_elem_of_nil.
  - intros _ id p. apply push_keeps_news.
Qed.

Lemma op_spec_connect U B i e id conn now order :
  1 <= B → engine_ok U B i e → op_valid U e (GConnect id conn now order) →
  op_spec U B i true e (fst (AddDirectConnection e id conn now order)) (snd (AddDirectConnection e id conn now order)).
Proof.
  intros HB [(H1 & H2 & H3) Hpm Ht Ha Hs] (Hid & Hc & Hord).
  assert (engine_ok U B i (fst (AddDirectConnection e id conn now order))) as Hok'.
  { unfold AddDirectConnection. split; try done; cbn -[AddOrUpdate].
    - split_and!; [done| |done]. rewrite <- H2. apply (run_peer_op_self _ (PAdd _ _)).
    - apply AddOrUpdate_ok; [done|]. unfold fits. cbn. lia.
    - by apply AddOrUpdate_in; try done; cbn; lia. }
  split; [by eapply engine_ok_mono; [|done]; lia| |].
  - intros m. cbn [AddDirectConnection snd written omap list_omap]. intros ->%list_elem_of_singleton.
    apply (signed_out _ _ _ _ _ Hok'). right; right. by exists order.
  - intros _ id' p Hp. unfold AddDirectConnection. cbn -[AddOrUpdate]. by apply AddOrUpdate_keeps_news.
Qed.

Lemma engine_op_spec U B i e w op e' eff :
  1 <= B → engine_ok U B i e → Forall (message_ok U B) w → op_valid U e op → engine_op e w op = Some (e', eff) →
  op_spec U B i (signs op) e e' eff.
Proof.
  intros HB Hok Hw Hv H. destruct op as [conn order|id conn now order|id|id|orders rng|order rng write_ok|target now|k v from sp clock order].
  - injection H as <- <-. apply op_spec_same; [done|]. cbn. intros m ->%list_elem_of_singleton.
    exists (buildGossipPush e order), []. split_and!; [by rewrite app_nil_r|done|]. right; right. by exists order.
  - pose proof (op_spec_connect U B i e id conn now order HB Hok Hv) as Hs. cbn [engine_op] in H. apply (inj Some) in H.
    by rewrite H in Hs.
  - injection H as <- <-. destruct (op_spec_same U B i true e [] Hok) as [[] _ H3]; [by intros m ?%not_elem_of_nil|].
    split; [by split|by intros m ?%not_elem_of_nil|done].
  - injection H as <- <-. apply (op_spec_table U B i true e (PDead id) id); auto.
  - injection H as <- <-. apply op_spec_same; [done|]. intros m. by eapply push_random_out.
  - cbn [engine_op] in H. apply (inj Some) in H. unfold probeRandomPeer in H.
    assert (op_spec U B i true e e []) as Hsame by (apply op_spec_same; [done|by intros m ?%not_elem_of_nil]).
    case_decide; [cbn in H; by simplify_eq|]. destruct (GetAlive order !! _) as [t|]; [|cbn in H; by simplify_eq].
    destruct (conns e !! _) as [conn|]; [|cbn in H; by simplify_eq]. destruct write_ok; cbn in H; simplify_eq.
    + apply op_spec_same; [done|]. cbn. intros m ->%list_elem_of_singleton. apply (signed_out _ _ _ _ _ Hok). by left.
    + apply (op_spec_table U B i true e (PSuspect (ID t)) (ID t)); auto.
  - injection H as <- <-. unfold probe_timeout.
    assert (op_spec U B i true e e []) as Hsame by (apply op_spec_same; [done|by intros m ?%not_elem_of_nil]).
    destruct (Get _ _) as [p|]; [|done]. destruct (_ && _); [|done]. apply (op_spec_table U B i true e (PSuspect target) target); auto.
  - assert (∃ m signed, w !! k = Some (m, signed)) as (m & signed & Hk) by (cbn in H; destruct (w !! k) as [[]|]; [by eexists _, _|done]).
    assert (message_ok U B (m, signed)) as Hm by by apply (Forall_lookup_1 _ _ _ _ Hw Hk).
    destruct (handle_message U B e w k m signed v from sp clock order _ Hm Hk H)
      as [[_ [= -> ->]]|[(_ & [[= -> ->]|[= -> ->]])|(msg & sig & _ & Hp & Hin & Hr)]].
    + apply op_spec_same; [done|by intros m' ?%not_elem_of_nil].
    + apply op_spec_same; [done|]. intros m'. eapply SendTo_out; [done|auto].
    + apply (op_spec_table U B i true e (PAlive from (clock 0%nat)) from); eauto.
    + pose proof (op_spec_push U B i true e msg clock HB Hok Hp Hin) as Hs. by rewrite <- Hr in Hs.
Qed.

(** ** Lemmas: the network *)

Lemma out_message U B i e s m :
  1 <= B → Z.of_nat (size U) < 65535 → engine_ok U B i e → op_out e s m → message_ok U B (m, s).
Proof.
  intros HB HU [(H1 & H2 & H3) Hpm Ht Ha _] (body & sig & -> & Hsig & Hb). exists body, sig. split_and!; [done..|].
  destruct Hb as [->|[->|(order & Hord & ->)]]; [by left|by right; left|right; right].
  pose proof (table_size _ _ _ _ Hpm Ht Hord) as Hlen.
  assert (∀ p, p ∈ GetAll order → Get (e_peers e) (ID p) = Some p) as Hget.
  { intros p ([k q] & -> & Hin)%list_elem_of_fmap. rewrite Hord in Hin. apply elem_of_map_to_list in Hin. cbn.
    destruct (Hpm _ _ Hin) as (-> & _). done. }
  eexists. split; [done|]. split.
  - apply built_push_ok; [|done..]. split_and!; [|done|lia]. apply Forall_forall. intros p Hp.
    by destruct (Ht _ _ (Hget p Hp)) as (_ & ? & _).
  - cbn [Peers]. apply Forall_cons. split; [split; [|done]; cbn; by rewrite array_copy_bytes_of, H1|].
    apply Forall_fmap, Forall_forall. intros p Hp. destruct (Ht _ _ (Hget p Hp)) as (? & _ & ?).
    split; [cbn; by rewrite array_copy_bytes_of|done].
Qed.

Lemma message_ok_mono U B B' m : B <= B' → message_ok U B m → message_ok U B' m.
Proof. intros HB (body & sig & ? & ? & ?). exists body, sig. split_and!; [done..|]. by eapply body_ok_mono. Qed.

(** What one step of the network does. *)
Lemma gnet_step_spec U B n x op n' :
  1 <= B → Z.of_nat (size U) < 65535 → gnet_ok U B n → gnet_step U n x op n' →
  ∃ e e' eff, engines n !! x = Some e ∧ engines n' = <[x := e']> (engines n) ∧
    g_wire n' = g_wire n ++ map (., signs op) (written eff) ∧ engine_op e (g_wire n) op = Some (e', eff) ∧
    engine_ok U B x e ∧ op_spec U B x (signs op) e e' eff ∧ gnet_ok U (B + 1) n'.
Proof.
  intros HB HU [He Hw] [e e' eff Hx Hv Hop]. exists e, e', eff. pose proof (He _ _ Hx) as Hok.
  pose proof (engine_op_spec U B x e _ op e' eff HB Hok Hw Hv Hop) as Hs. split_and!; try done. split; cbn.
  - apply map_Forall_insert_2; [apply Hs|]. eapply map_Forall_impl; [done|]. intros i e1 H1. cbn in H1.
    eapply engine_ok_mono; [|done]. lia.
  - apply Forall_app. split; [eapply Forall_impl; [done|]; intros m; cbn; apply message_ok_mono; lia|].
    apply Forall_fmap, Forall_forall. intros m Hm. eapply out_message; [lia|done|apply Hs|]. by apply (os_out _ _ _ _ _ _ _ Hs).
Qed.

(** ** Lemmas: a rumour about [id], at least as new as [lb] *)

Section rumour.
Context (id : NodeID) (lb : option (Z * byte)).

Definition at_least (x : Z * byte) : Prop := match lb with None => True | Some l => news_le l x end.

Definition holds (e : Engine) : Prop :=
  match Get (e_peers e) id with Some p => at_least (news p) | None => id = e_selfID e ∧ lb = None end.

Definition said (m : list byte) : Prop :=
  ∀ msg sig, m = EncodeGossipPush msg ++ sig → gossip_push_ok msg →
    ∃ en, en ∈ Peers msg ∧ pe_ID en = id ∧ at_least (pe_Version en, pe_State en).

Lemma at_least_le x y : news_le x y → at_least x → at_least y.
Proof. unfold at_least. destruct lb; [|done]. intros. by etrans. Qed.

Lemma holds_keeps U B i s e e' eff :
  B + 1 < 2 ^ 64 → engine_ok U B i e → op_spec U B i s e e' eff → holds e → holds e'.
Proof.
  intros HB [(H1 & _) _ _ _ _] [[(H1' & _) _ _ _ _] _ Hn]. unfold holds. destruct (Get (e_peers e) id) as [p|] eqn:Hp.
  - destruct (Hn HB id p Hp) as (p' & -> & Hle). by apply at_least_le.
  - intros [-> El]. rewrite H1, <- H1'. destruct (Get (e_peers e') _); [|done]. by unfold at_least; rewrite El.
Qed.

Lemma holds_said U B i e s m :
  1 <= B → Z.of_nat (size U) < 65535 → engine_ok U B i e → holds e → op_out e s m → said m.
Proof.
  intros HB HU [(H1 & H2 & H3) Hpm Ht Ha Hs] Hh (body & sig & -> & _ & Hb) msg sig' E Hmsg.
  destruct Hb as [->|[->|(order & Hord & ->)]]; [discriminate..|].
  assert (gossip_push_ok (mkGossipPush (self_entry e :: map wire_entry (GetAll order)))) as Hok.
  { pose proof (table_size _ _ _ _ Hpm Ht Hord). apply built_push_ok; [|done..]. split_and!; [|done|lia].
    apply Forall_forall. intros p ([k q] & -> & Hin)%list_elem_of_fmap. rewrite Hord in Hin.
    apply elem_of_map_to_list in Hin. destruct (Hpm _ _ Hin) as (-> & _). by apply (Ht _ _ Hin). }
  assert (msg = mkGossipPush (self_entry e :: map wire_entry (GetAll order))) as ->.
  { pose proof (decode_encode_gossip msg sig' [] Hmsg) as D1. rewrite <- E in D1.
    pose proof (decode_encode_gossip _ sig [] Hok) as D2. unfold buildGossipPush in D1. congruence. }
  cbn [Peers]. unfold holds in Hh. destruct (Get (e_peers e) id) as [p|] eqn:Hp.
  - exists (wire_entry p). destruct (Get_ok _ _ _ Hpm Hp) as (Hid & _). split_and!; [|cbn; by rewrite array_copy_bytes_of|done].
    right. apply list_elem_of_fmap. exists p. split; [done|]. apply list_elem_of_fmap. exists (NodeID_String id, p).
    split; [done|]. rewrite Hord. by apply elem_of_map_to_list.
  - destruct Hh as [-> El]. exists (self_entry e). split_and!; [left|apply array_copy_bytes_of|]. by unfold at_least; rewrite El.
Qed.

Lemma hears_holds U B i e m msg sig clock :
  engine_ok U B i e → said m → m = EncodeGossipPush msg ++ sig → gossip_push_ok msg →
  (lb ≠ None → i ≠ id ∧ is_Some (Get (e_peers e) id)) → holds (fst (handlePush e msg clock)).
Proof.
  intros [(H1 & H2 & H3) Hpm _ _ _] Hs Hm Hok Hlb. destruct (Hs msg sig Hm Hok) as (en & Hin & Hid & Hle).
  unfold holds, handlePush. destruct (push_entries_frame e (Peers msg) clock 0) as (F1 & _).
  destruct (decide (id = i)) as [Ei|Hne].
  - assert (lb = None) as El by (destruct lb; [destruct (Hlb ltac:(done)); congruence|done]).
    destruct (Get (e_peers (fst _)) _); [by unfold at_least; rewrite El|]. by rewrite F1, H1.
  - destruct lb as [l|] eqn:El.
    + destruct (Hlb ltac:(done)) as [_ Hk]. rewrite <- Hid in *.
      destruct (push_tells e (Peers msg) clock 0 en Hin ltac:(congruence) ltac:(congruence) Hk) as (p' & -> & Hle').
      unfold at_least in *. rewrite El in *. by etrans.
    + destruct (push_entries_known e (Peers msg) clock 0 en Hin ltac:(congruence) ltac:(congruence)) as [p Hp].
      rewrite Hid in Hp. rewrite Hp. by unfold at_least; rewrite El.
Qed.

Record rumour_ok (R : gset NodeID) (n : GNet) (r : Rumour) : Prop := {
  ro_informed : ∀ x e, x ∈ informed r → engines n !! x = Some e → holds e;
  ro_carrying : ∀ k, k ∈ carrying r → ∃ m s, g_wire n !! k = Some (m, s) ∧ said m;
  ro_known : lb ≠ None → ∀ x e, x ∈ R → engines n !! x = Some e → x ≠ id ∧ is_Some (Get (e_peers e) id) }.

(** Who hears the rumour by an operation holds it afterwards. *)
Lemma hears_step U B R n r x op e e' eff :
  gnet_ok U B n → rumour_ok R n r → engines n !! x = Some e → engine_op e (g_wire n) op = Some (e', eff) →
  hears R x op (g_wire n) r = true → holds e'.
Proof.
  intros [He Hw] [_ Hc Hk] Hx Hop Hh. destruct op as [| | | | | | |k v from sp clock order]; try done. cbn [hears] in Hh.
  apply andb_true_iff in Hh as [Hh Hp]. apply andb_true_iff in Hh as [Hr Hin].
  apply bool_decide_eq_true in Hr, Hin. destruct (Hc k Hin) as (m & s & Hm & Hs). rewrite Hm in Hp.
  apply andb_true_iff in Hp as [Hp Hv]. assert (message_ok U B (m, s)) as Hmok by apply (Forall_lookup_1 _ _ _ _ Hw Hm).
  destruct (handle_message U B e _ k m s v from sp clock order _ Hmok Hm Hop) as [[? _]|[[? _]|(msg & sig & E & Hok & _ & Ee)]]; [congruence..|].
  pose proof (hears_holds U B x e m msg sig clock (He _ _ Hx) Hs E Hok (λ H, Hk H x e Hr Hx)) as Hf. by rewrite <- Ee in Hf.
Qed.

Lemma rumour_step_ok U B R n r x op n' :
  1 <= B → B + 1 < 2 ^ 64 → Z.of_nat (size U) < 65535 → gnet_ok U B n → gnet_step U n x op n' → rumour_ok R n r →
  rumour_ok R n' (rumour_step R x op (g_wire n) (g_wire n') r).
Proof.
  intros HB HB' HU Hn Hstep Hr.
  destruct (gnet_step_spec U B n x op n' HB HU Hn Hstep) as (e & e' & eff & Hx & En & Ew & Hop & Hok & Hs & Hn').
  pose proof (hears_step U B R n r x op e e' eff Hn Hr Hx Hop) as Hh. destruct Hr as [Hi Hc Hk].
  assert (x ∈ informed (rumour_step R x op (g_wire n) (g_wire n') r) → holds e') as Hx'.
  { unfold rumour_step. cbn [informed]. destruct (hears R x op (g_wire n) r); [intros _; by apply Hh|].
    intros Hin. eapply holds_keeps; [done..|]. by apply (Hi x e). }
  split.
  - intros y ey Hy. rewrite En, lookup_insert. case_decide as Exy; [subst y; intros [= <-]; by apply Hx'|].
    apply Hi. unfold rumour_step in Hy. cbn [informed] in Hy. destruct (hears R x op _ r); [|done].
    by apply elem_of_union in Hy as [Hy%elem_of_singleton|Hy]; [destruct Exy|].
  - intros k Hin. unfold rumour_step in Hin, Hx'. cbn [carrying informed] in Hin, Hx'. rewrite Ew.
    assert (k ∈ carrying r ∨ holds e' ∧ (length (g_wire n) ≤ k < length (g_wire n'))%nat) as [Hk'|[He' Hlen]].
    { case_bool_decide as Hb; [|by left]. specialize (Hx' Hb). apply elem_of_union in Hin as [?|Hin]; [by left|right].
      apply elem_of_list_to_set, elem_of_seq in Hin. split; [done|lia]. }
    + destruct (Hc k Hk') as (m & s & Hm & Hsd). exists m, s. split; [by apply lookup_app_l_Some|done].
    + rewrite Ew, length_app, length_map in Hlen. destruct (lookup_lt_is_Some_2 (written eff) (k - length (g_wire n))) as [m Hm]; [lia|].
      exists m, (signs op). split; [by rewrite lookup_app_r, list_lookup_fmap, Hm by lia|].
      eapply (holds_said U (B + 1)); [lia|done|apply Hs|done|].
      apply (os_out _ _ _ _ _ _ _ Hs). by eapply list_elem_of_lookup_2.
  - intros Hlb y ey Hy. rewrite En, lookup_insert. case_decide as Exy; [subst y; intros [= <-]|by apply Hk].
    destruct (Hk Hlb x e Hy Hx) as [Hne [p Hp]]. split; [done|].
    destruct (os_news _ _ _ _ _ _ _ Hs HB' id p Hp) as (p' & -> & _). by eexists.
Qed.

Lemma gossip_run_ok U R B n0 r0 m n r :
  1 <= B → B + Z.of_nat m < 2 ^ 64 → Z.of_nat (size U) < 65535 → gnet_ok U B n0 → rumour_ok R n0 r0 →
  gossip_run U R n0 r0 m n r → gnet_ok U (B + Z.of_nat m) n ∧ rumour_ok R n r.
Proof.
  intros HB HB' HU Hn Hr Hrun. induction Hrun as [|m n r x op n' Hrun IH Hstep]; [by rewrite Z.add_0_r|].
  destruct IH as [Hn1 Hr1]; [lia|]. replace (B + Z.of_nat (S m)) with (B + Z.of_nat m + 1) by lia. split.
  - destruct (gnet_step_spec U (B + Z.of_nat m) n x op n') as (e & e' & eff & _ & _ & _ & _ & _ & _ & H); [lia|done..].
  - apply (rumour_step_ok U (B + Z.of_nat m) R n r x op n'); [lia..|done|done|done|done].
Qed.
End rumour.

(** ** Properties *)

(** C13: gossip spreads along causality. In every run of a network of nodes, with messages
    delayed, repeated, reordered or lost, whoever is reached by a chain of pushes that starts at a node
    knows every node that this one knew when the chain started, and the node itself. Of
    a peer that all on the chain knew before it also has news at least as good: a higher
    version, or the same version and the peer alive if it was announced alive. *)
Theorem gossip_causal U R B n0 i e0 m n r j e :
  Z.of_nat (size U) < 65535 → 1 <= B → B + Z.of_nat m < 2 ^ 64 → gnet_ok U B n0 → engines n0 !! i = Some e0 →
  gossip_run U R n0 (mkRumour {[i]} ∅) m n r → j ∈ informed r → engines n !! j = Some e →
  (∀ id, id = i ∨ is_Some (Get (e_peers e0) id) → id = j ∨ is_Some (Get (e_peers e) id)) ∧
  (∀ id p0, Get (e_peers e0) id = Some p0 →
     (∀ x ex, x ∈ R → engines n0 !! x = Some ex → x ≠ id ∧ is_Some (Get (e_peers ex) id)) →
     ∃ p, Get (e_peers e) id = Some p ∧ news_le (news p0) (news p)).
Proof.
  intros HU HB HBm Hn Hi Hrun Hj He.
  assert (∀ id lb, holds id lb e0 → (lb ≠ None → ∀ x ex, x ∈ R → engines n0 !! x = Some ex → x ≠ id ∧ is_Some (Get (e_peers ex) id)) →
    holds id lb e ∧ e_selfID e = j) as Hrun'.
  { intros id lb Hh Hk. destruct (gossip_run_ok id lb U R B n0 (mkRumour {[i]} ∅) m n r) as [[Hen _] Hr]; try done.
    - split; cbn; [|by intros k ?%not_elem_of_empty|done]. intros x ex ->%elem_of_singleton. by rewrite Hi; intros [= <-].
    - split; [by apply (ro_informed _ _ _ _ _ Hr j e)|]. by destruct (eo_self _ _ _ _ (Hen _ _ He)) as [? _]. }
  pose proof (eo_self _ _ _ _ (proj1 Hn _ _ Hi)) as (Es & _). split.
  - intros id Hid. destruct (Hrun' id None) as [Hh Ee]; [|done|].
    + unfold holds. destruct (Get (e_peers e0) id) eqn:Hg; [done|]. destruct Hid as [->|[? ?]]; [by rewrite Es|done].
    + unfold holds in Hh. destruct (Get (e_peers e) id); [by right; eexists|left]. destruct Hh as [-> _]. congruence.
  - intros id p0 Hp0 Hk. destruct (Hrun' id (Some (news p0))) as [Hh _]; [|by intros _|].
    + unfold holds. rewrite Hp0. cbn. reflexivity.
    + unfold holds in Hh. destruct (Get (e_peers e) id) as [p|]; [by exists p|]. by destruct Hh.
Qed.
End net.

(** Two nodes that know a third one; the first loses it and greets the second. *)
Definition gossip_x : Engine :=
  SetSignFunc (set_peers (NewEngine node_x [x31] (array_copy 32 [x07]) DefaultConfig)
    (fst (AddOrUpdate (NewPeerManager node_x) example_peer 5))) (λ m, @SignMessage toy_ed25519 m [x07]).
Definition gossip_z : Engine :=
  SetSignFunc (set_peers (NewEngine node_z [x32] (array_copy 32 [x08]) DefaultConfig)
    (fst (AddOrUpdate (NewPeerManager node_z) example_peer 5))) (λ m, @SignMessage toy_ed25519 m [x08]).
Definition gossip_members : gset NodeID := {[node_x; node_y; node_z]}.
Definition gossip0 : GNet := mkGNet (<[node_x := gossip_x]> {[node_z := gossip_z]}) [].

Definition gossip_dead : Engine := set_peers gossip_x (MarkDead (e_peers gossip_x) node_y).
Definition gossip_hello : list byte := buildGossipPush gossip_dead (map_to_list (peers (e_peers gossip_dead))).
Definition gossip_heard : Engine :=
  match engine_op gossip_z [(gossip_hello, false)] (GHandle 0 false node_x [] (λ _, 9) (map_to_list (peers (e_peers gossip_z)))) with
  | Some (e, _) => e | None => gossip_z end.
Definition gossip_end : GNet :=
  mkGNet (<[node_z := gossip_heard]> (<[node_x := gossip_dead]> (<[node_x := gossip_dead]> (engines gossip0)))) [(gossip_hello, false)].

Lemma gossip_end_run :
  ∃ r, gossip_run gossip_members {[node_z]} gossip0 (mkRumour {[node_x]} ∅) 3 gossip_end r ∧ node_z ∈ informed r.
Proof.
  eexists. split.
  - eapply (gossip_snoc _ _ _ _ 2 _ _ node_z (GHandle 0 false node_x [] (λ _, 9) (map_to_list (peers (e_peers gossip_z))))).
    + eapply (gossip_snoc _ _ _ _ 1 _ _ node_x (GGreet (mkConnRef 1 [x31]) (map_to_list (peers (e_peers gossip_dead))))).
      * eapply (gossip_snoc _ _ _ _ 0 _ _ node_x (GLost node_y)); [apply gossip_nil|].
        apply (gnet_step_intro _ _ _ _ gossip_x gossip_dead []); [vm_compute; reflexivity|done|reflexivity].
      * apply (gnet_step_intro _ _ _ _ gossip_dead gossip_dead [ControlWrite (mkConnRef 1 [x31]) gossip_hello]);
          [by apply lookup_insert_eq|exact (Permutation_refl _)|reflexivity].
    + apply (gnet_step_eq _ _ _ _ _ gossip_z gossip_heard []);
        [vm_compute; reflexivity|exact (Permutation_refl _)|vm_compute; reflexivity|reflexivity].
  - vm_compute. reflexivity.
Qed.

Lemma gossip0_ok : gnet_ok (Sig := toy_ed25519) gossip_members 3 gossip0.
Proof.
  assert (∀ self, ID example_peer ≠ self → pm_ok (fst (AddOrUpdate (NewPeerManager self) example_peer 5)) ∧
    table_in gossip_members 3 (fst (AddOrUpdate (NewPeerManager self) example_peer 5))) as H.
  { intros self Hne. split; [apply AddOrUpdate_ok; [apply map_Forall_empty|unfold fits; cbn; lia]|].
    apply AddOrUpdate_in; [lia|by intros id p| |cbn; lia|cbn; lia]. unfold gossip_members. set_solver. }
  split; [|apply Forall_nil_2]. apply map_Forall_insert_2; [|apply map_Forall_singleton].
  - destruct (H node_x) as [H1 H2]; [discriminate|].
    split; [split_and!; [reflexivity..|unfold gossip_members; set_solver]|exact H1|exact H2|cbn; lia|by eexists].
  - destruct (H node_z) as [H1 H2]; [discriminate|].
    split; [split_and!; [reflexivity..|unfold gossip_members; set_solver]|exact H1|exact H2|cbn; lia|by eexists].
Qed.

Lemma gossip_causal_witness :
  (∀ id, id = node_x ∨ is_Some (Get (e_peers gossip_x) id) → id = node_z ∨ is_Some (Get (e_peers gossip_heard) id)) ∧
  (∀ id p0, Get (e_peers gossip_x) id = Some p0 →
     (∀ x ex, x ∈ ({[node_z]} : gset NodeID) → engines gossip0 !! x = Some ex → x ≠ id ∧ is_Some (Get (e_peers ex) id)) →
     ∃ p, Get (e_peers gossip_heard) id = Some p ∧ news_le (news p0) (news p)).
Proof.
  destruct gossip_end_run as (r & Hrun & Hin).
  apply (gossip_causal (Sig := toy_ed25519) gossip_members {[node_z]} 3 gossip0 node_x gossip_x 3 gossip_end r node_z).
  - vm_compute. reflexivity.
  - lia.
  - vm_compute. reflexivity.
  - apply gossip0_ok.
  - vm_compute. reflexivity.
  - exact Hrun.
  - exact Hin.
  - vm_compute. reflexivity.
Defined.

(** ** What the order of messages decides *)

Definition announces (id : NodeID) (st : byte) (v : Z) (m : GossipPushMessage) : Prop :=
  ∃ pk addr, Peers m = [mkPeerEntry id pk st v addr].

Lemma handle_announcement e id st v m clock :
  announces id st v m → id ≠ e_selfID e → pm_selfID (e_peers e) = e_selfID e →
  e_selfID (fst (handlePush e m clock)) = e_selfID e ∧
  pm_selfID (e_peers (fst (handlePush e m clock))) = e_selfID e ∧
  ∃ p, Get (e_peers (fst (handlePush e m clock))) id = Some p ∧
    (news p, LastSeen p) =
      match Get (e_peers e) id with
      | None => ((1, st), clock 0%nat)
      | Some q => if (Version q <? v) || ((v =? Version q) && bool_decide (st = PeerAlive)) then ((v, st), clock 0%nat)
                  else (news q, LastSeen q)
      end.
Proof.
  intros (pk & addr & Hm) Hne Hself. destruct (push_entries_frame e (Peers m) clock 0) as (F1 & _ & _ & F2).
  unfold handlePush in *. split; [done|]. split; [by rewrite F2|]. rewrite Hm. cbn [push_entries].
  unfold NodeID_Equal. rewrite entry_peer_id. cbn [pe_ID]. rewrite bool_decide_false by done.
  pose proof (Get_AddOrUpdate (e_peers e) (entry_peer (mkPeerEntry id pk st v addr)) (clock 0%nat) id) as Hg.
  rewrite entry_peer_id, decide_True in Hg by by rewrite Hself. destruct (AddOrUpdate _ _ _) as [pm new]. cbn [fst] in Hg |- *.
  change (e_peers (set_peers e pm)) with pm. rewrite Hg. destruct (Get (e_peers e) id) as [q|]; [|by eexists].
  unfold is_news. cbn [Version State entry_peer pe_Version pe_State]. eexists. split; [done|]. by destruct (_ || _).
Qed.

(** Two announcements of a peer unknown so far, one of its death at version [v] and an older one of its life:
    when the death comes first it is filed with version 1, and the older news then brings the peer
    back to life. *)
Lemma stale_life_wins e id v w dead alive clock clock' :
  Get (e_peers e) id = None → id ≠ e_selfID e → pm_selfID (e_peers e) = e_selfID e → 1 <= w < v →
  announces id PeerDead v dead → announces id PeerAlive w alive →
  (∃ p, Get (e_peers (fst (handlePush (fst (handlePush e dead clock)) alive clock'))) id = Some p ∧ news p = (w, PeerAlive)) ∧
  (∃ p, Get (e_peers (fst (handlePush (fst (handlePush e alive clock)) dead clock'))) id = Some p ∧ news p = (v, PeerDead)).
Proof.
  intros Hg Hne Hself Hv Hd Ha.
  destruct (handle_announcement e id _ v dead clock Hd Hne Hself) as (D1 & D2 & q & Hq & Eq). rewrite Hg in Eq.
  destruct (handle_announcement e id _ w alive clock Ha Hne Hself) as (A1 & A2 & q' & Hq' & Eq'). rewrite Hg in Eq'.
  unfold news in Eq, Eq'. injection Eq as V S _. injection Eq' as V' S' _. split.
  - destruct (handle_announcement (fst (handlePush e dead clock)) id _ w alive clock' Ha) as (_ & _ & p & Hp & Ep); [by rewrite D1|by rewrite D2|].
    exists p. split; [done|]. rewrite Hq, V in Ep. rewrite bool_decide_true, andb_true_r in Ep by done.
    destruct (Z.ltb_spec 1 w), (Z.eqb_spec w 1); cbn in Ep; try lia; congruence.
  - destruct (handle_announcement (fst (handlePush e alive clock)) id _ v dead clock' Hd) as (_ & _ & p & Hp & Ep); [by rewrite A1|by rewrite A2|].
    exists p. split; [done|]. rewrite Hq', V' in Ep. destruct (Z.ltb_spec 1 v); [|lia]. cbn in Ep. congruence.
Qed.

(** Whoever hears from a third party that a peer is alive, at the version it knows, takes that for a sign of
    life: a probe that expires within the timeout afterwards changes nothing, whether the peer
    has answered or not. *)
Lemma hearsay_keeps_alive e id v m clock q now :
  announces id PeerAlive v m → id ≠ e_selfID e → pm_selfID (e_peers e) = e_selfID e →
  Get (e_peers e) id = Some q → Version q = v →
  0 <= PeerTimeout (config e) → now - clock 0%nat <= PeerTimeout (config e) →
  let e' := fst (handlePush e m clock) in probe_timeout e' id now = e'.
Proof.
  intros Hm Hne Hself Hq Hv Ht Hnow e'. destruct (handle_announcement e id _ v m clock Hm Hne Hself) as (_ & _ & p & Hp & Ep).
  rewrite Hq, Hv, Z.eqb_refl, bool_decide_true, orb_true_r in Ep by done. injection Ep as _ _ El.
  assert (config e' = config e) as Ec by apply (push_entries_frame e (Peers m) clock 0).
  unfold probe_timeout. fold e' in Hp. rewrite Hp, Ec, El. destruct (Z.ltb_spec (PeerTimeout (config e)) (time_sub now (clock 0%nat))) as [Hlt|];
    [|by rewrite andb_false_r].
  unfold time_sub, min_duration in Hlt. lia.
Qed.
