(* ===== verification/Session.v ===== *)
(** * UDP sessions and the UDP relay ([forward/session.go], [forward/udp_relay.go])

    A session is shared by pointer between the table and its readers; the only field
    ever written after creation is [LastUsed], which only the table reads, so a session
    that is handed out is a value. Sessions that are overwritten in the table live on
    in their readers only. *)

From S2P Require Import Prelude Bytes Identity Wire WireForward.
From stdpp Require Import options.

Record UDPAddr := mkUDPAddr { ua_IP : list byte; ua_Port : Z }.

#[export] Instance UDPAddr_eq_dec : EqDecision UDPAddr.
Proof. solve_decision. Defined.

Record UDPSession := mkUDPSession {
  us_ID : Z;
  ClientAddr : option UDPAddr;
  TargetAddr : option UDPAddr;
  us_NextHop : NodeID;
  CreatedAt : Z;
  LastUsed : Z }.

#[export] Instance UDPSession_eq_dec : EqDecision UDPSession.
Proof. solve_decision. Defined.

Record SessionTable := mkSessionTable {
  sessions : gmap Z UDPSession; nextID : Z; st_ttl : Z }.

Definition NewSessionTable (ttl : Z) : SessionTable := mkSessionTable ∅ 1 ttl.

(** [created] and [used] are the two readings of the clock. *)
Definition CreateWithID (st : SessionTable) (id : Z) (clientAddr targetAddr : option UDPAddr)
    (nextHop : NodeID) (created used : Z) : SessionTable * UDPSession :=
  let s := mkUDPSession id clientAddr targetAddr nextHop created used in
  (mkSessionTable (<[id := s]> (sessions st)) (nextID st) (st_ttl st), s).

Definition Create (st : SessionTable) (clientAddr targetAddr : option UDPAddr)
    (nextHop : NodeID) (created used : Z) : SessionTable * UDPSession :=
  let id := nextID st in
  let s := mkUDPSession id clientAddr targetAddr nextHop created used in
  (mkSessionTable (<[id := s]> (sessions st)) (nextID st +u32 1) (st_ttl st), s).

Definition Session_Lookup (st : SessionTable) (id : Z) : option UDPSession := sessions st !! id.

Definition touched (now : Z) (s : UDPSession) : UDPSession :=
  mkUDPSession (us_ID s) (ClientAddr s) (TargetAddr s) (us_NextHop s) (CreatedAt s) now.

Definition Touch (st : SessionTable) (id now : Z) : SessionTable :=
  mkSessionTable (alter (touched now) id (sessions st)) (nextID st) (st_ttl st).

Definition Session_Remove (st : SessionTable) (id : Z) : SessionTable :=
  mkSessionTable (delete id (sessions st)) (nextID st) (st_ttl st).

(** A session is collected when it has been idle for more than the time to live. *)
Definition expired (ttl now : Z) (s : UDPSession) : bool := ttl <? time_sub now (LastUsed s).

Definition Session_GC (st : SessionTable) (now : Z) : SessionTable :=
  mkSessionTable (filter (λ '(_, s), expired (st_ttl st) now s = false) (sessions st))
    (nextID st) (st_ttl st).

(** ** The relay

    The two callbacks are set or not; their calls are the relay's effects. *)

Inductive ueffect :=
| SendUDP (peerID : NodeID) (data : list byte)
| DeliverLocal (session : UDPSession) (data : list byte).

#[export] Instance ueffect_eq_dec : EqDecision ueffect.
Proof. solve_decision. Defined.

Record UDPRelay := mkUDPRelay {
  ur_sessions : SessionTable; sendUDP : bool; deliverLocal : bool }.

Definition NewUDPRelay (st : SessionTable) : UDPRelay := mkUDPRelay st false false.
Definition SetSendFunc (r : UDPRelay) : UDPRelay := mkUDPRelay (ur_sessions r) true (deliverLocal r).
Definition SetDeliverFunc (r : UDPRelay) : UDPRelay := mkUDPRelay (ur_sessions r) (sendUDP r) true.
Definition set_sessions (r : UDPRelay) (st : SessionTable) : UDPRelay :=
  mkUDPRelay st (sendUDP r) (deliverLocal r).

Definition ForwardToPeer (r : UDPRelay) (nextHop : NodeID) (session : UDPSession)
    (payload : list byte) : list ueffect :=
  if sendUDP r then [SendUDP nextHop (EncodeUDPForward (us_ID session) payload)] else [].

(** The session of a datagram: the one known, or a new one whose next hop is the
    sender. *)
Definition relay_session (st : SessionTable) (id : Z) (fromPeer : NodeID) (created used : Z)
    : SessionTable * UDPSession :=
  match Session_Lookup st id with
  | Some s => (st, s)
  | None => CreateWithID st id None None fromPeer created used
  end.

(** [clock 0], [clock 1] date a new session, [clock 2] its use. *)
Definition HandleIncoming (r : UDPRelay) (fromPeer : NodeID) (data : Slice) (clock : nat → Z)
    : res wire_error (UDPRelay * list ueffect) :=
  match DecodeUDPForward data with
  | Panic => Panic
  | Err _ => Ok (r, [])
  | Ok (hdr, payload) =>
      let '(st, session) :=
        relay_session (ur_sessions r) (uf_SessionID hdr) fromPeer (clock 0%nat) (clock 1%nat) in
      let r := set_sessions r (Touch st (us_ID session) (clock 2%nat)) in
      Ok (r,
        if NodeID_Equal fromPeer (us_NextHop session) then
          if deliverLocal r then [DeliverLocal session payload] else []
        else ForwardToPeer r (us_NextHop session) session payload)
  end.

Definition CreateSession (r : UDPRelay) (clientAddr targetAddr : option UDPAddr)
    (nextHop : NodeID) (created used : Z) : UDPRelay * UDPSession :=
  let '(st, s) := Create (ur_sessions r) clientAddr targetAddr nextHop created used in
  (set_sessions r st, s).

Definition GetSession (r : UDPRelay) (id : Z) : option UDPSession :=
  Session_Lookup (ur_sessions r) id.

(** ** Lemmas *)

(** Every session is filed under its own identifier, a 32-bit number. *)
Definition sessions_ok (st : SessionTable) : Prop :=
  fits 32 (nextID st) ∧ map_Forall (λ id s, us_ID s = id ∧ fits 32 id) (sessions st).

Lemma NewSessionTable_ok ttl : sessions_ok (NewSessionTable ttl).
Proof. split; [unfold fits; simpl; lia|apply map_Forall_empty]. Qed.

Lemma CreateWithID_ok st id c t n cr u :
  sessions_ok st → fits 32 id → sessions_ok (fst (CreateWithID st id c t n cr u)).
Proof.
  intros [Hn Hs] Hid. split; [done|]. simpl. by apply map_Forall_insert_2.
Qed.

Lemma Create_ok st c t n cr u : sessions_ok st → sessions_ok (fst (Create st c t n cr u)).
Proof.
  intros [Hn Hs]. split; simpl; [by apply wrap_fits|]. by apply map_Forall_insert_2.
Qed.

Lemma Touch_ok st id now : sessions_ok st → sessions_ok (Touch st id now).
Proof.
  intros [Hn Hs]. split; [done|]. intros k s Hk. simpl in Hk.
  apply lookup_alter_Some in Hk as [(-> & s' & Hk & ->)|[_ Hk]]; [apply (Hs _ _ Hk)|by apply Hs].
Qed.

Lemma Session_Remove_ok st id : sessions_ok st → sessions_ok (Session_Remove st id).
Proof. intros [Hn Hs]. split; [done|]. by apply map_Forall_delete. Qed.

Lemma Session_GC_ok st now : sessions_ok st → sessions_ok (Session_GC st now).
Proof.
  intros [Hn Hs]. split; [done|]. intros k s Hk. apply map_lookup_filter_Some in Hk as [Hk _].
  by apply Hs.
Qed.

#[export] Hint Resolve NewSessionTable_ok CreateWithID_ok Create_ok Touch_ok Session_Remove_ok
  Session_GC_ok : go.

Lemma lookup_Session_GC st now id :
  Session_Lookup (Session_GC st now) id =
  match Session_Lookup st id with
  | Some s => if expired (st_ttl st) now s then None else Some s
  | None => None
  end.
Proof.
  unfold Session_Lookup, Session_GC. simpl.
  destruct (sessions st !! id) as [s|] eqn:Hs.
  - destruct (expired (st_ttl st) now s) eqn:He.
    + apply map_lookup_filter_None. right. intros s' Hs'. congruence.
    + by apply map_lookup_filter_Some.
  - apply map_lookup_filter_None. by left.
Qed.

(** The session of a datagram after it has been handled: found or made, then touched. *)
Lemma lookup_Touch st id now id' :
  Session_Lookup (Touch st id now) id' =
  if decide (id = id') then touched now <$> Session_Lookup st id else Session_Lookup st id'.
Proof.
  unfold Session_Lookup, Touch. simpl. case_decide as Hid.
  - subst. apply lookup_alter_eq.
  - by apply lookup_alter_ne.
Qed.

Lemma relay_session_id st id from c u :
  sessions_ok st → us_ID (snd (relay_session st id from c u)) = id.
Proof.
  intros [_ Hs]. unfold relay_session, Session_Lookup.
  destruct (sessions st !! id) as [s|] eqn:E; [|done]. apply (Hs _ _ E).
Qed.

Lemma relay_session_ok st id from c u :
  sessions_ok st → fits 32 id → sessions_ok (fst (relay_session st id from c u)).
Proof.
  intros Hst Hid. unfold relay_session. destruct (Session_Lookup st id); [done|].
  by apply CreateWithID_ok.
Qed.

(** ** Operations on a table *)

Inductive session_op :=
| SCreate (c t : option UDPAddr) (hop : NodeID) (created used : Z)
| SCreateWithID (id : Z) (c t : option UDPAddr) (hop : NodeID) (created used : Z)
| STouch (id now : Z) | SRemove (id : Z) | SGC (now : Z).

Definition run_session_op (st : SessionTable) (op : session_op) : SessionTable :=
  match op with
  | SCreate c t hop cr u => fst (Create st c t hop cr u)
  | SCreateWithID id c t hop cr u => fst (CreateWithID st id c t hop cr u)
  | STouch id now => Touch st id now
  | SRemove id => Session_Remove st id
  | SGC now => Session_GC st now
  end.

Definition numbers_own (op : session_op) : bool :=
  match op with SCreate _ _ _ _ _ => true | _ => false end.
Definition names_id (op : session_op) : bool :=
  match op with SCreateWithID _ _ _ _ _ _ => true | _ => false end.

(** How many sessions of its own the table has numbered. *)
Definition creations (ops : list session_op) : nat :=
  length (filter (λ op, numbers_own op = true) ops).

(** After [n] creations the next number is [n + 1] and the numbers in use are among
    the first [n]. *)
Definition numbered (n : nat) (st : SessionTable) : Prop :=
  nextID st = Z.of_nat n + 1 ∧
  ∀ k, is_Some (Session_Lookup st k) → 1 <= k <= Z.of_nat n.

Lemma run_session_op_numbered op n st :
  names_id op = false → Z.of_nat (if numbers_own op then S n else n) < 2 ^ 32 - 1 →
  numbered n st → numbered (if numbers_own op then S n else n) (run_session_op st op).
Proof.
  intros Hop Hn [Hnext Hids]. destruct op; try done; simpl in Hn; (split; [|intros k]); try done; simpl.
  - rewrite Hnext. rewrite wrap_small by (unfold fits; lia). lia.
  - unfold Session_Lookup. simpl. rewrite Hnext. intros [s [[<- _]|[_ Hs]]%lookup_insert_Some]; [lia|].
    specialize (Hids k ltac:(by exists s)). lia.
  - rewrite lookup_Touch. case_decide; [|auto]. intros [s (s' & Hs & _)%fmap_Some].
    subst. apply Hids. by exists s'.
  - unfold Session_Lookup. simpl. intros [s [_ Hs]%lookup_delete_Some]. apply Hids. by exists s.
  - rewrite lookup_Session_GC. intros [s Hs]. apply Hids.
    destruct (Session_Lookup st k); [eauto|done].
Qed.

Lemma run_session_numbered ttl ops :
  Forall (λ op, names_id op = false) ops → Z.of_nat (creations ops) < 2 ^ 32 - 1 →
  numbered (creations ops) (foldl run_session_op (NewSessionTable ttl) ops).
Proof.
  induction ops as [|op ops IH] using rev_ind; intros Hf Hn.
  { split; [done|]. intros k. unfold Session_Lookup. simpl. rewrite lookup_empty.
    by intros [? ?]. }
  apply Forall_app in Hf as [Hf [Hop _]%Forall_cons].
  assert (creations (ops ++ [op]) = if numbers_own op then S (creations ops) else creations ops) as E.
  { unfold creations. rewrite filter_app, length_app. destruct op; simpl; lia. }
  rewrite E in Hn |- *. rewrite foldl_app. simpl.
  apply run_session_op_numbered; [done|done|]. apply IH; [done|].
  destruct (numbers_own op); lia.
Qed.

(** ** Properties *)

(** Garbage collection after a session was used at [t] drops exactly the sessions
    idle for longer than the time to live: the session just used is measured from [t],
    the others from their own last use. *)
Lemma session_lifetime st id t now id' :
  Session_Lookup (Session_GC (Touch st id t) now) id' =
  match Session_Lookup st id' with
  | Some s =>
      let s := if decide (id = id') then touched t s else s in
      if st_ttl st <? time_sub now (LastUsed s) then None else Some s
  | None => None
  end.
Proof.
  rewrite lookup_Session_GC, lookup_Touch. unfold expired.
  case_decide; subst; by destruct (Session_Lookup st id').
Qed.

(** As long as the node numbers all its sessions itself, fewer than 2^32-1 of them,
    every session it creates gets a nonzero number that no session of the table has. *)
Lemma session_ids_fresh ttl ops c t hop created used :
  Forall (λ op, names_id op = false) ops → Z.of_nat (creations ops) < 2 ^ 32 - 1 →
  let st := foldl run_session_op (NewSessionTable ttl) ops in
  let '(st', s) := Create st c t hop created used in
  us_ID s ≠ 0 ∧ Session_Lookup st (us_ID s) = None ∧ Session_Lookup st' (us_ID s) = Some s.
Proof.
  intros Hf Hn st. destruct (run_session_numbered ttl ops Hf Hn) as [Hnext Hids]. fold st in Hnext, Hids.
  simpl. split_and!; [lia| |apply lookup_insert_eq].
  apply eq_None_not_Some. intros Hs. apply Hids in Hs. lia.
Qed.

Lemma session_ids_fresh_witness :
  let st := foldl run_session_op (NewSessionTable 60) [SCreate None None zeroID 1 1; SGC 100] in
  let '(st', s) := Create st None None zeroID 101 101 in
  us_ID s ≠ 0 ∧ Session_Lookup st (us_ID s) = None ∧ Session_Lookup st' (us_ID s) = Some s.
Proof. apply session_ids_fresh; [repeat constructor|vm_compute; reflexivity]. Defined.

(** What the relay does with a datagram from a peer. Nothing for bytes that are not a
    session's datagram. A datagram of a known session from the session's next hop is an
    answer and is delivered; from any other peer it is sent on to the next hop, byte for
    byte as it came. A datagram of an unknown session makes a session without a client
    and without a target whose next hop is the sender, so that it is never sent on:
    it is delivered, to nobody. *)
Lemma relay_exact r fromPeer data clock :
  sessions_ok (ur_sessions r) →
  ∃ r' eff,
    HandleIncoming r fromPeer data clock = Ok (r', eff) ∧ sessions_ok (ur_sessions r') ∧
    match DecodeUDPForward data with
    | Ok (hdr, payload) =>
        let id := uf_SessionID hdr in
        let deliver s := if deliverLocal r then [DeliverLocal s payload] else [] in
        match GetSession r id with
        | Some s =>
            eff = (if decide (fromPeer = us_NextHop s) then deliver s
                   else if sendUDP r then [SendUDP (us_NextHop s) (contents data)] else []) ∧
            GetSession r' id = Some (touched (clock 2%nat) s)
        | None =>
            let s := mkUDPSession id None None fromPeer (clock 0%nat) (clock 1%nat) in
            eff = deliver s ∧ GetSession r' id = Some (touched (clock 2%nat) s)
        end
    | _ => r' = r ∧ eff = []
    end.
Proof.
  intros Hok. unfold HandleIncoming.
  destruct (DecodeUDPForward data) as [[hdr payload]|e|] eqn:Hd; [|by exists r, []|].
  2: { exfalso. by eapply DecodeUDPForward_no_panic. }
  apply DecodeUDPForward_inv in Hd as [Hid Hdata].
  pose proof (relay_session_ok _ _ fromPeer (clock 0%nat) (clock 1%nat) Hok Hid) as Hok'.
  pose proof (relay_session_id _ (uf_SessionID hdr) fromPeer (clock 0%nat) (clock 1%nat) Hok) as Hus.
  destruct (relay_session _ _ _ _ _) as [st s] eqn:Hrs. cbn [fst snd] in *.
  eexists _, _. split; [done|]. split; [by apply Touch_ok|].
  unfold GetSession. cbn [set_sessions ur_sessions]. rewrite Hus, lookup_Touch, decide_True by done.
  unfold relay_session, NodeID_Equal, ForwardToPeer in *.
  destruct (Session_Lookup (ur_sessions r) (uf_SessionID hdr)) as [s'|] eqn:Hl.
  - injection Hrs as <- <-. rewrite Hl. split; [|done].
    case_bool_decide as Hf; case_decide; try done. cbn [set_sessions sendUDP].
    by rewrite Hus, Hdata.
  - injection Hrs as <- <-. cbn [us_NextHop]. rewrite bool_decide_true by done. split; [done|].
    unfold Session_Lookup. simpl. by rewrite lookup_insert_eq.
Qed.

Definition peer_x : NodeID := array_copy 16 [x0a].
Definition peer_y : NodeID := array_copy 16 [x0b].
Definition relay0 : UDPRelay := SetDeliverFunc (SetSendFunc (NewUDPRelay (NewSessionTable 60))).

Lemma relay_exact_witness :
  ∃ r' eff,
    HandleIncoming relay0 peer_x (whole (EncodeUDPForward 1 [x68])) Z.of_nat = Ok (r', eff) ∧
    sessions_ok (ur_sessions r') ∧
    let s := mkUDPSession 1 None None peer_x 0 1 in
    eff = [DeliverLocal s [x68]] ∧ GetSession r' 1 = Some (touched 2 s).
Proof.
  destruct (relay_exact relay0 peer_x (whole (EncodeUDPForward 1 [x68])) Z.of_nat)
    as (r' & eff & H & Hok & Heff); [apply NewSessionTable_ok|].
  exists r', eff. split; [exact H|]. split; [exact Hok|]. exact Heff.
Defined.

(** The numbers of a peer's sessions and the node's own collide. When a datagram for
    an unknown session bears the number the node would give next (1, on a fresh node), the
    session made for it is replaced by the next session the node creates, and the peer's
    further datagrams of its session are no longer answers but are sent on, unchanged, to
    the next hop of the other session. *)
Lemma session_collision r from hop data data' clock clock' c t created used hdr hdr' payload payload' :
  sessions_ok (ur_sessions r) →
  DecodeUDPForward data = Ok (hdr, payload) → DecodeUDPForward data' = Ok (hdr', payload') →
  uf_SessionID hdr = nextID (ur_sessions r) → uf_SessionID hdr' = uf_SessionID hdr →
  GetSession r (uf_SessionID hdr) = None → from ≠ hop →
  ∃ r1 eff r2 s r3,
    HandleIncoming r from data clock = Ok (r1, eff) ∧
    option_map us_NextHop (GetSession r1 (uf_SessionID hdr)) = Some from ∧
    CreateSession r1 c t hop created used = (r2, s) ∧
    us_ID s = uf_SessionID hdr ∧ GetSession r2 (uf_SessionID hdr) = Some s ∧
    HandleIncoming r2 from data' clock' =
      Ok (r3, if sendUDP r then [SendUDP hop (contents data')] else []).
Proof.
  intros Hok Hd Hd' Hnext Hsame Hnone Hne.
  pose proof (DecodeUDPForward_inv _ _ _ Hd') as [_ Hdata'].
  unfold GetSession in Hnone. unfold HandleIncoming at 1. rewrite Hd. unfold relay_session.
  rewrite Hnone. eexists _, _, _, _, _. split; [reflexivity|].
  unfold GetSession. cbn [set_sessions ur_sessions us_ID]. split.
  { rewrite lookup_Touch, decide_True by done. unfold Session_Lookup. simpl.
    by rewrite lookup_insert_eq. }
  split; [reflexivity|]. cbn [set_sessions ur_sessions us_ID Create fst snd nextID Touch CreateWithID].
  rewrite Hnext. split; [done|]. split; [apply lookup_insert_eq|].
  unfold HandleIncoming. rewrite Hd', Hsame, Hnext. unfold relay_session, Session_Lookup.
  cbn [set_sessions ur_sessions sessions]. rewrite lookup_insert_eq. cbn [us_NextHop].
  unfold NodeID_Equal. rewrite bool_decide_false by done. unfold ForwardToPeer.
  cbn [set_sessions sendUDP us_ID]. by rewrite Hdata', Hsame, Hnext.
Qed.

Lemma peer_x_ne_y : peer_x ≠ peer_y.
Proof. intros H%(f_equal bytes_of). vm_compute in H. congruence. Qed.

Lemma session_collision_witness :
  ∃ r1 eff r2 s r3,
    HandleIncoming relay0 peer_x (whole (EncodeUDPForward 1 [x68])) Z.of_nat = Ok (r1, eff) ∧
    option_map us_NextHop (GetSession r1 1) = Some peer_x ∧
    CreateSession r1 None None peer_y 7 7 = (r2, s) ∧
    us_ID s = 1 ∧ GetSession r2 1 = Some s ∧
    HandleIncoming r2 peer_x (whole (EncodeUDPForward 1 [x69])) Z.of_nat =
      Ok (r3, [SendUDP peer_y (EncodeUDPForward 1 [x69])]).
Proof.
  apply (session_collision relay0 peer_x peer_y (whole (EncodeUDPForward 1 [x68]))
    (whole (EncodeUDPForward 1 [x69])) Z.of_nat Z.of_nat None None 7 7
    (mkUDPForwardHeader 1) (mkUDPForwardHeader 1) [x68] [x69]);
    [apply NewSessionTable_ok|reflexivity..|].
  apply peer_x_ne_y.
Defined.
