(* ===== verification/Frame.v ===== *)
(** * Frames ([transport/frame.go])

    A frame is a type, a stream identifier and a payload of at most 1 MiB. The writer
    and the reader are the two ends of a byte stream: a writer answers its [i]-th call
    with a number of bytes taken and possibly an error, a reader is the list of the
    bytes it will still deliver before its end. *)

From S2P Require Import Prelude Bytes.
From stdpp Require Import options.

Definition FrameData : byte := x00.
Definition FrameClose : byte := x01.
Definition ControlStreamID : Z := 0.
Definition frameHeaderSize : nat := 1 + 4 + 4.
Definition maxFrameSize : Z := 2 ^ 20.

(** A payload is a slice; [None] is the nil slice, which Go tells from an empty one. *)
Record Frame := mkFrame { Type_ : byte; StreamID : Z; Payload : option (list byte) }.

#[export] Instance Frame_eq_dec : EqDecision Frame.
Proof. solve_decision. Defined.

Definition payload_bytes (f : Frame) : list byte := default [] (Payload f).

Inductive frame_error :=
| ErrTooLarge (n : Z) | ErrWriter | ErrShortWrite | EOF | UnexpectedEOF.

#[export] Instance frame_error_eq_dec : EqDecision frame_error.
Proof. solve_decision. Defined.

(** ** Writing *)

(** The answers of an [io.Writer] to its successive calls: bytes taken, error or not. *)
Definition Writer := nat → nat * bool.

(** Outcome, bytes that reached the stream, number of the next call. [None]: out of
    fuel, which [writeFull_spec] excludes. *)
Fixpoint writeFull_loop (fuel : nat) (w : Writer) (i : nat) (b : list byte)
    : option (res frame_error () * list byte * nat) :=
  match fuel with
  | O => None
  | S fuel =>
      if decide (0 < length b)%nat then
        let '(n, err) := w i in
        let n := Nat.min n (length b) in
        if err : bool then Some (Err ErrWriter, take n b, S i)
        else if decide (n = 0%nat) then Some (Err ErrShortWrite, [], S i)
        else
          '(r, out, i') ← writeFull_loop fuel w (S i) (drop n b);
          Some (r, take n b ++ out, i')
      else Some (Ok (), [], i)
  end.

Definition writeFull (w : Writer) (i : nat) (b : list byte) : option (res frame_error () * list byte * nat) :=
  writeFull_loop (S (length b)) w i b.

Definition frame_header (f : Frame) : list byte :=
  Type_ f :: be_put 4 (StreamID f) ++ be_put 4 (Z.of_nat (length (payload_bytes f))).

Definition WriteFrame (w : Writer) (i : nat) (f : Frame)
    : option (res frame_error () * list byte * nat) :=
  if maxFrameSize <? Z.of_nat (length (payload_bytes f))
  then Some (Err (ErrTooLarge (Z.of_nat (length (payload_bytes f)))), [], i)
  else
    '(r, out, i) ← writeFull w i (frame_header f);
    match r with
    | Ok _ =>
        '(r, out', i) ← writeFull w i (payload_bytes f);
        Some (r, out ++ out', i)
    | _ => Some (r, out, i)
    end.

(** ** Reading *)

(** [io.ReadFull] into a buffer of [n] bytes. *)
Definition ReadFull (n : nat) (r : list byte) : res frame_error (list byte * list byte) :=
  if decide (n ≤ length r)%nat then Ok (take n r, drop n r)
  else if decide (r = []) then Err EOF else Err UnexpectedEOF.

Definition ReadFrame (r : list byte) : res frame_error (Frame * list byte) :=
  '(header, r) ← ReadFull frameHeaderSize r;
  ty ← at_ (whole header) 0;
  id ← sub (whole header) 1 5;
  len ← sub (whole header) 5 9;
  let length := be_get len in
  guard_err (negb (maxFrameSize <? length)) (ErrTooLarge length) (
    if 0 <? length then
      '(payload, r) ← ReadFull (Z.to_nat length) r;
      Ok (mkFrame ty (be_get id) (Some payload), r)
    else Ok (mkFrame ty (be_get id) None, r)).

(** ** Lemmas *)

(** A writer that never fails and takes at least one byte at each call. *)
Definition good_writer (w : Writer) : Prop := ∀ i, snd (w i) = false ∧ (0 < fst (w i))%nat.

Lemma writeFull_loop_spec fuel w i b :
  (length b < fuel)%nat →
  ∃ r out i', writeFull_loop fuel w i b = Some (r, out, i') ∧ out `prefix_of` b ∧
    (r = Ok () ∨ r = Err ErrWriter ∨ r = Err ErrShortWrite) ∧
    (r = Ok () → out = b) ∧ (good_writer w → r = Ok ()).
Proof.
  revert i b. induction fuel as [|fuel IH]; intros i b Hf; [lia|]. simpl.
  case_decide as Hb.
  2: { destruct b; [|simpl in Hb; lia]. exists (Ok ()), [], i. by split_and!; auto. }
  destruct (w i) as [n err] eqn:Hw.
  assert (∀ m, take m b `prefix_of` b) as Hpre.
  { intros m. exists (drop m b). by rewrite take_drop. }
  destruct err.
  { eexists _, _, _. split_and!; eauto; [done|]. intros Hg. destruct (Hg i) as [He _].
    by rewrite Hw in He. }
  case_decide as Hn.
  { eexists _, _, _. split_and!; eauto; [apply prefix_nil|done|]. intros Hg.
    destruct (Hg i) as [_ He]. rewrite Hw in He. simpl in He. lia. }
  destruct (IH (S i) (drop (Nat.min n (length b)) b)) as (r & out & i' & -> & Ho & Hr & Hok & Hg).
  { rewrite length_drop. lia. }
  eexists _, _, _. split; [reflexivity|]. split_and!; [|done| |done].
  - destruct Ho as [k Hk]. exists k. rewrite <- app_assoc, <- Hk. by rewrite take_drop.
  - intros H. by rewrite (Hok H), take_drop.
Qed.

Lemma writeFull_spec w i b :
  ∃ r out i', writeFull w i b = Some (r, out, i') ∧ out `prefix_of` b ∧
    (r = Ok () ∨ r = Err ErrWriter ∨ r = Err ErrShortWrite) ∧
    (r = Ok () → out = b) ∧ (good_writer w → r = Ok ()).
Proof. apply writeFull_loop_spec. lia. Qed.

(** What a frame looks like on the stream. *)
Definition frame_bytes (f : Frame) : list byte := frame_header f ++ payload_bytes f.

(** The frames that are written: 32-bit stream identifiers, at most 1 MiB. *)
Definition frame_ok (f : Frame) : Prop :=
  fits 32 (StreamID f) ∧ Z.of_nat (length (payload_bytes f)) <= maxFrameSize.

(** What the reader makes of a frame: an empty payload is read as nil. *)
Definition frame_norm (f : Frame) : Frame :=
  mkFrame (Type_ f) (StreamID f) (if decide (payload_bytes f = []) then None else Payload f).

Lemma length_frame_header f : length (frame_header f) = frameHeaderSize.
Proof.
  unfold frame_header. cbn [length]. by rewrite length_app, !length_be_put.
Qed.

Lemma ReadFull_app n l k : length l = n → ReadFull n (l ++ k) = Ok (l, k).
Proof.
  intros <-. unfold ReadFull. rewrite decide_True by (rewrite length_app; lia).
  by rewrite take_app_length, drop_app_length.
Qed.

Lemma read_frame_bytes f rest :
  frame_ok f → ReadFrame (frame_bytes f ++ rest) = Ok (frame_norm f, rest).
Proof.
  intros [Hid Hlen]. unfold ReadFrame, frame_bytes. rewrite <- app_assoc.
  rewrite ReadFull_app by apply length_frame_header. cbn [mbind res_bind].
  unfold frame_header. set (data := whole _).
  assert (cursor data 0 (frame_header f ++ [])) as Hc by (rewrite app_nil_r; apply cursor_start).
  unfold frame_header in Hc. cbn [app] in Hc. rewrite <- app_assoc in Hc.
  cursor_step. cbn [mbind res_bind]. change (0 + 1)%nat with 1%nat in Hc.
  change (sub data 1 5) with (sub (E:=frame_error) data 1 (1 + 4)). cursor_step. cbn [mbind res_bind].
  change (1 + 4)%nat with 5%nat in Hc.
  change (sub data 5 9) with (sub (E:=frame_error) data 5 (5 + 4)). cursor_step. cbn [mbind res_bind].
  assert (fits 32 (Z.of_nat (length (payload_bytes f)))) as Hfit.
  { unfold fits. unfold maxFrameSize in Hlen. lia. }
  rewrite !be_get_put_fits by done. unfold guard_err.
  rewrite (proj2 (Z.ltb_ge _ _)) by lia. cbn [negb].
  unfold frame_norm. destruct (Z.ltb_spec 0 (Z.of_nat (length (payload_bytes f)))) as [Hp|Hp].
  - rewrite ReadFull_app by lia. cbn [mbind res_bind].
    rewrite decide_False by (intros H; rewrite H in Hp; simpl in Hp; lia).
    unfold payload_bytes in *. by destruct (Payload f).
  - assert (payload_bytes f = []) as Hnil by (destruct (payload_bytes f); [done|simpl in Hp; lia]).
    by rewrite decide_True, Hnil.
Qed.

Lemma ReadFull_inv n r l k : ReadFull n r = Ok (l, k) → r = l ++ k ∧ length l = n.
Proof.
  unfold ReadFull. case_decide as Hn; [|by case_decide]. intros [= <- <-].
  by rewrite take_drop, length_take_le.
Qed.

(** A successful read: the bytes consumed are those of the frame returned. *)
Lemma read_frame_inv r f rest :
  ReadFrame r = Ok (f, rest) → r = frame_bytes f ++ rest ∧ frame_ok f ∧ frame_norm f = f.
Proof.
  unfold ReadFrame. intros H.
  apply res_bind_Ok in H as ([h r'] & Hh & H). apply ReadFull_inv in Hh as [-> Hlh].
  change frameHeaderSize with 9%nat in Hlh.
  apply res_bind_Ok in H as (ty & Hty & H). apply at_inv in Hty.
  apply res_bind_Ok in H as (sid & Hid & H). apply (sub_inv (whole h) 1 4) in Hid as [Eid Lid];
    [|simpl; lia].
  apply res_bind_Ok in H as (len & Hlen & H). apply (sub_inv (whole h) 5 4) in Hlen as [Elen Llen];
    [|simpl; lia].
  cbn [whole contents] in *. change (0 + 1)%nat with 1%nat in Hty.
  change (1 + 4)%nat with 5%nat in Eid. rewrite (drop_ge h (5 + 4)), app_nil_r in Elen by lia.
  assert (h = ty :: sid ++ len) as -> by (rewrite <- Elen, <- Eid; exact Hty).
  pose proof (be_put_get sid) as Pid. rewrite Lid in Pid.
  pose proof (be_put_get len) as Plen. rewrite Llen in Plen.
  pose proof (be_get_fits sid) as Fid. rewrite Lid in Fid. change (8 * Z.of_nat 4) with 32 in Fid.
  pose proof (be_get_fits len) as Flen. rewrite Llen in Flen.
  unfold guard_err in H. destruct (Z.ltb_spec maxFrameSize (be_get len)) as [|Hmax]; [done|].
  cbn [negb] in H. unfold frame_bytes, frame_header, frame_ok, frame_norm, payload_bytes.
  destruct (Z.ltb_spec 0 (be_get len)) as [Hp|Hp].
  - apply res_bind_Ok in H as ([p r''] & Hp' & H). apply ReadFull_inv in Hp' as [-> Hlp].
    injection H as <- <-. cbn [Type_ StreamID Payload default id].
    rewrite Hlp, Z2Nat.id, Pid, Plen by lia. split_and!; [|done|lia|].
    + cbn [app]. by rewrite <- !app_assoc.
    + rewrite decide_False; [done|]. intros ->. simpl in Hlp. lia.
  - injection H as <- <-. cbn [Type_ StreamID Payload default id].
    assert (be_get len = 0) as H0 by (unfold fits in Flen; lia).
    change (Z.of_nat (length (A:=byte) [])) with 0. rewrite <- H0, Pid, Plen, app_nil_r.
    by split_and!.
Qed.

Lemma ReadFull_cases n r :
  (∃ l k, ReadFull n r = Ok (l, k) ∧ length l = n) ∨ ∃ e, ReadFull n r = Err e.
Proof.
  unfold ReadFull. destruct (decide (n ≤ length r)%nat) as [Hn|]; [left|right].
  - eexists _, _. split; [done|]. by apply length_take_le.
  - destruct (decide (r = [])); eauto.
Qed.

(** Bytes that are shorter than a frame are not taken for one, and are not a panic. *)
Lemma ReadFrame_no_panic r : ReadFrame r ≠ Panic.
Proof.
  unfold ReadFrame.
  destruct (ReadFull_cases frameHeaderSize r) as [(h & k & -> & Hl)|[e ->]]; [|done].
  change frameHeaderSize with 9%nat in Hl. cbn [mbind res_bind].
  destruct (at_ok (E:=frame_error) (whole h) 0) as [b ->]; [simpl; lia|].
  cbn [mbind res_bind]. rewrite !sub_ok by (simpl; lia). cbn [mbind res_bind].
  unfold guard_err. destruct (negb _); [|done]. destruct (0 <? _); [|done].
  by destruct (ReadFull_cases (Z.to_nat (be_get (take (9 - 5) (drop 5 (contents (whole h)))))) k)
    as [(? & ? & -> & _)|[? ->]].
Qed.

(** One frame after the other, as a connection writes them, each under the lock. *)
Fixpoint WriteFrames (w : Writer) (i : nat) (fs : list Frame)
    : option (res frame_error () * list byte * nat) :=
  match fs with
  | [] => Some (Ok (), [], i)
  | f :: fs =>
      '(r, out, i) ← WriteFrame w i f;
      match r with
      | Ok _ => '(r, out', i) ← WriteFrames w i fs; Some (r, out ++ out', i)
      | _ => Some (r, out, i)
      end
  end.

(** The frames read until the first error, with that error. [n] bounds their number. *)
Fixpoint ReadFrames (n : nat) (r : list byte) : list Frame * option frame_error :=
  match n with
  | O => ([], None)
  | S n =>
      match ReadFrame r with
      | Ok (f, r) => let '(fs, e) := ReadFrames n r in (f :: fs, e)
      | Err e => ([], Some e)
      | Panic => ([], None)
      end
  end.

Lemma WriteFrame_spec w i f :
  ∃ r out i', WriteFrame w i f = Some (r, out, i') ∧
    out `prefix_of` frame_bytes f ∧ (r = Ok () → out = frame_bytes f) ∧
    (good_writer w → frame_ok f → r = Ok ()).
Proof.
  unfold WriteFrame, frame_bytes.
  destruct (Z.ltb_spec maxFrameSize (Z.of_nat (length (payload_bytes f)))) as [Hb|Hb].
  { eexists _, _, _. split_and!; [done|apply prefix_nil|done|]. intros _ [_ H]. lia. }
  destruct (writeFull_spec w i (frame_header f)) as (r & out & i1 & -> & Hpre & Hr & Hok & Hg).
  cbn [mbind option_bind]. destruct Hr as [->|[->| ->]].
  - rewrite (Hok eq_refl).
    destruct (writeFull_spec w i1 (payload_bytes f)) as (r & out' & i2 & -> & Hpre' & Hr & Hok' & Hg').
    cbn [mbind option_bind]. eexists _, _, _. split_and!; [done|by apply prefix_app| |by auto].
    intros ->. by rewrite Hok'.
  - eexists _, _, _. split_and!; [done|by apply prefix_app_r|done|]. intros H. by specialize (Hg H).
  - eexists _, _, _. split_and!; [done|by apply prefix_app_r|done|]. intros H. by specialize (Hg H).
Qed.

(** ** Properties *)

(** C19: a frame is read back exactly. The reader returns a frame and what is left of the
    stream when, and only when, the stream starts with the bytes of that frame, a frame of
    at most 1 MiB; it never panics, whatever the bytes. *)
Theorem ReadFrame_exact r :
  ReadFrame r ≠ Panic ∧
  ∀ f rest, ReadFrame r = Ok (f, rest) ↔
    r = frame_bytes f ++ rest ∧ frame_ok f ∧ frame_norm f = f.
Proof.
  split; [apply ReadFrame_no_panic|]. intros f rest. split; [apply read_frame_inv|].
  intros (-> & Hok & Hn). by rewrite read_frame_bytes, Hn.
Qed.

(** C20: a sequence of frames goes through a connection in order and without loss, however
    the connection splits the writes: if all are written, the other end reads the same
    frames (an empty payload as nil) and then the end of the stream. *)
Theorem frames_delivered w i fs :
  good_writer w → Forall frame_ok fs →
  ∃ out i', WriteFrames w i fs = Some (Ok (), out, i') ∧
    ReadFrames (S (length fs)) out = (map frame_norm fs, Some EOF).
Proof.
  intros Hw Hok. revert i. induction Hok as [|f fs Hf Hfs IH]; intros i.
  { by exists [], i. }
  cbn [WriteFrames].
  destruct (WriteFrame_spec w i f) as (r & out & i1 & -> & _ & Hout & Hr).
  specialize (Hr Hw Hf). subst r. rewrite (Hout eq_refl). cbn [mbind option_bind].
  destruct (IH i1) as (out' & i2 & -> & Hread). cbn [mbind option_bind].
  exists (frame_bytes f ++ out'), i2. split; [done|].
  cbn [length]. cbn [ReadFrames] in Hread |- *. rewrite read_frame_bytes by done.
  cbn [ReadFrames]. by rewrite Hread.
Qed.

Lemma frames_delivered_witness :
  ∃ out i', WriteFrames (λ _, (3%nat, false)) 0 [mkFrame FrameData 0 (Some [x68; x69]);
      mkFrame FrameClose 1 None] = Some (Ok (), out, i') ∧
    ReadFrames 3 out = ([mkFrame FrameData 0 (Some [x68; x69]); mkFrame FrameClose 1 None], Some EOF).
Proof.
  apply (frames_delivered (λ _, (3%nat, false)) 0
    [mkFrame FrameData 0 (Some [x68; x69]); mkFrame FrameClose 1 None]).
  - intros i. simpl. lia.
  - repeat constructor; unfold fits; simpl; unfold maxFrameSize; lia.
Defined.
