(* ===== verification/Conn.v ===== *)
(** * Multiplexed connections ([transport/conn.go])

    One connection carries many streams. A stream is shared by pointer between the
    connection's table, the queue of streams to accept and whoever uses it, so streams
    live in a store and are named by references. Channels are bounded queues; an
    operation that would block has no result ([None]). The read loop is a state machine
    whose states are the places where the goroutine can wait. *)

From S2P Require Import Prelude Bytes Frame.
From stdpp Require Import options.

(** ** State *)

(** [readCh] holds the payloads not yet read, nil ([None]) as a payload or as the mark
    that wakes the reader of a closed stream; its capacity is fixed at creation. *)
Record Stream := mkStream {
  s_id : Z; readCh : list (option (list byte)); s_cap : nat; buf : list byte; s_closed : bool }.

#[export] Instance Stream_eq_dec : EqDecision Stream.
Proof. solve_decision. Defined.

(** [closed] and the closing of [done] always go together. *)
Record Conn := mkConn {
  store : gmap nat Stream;
  next_ref : nat;
  streams : gmap Z nat;
  nextID : Z;
  acceptCh : list nat;
  closed : bool }.

Inductive conn_error := ErrClosed | ErrStreamClosed | ErrNoStreamIDs | ErrFrame (e : frame_error).

#[export] Instance conn_error_eq_dec : EqDecision conn_error.
Proof. solve_decision. Defined.

Definition newConn : Conn :=
  mkConn {[ 0%nat := mkStream ControlStreamID [] 64 [] false ]} 1 {[ ControlStreamID := 0%nat ]} 1 [] false.

Definition acceptCap : nat := 64.
Definition streamCap : nat := 16.

Definition set_stream (c : Conn) (r : nat) (s : Stream) : Conn :=
  mkConn (<[r := s]> (store c)) (next_ref c) (streams c) (nextID c) (acceptCh c) (closed c).
Definition set_acceptCh (c : Conn) (q : list nat) : Conn :=
  mkConn (store c) (next_ref c) (streams c) (nextID c) q (closed c).
Definition set_nextID (c : Conn) (id : Z) : Conn :=
  mkConn (store c) (next_ref c) (streams c) id (acceptCh c) (closed c).

(** A new stream, entered into the table. *)
Definition add_stream (c : Conn) (id : Z) : Conn :=
  mkConn (<[next_ref c := mkStream id [] streamCap [] false]> (store c)) (S (next_ref c))
    (<[id := next_ref c]> (streams c)) (nextID c) (acceptCh c) (closed c).

(** ** Opening, accepting, closing *)

Definition next_id (id : Z) : Z := let n := id +u32 2 in if n <? 2 then 1 else n.

Fixpoint open_loop (attempts : nat) (c : Conn) : Conn * res conn_error nat :=
  match attempts with
  | O => (c, Err ErrNoStreamIDs)
  | S attempts =>
      let id := nextID c in
      let c := set_nextID c (next_id id) in
      match streams c !! id with
      | None => (add_stream c id, Ok (next_ref c))
      | Some _ => open_loop attempts c
      end
  end.

Definition OpenStream (c : Conn) : Conn * res conn_error nat :=
  if closed c then (c, Err ErrClosed) else open_loop 1000 c.

(** [pick_done]: which of the two ready cases [select] takes. *)
Definition AcceptStream (c : Conn) (pick_done : bool) : option (Conn * res conn_error nat) :=
  match acceptCh c with
  | s :: q =>
      if closed c && pick_done then Some (c, Err ErrClosed) else Some (set_acceptCh c q, Ok s)
  | [] => if closed c then Some (c, Err ErrClosed) else None
  end.

Definition Conn_Close (c : Conn) : Conn :=
  mkConn (store c) (next_ref c) (streams c) (nextID c) (acceptCh c) true.

Definition ControlStream (c : Conn) : option nat := streams c !! ControlStreamID.

(** ** The read loop *)

(** [select { case ch <- v: default: }] *)
Definition try_send (s : Stream) (v : option (list byte)) : list (option (list byte)) :=
  if decide (length (readCh s) < s_cap s)%nat then readCh s ++ [v] else readCh s.

(** The stream is marked closed and its reader woken, if there is room for the mark. *)
Definition wake (s : Stream) : Stream :=
  mkStream (s_id s) (try_send s None) (s_cap s) (buf s) true.

Definition close_one (st : gmap nat Stream) (r : nat) : gmap nat Stream :=
  match st !! r with
  | Some s => if s_closed s then st else <[r := wake s]> st
  | None => st
  end.

(** The order of the table does not matter: streams are distinct. *)
Definition closeAll (c : Conn) : Conn :=
  if closed c then c
  else mkConn (foldl close_one (store c) (map snd (map_to_list (streams c)))) (next_ref c)
         (streams c) (nextID c) (acceptCh c) true.

Inductive loop_state :=
| Reading
| Accepting (r : nat) (f : Frame)
| Delivering (r : nat) (f : Frame)
| Exited.

(** After the stream has been found or accepted. *)
Definition dispatch (c : Conn) (r : nat) (f : Frame) : Conn * loop_state :=
  if bool_decide (Type_ f = FrameClose) then
    (match store c !! r with
     | Some s =>
         mkConn (<[r := wake s]> (store c)) (next_ref c) (delete (StreamID f) (streams c))
           (nextID c) (acceptCh c) (closed c)
     | None => c
     end, Reading)
  else (c, Delivering r f).

(** One step: the result of [ReadFrame] while reading, or one of the two [select]s. *)
Definition loop_step (c : Conn) (l : loop_state) (input : res frame_error Frame) (pick_done : bool)
    : option (Conn * loop_state) :=
  match l with
  | Reading =>
      match input with
      | Ok f =>
          match streams c !! StreamID f with
          | Some r => Some (dispatch c r f)
          | None => Some (add_stream c (StreamID f), Accepting (next_ref c) f)
          end
      | _ => Some (closeAll c, Exited)
      end
  | Accepting r f =>
      if decide (length (acceptCh c) < acceptCap)%nat then
        if closed c && pick_done then Some (c, Exited)
        else Some (dispatch (set_acceptCh c (acceptCh c ++ [r])) r f)
      else if closed c then Some (c, Exited) else None
  | Delivering r f =>
      s ← store c !! r;
      if decide (length (readCh s) < s_cap s)%nat then
        if closed c && pick_done then Some (c, Exited)
        else Some (set_stream c r (mkStream (s_id s) (readCh s ++ [Payload f]) (s_cap s) (buf s)
                                     (s_closed s)), Reading)
      else if closed c then Some (c, Exited) else None
  | Exited => None
  end.

(** ** Streams

    The receiver is a pointer, nil when [ControlStream] returns nil: using it panics. *)

(** [Read] into a buffer of [n] bytes. *)
Definition Stream_Read (c : Conn) (p : option nat) (n : nat)
    : option (Conn * res conn_error (list byte)) :=
  match p ≫= λ r, (λ s, (r, s)) <$> store c !! r with
  | None => Some (c, Panic)
  | Some (r, s) =>
      if decide (0 < length (buf s))%nat then
        Some (set_stream c r (mkStream (s_id s) (readCh s) (s_cap s) (drop n (buf s)) (s_closed s)),
              Ok (take n (buf s)))
      else
        match readCh s with
        | [] => None
        | None :: q =>
            Some (set_stream c r (mkStream (s_id s) q (s_cap s) (buf s) (s_closed s)),
                  Err (if s_closed s then ErrStreamClosed else ErrClosed))
        | Some data :: q =>
            Some (set_stream c r (mkStream (s_id s) q (s_cap s)
                    (if decide (n < length data)%nat then drop n data else buf s) (s_closed s)),
                  Ok (take n data))
        end
  end.

(** The frame handed to the connection, if any, and the result. [write_ok]: whether
    the connection takes the bytes. *)
Definition Stream_Write (c : Conn) (p : option nat) (b : list byte) (write_ok : bool)
    : option Frame * res conn_error nat :=
  match p ≫= λ r, store c !! r with
  | None => (None, Panic)
  | Some s =>
      if s_closed s then (None, Err ErrClosed)
      else if maxFrameSize <? Z.of_nat (length b)
        then (None, Err (ErrFrame (ErrTooLarge (Z.of_nat (length b)))))
      else if write_ok then (Some (mkFrame FrameData (s_id s) (Some b)), Ok (length b))
      else (None, Err (ErrFrame ErrWriter))
  end.

Definition Stream_Close (c : Conn) (p : option nat) (write_ok : bool)
    : Conn * option Frame * res conn_error () :=
  match p ≫= λ r, (λ s, (r, s)) <$> store c !! r with
  | None => (c, None, Panic)
  | Some (r, s) =>
      if s_closed s then (c, None, Ok ())
      else
        let c := set_stream c r (mkStream (s_id s) (readCh s) (s_cap s) (buf s) true) in
        if write_ok then (c, Some (mkFrame FrameClose (s_id s) None), Ok ())
        else (c, None, Err (ErrFrame ErrWriter))
  end.

(** ** A connection in operation *)

Record Sys := mkSys { sys_conn : Conn; sys_loop : loop_state }.

Inductive op :=
| OpLoop (input : res frame_error Frame) (pick_done : bool)
| OpOpen
| OpAccept (pick_done : bool)
| OpRead (r n : nat)
| OpStreamClose (r : nat) (write_ok : bool)
| OpClose.

(** What happens to the bytes of a stream: taken off the wire for it, and read by it. *)
Inductive event := EvTaken (r : nat) (data : list byte) | EvRead (r : nat) (data : list byte).

(** The payload the loop holds for a stream. *)
Definition pending (l : loop_state) : option (nat * list byte) :=
  match l with
  | Accepting r f =>
      if bool_decide (Type_ f = FrameClose) then None else Some (r, payload_bytes f)
  | Delivering r f => Some (r, payload_bytes f)
  | _ => None
  end.

(** An operation that blocks changes nothing. *)
Definition sys_step (s : Sys) (o : op) : Sys * list event :=
  let c := sys_conn s in
  match o with
  | OpLoop input pick =>
      match loop_step c (sys_loop s) input pick with
      | Some (c', l') =>
          (mkSys c' l',
           match sys_loop s, pending l' with
           | Reading, Some (r, data) => [EvTaken r data]
           | _, _ => []
           end)
      | None => (s, [])
      end
  | OpOpen => (mkSys (fst (OpenStream c)) (sys_loop s), [])
  | OpAccept pick =>
      match AcceptStream c pick with Some (c', _) => (mkSys c' (sys_loop s), []) | None => (s, []) end
  | OpRead r n =>
      match Stream_Read c (Some r) n with
      | Some (c', Ok data) => (mkSys c' (sys_loop s), [EvRead r data])
      | Some (c', _) => (mkSys c' (sys_loop s), [])
      | None => (s, [])
      end
  | OpStreamClose r ok => (mkSys (fst (fst (Stream_Close c (Some r) ok))) (sys_loop s), [])
  | OpClose => (mkSys (Conn_Close c) (sys_loop s), [])
  end.

Fixpoint run (s : Sys) (ops : list op) : Sys * list event :=
  match ops with
  | [] => (s, [])
  | o :: ops =>
      let '(s, ev) := sys_step s o in
      let '(s', ev') := run s ops in (s', ev ++ ev')
  end.

Definition start : Sys := mkSys newConn Reading.

(** ** Well-formed connections *)

Definition stream_ok (s : Stream) : Prop := (length (readCh s) ≤ s_cap s)%nat ∧ fits 32 (s_id s).

Record conn_ok (c : Conn) : Prop := {
  ok_store : map_Forall (λ r s, stream_ok s ∧ r < next_ref c)%nat (store c);
  ok_streams : map_Forall (λ id r, ∃ s, store c !! r = Some s ∧ s_id s = id) (streams c);
  ok_accept : (length (acceptCh c) ≤ acceptCap)%nat ∧ Forall (λ r, is_Some (store c !! r)) (acceptCh c);
  ok_next : fits 32 (nextID c) ∧ Z.odd (nextID c) = true }.

(** The loop holds a frame for the stream that has the frame's identifier. *)
Definition loop_ok (c : Conn) (l : loop_state) : Prop :=
  match l with
  | Accepting r f | Delivering r f => ∃ s, store c !! r = Some s ∧ s_id s = StreamID f
  | _ => True
  end.

Definition sys_ok (s : Sys) : Prop := conn_ok (sys_conn s) ∧ loop_ok (sys_conn s) (sys_loop s).

(** Frames come off the wire, with 32-bit identifiers. *)
Definition op_ok (o : op) : Prop :=
  match o with OpLoop (Ok f) _ => fits 32 (StreamID f) | _ => True end.

Lemma next_id_wrap id : fits 32 id → Z.odd id = true → next_id id = wrap 32 (id + 2).
Proof.
  intros Hf Ho. unfold next_id. destruct (Z.ltb_spec (id +u32 2) 2) as [Hlt|]; [|done].
  unfold wrap, fits in *. apply Z.odd_spec in Ho as [k ->].
  destruct (decide (2 * k + 1 + 2 < 2 ^ 32)) as [Hs|Hs].
  - rewrite Z.mod_small in Hlt |- * by lia. lia.
  - replace (2 * k + 1 + 2) with (1 + 1 * 2 ^ 32) by lia. by rewrite Z.mod_add.
Qed.

Lemma odd_wrap_2 id k : Z.odd id = true → Z.odd (wrap 32 (id + 2 * k)) = true.
Proof.
  intros Ho. unfold wrap. rewrite Z.odd_spec in Ho |- *. destruct Ho as [m ->].
  pose proof (Z.div_mod (2 * m + 1 + 2 * k) (2 ^ 32) ltac:(lia)) as E.
  set (q := (2 * m + 1 + 2 * k) / 2 ^ 32) in *.
  exists (m + k - 2 ^ 31 * q). lia.
Qed.

Lemma newConn_ok : conn_ok newConn.
Proof.
  split.
  - apply map_Forall_singleton. unfold stream_ok, fits, ControlStreamID. simpl. lia.
  - apply map_Forall_singleton. by eexists.
  - split; [unfold acceptCap; simpl; lia|constructor].
  - split; [unfold fits; simpl; lia|done].
Qed.

(** Replacing a stream by one of the same identifier. *)
Lemma replace_stream_ok c r s s' :
  conn_ok c → store c !! r = Some s → s_id s' = s_id s → (length (readCh s') ≤ s_cap s')%nat →
  conn_ok (set_stream c r s').
Proof.
  intros [Hst Hs [Hal Ha] Hn] Hr Hid Hcap. destruct (Hst r s Hr) as [[Hc Hf] Hlt].
  split; [| | |done]; simpl.
  - apply map_Forall_insert_2; [|done]. unfold stream_ok. by rewrite Hid.
  - intros id r' Hr'. destruct (Hs id r' Hr') as (s0 & H0 & Hid0).
    destruct (decide (r = r')) as [<-|Hne].
    + exists s'. rewrite lookup_insert_eq. split; [done|]. congruence.
    + exists s0. by rewrite lookup_insert_ne.
  - split; [done|]. eapply Forall_impl; [exact Ha|]. intros r' Hr'. simpl.
    rewrite lookup_insert_is_Some. destruct (decide (r = r')); tauto.
Qed.

Lemma fresh_ref c : conn_ok c → store c !! next_ref c = None.
Proof.
  intros [Hst _ _ _]. apply eq_None_not_Some. intros [s Hs]. specialize (Hst _ _ Hs). simpl in Hst. lia.
Qed.

Lemma add_stream_ok c id : conn_ok c → fits 32 id → conn_ok (add_stream c id).
Proof.
  intros Hok Hid. pose proof (fresh_ref c Hok) as Hfr. destruct Hok as [Hst Hs [Hal Ha] Hn].
  assert (∀ r, is_Some (store c !! r) → r ≠ next_ref c) as Hne by (intros r [? ?] ->; congruence).
  split; [| | |done]; simpl.
  - apply map_Forall_insert_2; [split; [split; [unfold streamCap; simpl; lia|done]|lia]|].
    eapply map_Forall_impl; [exact Hst|]. simpl. intros r s [? ?]. split; [done|lia].
  - apply map_Forall_insert_2; [eexists; by rewrite lookup_insert_eq|].
    intros id' r Hr. destruct (Hs id' r Hr) as (s & H & E). exists s.
    rewrite lookup_insert_ne; [done|]. apply not_eq_sym, Hne. eauto.
  - split; [done|]. eapply Forall_impl; [exact Ha|]. intros r Hr. simpl.
    rewrite lookup_insert_ne; [done|]. by apply not_eq_sym, Hne.
Qed.

Lemma lookup_close_one st r r' :
  close_one st r !! r' =
  if decide (r = r') then (λ s, if s_closed s then s else wake s) <$> st !! r' else st !! r'.
Proof.
  unfold close_one. case_decide as Hr.
  - subst. destruct (st !! r') as [s|] eqn:E; simpl; [|done].
    destruct (s_closed s); [done|]. apply lookup_insert_eq.
  - destruct (st !! r) as [s|]; [|done]. destruct (s_closed s); [done|]. by apply lookup_insert_ne.
Qed.

Lemma lookup_close_all l st r :
  foldl close_one st l !! r =
  if decide (r ∈ l) then (λ s, if s_closed s then s else wake s) <$> st !! r else st !! r.
Proof.
  revert st. induction l as [|r0 l IH]; intros st; cbn [foldl].
  { rewrite decide_False; [done|]. apply not_elem_of_nil. }
  rewrite IH, lookup_close_one. destruct (decide (r0 = r)) as [->|Hne].
  - rewrite (decide_True (P:=r ∈ r :: l)) by left. case_decide as Hin; [|done].
    destruct (st !! r) as [s|]; simpl; [|done]. f_equal.
    destruct (s_closed s) eqn:Es; by rewrite ?Es.
  - destruct (decide (r ∈ l)) as [Hin|Hin].
    + rewrite decide_True; [done|by right].
    + rewrite decide_False; [done|]. by intros [->|]%elem_of_cons.
Qed.

Lemma wake_ok s : stream_ok s → stream_ok (wake s) ∧ s_id (wake s) = s_id s.
Proof.
  intros [Hl Hf]. split; [|done]. split; [|done]. simpl. unfold try_send.
  case_decide as Hc; [rewrite length_app; simpl; lia|done].
Qed.

Lemma closeAll_lookup c r s :
  store (closeAll c) !! r = Some s →
  ∃ s0, store c !! r = Some s0 ∧ (s = s0 ∨ (s = wake s0 ∧ s_closed s0 = false)).
Proof.
  unfold closeAll. destruct (closed c); [eauto|]. simpl. rewrite lookup_close_all.
  destruct (store c !! r) as [s0|]; case_decide; simpl; intros [= <-]; exists s0;
    split; try done; [destruct (s_closed s0) eqn:E; auto|auto].
Qed.

Lemma closeAll_is_Some c r : is_Some (store c !! r) → is_Some (store (closeAll c) !! r).
Proof.
  unfold closeAll. destruct (closed c); [done|]. simpl. rewrite lookup_close_all.
  intros [s ->]. case_decide; simpl; eauto.
Qed.

Lemma closeAll_ok c : conn_ok c → conn_ok (closeAll c).
Proof.
  intros Hok. pose proof (closeAll_lookup c) as Hl. pose proof (closeAll_is_Some c) as Hs.
  assert (next_ref (closeAll c) = next_ref c ∧ streams (closeAll c) = streams c ∧
    acceptCh (closeAll c) = acceptCh c ∧ nextID (closeAll c) = nextID c) as (E1 & E2 & E3 & E4).
  { unfold closeAll. by destruct (closed c). }
  destruct Hok as [Hst Hss [Hal Ha] Hn]. split; rewrite ?E1, ?E2, ?E3, ?E4; try done.
  - intros r s Hr. destruct (Hl r s Hr) as (s0 & H0 & Hcase). destruct (Hst r s0 H0) as [Hso Hlt].
    split; [|done]. destruct Hcase as [->|[-> _]]; [done|]. by apply wake_ok.
  - intros id r Hr. destruct (Hss id r Hr) as (s0 & H0 & Hid).
    destruct (Hs r) as [s Hr']; [eauto|]. exists s. split; [done|].
    destruct (Hl r s Hr') as (s1 & H1 & [->|[-> _]]); simpl; congruence.
  - split; [done|]. eapply Forall_impl; [exact Ha|]. auto.
Qed.

Lemma set_nextID_ok c id : conn_ok c → fits 32 id → Z.odd id = true → conn_ok (set_nextID c id).
Proof. intros [Hst Hs Ha Hn] Hf Ho. by split. Qed.

Lemma next_id_ok id : fits 32 id → Z.odd id = true → fits 32 (next_id id) ∧ Z.odd (next_id id) = true.
Proof.
  intros Hf Ho. rewrite next_id_wrap by done. split; [by apply wrap_fits|].
  by apply (odd_wrap_2 id 1).
Qed.

(** The identifier tried at the [k]-th attempt. *)
Definition attempt_id (id : Z) (k : nat) : Z := wrap 32 (id + 2 * Z.of_nat k).

Lemma attempt_id_0 id : fits 32 id → attempt_id id 0 = id.
Proof. intros H. unfold attempt_id. rewrite Z.add_0_r. by apply wrap_small. Qed.

Lemma attempt_id_S id k : fits 32 id → Z.odd id = true →
  attempt_id (next_id id) k = attempt_id id (S k).
Proof.
  intros Hf Ho. rewrite next_id_wrap by done. unfold attempt_id, wrap.
  rewrite Zplus_mod_idemp_l. f_equal. lia.
Qed.

(** The search takes the first free identifier. *)
Lemma open_loop_spec n c :
  conn_ok c →
  (∃ k c0, (k < n)%nat ∧ streams c !! attempt_id (nextID c) k = None ∧
     (∀ j, (j < k)%nat → is_Some (streams c !! attempt_id (nextID c) j)) ∧
     conn_ok c0 ∧ c0 = set_nextID c (nextID c0) ∧
     open_loop n c = (add_stream c0 (attempt_id (nextID c) k), Ok (next_ref c))) ∨
  ((∀ k, (k < n)%nat → is_Some (streams c !! attempt_id (nextID c) k)) ∧
   conn_ok (fst (open_loop n c)) ∧ fst (open_loop n c) = set_nextID c (nextID (fst (open_loop n c))) ∧
   snd (open_loop n c) = Err ErrNoStreamIDs).
Proof.
  revert c. induction n as [|n IH]; intros c Hok; simpl.
  { right. split; [intros k Hk; lia|]. split; [done|]. by destruct c. }
  pose proof (ok_next _ Hok) as [Hf Ho]. pose proof (next_id_ok _ Hf Ho) as [Hf' Ho'].
  assert (conn_ok (set_nextID c (next_id (nextID c)))) as Hok' by by apply set_nextID_ok.
  destruct (streams c !! nextID c) as [r|] eqn:Hr.
  - destruct (IH _ Hok') as [(k & c0 & Hk & Hn & Hj & Hc0 & E0 & E)|(Ha & Hc0 & E0 & E)];
      cbn [set_nextID streams nextID next_ref] in *.
    + left. exists (S k), c0. rewrite attempt_id_S in * by done. split_and!; try done; [lia|].
      intros [|j] Hlt; [rewrite attempt_id_0 by done; eauto|]. rewrite <- attempt_id_S by done.
      apply Hj. lia.
    + right. split_and!; try done. intros [|k] Hk; [rewrite attempt_id_0 by done; eauto|].
      rewrite <- attempt_id_S by done. apply Ha. lia.
  - left. exists 0%nat, (set_nextID c (next_id (nextID c))). rewrite attempt_id_0 by done.
    split_and!; try done; [lia|intros j; lia].
Qed.

Lemma open_ok c : conn_ok c → conn_ok (fst (OpenStream c)).
Proof.
  intros Hok. unfold OpenStream. destruct (closed c); [done|].
  destruct (open_loop_spec 1000 c Hok) as [(k & c0 & _ & _ & _ & Hc0 & _ & ->)|(_ & H & _)]; [|done].
  apply add_stream_ok; [done|]. by apply wrap_fits.
Qed.

Lemma set_acceptCh_ok c q :
  conn_ok c → (length q ≤ acceptCap)%nat → Forall (λ r, is_Some (store c !! r)) q →
  conn_ok (set_acceptCh c q).
Proof. intros [Hst Hs Ha Hn] Hl Hq. by split. Qed.

Lemma dispatch_ok c r f s :
  conn_ok c → store c !! r = Some s → s_id s = StreamID f →
  sys_ok (mkSys (fst (dispatch c r f)) (snd (dispatch c r f))).
Proof.
  intros Hok Hr Hid. unfold dispatch. case_bool_decide as Hf; [|split; [done|by exists s]].
  rewrite Hr. simpl. split; [|done]. cbn [sys_conn].
  destruct (replace_stream_ok c r s (wake s) Hok Hr) as [Hst Hs Ha Hn].
  { done. } { apply wake_ok. by apply (ok_store _ Hok r s). }
  split; try done. simpl. by apply map_Forall_delete.
Qed.

Lemma loop_step_ok c l input pick c' l' :
  sys_ok (mkSys c l) → op_ok (OpLoop input pick) → loop_step c l input pick = Some (c', l') →
  sys_ok (mkSys c' l').
Proof.
  intros [Hok Hl] Hop H. cbn [sys_conn sys_loop] in *. destruct l as [|r f|r f|]; cbn [loop_step loop_ok] in *.
  - destruct input as [f| |]; [|injection H as <- <-; by split; [apply closeAll_ok|]..].
    destruct (streams c !! StreamID f) as [r|] eqn:Hr.
    + destruct (ok_streams _ Hok _ _ Hr) as (s & Hs & Hid). injection H as H.
      pose proof (dispatch_ok c r f s Hok Hs Hid) as Hd. by rewrite H in Hd.
    + injection H as <- <-. split; [by apply add_stream_ok|]. simpl. rewrite lookup_insert_eq.
      by eexists.
  - destruct Hl as (s & Hs & Hid). destruct (decide _) as [Hlt|]; cycle 1.
    { destruct (closed c); [|done]. injection H as <- <-. by split. }
    destruct (closed c && pick). { injection H as <- <-. by split. }
    injection H as H. pose proof (ok_accept _ Hok) as [_ Ha].
    assert (conn_ok (set_acceptCh c (acceptCh c ++ [r]))) as Hok'.
    { apply set_acceptCh_ok; [done|rewrite length_app; simpl; lia|].
      apply Forall_app. split; [done|]. apply Forall_singleton. by exists s. }
    pose proof (dispatch_ok _ r f s Hok' Hs Hid) as Hd. by rewrite H in Hd.
  - destruct Hl as (s & Hs & Hid). rewrite Hs in H. cbn [mbind option_bind] in H.
    destruct (decide _) as [Hlt|]; cycle 1.
    { destruct (closed c); [|done]. injection H as <- <-. by split. }
    destruct (closed c && pick). { injection H as <- <-. by split. }
    injection H as <- <-. split; [|done]. apply (replace_stream_ok c r s); try done.
    simpl. rewrite length_app. simpl. lia.
  - done.
Qed.

(** The user's operations keep the streams the loop holds. *)
Lemma loop_ok_frame c c' l :
  (∀ r s, store c !! r = Some s → ∃ s', store c' !! r = Some s' ∧ s_id s' = s_id s) →
  loop_ok c l → loop_ok c' l.
Proof.
  intros H. destruct l; simpl; try done; intros (s & Hs & Hid); destruct (H _ _ Hs) as (s' & ? & ?);
    exists s'; split; congruence.
Qed.

Lemma set_stream_frame c r0 s0 s1 :
  store c !! r0 = Some s0 → s_id s1 = s_id s0 →
  ∀ r s, store c !! r = Some s → ∃ s', store (set_stream c r0 s1) !! r = Some s' ∧ s_id s' = s_id s.
Proof.
  intros H0 Hid r s Hr. simpl. destruct (decide (r0 = r)) as [<-|Hne].
  - exists s1. rewrite lookup_insert_eq. split; [done|]. congruence.
  - exists s. by rewrite lookup_insert_ne.
Qed.

Lemma open_frame c r s :
  conn_ok c → store c !! r = Some s → store (fst (OpenStream c)) !! r = Some s.
Proof.
  intros Hok Hr. unfold OpenStream. destruct (closed c); [done|].
  destruct (open_loop_spec 1000 c Hok) as [(k & c0 & _ & _ & _ & Hc0 & -> & ->)|(_ & _ & -> & _)];
    [|done].
  simpl. rewrite lookup_insert_ne; [done|]. intros E.
  pose proof (fresh_ref c Hok). congruence.
Qed.

(** What [Read] does to the stream. *)
Lemma Stream_Read_spec c r n c' res :
  Stream_Read c (Some r) n = Some (c', res) →
  (store c !! r = None ∧ c' = c ∧ res = Panic) ∨
  ∃ s s', store c !! r = Some s ∧ c' = set_stream c r s' ∧ s_id s' = s_id s ∧
    s_cap s' = s_cap s ∧ s_closed s' = s_closed s ∧
    ((readCh s' = readCh s ∧ buf s ≠ [] ∧ res = Ok (take n (buf s)) ∧ buf s' = drop n (buf s)) ∨
     (∃ d, readCh s = Some d :: readCh s' ∧ buf s = [] ∧ res = Ok (take n d) ∧ buf s' = drop n d) ∨
     (readCh s = None :: readCh s' ∧ buf s = [] ∧ buf s' = [] ∧
        res = Err (if s_closed s then ErrStreamClosed else ErrClosed))).
Proof.
  unfold Stream_Read. cbn [mbind option_bind]. destruct (store c !! r) as [s|] eqn:Hr; simpl.
  2: { intros [= <- <-]. by left. }
  case_decide as Hb.
  { intros [= <- <-]. right. eexists s, _. split; [done|]. split; [done|]. split_and!; try done.
    left. split_and!; try done. intros E. rewrite E in Hb. simpl in Hb. lia. }
  assert (buf s = []) as Hnil by (destruct (buf s); [done|simpl in Hb; lia]).
  destruct (readCh s) as [|[d|] q] eqn:Hq; [done|intros [= <- <-]..]; right; eexists s, _;
    (split; [done|]); (split; [done|]); split_and!; try done; right.
  - left. exists d. split_and!; try done. simpl. case_decide as Hlt; [done|].
    rewrite Hnil. symmetry. apply drop_ge. lia.
  - by right.
Qed.

Lemma sys_step_ok s o : sys_ok s → op_ok o → sys_ok (fst (sys_step s o)).
Proof.
  destruct s as [c l]. intros [Hok Hl] Hop. cbn [sys_conn sys_loop] in *.
  destruct o as [input pick| |pick|r n|r ok|]; unfold sys_step; cbn [sys_conn sys_loop].
  - destruct (loop_step c l input pick) as [[c' l']|] eqn:E; [|done].
    by eapply loop_step_ok.
  - split; [by apply open_ok|]. eapply loop_ok_frame, Hl. intros r s Hs. exists s.
    split; [exact (open_frame c r s Hok Hs)|done].
  - unfold AcceptStream. pose proof (ok_accept _ Hok) as [Hlen Ha].
    destruct (acceptCh c) as [|r q] eqn:Eq; destruct (closed c && pick) eqn:Ec; try done;
      [destruct (closed c); done..|].
    split; [|done]. apply set_acceptCh_ok; [done|simpl in Hlen; lia|]. by apply Forall_cons in Ha as [_ ?].
  - destruct (Stream_Read c (Some r) n) as [[c' res]|] eqn:E; [|done].
    apply Stream_Read_spec in E as [(_ & -> & ->)|(s & s' & Hs & -> & Hid & Hcap & _ & Hcase)]; [done|].
    pose proof (ok_store _ Hok _ _ Hs) as [[Hle _] _].
    assert (sys_ok (mkSys (set_stream c r s') l)).
    { split; [|by eapply loop_ok_frame, Hl; apply (set_stream_frame _ _ s)].
      apply (replace_stream_ok c r s); try done. rewrite Hcap.
      destruct Hcase as [(-> & _)|[(d & E & _)|(E & _)]]; [done|rewrite E in Hle; simpl in Hle; lia..]. }
    by destruct res.
  - unfold Stream_Close. cbn [mbind option_bind]. destruct (store c !! r) as [s|] eqn:Hs; [|done].
    simpl. destruct (s_closed s); [done|].
    pose proof (ok_store _ Hok _ _ Hs) as [[Hle _] _].
    assert (sys_ok (mkSys (set_stream c r (mkStream (s_id s) (readCh s) (s_cap s) (buf s) true)) l)).
    { split; [by apply (replace_stream_ok c r s)|].
      eapply loop_ok_frame, Hl. by apply (set_stream_frame _ _ s). }
    by destruct ok.
  - split; [|done]. destruct Hok as [Hst Hs Ha Hn]. by split.
Qed.

(** ** The bytes of a stream *)

Definition queued (s : Stream) : list byte := buf s ++ concat (map (default []) (readCh s)).

(** Received and not yet read. *)
Definition stream_bytes (c : Conn) (r : nat) : list byte :=
  match store c !! r with Some s => queued s | None => [] end.

Definition held (l : loop_state) (r : nat) : list byte :=
  match pending l with Some (r', data) => if decide (r' = r) then data else [] | None => [] end.

Definition taken_by (r : nat) (ev : event) : list byte :=
  match ev with EvTaken r' data => if decide (r' = r) then data else [] | EvRead _ _ => [] end.
Definition read_by (r : nat) (ev : event) : list byte :=
  match ev with EvRead r' data => if decide (r' = r) then data else [] | EvTaken _ _ => [] end.

(** All the bytes taken off the wire for the stream, and all that were read from it. *)
Definition taken (r : nat) (evs : list event) : list byte := concat (map (taken_by r) evs).
Definition read (r : nat) (evs : list event) : list byte := concat (map (read_by r) evs).

Lemma taken_app r e1 e2 : taken r (e1 ++ e2) = taken r e1 ++ taken r e2.
Proof. unfold taken. by rewrite map_app, concat_app. Qed.
Lemma read_app r e1 e2 : read r (e1 ++ e2) = read r e1 ++ read r e2.
Proof. unfold read. by rewrite map_app, concat_app. Qed.

Lemma queued_wake s : queued (wake s) = queued s.
Proof.
  unfold queued, wake, try_send. simpl. case_decide; [|done].
  by rewrite map_app, concat_app, app_nil_r.
Qed.

Lemma bytes_set_stream c r0 s r :
  stream_bytes (set_stream c r0 s) r = if decide (r0 = r) then queued s else stream_bytes c r.
Proof.
  unfold stream_bytes. simpl. case_decide as Hr; [subst; by rewrite lookup_insert_eq|].
  by rewrite lookup_insert_ne.
Qed.

Lemma bytes_add_stream c id r : conn_ok c → stream_bytes (add_stream c id) r = stream_bytes c r.
Proof.
  intros Hok. unfold stream_bytes. simpl. destruct (decide (next_ref c = r)) as [<-|Hne].
  - by rewrite lookup_insert_eq, fresh_ref.
  - by rewrite lookup_insert_ne.
Qed.

Lemma bytes_closeAll c r : stream_bytes (closeAll c) r = stream_bytes c r.
Proof.
  unfold stream_bytes. destruct (store (closeAll c) !! r) as [s|] eqn:E.
  - apply closeAll_lookup in E as (s0 & -> & [->|[-> _]]); [done|apply queued_wake].
  - destruct (store c !! r) as [s|] eqn:E0; [|done].
    destruct (closeAll_is_Some c r) as [s' Hs']; [by exists s|congruence].
Qed.

Lemma bytes_dispatch c r0 f r : stream_bytes (fst (dispatch c r0 f)) r = stream_bytes c r.
Proof.
  unfold dispatch. case_bool_decide; [|done]. simpl. destruct (store c !! r0) as [s|] eqn:E; [|done].
  change (stream_bytes (set_stream c r0 (wake s)) r = stream_bytes c r).
  rewrite bytes_set_stream. case_decide; [|done]. subst. unfold stream_bytes.
  by rewrite E, queued_wake.
Qed.

Lemma held_dispatch c r0 f r :
  held (snd (dispatch c r0 f)) r = held (Accepting r0 f) r ∧ snd (dispatch c r0 f) ≠ Exited.
Proof. unfold dispatch, held. simpl. by case_bool_decide. Qed.

Lemma bytes_open c r : conn_ok c → stream_bytes (fst (OpenStream c)) r = stream_bytes c r.
Proof.
  intros Hok. unfold OpenStream. destruct (closed c); [done|].
  destruct (open_loop_spec 1000 c Hok) as [(k & c0 & _ & _ & _ & Hc0 & E0 & ->)|(_ & _ & -> & _)];
    [|done].
  cbn [fst]. rewrite bytes_add_stream by done. by rewrite E0.
Qed.

(** Nothing is lost, repeated or reordered before the loop exits; what is lost then is
    the payload the loop was holding. *)
Definition flow (s : Sys) (tk rd : list byte) (r : nat) : Prop :=
  ∃ lost, rd ++ stream_bytes (sys_conn s) r ++ held (sys_loop s) r ++ lost = tk ∧
    (sys_loop s ≠ Exited → lost = []).

Lemma flow_reading c input pick c' l' r :
  conn_ok c → loop_step c Reading input pick = Some (c', l') →
  stream_bytes c' r = stream_bytes c r.
Proof.
  intros Hok H. cbn [loop_step] in H. destruct input as [f| |];
    [|injection H as <- <-; apply bytes_closeAll..].
  destruct (streams c !! StreamID f) as [r0|]; injection H as H.
  - pose proof (bytes_dispatch c r0 f r) as D. by rewrite H in D.
  - simplify_eq. by apply bytes_add_stream.
Qed.

(** A step of the loop that takes no new frame: what it held goes to the stream, or is
    dropped with the connection. *)
Lemma flow_holding c l input pick c' l' r :
  loop_ok c l → l ≠ Reading → loop_step c l input pick = Some (c', l') →
  (l' ≠ Exited ∧ stream_bytes c' r ++ held l' r = stream_bytes c r ++ held l r) ∨
  (l' = Exited ∧ stream_bytes c' r = stream_bytes c r).
Proof.
  intros Hlk Hr H. destruct l as [|r0 f|r0 f|]; [done| | |done]; cbn [loop_step loop_ok] in *.
  - destruct (decide _); [destruct (closed c && pick)|destruct (closed c); [|done]];
      injection H as H; simplify_eq; try (by right).
    left. pose proof (held_dispatch (set_acceptCh c (acceptCh c ++ [r0])) r0 f r) as [D N].
    pose proof (bytes_dispatch (set_acceptCh c (acceptCh c ++ [r0])) r0 f r) as B.
    rewrite H in D, N, B. simpl in *. by rewrite B, D.
  - destruct Hlk as (s & Hs & _). rewrite Hs in H. cbn [mbind option_bind] in H.
    destruct (decide _); [destruct (closed c && pick)|destruct (closed c); [|done]];
      injection H as H; simplify_eq; try (by right).
    left. split; [done|]. rewrite bytes_set_stream. unfold held. simpl. case_decide; subst; [|done].
    unfold stream_bytes, queued. rewrite Hs. simpl.
    rewrite map_app, concat_app. simpl. by rewrite <- !app_assoc, app_nil_r.
Qed.

Lemma flow_loop c l input pick r tk rd :
  conn_ok c → loop_ok c l → flow (mkSys c l) tk rd r →
  let s' := sys_step (mkSys c l) (OpLoop input pick) in
  flow (fst s') (tk ++ taken r (snd s')) (rd ++ read r (snd s')) r.
Proof.
  intros Hok Hlk (lost & E & Hlost). cbn [sys_conn sys_loop] in *.
  unfold sys_step. cbn [sys_conn sys_loop].
  destruct (loop_step c l input pick) as [[c' l']|] eqn:H; cycle 1.
  { exists lost. unfold taken, read. simpl. by rewrite !app_nil_r. }
  assert (l = Reading ∨ l ≠ Reading) as [->|Hl] by (destruct l; auto).
  - rewrite Hlost in E by done. unfold held in E. cbn [pending] in E.
    rewrite !app_nil_r in E. subst tk. exists []. split; [|done].
    cbn [fst snd sys_conn sys_loop]. rewrite (flow_reading _ _ _ _ _ r Hok H), app_nil_r. unfold held.
    destruct (pending l') as [[r' d]|]; unfold taken, read; simpl; rewrite ?app_nil_r; [|done].
    by rewrite app_assoc.
  - assert (match l, pending l' with
            | Reading, Some (r, data) => [EvTaken r data] | _, _ => [] end = []) as -> by by destruct l.
    unfold taken, read. cbn [fst snd map concat]. rewrite !app_nil_r.
    destruct (flow_holding _ _ _ _ _ _ r Hlk Hl H) as [[Hx Hb]|[-> Hb]].
    + exists []. split; [|done]. cbn [sys_conn sys_loop]. rewrite app_nil_r, Hb.
      rewrite Hlost, app_nil_r in E; [done|]. intros Hex. cbn [sys_loop] in *. by rewrite Hex in H.
    + exists (held l r ++ lost). split; [|done]. cbn [sys_conn sys_loop]. rewrite Hb. simpl. done.
Qed.

Lemma flow_step s o r tk rd :
  sys_ok s → flow s tk rd r →
  flow (fst (sys_step s o)) (tk ++ taken r (snd (sys_step s o))) (rd ++ read r (snd (sys_step s o))) r.
Proof.
  destruct s as [c l]. intros [Hok Hl] Hf. cbn [sys_conn sys_loop] in *.
  (* An operation of the user without events, after which the streams hold the same bytes. *)
  assert (∀ c', stream_bytes c' r = stream_bytes c r →
    flow (mkSys c' l) (tk ++ taken r []) (rd ++ read r []) r) as Hsame.
  { intros c' Hb. unfold taken, read. simpl. rewrite !app_nil_r.
    destruct Hf as (lost & E & Hx). exists lost. cbn [sys_conn sys_loop] in *. by rewrite Hb. }
  destruct o as [input pick| |pick|r0 n|r0 ok|].
  - by apply flow_loop.
  - apply Hsame. by apply bytes_open.
  - unfold sys_step, AcceptStream. cbn [sys_conn sys_loop].
    destruct (acceptCh c), (closed c && pick), (closed c); by apply Hsame.
  - unfold sys_step. cbn [sys_conn sys_loop].
    destruct (Stream_Read c (Some r0) n) as [[c' res]|] eqn:E; [|by apply Hsame].
    apply Stream_Read_spec in E as [(_ & -> & ->)|(s & s' & Hs & -> & _ & _ & _ & Hcase)];
      [by apply Hsame|].
    assert (stream_bytes c r0 = queued s) as Hq by (unfold stream_bytes; by rewrite Hs).
    assert (∀ out, res = Ok out → queued s = out ++ queued s') as Hout.
    { intros out ->. unfold queued.
      destruct Hcase as [(-> & _ & [= ->] & ->)|[(d & -> & -> & [= ->] & ->)|(_ & _ & _ & H)]];
        [|simpl|done]; by rewrite app_assoc, take_drop. }
    destruct res as [out|e|].
    + destruct Hf as (lost & E & Hx). exists lost. cbn [sys_conn sys_loop fst snd] in *.
      split; [|done]. rewrite bytes_set_stream. unfold taken, read. simpl. rewrite !app_nil_r.
      rewrite <- E. case_decide; subst; [|by rewrite app_nil_r].
      rewrite Hq, (Hout out eq_refl). by rewrite <- !app_assoc.
    + apply Hsame. rewrite bytes_set_stream. case_decide; [|done]. subst r0. rewrite Hq. unfold queued.
      by destruct Hcase as [(_ & _ & [=] & _)|[(d & _ & _ & [=] & _)|(-> & -> & -> & _)]].
    + destruct Hcase as [(_ & _ & [=] & _)|[(d & _ & _ & [=] & _)|(_ & _ & _ & [=])]].
  - unfold sys_step, Stream_Close. cbn [mbind option_bind sys_conn sys_loop].
    destruct (store c !! r0) as [s|] eqn:Hs; [|by apply Hsame]. simpl.
    destruct (s_closed s); [by apply Hsame|].
    assert (stream_bytes (set_stream c r0 (mkStream (s_id s) (readCh s) (s_cap s) (buf s) true)) r =
            stream_bytes c r).
    { rewrite bytes_set_stream. case_decide; [|done]. subst. unfold stream_bytes. by rewrite Hs. }
    destruct ok; by apply Hsame.
  - by apply Hsame.
Qed.

Lemma run_ok s ops : sys_ok s → Forall op_ok ops → sys_ok (fst (run s ops)).
Proof.
  intros Hok Hops. revert s Hok. induction Hops as [|o ops Ho Hops IH]; intros s Hok; [done|].
  simpl. pose proof (sys_step_ok s o Hok Ho) as Hs. destruct (sys_step s o) as [s1 ev].
  specialize (IH s1 Hs). by destruct (run s1 ops).
Qed.

Lemma start_ok : sys_ok start.
Proof. split; [apply newConn_ok|done]. Qed.

Lemma run_flow s ops r tk rd :
  sys_ok s → Forall op_ok ops → flow s tk rd r →
  flow (fst (run s ops)) (tk ++ taken r (snd (run s ops))) (rd ++ read r (snd (run s ops))) r.
Proof.
  intros Hok Hops. revert s tk rd Hok. induction Hops as [|o ops Ho Hops IH]; intros s tk rd Hok Hf; simpl.
  { unfold taken, read. simpl. by rewrite !app_nil_r. }
  pose proof (sys_step_ok s o Hok Ho) as Hs. pose proof (flow_step s o r tk rd Hok Hf) as Hf1.
  destruct (sys_step s o) as [s1 ev]. specialize (IH s1 _ _ Hs Hf1).
  destruct (run s1 ops) as [s2 ev']. simpl in *.
  by rewrite taken_app, read_app, !app_assoc.
Qed.

(** ** Properties *)

(** Whatever the peer sends and the users of the connection do, the table sends every
    identifier to a stream of that identifier, no queue exceeds its capacity, the next
    identifier to open is odd (so never that of the control stream), and the loop
    holds a frame only for the stream with the frame's identifier. *)
Lemma conn_always_ok ops :
  Forall op_ok ops → sys_ok (fst (run start ops)).
Proof. intros H. apply run_ok; [apply start_ok|done]. Qed.

Definition ping_ops : list op :=
  [OpLoop (Ok (mkFrame FrameData 7 (Some [x68; x69]))) false; OpLoop (Err EOF) false;
   OpLoop (Err EOF) false; OpAccept false; OpRead 1 1; OpRead 1 8].

Lemma ping_ops_ok : Forall op_ok ping_ops.
Proof. repeat constructor; unfold fits; simpl; lia. Qed.

Lemma conn_always_ok_witness : sys_ok (fst (run start ping_ops)).
Proof. apply conn_always_ok, ping_ops_ok. Defined.

(** A stream is a queue of bytes. At any moment the bytes its users have read, then
    those queued in it, then those the loop is holding for it, are the payloads of the
    frames taken off the wire for it, in their order, without loss or repetition; only
    when the loop exits because the connection is closed can the last bytes be
    missing. *)
Lemma stream_in_order ops r :
  Forall op_ok ops →
  let '(s, evs) := run start ops in
  ∃ lost, read r evs ++ stream_bytes (sys_conn s) r ++ held (sys_loop s) r ++ lost = taken r evs ∧
    (sys_loop s ≠ Exited → lost = []).
Proof.
  intros H. pose proof (run_flow start ops r [] [] start_ok H) as Hf.
  destruct (run start ops) as [s evs]. apply Hf. exists []. split; [|done].
  unfold stream_bytes, start. simpl. destruct (decide (r = 0%nat)) as [->|]; [done|].
  by rewrite lookup_singleton_ne.
Qed.

Lemma stream_in_order_witness :
  let '(s, evs) := run start ping_ops in
  ∃ lost, read 1 evs ++ stream_bytes (sys_conn s) 1 ++ held (sys_loop s) 1 ++ lost = taken 1 evs ∧
    (sys_loop s ≠ Exited → lost = []).
Proof. apply (stream_in_order ping_ops 1), ping_ops_ok. Defined.

(** The identifiers tried are different. *)
Lemma attempt_id_inj id j k :
  (j < 1000)%nat → (k < 1000)%nat → attempt_id id j = attempt_id id k → j = k.
Proof.
  unfold attempt_id, wrap. intros Hj Hk E.
  assert ((2 * Z.of_nat j - 2 * Z.of_nat k) mod 2 ^ 32 = 0) as Hm.
  { replace (2 * Z.of_nat j - 2 * Z.of_nat k)
      with (id + 2 * Z.of_nat j - (id + 2 * Z.of_nat k)) by lia.
    rewrite Zminus_mod, E, Z.sub_diag. done. }
  apply Z.mod_divide in Hm as [q Hq]; [|lia]. lia.
Qed.

Lemma all_tried_size c id :
  (∀ k, (k < 1000)%nat → is_Some (streams c !! attempt_id id k)) → (1000 ≤ size (streams c))%nat.
Proof.
  intros H. set (ids := map (attempt_id id) (seq 0 1000)).
  assert (NoDup ids) as Hnd.
  { apply NoDup_fmap_2_strong; [|apply NoDup_seq]. intros j k Hj Hk.
    apply elem_of_seq in Hj, Hk. apply attempt_id_inj; lia. }
  assert (list_to_set (C:=gset Z) ids ⊆ dom (streams c)) as Hsub.
  { intros i Hi. apply elem_of_list_to_set, list_elem_of_fmap in Hi as (k & -> & Hk).
    apply elem_of_seq in Hk. apply elem_of_dom, H. lia. }
  apply subseteq_size in Hsub. rewrite size_list_to_set in Hsub by done.
  rewrite size_dom in Hsub. unfold ids in Hsub. by rewrite length_map, length_seq in Hsub.
Qed.

(** C38: opening a stream on a connection that is not closed takes the first free one of
    the next 1000 odd identifiers, wrapping around after the last of 32 bits, and enters a
    new empty stream under it, leaving the other streams as they are. It fails only when all
    1000 are taken, so never with fewer than 1000 streams. *)
Theorem OpenStream_first_free c :
  conn_ok c → closed c = false →
  match OpenStream c with
  | (c', Ok r) =>
      ∃ k, let id := attempt_id (nextID c) k in
        (k < 1000)%nat ∧ Z.odd id = true ∧ streams c !! id = None ∧
        (∀ j, (j < k)%nat → is_Some (streams c !! attempt_id (nextID c) j)) ∧
        streams c' = <[id := r]> (streams c) ∧ store c !! r = None ∧
        store c' = <[r := mkStream id [] streamCap [] false]> (store c) ∧ conn_ok c'
  | (c', Err e) =>
      e = ErrNoStreamIDs ∧ streams c' = streams c ∧ store c' = store c ∧
      (∀ k, (k < 1000)%nat → is_Some (streams c !! attempt_id (nextID c) k)) ∧
      (1000 ≤ size (streams c))%nat
  | (_, Panic) => False
  end.
Proof.
  intros Hok Hcl. unfold OpenStream. rewrite Hcl. pose proof (ok_next _ Hok) as [_ Ho].
  destruct (open_loop_spec 1000 c Hok) as [(k & c0 & Hk & Hn & Hj & Hc0 & E0 & ->)|(Ha & _ & E0 & E)].
  - pose proof (add_stream_ok c0 (attempt_id (nextID c) k) Hc0 ltac:(by apply wrap_fits)) as Hok'.
    rewrite E0 in Hok' |- *. exists k. split_and!; try done; [by apply odd_wrap_2|by apply fresh_ref].
  - destruct (open_loop 1000 c) as [c' res]. cbn [fst snd] in *. subst res. rewrite E0.
    split_and!; try done. by eapply all_tried_size.
Qed.

Lemma OpenStream_first_free_witness :
  match OpenStream newConn with
  | (c', Ok r) =>
      ∃ k, let id := attempt_id 1 k in
        (k < 1000)%nat ∧ Z.odd id = true ∧ streams newConn !! id = None ∧
        (∀ j, (j < k)%nat → is_Some (streams newConn !! attempt_id 1 j)) ∧
        streams c' = <[id := r]> (streams newConn) ∧ store newConn !! r = None ∧
        store c' = <[r := mkStream id [] streamCap [] false]> (store newConn) ∧ conn_ok c'
  | (_, _) => False
  end.
Proof. exact (OpenStream_first_free newConn newConn_ok eq_refl). Defined.

(** How a connection ends. When the other side closes it, the loop exits and every
    reader that waits on an open stream of the table is woken with an error. When this side
    closes it, the loop exits and wakes nobody: whoever waits on a stream waits for ever. *)
Lemma teardown_wakes c r s e pick n :
  conn_ok c → store c !! r = Some s → buf s = [] → readCh s = [] → s_closed s = false →
  (0 < s_cap s)%nat → streams c !! s_id s = Some r → closed c = false →
  (∃ c', loop_step c Reading (Err e) pick = Some (c', Exited) ∧ closed c' = true ∧
     option_map snd (Stream_Read c' (Some r) n) = Some (Err ErrStreamClosed)) ∧
  (loop_step (Conn_Close c) Reading (Err e) pick = Some (Conn_Close c, Exited) ∧
   Stream_Read (Conn_Close c) (Some r) n = None ∧
   ∀ input pick', loop_step (Conn_Close c) Exited input pick' = None).
Proof.
  intros Hok Hs Hb Hq Hc Hcap Hid Hcl. split.
  - eexists. split; [reflexivity|]. unfold closeAll. rewrite Hcl. split; [done|].
    unfold Stream_Read. cbn [mbind option_bind store]. rewrite lookup_close_all, Hs.
    rewrite decide_True.
    2: { apply list_elem_of_fmap. exists (s_id s, r). split; [done|]. by apply elem_of_map_to_list. }
    simpl. rewrite Hc. simpl. rewrite Hb. simpl. unfold try_send. rewrite Hq.
    by rewrite decide_True.
  - split; [done|]. split; [|done]. unfold Stream_Read. cbn [mbind option_bind Conn_Close store].
    rewrite Hs. simpl. by rewrite Hb, Hq.
Qed.

Lemma teardown_wakes_witness :
  (∃ c', loop_step newConn Reading (Err EOF) false = Some (c', Exited) ∧ closed c' = true ∧
     option_map snd (Stream_Read c' (Some 0%nat) 5) = Some (Err ErrStreamClosed)) ∧
  (loop_step (Conn_Close newConn) Reading (Err EOF) false = Some (Conn_Close newConn, Exited) ∧
   Stream_Read (Conn_Close newConn) (Some 0%nat) 5 = None ∧
   ∀ input pick', loop_step (Conn_Close newConn) Exited input pick' = None).
Proof.
  apply (teardown_wakes newConn 0 (mkStream ControlStreamID [] 64 [] false)); try reflexivity;
    [apply newConn_ok|simpl; lia].
Defined.

(** Any peer can take the control stream away with one close frame: it leaves the
    table, and whoever then asks for it, to write a push or a ping or to read, uses a nil
    pointer. *)
Lemma control_stream_lost c r payload pick :
  conn_ok c → ControlStream c = Some r →
  ∃ c', loop_step c Reading (Ok (mkFrame FrameClose ControlStreamID payload)) pick = Some (c', Reading) ∧
    ControlStream c' = None ∧
    (∀ b write_ok, snd (Stream_Write c' (ControlStream c') b write_ok) = Panic) ∧
    (∀ n, option_map snd (Stream_Read c' (ControlStream c') n) = Some Panic).
Proof.
  intros Hok Hr. unfold ControlStream in *. destruct (ok_streams _ Hok _ _ Hr) as (s & Hs & _).
  cbn [loop_step StreamID]. rewrite Hr. unfold dispatch. cbn [Type_ StreamID]. rewrite Hs.
  rewrite bool_decide_true by done. eexists. split; [reflexivity|]. cbn [streams].
  rewrite lookup_delete_eq. by split_and!.
Qed.

Lemma control_stream_lost_witness :
  ∃ c', loop_step newConn Reading (Ok (mkFrame FrameClose ControlStreamID None)) false = Some (c', Reading) ∧
    ControlStream c' = None ∧
    (∀ b write_ok, snd (Stream_Write c' (ControlStream c') b write_ok) = Panic) ∧
    (∀ n, option_map snd (Stream_Read c' (ControlStream c') n) = Some Panic).
Proof. apply (control_stream_lost newConn 0); [apply newConn_ok|reflexivity]. Defined.
