(* ===== verification/Socks5.v ===== *)
(** * The SOCKS5 handshake ([socks5/handshake.go])

    The connection to the client is the list of the bytes the client will have sent before
    it stops, and the bytes written to it so far. The handshake is a program over that
    connection that may fail at every read. *)

From S2P Require Import Prelude Bytes Net NetText Crypto Wire Frame.
From stdpp Require Import options.

Definition socks5Version : byte := x05.
Definition cmdConnect : byte := x01.
Definition cmdUDPAssociate : byte := x03.
Definition authNone : byte := x00.
Definition authNoAccept : byte := xff.
Definition repSuccess : byte := x00.
Definition repGeneralFailure : byte := x01.
Definition repNetUnreachable : byte := x03.
Definition repHostUnreachable : byte := x04.
Definition repCmdNotSupported : byte := x07.
Definition repAddrNotSupport : byte := x08.
Definition addrTypeIPv4 : byte := x01.
Definition addrTypeDomain : byte := x03.
Definition addrTypeIPv6 : byte := x04.

Record SocksRequest := mkSocksRequest { Cmd : byte; req_TargetAddr : string }.

(** Where the handshake stops. *)
Inductive hs_error :=
| ErrReadVersion | ErrVersion | ErrReadMethods | ErrNoAcceptable | ErrWriteAuth
| ErrReadRequest | ErrRequestVersion | ErrCommand | ErrReadAddr | ErrAddrType | ErrReadPort.

#[export] Instance hs_error_eq_dec : EqDecision hs_error.
Proof. solve_decision. Defined.

(** ** Programs over a connection *)

Record Sock := mkSock { s_in : list byte; s_out : list byte }.

Definition IO (A : Type) : Type := Sock → res hs_error A * Sock.

#[export] Instance io_ret : MRet IO := λ A a s, (Ok a, s).
#[export] Instance io_bind : MBind IO := λ A B f m s,
  match m s with
  | (Ok a, s) => f a s
  | (Err e, s) => (Err e, s)
  | (Panic, s) => (Panic, s)
  end.

Definition fail {A} (e : hs_error) : IO A := λ s, (Err e, s).
Definition lift {A} (r : res hs_error A) : IO A := λ s, (r, s).

(** [io.ReadFull] into a new buffer: a failed read has consumed what there was. *)
Definition read_full (n : nat) (e : hs_error) : IO (list byte) := λ s,
  match ReadFull n (s_in s) with
  | Ok (l, r) => (Ok l, mkSock r (s_out s))
  | _ => (Err e, mkSock [] (s_out s))
  end.

(** A write whose result is ignored. *)
Definition write (b : list byte) : IO () := λ s, (Ok (), mkSock (s_in s) (s_out s ++ b)).

(** ** Replies *)

(** [bindAddr] is nil or an address; an address without a 4-byte form leaves zeros. *)
Definition reply_bytes (rep : byte) (bindAddr : list byte) (bindPort : Z) : list byte :=
  [socks5Version; rep; x00; addrTypeIPv4] ++
  (if decide (bindAddr = []) then replicate 4 x00 else copy_to 4 (default [] (To4 bindAddr))) ++
  be_put 2 bindPort.

Definition sendReply (rep : byte) (bindAddr : list byte) (bindPort : Z) : IO () :=
  write (reply_bytes rep bindAddr bindPort).

Definition SendSuccessReply : IO () :=
  sendReply repSuccess (default [] (ParseIP "0.0.0.0")) 0.

Definition SendErrorReply (rep : byte) : IO () :=
  sendReply rep (default [] (ParseIP "0.0.0.0")) 0.

(** ** The handshake *)

Definition io_guard (b : bool) (e : hs_error) : IO () := if b then mret () else fail e.

Definition string_of (l : list byte) : string := String.string_of_list_byte l.

(** The target's host, for each type of address. *)
Definition read_host (atyp : byte) : IO string :=
  if bool_decide (atyp = addrTypeIPv4) then
    addr ← read_full 4 ErrReadAddr; mret (IP_String addr)
  else if bool_decide (atyp = addrTypeIPv6) then
    addr ← read_full 16 ErrReadAddr; mret (IP_String addr)
  else if bool_decide (atyp = addrTypeDomain) then
    lenBuf ← read_full 1 ErrReadAddr;
    l ← lift (at_ (whole lenBuf) 0);
    domain ← read_full (byte_int l) ErrReadAddr;
    mret (string_of domain)
  else
    _ ← sendReply repAddrNotSupport [] 0;
    fail ErrAddrType.

(** [write_ok]: whether the write of the chosen method succeeds. *)
Definition handleHandshake (write_ok : bool) : IO SocksRequest :=
  buf ← read_full 2 ErrReadVersion;
  v ← lift (at_ (whole buf) 0);
  _ ← io_guard (bool_decide (v = socks5Version)) ErrVersion;
  n ← lift (at_ (whole buf) 1);
  methods ← read_full (byte_int n) ErrReadMethods;
  if negb (existsb (λ m, bool_decide (m = authNone)) methods) then
    _ ← write [socks5Version; authNoAccept];
    fail ErrNoAcceptable
  else if write_ok then
    _ ← write [socks5Version; authNone];
    buf ← read_full 4 ErrReadRequest;
    v ← lift (at_ (whole buf) 0);
    _ ← io_guard (bool_decide (v = socks5Version)) ErrRequestVersion;
    cmd ← lift (at_ (whole buf) 1);
    if negb (bool_decide (cmd = cmdConnect)) && negb (bool_decide (cmd = cmdUDPAssociate)) then
      _ ← sendReply repCmdNotSupported [] 0;
      fail ErrCommand
    else
      atyp ← lift (at_ (whole buf) 3);
      targetHost ← read_host atyp;
      portBuf ← read_full 2 ErrReadPort;
      port ← lift (uint_at 2 (whole portBuf) 0);
      mret (mkSocksRequest cmd (JoinHostPort targetHost (dec port)))
  else fail ErrWriteAuth.

(** ** What a client sends *)

Inductive Target := TIPv4 (a : list byte) | TIPv6 (a : list byte) | TDomain (d : list byte).

Definition target_ok (t : Target) : Prop :=
  match t with
  | TIPv4 a => length a = 4%nat
  | TIPv6 a => length a = 16%nat
  | TDomain d => (length d < 256)%nat
  end.

Definition target_bytes (t : Target) : list byte :=
  match t with
  | TIPv4 a => addrTypeIPv4 :: a
  | TIPv6 a => addrTypeIPv6 :: a
  | TDomain d => addrTypeDomain :: byte_of (Z.of_nat (length d)) :: d
  end.

Definition target_host (t : Target) : string :=
  match t with TIPv4 a | TIPv6 a => IP_String a | TDomain d => string_of d end.

Definition greeting (methods : list byte) : list byte :=
  socks5Version :: byte_of (Z.of_nat (length methods)) :: methods.

Definition request (cmd rsv : byte) (t : Target) (port : Z) : list byte :=
  socks5Version :: cmd :: rsv :: target_bytes t ++ be_put 2 port.

(** ** Lemmas *)

Lemma io_bind_Ok {A B} (m : IO A) (f : A → IO B) s b s' :
  (m ≫= f) s = (Ok b, s') ↔ ∃ a s1, m s = (Ok a, s1) ∧ f a s1 = (Ok b, s').
Proof.
  unfold mbind, io_bind. destruct (m s) as [[a|e|] s1]; split;
    [by eexists _, _|by intros (? & ? & [= <- <-] & ?)|done| |done|]; by intros (? & ? & [=] & _).
Qed.

Lemma io_bind_run {A B} (m : IO A) (f : A → IO B) s a s1 :
  m s = (Ok a, s1) → (m ≫= f) s = f a s1.
Proof. unfold mbind, io_bind. by intros ->. Qed.

Lemma read_full_Ok n e s l s' :
  read_full n e s = (Ok l, s') ↔ s_in s = l ++ s_in s' ∧ length l = n ∧ s_out s' = s_out s.
Proof.
  unfold read_full. split.
  - destruct (ReadFull n (s_in s)) as [[l' r]| |] eqn:E; [|done..]. intros [= <- <-].
    by apply ReadFull_inv in E as [-> ?].
  - intros (Hi & Hl & Ho). rewrite Hi, ReadFull_app by done. by destruct s', s; simpl in *; subst.
Qed.

(** A read finds what it is to read in front. *)
Lemma read_full_app {B} n e l k o (f : list byte → IO B) :
  length l = n → (read_full n e ≫= f) (mkSock (l ++ k) o) = f l (mkSock k o).
Proof. intros Hl. apply io_bind_run. by apply read_full_Ok. Qed.

Lemma lift_Ok {A} (r : res hs_error A) s a s' : lift r s = (Ok a, s') ↔ r = Ok a ∧ s' = s.
Proof. unfold lift. split; [by intros [= -> ->]|by intros [-> ->]]. Qed.

Lemma io_guard_Ok b e s u s' : io_guard b e s = (Ok u, s') ↔ b = true ∧ s' = s.
Proof.
  unfold io_guard, fail. destruct b, u; split; [by intros [= ->]|by intros [_ ->]|done|by intros [[=] _]].
Qed.

Lemma ret_Ok {A} (a : A) s b s' : (mret a : IO A) s = (Ok b, s') ↔ b = a ∧ s' = s.
Proof. split; [by intros [= -> ->]|by intros [-> ->]]. Qed.

Lemma write_then_fail {A} b e s : ((write b ≫= λ _, fail e) : IO A) s = (Err e, mkSock (s_in s) (s_out s ++ b)).
Proof. done. Qed.

(** Take apart a run that succeeds. *)
Ltac io_inv :=
  repeat match goal with
    | H : (_ ≫= _) _ = (Ok _, _) |- _ =>
        let a := fresh "a" in let s := fresh "s" in let H1 := fresh "H" in
        apply io_bind_Ok in H as (a & s & H1 & H)
    | H : lift _ _ = (Ok _, _) |- _ => apply lift_Ok in H as [H ->]
    | H : io_guard _ _ _ = (Ok _, _) |- _ =>
        apply io_guard_Ok in H as [H%bool_decide_eq_true ->]; try subst
    | H : mret _ _ = (Ok _, _) |- _ => apply ret_Ok in H as [-> ->]
    end.

(** What is read as a host is a target, and a target is read as its host. *)
Lemma read_host_Ok atyp s h s' :
  read_host atyp s = (Ok h, s') ↔
  ∃ t, target_ok t ∧ atyp :: s_in s = target_bytes t ++ s_in s' ∧ s_out s' = s_out s ∧ h = target_host t.
Proof.
  unfold read_host. split.
  - intros H. repeat case_bool_decide; subst; io_inv; rewrite ?read_full_Ok in *; try done.
    + destruct H0 as (-> & Hl & Ho). by exists (TIPv4 a).
    + destruct H1 as (-> & Hl & Ho). by exists (TIPv6 a).
    + destruct H2 as (Hi & Hl & Ho), H4 as (Hi' & Hl' & Ho').
      destruct a as [|b [|]]; [done| |done]. injection H3 as <-.
      exists (TDomain a1). cbn [target_ok target_bytes target_host]. split_and!; [| |congruence|done].
      * rewrite Hl'. unfold byte_int. pose proof (byte_val_fits b) as F. unfold fits in F. lia.
      * rewrite Hl', byte_of_int, Hi, Hi'. done.
  - intros (t & Ht & Hb & Ho & ->).
    assert (∀ l k o, mkSock (s_in s) (s_out s) = mkSock (l ++ k) o → s = mkSock (l ++ k) o) as Hs by (by destruct s).
    destruct t as [a|a|d]; cbn in Ht, Hb; injection Hb as -> Hb; repeat (rewrite bool_decide_false by done);
      rewrite bool_decide_true by done; destruct s as [i o], s' as [i' o']; cbn in Hb, Ho; subst.
    + by rewrite read_full_app.
    + by rewrite read_full_app.
    + etrans; [by apply (read_full_app 1 _ [byte_of (Z.of_nat (length d))] (d ++ i'))|].
      change (at_ (whole [byte_of (Z.of_nat (length d))]) 0) with
        (Ok (byte_of (Z.of_nat (length d))) : res hs_error byte).
      etrans; [by apply (io_bind_run (lift _))|].
      by rewrite read_full_app by by rewrite byte_int_of.
Qed.

Lemma no_auth_offered methods :
  existsb (λ m, bool_decide (m = authNone)) methods = true ↔ authNone ∈ methods.
Proof.
  rewrite existsb_exists. setoid_rewrite bool_decide_eq_true. rewrite list_elem_of_In.
  split; [by intros (? & ? & ->)|eauto].
Qed.

(** The bytes of a whole handshake. *)
Definition handshake_bytes (methods : list byte) (cmd rsv : byte) (t : Target) (port : Z) : list byte :=
  greeting methods ++ request cmd rsv t port.

Definition handshake_ok (methods : list byte) (cmd : byte) (t : Target) (port : Z) : Prop :=
  (length methods < 256)%nat ∧ authNone ∈ methods ∧ (cmd = cmdConnect ∨ cmd = cmdUDPAssociate) ∧
  target_ok t ∧ fits 16 port.

Lemma handshake_runs methods cmd rsv t port rest o :
  handshake_ok methods cmd t port →
  handleHandshake true (mkSock (handshake_bytes methods cmd rsv t port ++ rest) o) =
  (Ok (mkSocksRequest cmd (JoinHostPort (target_host t) (dec port))),
   mkSock rest (o ++ [socks5Version; authNone])).
Proof.
  intros (Hm & Hno & Hcmd & Ht & Hp). set (n := byte_of (Z.of_nat (length methods))).
  assert (handshake_bytes methods cmd rsv t port ++ rest =
    [socks5Version; n] ++ methods ++ [socks5Version; cmd; rsv] ++ target_bytes t ++ be_put 2 port ++ rest) as ->.
  { unfold handshake_bytes, greeting, request. rewrite <- !app_assoc. cbn [app]. rewrite <- !app_assoc. done. }
  unfold handleHandshake. rewrite (read_full_app 2) by done.
  etrans; [by apply (io_bind_run (lift _))|]. etrans; [by apply (io_bind_run (io_guard _ _))|].
  etrans; [by apply (io_bind_run (lift _))|]. rewrite read_full_app by (unfold n; by rewrite byte_int_of).
  rewrite (proj2 (no_auth_offered methods) Hno). cbn [negb].
  etrans; [by apply (io_bind_run (write _))|]. cbn [s_in s_out].
  assert (∃ atyp tl, target_bytes t = atyp :: tl) as (atyp & tl & Etb) by (destruct t; by eexists _, _).
  rewrite Etb.
  etrans; [by apply (read_full_app 4 _ [socks5Version; cmd; rsv; atyp] (tl ++ be_put 2 port ++ rest))|].
  etrans; [by apply (io_bind_run (lift _))|]. etrans; [by apply (io_bind_run (io_guard _ _))|].
  etrans; [by apply (io_bind_run (lift _))|].
  replace (negb (bool_decide (cmd = cmdConnect)) && negb (bool_decide (cmd = cmdUDPAssociate))) with false
    by (by destruct Hcmd as [-> | ->]).
  etrans; [by apply (io_bind_run (lift _))|].
  etrans; [apply (io_bind_run (read_host atyp) _ _ (target_host t) (mkSock (be_put 2 port ++ rest) (o ++ [socks5Version; authNone])))|].
  { apply read_host_Ok. exists t. cbn [s_in s_out]. by rewrite Etb. }
  rewrite read_full_app by apply length_be_put.
  assert (uint_at 2 (whole (be_put 2 port)) 0 = Ok port :> res hs_error Z) as ->.
  { rewrite (cursor_uint (whole (be_put 2 port)) 0 (be_put 2 port) [] 2).
    - by rewrite be_get_put_fits.
    - split; [by rewrite app_nil_r|]. by rewrite app_nil_r.
    - apply length_be_put. }
  done.
Qed.

(** A handshake that succeeds was one. *)
Lemma handshake_inv write_ok s req s' :
  handleHandshake write_ok s = (Ok req, s') →
  write_ok = true ∧ ∃ methods cmd rsv t port, handshake_ok methods cmd t port ∧
    s_in s = handshake_bytes methods cmd rsv t port ++ s_in s' ∧
    s_out s' = s_out s ++ [socks5Version; authNone] ∧
    req = mkSocksRequest cmd (JoinHostPort (target_host t) (dec port)).
Proof.
  unfold handleHandshake. intros H. io_inv.
  destruct (existsb _ _) eqn:Hm in H; cbn [negb] in H; [|discriminate H].
  destruct write_ok; [|discriminate H]. split; [done|]. io_inv.
  destruct (negb (bool_decide (_ = cmdConnect)) && _) eqn:Hc in H; [discriminate H|]. io_inv.
  repeat match goal with
    | H : read_full _ _ _ = (Ok _, _) |- _ => apply read_full_Ok in H as (? & ? & ?)
    | H : read_host _ _ = (Ok _, _) |- _ => apply read_host_Ok in H as (? & ? & ? & ? & ?)
    | H : write _ _ = (Ok _, _) |- _ => injection H as <- <-
    end.
  destruct a as [|v [|n [|]]]; try discriminate H17. injection H1 as ->. injection H3 as ->.
  destruct a4 as [|v' [|cmd [|rsv [|atyp [|]]]]]; try discriminate H13.
  injection H6 as ->. injection H8 as ->. injection H7 as ->. cbn [s_in s_out] in *. subst.
  exists a3, a7, rsv, x, a10. split_and!; [split_and!| | |done].
  - rewrite H15. unfold byte_int. pose proof (byte_val_fits a2) as F. unfold fits in F. lia.
  - by apply no_auth_offered.
  - apply andb_false_iff in Hc as [Hc|Hc]; apply negb_false_iff, bool_decide_eq_true in Hc; auto.
  - done.
  - apply uint_at_inv in H11 as [_ F]. exact F.
  - apply uint_at_inv in H11 as [E _]. cbn [whole contents] in E. rewrite drop_0 in E.
    rewrite drop_ge, app_nil_r in E by (cbn; lia).
    rewrite H0, H4, H5. unfold handshake_bytes, greeting, request. rewrite H15, byte_of_int.
    cbn [app]. rewrite H19, H, E, <- !app_assoc. cbn [app]. by rewrite <- !app_assoc.
  - by rewrite H12, H20, H14, H16, H18.
Qed.

(** What the client has been sent when the handshake stops. *)
Definition replies_of (r : res hs_error SocksRequest) : list byte :=
  match r with
  | Panic | Err ErrReadVersion | Err ErrVersion | Err ErrReadMethods | Err ErrWriteAuth => []
  | Err ErrNoAcceptable => [socks5Version; authNoAccept]
  | Err ErrCommand => [socks5Version; authNone] ++ [x05; x07; x00; x01] ++ replicate 6 x00
  | Err ErrAddrType => [socks5Version; authNone] ++ [x05; x08; x00; x01] ++ replicate 6 x00
  | _ => [socks5Version; authNone]
  end.

(** A run that stops for the reason [r], with nothing written but [w]. *)
Definition stops {A} (m : IO A) (s : Sock) (Q : res hs_error A → Sock → Prop) : Prop :=
  Q (fst (m s)) (snd (m s)).

Lemma stops_read {A} n e (f : list byte → IO A) s Q :
  Q (Err e) (mkSock [] (s_out s)) →
  (∀ l k, length l = n → stops (f l) (mkSock k (s_out s)) Q) → stops (read_full n e ≫= f) s Q.
Proof.
  intros He Hf. unfold stops, mbind, io_bind, read_full.
  destruct (ReadFull_cases n (s_in s)) as [(l & k & -> & Hl)|[e' ->]]; [by apply Hf|done].
Qed.

Lemma stops_at {A} l i (f : byte → IO A) s Q :
  (i < length l)%nat → (∀ b, stops (f b) s Q) → stops (lift (at_ (whole l) i) ≫= f) s Q.
Proof.
  intros Hi Hf. destruct (at_ok (E:=hs_error) (whole l) i Hi) as [b Hb].
  unfold stops. rewrite (io_bind_run _ _ _ b s) by by rewrite Hb. apply Hf.
Qed.

Lemma stops_guard {A} b e (f : () → IO A) s Q :
  Q (Err e) s → stops (f ()) s Q → stops (io_guard b e ≫= f) s Q.
Proof. by destruct b. Qed.

Lemma stops_bind {A B} (m : IO A) (f : A → IO B) s Q :
  stops m s (λ r s', match r with Ok a => stops (f a) s' Q | Err e => Q (Err e) s' | Panic => Q Panic s' end) →
  stops (m ≫= f) s Q.
Proof. unfold stops, mbind, io_bind. by destruct (m s) as [[] s']. Qed.

(** Reading the host fails only at the end of the input or at an unknown type. *)
Lemma read_host_stops atyp s :
  stops (read_host atyp) s (λ r s',
    match r with
    | Ok _ | Err ErrReadAddr => s_out s' = s_out s
    | Err ErrAddrType => s_out s' = s_out s ++ reply_bytes repAddrNotSupport [] 0
    | _ => False
    end).
Proof.
  unfold read_host. repeat case_bool_decide.
  - by apply stops_read.
  - by apply stops_read.
  - apply stops_read; [done|]. intros l k Hl. apply stops_at; [lia|]. intros b.
    by apply stops_read.
  - done.
Qed.

Lemma handshake_stops write_ok s :
  stops (handleHandshake write_ok) s (λ r s', r ≠ Panic ∧ s_out s' = s_out s ++ replies_of r).
Proof.
  unfold handleHandshake.
  apply stops_read; [by rewrite app_nil_r|]. intros buf k Hl.
  apply stops_at; [lia|]. intros v. apply stops_guard; [by rewrite app_nil_r|].
  apply stops_at; [lia|]. intros n.
  apply stops_read; [by rewrite app_nil_r|]. intros methods k' Hm.
  destruct (negb _); [done|]. destruct write_ok; [|by unfold stops; cbn; rewrite app_nil_r].
  apply stops_bind. cbn [stops write fst snd s_in s_out].
  apply stops_read; [done|]. intros buf' k2 Hl'.
  apply stops_at; [lia|]. intros v'. apply stops_guard; [done|].
  apply stops_at; [lia|]. intros cmd. destruct (_ && _); [split; [done|symmetry; apply app_assoc]|].
  apply stops_at; [lia|]. intros atyp. apply stops_bind.
  pose proof (read_host_stops atyp (mkSock k2 (s_out s ++ [socks5Version; authNone]))) as H.
  unfold stops in H |- *. destruct (fst (read_host atyp _)) as [h|e|]; [| |done].
  2: { cbn [s_out] in H. destruct e; try done; (split; [done|]); (etrans; [exact H|]);
       first [done|symmetry; apply app_assoc]. }
  cbn [s_out] in H. apply stops_read; [by split|]. intros pb k3 Hp.
  destruct (uint_at_ok (E:=hs_error) 2 (whole pb) 0) as (z & Hz & _); [cbn; lia|].
  rewrite Hz. by split.
Qed.

(** ** Properties *)

(** C15: the handshake succeeds exactly on the handshakes of the protocol: a greeting that
    offers no authentication, then a request to connect or to associate, for a target of
    any of the three kinds. It reads exactly their bytes and yields the command and the
    target as text; whatever follows is left for the relay. *)
Theorem handshake_exact s req s' :
  handleHandshake true s = (Ok req, s') ↔
  ∃ methods cmd rsv t port, handshake_ok methods cmd t port ∧
    s_in s = handshake_bytes methods cmd rsv t port ++ s_in s' ∧
    s_out s' = s_out s ++ [socks5Version; authNone] ∧
    req = mkSocksRequest cmd (JoinHostPort (target_host t) (dec port)).
Proof.
  split.
  - intros H. by apply handshake_inv in H as [_ H].
  - intros (methods & cmd & rsv & t & port & Hok & Hi & Ho & ->).
    destruct s as [i o], s' as [i' o']. cbn in Hi, Ho. subst. by apply handshake_runs.
Qed.

(** The handshake always ends, never panics, and tells the client why it stopped: the
    refusal of the methods, the replies 7 and 8 for an unknown command or type of address,
    and nothing when the client broke off or speaks another version. *)
Lemma handshake_replies write_ok s :
  let '(r, s') := handleHandshake write_ok s in
  r ≠ Panic ∧ s_out s' = s_out s ++ replies_of r.
Proof. pose proof (handshake_stops write_ok s) as H. unfold stops in H. by destruct (handleHandshake write_ok s). Qed.
