(* ===== verification/SocksServer.v ===== *)
(** * The SOCKS5 server ([socks5/server.go], [socks5/udp.go])

    The server decides, for each connection and each datagram of its clients, whether it is
    served directly or through a peer. Its callbacks are set or not; the outcome of a dial
    and the resolution of names are functions, and what the server does is the list of
    its effects. *)

From S2P Require Import Prelude Bytes Net NetText Identity Crypto Wire RoutePath RouteTable.
From S2P Require Import RouteSelect Session Frame Socks5.
From Stdlib Require Import Ascii.
From stdpp Require Import options.

Inductive seffect :=
| SWrite (b : list byte)
| SDialTCP (target : string)
| SDialPeer (peerID : NodeID) (target : string)
| SRelay
| SUDPDirect (target : UDPAddr) (payload : list byte)
| SUDPForward (nextHop : NodeID) (sessionID : Z) (target : UDPAddr) (payload : list byte).

#[export] Instance seffect_eq_dec : EqDecision seffect.
Proof. solve_decision. Defined.

(** The dial callbacks answer whether the dial succeeds. *)
Record Server := mkServer {
  srv_addr : string;
  srv_routes : RoutingTable;
  srv_selfID : NodeID;
  dialTCPFunc : option (string → bool);
  dialPeerFunc : option (NodeID → string → bool);
  udpForwardFunc : bool;
  udpDirectFunc : bool }.

Definition NewServer (addr : string) (routes : RoutingTable) (selfID : NodeID) : Server :=
  mkServer addr routes selfID None None false false.

Definition SetDialTCP (s : Server) (fn : string → bool) : Server :=
  mkServer (srv_addr s) (srv_routes s) (srv_selfID s) (Some fn) (dialPeerFunc s) (udpForwardFunc s) (udpDirectFunc s).
Definition SetDialPeer (s : Server) (fn : NodeID → string → bool) : Server :=
  mkServer (srv_addr s) (srv_routes s) (srv_selfID s) (dialTCPFunc s) (Some fn) (udpForwardFunc s) (udpDirectFunc s).
Definition SetUDPForward (s : Server) : Server :=
  mkServer (srv_addr s) (srv_routes s) (srv_selfID s) (dialTCPFunc s) (dialPeerFunc s) true (udpDirectFunc s).
Definition SetUDPDirect (s : Server) : Server :=
  mkServer (srv_addr s) (srv_routes s) (srv_selfID s) (dialTCPFunc s) (dialPeerFunc s) (udpForwardFunc s) true.

(** The bytes of a reply: what the reply writes on a connection to which nothing has been
    written. *)
Definition written (m : IO ()) : list byte := s_out (snd (m (mkSock [] []))).

(** ** Clients of UDP ASSOCIATE ([socks5/udp.go]) *)

(** A client's own table of flows: session number, client and target. *)
Record udpAssociate := mkUdpAssociate {
  ua_client : option UDPAddr;
  ua_sessions : gmap Z (UDPAddr * UDPAddr) }.

Definition UDPAddr_String (a : UDPAddr) : string :=
  JoinHostPort (if decide (ua_IP a = []) then "" else IP_String (ua_IP a)) (dec (ua_Port a)).

Definition flow_of (s : UDPAddr * UDPAddr) : string * string :=
  (UDPAddr_String (fst s), UDPAddr_String (snd s)).

(** [uint32(time.Now().UnixNano() & 0xFFFFFFFF)] *)
Definition low32 (t : Z) : Z := Z.land t (Z.ones 32).

(** The search for a number: nonzero and not in use. The [i]-th reading of the clock is
    tried next; [None] when the readings run out. *)
Fixpoint fresh_id (fuel : nat) (used : gmap Z (UDPAddr * UDPAddr)) (clock : nat → Z) (i : nat) : option Z :=
  match fuel with
  | O => None
  | S fuel =>
      let id := low32 (clock i) in
      if decide (id = 0) then fresh_id fuel used clock (S i)
      else match used !! id with
           | Some _ => fresh_id fuel used clock (S i)
           | None => Some id
           end
  end.

(** [order] enumerates the sessions. *)
Definition getSessionID (fuel : nat) (ua : udpAssociate) (order : list (Z * (UDPAddr * UDPAddr)))
    (clientAddr targetAddr : UDPAddr) (clock : nat → Z) : option (udpAssociate * Z) :=
  match find (λ '(_, s), bool_decide (flow_of s = flow_of (clientAddr, targetAddr))) order with
  | Some (id, _) => Some (ua, id)
  | None =>
      id ← fresh_id fuel (ua_sessions ua) clock 0;
      Some (mkUdpAssociate (ua_client ua) (<[id := (clientAddr, targetAddr)]> (ua_sessions ua)), id)
  end.

Inductive dgram_error := ErrShortDatagram | ErrRSV | ErrFragment | ErrDatagramAddr | ErrDatagramType
| ErrResolve | ErrNoRoute.

#[export] Instance dgram_error_eq_dec : EqDecision dgram_error.
Proof. solve_decision. Defined.

(** Host, port and payload of a datagram; the errors are those for which it is dropped. *)
Definition parse_datagram (data : Slice) : res dgram_error (string * Z * list byte) :=
  let len := length (contents data) in
  guard_err (10 <=? len)%nat ErrShortDatagram (
    b0 ← at_ data 0; b1 ← at_ data 1;
    guard_err (bool_decide (b0 = x00 ∧ b1 = x00)) ErrRSV (
      frag ← at_ data 2;
      guard_err (bool_decide (frag = x00)) ErrFragment (
        atyp ← at_ data 3;
        '(targetHost, targetPort, headerLen) ←
          (if bool_decide (atyp = addrTypeIPv4) then
             guard_err (10 <=? len)%nat ErrDatagramAddr (
               a ← sub data 4 8; p ← uint_at 2 data 8; Ok (IP_String a, p, 10%nat))
           else if bool_decide (atyp = addrTypeDomain) then
             guard_err (7 <=? len)%nat ErrDatagramAddr (
               l ← at_ data 4;
               let domainLen := byte_int l in
               guard_err (5 + domainLen + 2 <=? len)%nat ErrDatagramAddr (
                 d ← sub data 5 (5 + domainLen); p ← uint_at 2 data (5 + domainLen);
                 Ok (string_of d, p, 5 + domainLen + 2)%nat))
           else if bool_decide (atyp = addrTypeIPv6) then
             guard_err (22 <=? len)%nat ErrDatagramAddr (
               a ← sub data 4 20; p ← uint_at 2 data 20; Ok (IP_String a, p, 22%nat))
           else Err ErrDatagramType);
        payload ← from data headerLen;
        Ok (targetHost, targetPort, contents payload)))).

Section server.
(** [net.LookupIP]: the addresses of a name, none when it fails. *)
Context (LookupIP : string → list (list byte)).

Definition resolve_ip (host : string) : option (list byte) :=
  match ParseIP host with Some ip => Some ip | None => head (LookupIP host) end.

(** [route_order] and [session_order] enumerate the maps. [Ok None]: the search for a
    session number is still running. *)
Definition handleUDPDatagram (fuel : nat) (s : Server) (ua : udpAssociate)
    (route_order : list (string * list Route)) (session_order : list (Z * (UDPAddr * UDPAddr)))
    (clock : nat → Z) (data : Slice) : res dgram_error (option (udpAssociate * list seffect)) :=
  '(targetHost, targetPort, payload) ← parse_datagram data;
  match resolve_ip targetHost with
  | None => Err ErrResolve
  | Some ip =>
      let target := mkUDPAddr ip targetPort in
      match Lookup (srv_routes s) route_order ip with
      | None => Err ErrNoRoute
      | Some route =>
          if IsZero (NextHop route) then
            Ok (Some (ua, if udpDirectFunc s then [SUDPDirect target payload] else []))
          else if udpForwardFunc s then
            Ok ('(ua, id) ← getSessionID fuel ua session_order
                  (default (mkUDPAddr [] 0) (ua_client ua)) target clock;
                Some (ua, [SUDPForward (NextHop route) id target payload]))
          else Ok (Some (ua, []))
      end
  end.

(** One datagram read by the loop of [handleUDPAssociate], from [clientAddr]. *)
Definition associate_datagram (fuel : nat) (s : Server) (ua : udpAssociate)
    (route_order : list (string * list Route)) (session_order : list (Z * (UDPAddr * UDPAddr)))
    (clock : nat → Z) (clientAddr : UDPAddr) (data : Slice)
    : res dgram_error (option (udpAssociate * list seffect)) :=
  handleUDPDatagram fuel s (mkUdpAssociate (Some clientAddr) (ua_sessions ua))
    route_order session_order clock data.

(** The start of [handleUDPAssociate]: [listen] is the address of the new socket. *)
Definition handleUDPAssociate (listen : option UDPAddr) : option udpAssociate * list seffect :=
  match listen with
  | None => (None, [SWrite (written (SendErrorReply repGeneralFailure))])
  | Some bindAddr =>
      (Some (mkUdpAssociate None ∅),
       [SWrite (written (sendReply repSuccess (ua_IP bindAddr) (wrap 16 (ua_Port bindAddr))))])
  end.

(** ** Connections ([socks5/server.go]) *)

(** The address to look up, and the target to dial. *)
Definition resolve_target (targetAddr : string) : option (list byte * string) :=
  match SplitHostPort targetAddr with
  | Ok (host, port) =>
      match ParseIP host with
      | Some ip => Some (ip, targetAddr)
      | None => (λ ip, (ip, JoinHostPort (IP_String ip) port)) <$> head (LookupIP host)
      end
  | _ => None
  end.

(** After a dial: the reply, and the relay when it succeeded. *)
Definition dialled (ok : bool) : list seffect :=
  if ok then [SWrite (written SendSuccessReply); SRelay]
  else [SWrite (written (SendErrorReply repHostUnreachable))].

Definition serve (s : Server) (route : option Route) (targetAddr : string) : list seffect :=
  match route with
  | None => [SWrite (written (SendErrorReply repNetUnreachable))]
  | Some route =>
      if IsZero (NextHop route) then
        match dialTCPFunc s with
        | Some dial => SDialTCP targetAddr :: dialled (dial targetAddr)
        | None => []
        end
      else
        match dialPeerFunc s with
        | Some dial => SDialPeer (NextHop route) targetAddr :: dialled (dial (NextHop route) targetAddr)
        | None => []
        end
  end.

(** [input]: what the client sends; [listen]: the outcome of opening a socket. The rest of
    an association are its datagrams. *)
Definition handleConnection (s : Server) (order : list (string * list Route)) (write_ok : bool)
    (listen : option UDPAddr) (input : list byte) : option udpAssociate * list seffect :=
  let '(r, sock) := handleHandshake write_ok (mkSock input []) in
  let hello := SWrite (s_out sock) in
  match r with
  | Ok req =>
      if bool_decide (Cmd req = cmdUDPAssociate) then
        let '(ua, eff) := handleUDPAssociate listen in (ua, hello :: eff)
      else
        match resolve_target (req_TargetAddr req) with
        | None => (None, [hello])
        | Some (ip, targetAddr) =>
            (None, hello :: serve s (Lookup (srv_routes s) order ip) targetAddr)
        end
  | _ => (None, [hello])
  end.
End server.

(** ** The copy loop *)

(** The readings of the source: the bytes of each read, and whether it came with an error.
    Total copied, whether it was the write that failed, and what was written. [None]: the
    source has no more to give yet. *)
Fixpoint ioCopy (reads : list (list byte * bool)) (w : Writer) (i : nat) : option (Z * bool * list byte) :=
  match reads with
  | [] => None
  | (data, err) :: reads =>
      if decide (0 < length data)%nat then
        let '(nw, we) := w i in
        let nw := Nat.min nw (length data) in
        if we : bool then Some (Z.of_nat nw, true, take nw data)
        else if err : bool then Some (Z.of_nat nw, false, take nw data)
        else '(total, e, out) ← ioCopy reads w (S i);
             Some (Z.of_nat nw + total, e, take nw data ++ out)
      else if err then Some (0, false, []) else ioCopy reads w i
  end.

(** ** Both directions *)

Inductive direction := ToClient | ToTarget.

(** A turn of one of the two copies: what its source gave, whether with an error, and how
    much of it its destination took, and whether with an error. *)
Record copy_turn := mkTurn {
  ct_dir : direction; ct_data : list byte; ct_err : bool; ct_took : nat; ct_werr : bool }.

(** The bytes written, and whether the copy ends. *)
Definition copy_step (t : copy_turn) : list byte * bool :=
  if decide (0 < length (ct_data t))%nat then (take (ct_took t) (ct_data t), ct_werr t || ct_err t)
  else ([], ct_err t).

Definition deliver (d : direction) (out : list byte) (r : list byte * list byte) : list byte * list byte :=
  match d with ToClient => (out ++ fst r, snd r) | ToTarget => (fst r, out ++ snd r) end.

(** [relay]: the turns of the two copies in the order in which they happen, until one of the
    copies ends: what has reached the client, and the target. The connections are closed
    then. [None]: both go on. *)
Fixpoint relay (turns : list copy_turn) : option (list byte * list byte) :=
  match turns with
  | [] => None
  | t :: turns =>
      let '(out, ended) := copy_step t in
      if ended then Some (deliver (ct_dir t) out ([], []))
      else deliver (ct_dir t) out <$> relay turns
  end.

(** ** Datagrams *)

(** What a client sends: reserved bytes, no fragmentation, target, payload. *)
Definition datagram (t : Target) (port : Z) (payload : list byte) : list byte :=
  [x00; x00; x00] ++ target_bytes t ++ be_put 2 port ++ payload.

Lemma length_datagram t port payload :
  length (datagram t port payload) = (3 + length (target_bytes t) + 2 + length payload)%nat.
Proof. unfold datagram. rewrite !length_app, length_be_put. simpl. lia. Qed.

Lemma from_cursor {E} s off l : cursor s off l → from (E:=E) s off = Ok (mkSlice l (spare s)).
Proof. intros [Hd Hl]. unfold from. rewrite decide_True by lia. by rewrite Hd. Qed.

Lemma from_inv {E} s off r : from (E:=E) s off = Ok r → contents r = drop off (contents s).
Proof. unfold from. case_decide; [|done]. by intros [= <-]. Qed.

(** Reading the fields of a well-formed datagram. *)
Lemma parse_datagram_runs t port payload sp :
  target_ok t → fits 16 port → (10 ≤ length (datagram t port payload))%nat →
  parse_datagram (mkSlice (datagram t port payload) sp) = Ok (target_host t, port, payload).
Proof.
  intros Ht Hp H10. rewrite length_datagram in H10. unfold parse_datagram. cbv zeta.
  set (data := mkSlice _ sp).
  assert (length (contents data) = 3 + length (target_bytes t) + 2 + length payload)%nat as Hl by apply length_datagram.
  assert (cursor data 0 (datagram t port payload)) as Hc by apply cursor_start.
  rewrite Hl. unfold guard_err. rewrite (proj2 (Nat.leb_le 10 _)) by lia.
  assert (cursor data 3 (target_bytes t ++ be_put 2 port ++ payload)) as Hc3.
  { by apply (cursor_app _ _ [x00; x00; x00] _ 3) in Hc. }
  change (at_ data 0) with (Ok x00 : res dgram_error byte). change (at_ data 1) with (Ok x00 : res dgram_error byte).
  change (at_ data 2) with (Ok x00 : res dgram_error byte). cbn [mbind res_bind].
  rewrite !bool_decide_true by done. clear Hc. cbn [mbind res_bind].
  assert (∀ (f : list byte) n, length f = n → ∀ o, cursor data o (f ++ be_put 2 port ++ payload) →
    sub data o (o + n) = Ok f :> res dgram_error _ ∧ uint_at 2 data (o + n) = Ok port :> res dgram_error _ ∧
    from data (o + n + 2) = Ok (mkSlice payload sp) :> res dgram_error _) as Hrest.
  { intros f n Hn o Hco. split_and!.
    - by eapply cursor_sub.
    - apply (cursor_app _ _ f _ n) in Hco; [|done].
      rewrite (cursor_uint _ _ _ _ _ Hco) by apply length_be_put. by rewrite be_get_put_fits.
    - apply (cursor_app _ _ f _ n) in Hco; [|done].
      apply (cursor_app _ _ (be_put 2 port) _ 2) in Hco; [|apply length_be_put]. by rewrite (from_cursor _ _ _ Hco). }
  destruct t as [a|a|d]; cbn [target_ok target_bytes length target_host] in *;
    rewrite (cursor_at _ _ _ _ Hc3); apply cursor_cons in Hc3; cbn [mbind res_bind];
    repeat (rewrite bool_decide_false by done); rewrite bool_decide_true by done.
  - destruct (Hrest a 4%nat Ht _ Hc3) as (E1 & E2 & E3). simpl in E1, E2, E3.
    rewrite E1, E2. cbn [mbind res_bind]. by rewrite E3.
  - rewrite (proj2 (Nat.leb_le 22 _)) by lia.
    destruct (Hrest a 16%nat Ht _ Hc3) as (E1 & E2 & E3). simpl in E1, E2, E3.
    rewrite E1, E2. cbn [mbind res_bind]. by rewrite E3.
  - rewrite (proj2 (Nat.leb_le 7 _)) by lia. change (3 + 1)%nat with 4%nat in Hc3. cbn [app] in Hc3.
    rewrite (cursor_at _ _ _ _ Hc3). apply cursor_cons in Hc3. cbn [mbind res_bind]. change (4 + 1)%nat with 5%nat in Hc3.
    rewrite byte_int_of by done. rewrite (proj2 (Nat.leb_le (5 + length d + 2) _)) by lia.
    destruct (Hrest d _ eq_refl _ Hc3) as (E1 & E2 & E3). rewrite E1, E2. cbn [mbind res_bind]. by rewrite E3.
Qed.

(** What follows the target in a datagram: port and payload. *)
Lemma datagram_tail data o port (pl : Slice) :
  uint_at (E:=dgram_error) 2 data o = Ok port → from (E:=dgram_error) data (o + 2) = Ok pl →
  drop o (contents data) = be_put 2 port ++ contents pl ∧ fits 16 port.
Proof.
  intros Hp Hf. apply uint_at_inv in Hp as [E F]. by rewrite <- (from_inv _ _ _ Hf) in E.
Qed.

(** The bytes of an address read from the datagram. *)
Ltac take_sub o n :=
  match goal with
  | H : sub ?data _ _ = Ok _ |- _ =>
      let E := fresh "E" in let L := fresh "L" in apply (sub_inv data o n) in H as [E L]; [|lia]
  end.

Lemma parse_datagram_inv data h p payload :
  parse_datagram data = Ok (h, p, payload) →
  ∃ t, target_ok t ∧ fits 16 p ∧ contents data = datagram t p payload ∧
    (10 ≤ length (contents data))%nat ∧ h = target_host t.
Proof.
  unfold parse_datagram. cbv zeta. intros H. unfold guard_err in H.
  destruct (Nat.leb_spec 10 (length (contents data))) as [H10|]; [|discriminate H].
  apply res_bind_Ok in H as (b0 & H0 & H). apply res_bind_Ok in H as (b1 & H1 & H).
  case_bool_decide as Hb; [|discriminate H]. destruct Hb as [-> ->].
  apply res_bind_Ok in H as (frag & H2 & H). case_bool_decide as Hb; [|discriminate H]. subst frag.
  apply res_bind_Ok in H as (atyp & H3 & H).
  apply res_bind_Ok in H as ([[h' p'] hl] & Hr & H). apply res_bind_Ok in H as (pl & Hpl & H).
  apply Ok_inj in H. injection H as -> -> <-.
  apply at_inv in H0, H1, H2, H3. rewrite drop_0 in H0. simpl in H0, H1, H2, H3.
  assert (∀ t, target_bytes t ++ be_put 2 p ++ contents pl = atyp :: drop 4 (contents data) →
    contents data = datagram t p (contents pl)) as Hl.
  { intros t E. unfold datagram. rewrite E, <- H3. cbn [app]. by rewrite H0, H1, H2 at 1. }
  clear H0 H1 H2 H3.
  destruct (decide (atyp = addrTypeIPv4)) as [->|]; [|destruct (decide (atyp = addrTypeDomain)) as [->|];
    [|destruct (decide (atyp = addrTypeIPv6)) as [->|]]].
  - rewrite bool_decide_true in Hr by done. res_inv. simplify_eq. take_sub 4%nat 4%nat.
    destruct (datagram_tail data 8 p pl) as [Et F]; [done..|].
    exists (TIPv4 a). split_and!; [done..| |done|done]. apply Hl. cbn. simpl in E, Et. by rewrite E, <- Et.
  - rewrite bool_decide_false, bool_decide_true in Hr by done.
    destruct (Nat.leb_spec 7 (length (contents data))); [|discriminate Hr]. apply res_bind_Ok in Hr as (dl & Hn & Hr).
    destruct (Nat.leb_spec (5 + byte_int dl + 2) (length (contents data))) as [Hlen|]; [|discriminate Hr].
    res_inv. simplify_eq. apply at_inv in Hn. take_sub 5%nat (byte_int dl).
    destruct (datagram_tail data (5 + byte_int dl) p pl) as [Et F]; [done..|].
    exists (TDomain a). split_and!; [|done| |done|done].
    + cbn. rewrite L. unfold byte_int. pose proof (byte_val_fits dl) as B. unfold fits in B. lia.
    + apply Hl. cbn [target_bytes app]. rewrite L, byte_of_int. f_equal. simpl in Hn. rewrite Hn. f_equal.
      simpl in E. rewrite E. f_equal. by rewrite <- Et.
  - do 2 (rewrite bool_decide_false in Hr by done). rewrite bool_decide_true in Hr by done.
    destruct (Nat.leb_spec 22 (length (contents data))) as [Hlen|]; [|discriminate Hr].
    res_inv. simplify_eq. take_sub 4%nat 16%nat.
    destruct (datagram_tail data 20 p pl) as [Et F]; [done..|].
    exists (TIPv6 a). split_and!; [done..| |done|done]. apply Hl. cbn. simpl in E, Et. by rewrite E, <- Et.
  - by do 3 (rewrite bool_decide_false in Hr by done).
Qed.

Lemma parse_datagram_no_panic data : parse_datagram data ≠ Panic.
Proof.
  unfold parse_datagram. cbv zeta. unfold guard_err. set (len := length (contents data)).
  destruct (Nat.leb_spec 10 len) as [H10|]; [|done].
  assert (∀ i, (i < len)%nat → ∃ b, at_ (E:=dgram_error) data i = Ok b) as Hat by (intros; by apply at_ok).
  assert (∀ i, (i + 2 ≤ len)%nat → ∃ z, uint_at (E:=dgram_error) 2 data i = Ok z) as Hu.
  { intros i Hi. destruct (uint_at_ok (E:=dgram_error) 2 data i Hi) as (z & Hz & _). eauto. }
  assert (∀ i, (i ≤ len)%nat → ∃ z, from (E:=dgram_error) data i = Ok z) as Hfr.
  { intros i Hi. unfold from. rewrite decide_True by done. eauto. }
  destruct (Hat 0%nat) as [b0 ->]; [lia|]. destruct (Hat 1%nat) as [b1 ->]; [lia|]. cbn [mbind res_bind].
  case_bool_decide; [|done]. destruct (Hat 2%nat) as [b2 ->]; [lia|]. cbn [mbind res_bind].
  case_bool_decide; [|done]. destruct (Hat 3%nat) as [b3 ->]; [lia|]. cbn [mbind res_bind].
  case_bool_decide; [|case_bool_decide; [|case_bool_decide; [|done]]].
  - rewrite sub_ok by (unfold len in *; lia). destruct (Hu 8%nat) as [z ->]; [lia|]. cbn [mbind res_bind].
    by destruct (Hfr 10%nat) as [? ->]; [lia|].
  - destruct (Nat.leb_spec 7 len); [|done]. destruct (Hat 4%nat) as [b4 ->]; [lia|]. cbn [mbind res_bind].
    destruct (Nat.leb_spec (5 + byte_int b4 + 2) len); [|done].
    rewrite sub_ok by (unfold len in *; lia). destruct (Hu (5 + byte_int b4)%nat) as [z ->]; [lia|]. cbn [mbind res_bind].
    by destruct (Hfr (5 + byte_int b4 + 2)%nat) as [? ->]; [lia|].
  - destruct (Nat.leb_spec 22 len); [|done].
    rewrite sub_ok by (unfold len in *; lia). destruct (Hu 20%nat) as [z ->]; [lia|]. cbn [mbind res_bind].
    by destruct (Hfr 22%nat) as [? ->]; [lia|].
Qed.

(** ** Session numbers *)

Lemma fresh_id_Some fuel used clock i id :
  fresh_id fuel used clock i = Some id → id ≠ 0 ∧ fits 32 id ∧ used !! id = None.
Proof.
  revert i. induction fuel as [|fuel IH]; intros i; [done|]. cbn [fresh_id].
  case_decide as H0; [apply IH|]. destruct (used !! low32 (clock i)) eqn:E; [apply IH|].
  intros [= <-]. split_and!; [done| |done]. unfold low32. rewrite Z.land_ones by lia. by apply (wrap_fits 32).
Qed.

(** All the values tried in vain are zero or in use. *)
Lemma fresh_id_None fuel used clock i :
  fresh_id fuel used clock i = None →
  Forall (λ z, z = 0 ∨ z ∈ dom used) (map (low32 ∘ clock) (seq i fuel)).
Proof.
  revert i. induction fuel as [|fuel IH]; intros i; cbn [fresh_id seq map]; [constructor|].
  case_decide as H0; [intros H; constructor; [by left|by apply IH]|].
  destruct (used !! low32 (clock i)) eqn:E; [|done].
  intros H. constructor; [right; by apply elem_of_dom_2 in E|by apply IH].
Qed.

(** Enough different readings of the clock: more than the numbers in use and zero. *)
Definition enough_readings (fuel : nat) (used : gmap Z (UDPAddr * UDPAddr)) (clock : nat → Z) : Prop :=
  (size used + 1 < size (list_to_set (map (low32 ∘ clock) (seq 0 fuel)) : gset Z))%nat.

Lemma fresh_id_enough fuel used clock :
  enough_readings fuel used clock → ∃ id, fresh_id fuel used clock 0 = Some id.
Proof.
  intros H. destruct (fresh_id fuel used clock 0) as [id|] eqn:E; [eauto|exfalso].
  apply fresh_id_None in E. unfold enough_readings in H.
  assert ((list_to_set (map (low32 ∘ clock) (seq 0 fuel)) : gset Z) ⊆ {[0]} ∪ dom used) as Hsub.
  { intros z Hz. apply elem_of_list_to_set in Hz. rewrite Forall_forall in E. apply E in Hz. set_solver. }
  apply subseteq_size in Hsub. rewrite (size_union_alt {[0]}) in Hsub. rewrite size_singleton in Hsub.
  assert (dom used ∖ {[0]} ⊆ dom used) as Hd%subseteq_size by by apply subseteq_difference_l. rewrite size_dom in Hd. lia.
Qed.

(** Numbers are nonzero 32-bit numbers, and no two of them stand for the same flow. *)
Definition assoc_ok (ua : udpAssociate) : Prop :=
  map_Forall (λ id _, id ≠ 0 ∧ fits 32 id) (ua_sessions ua) ∧
  ∀ i j s s', ua_sessions ua !! i = Some s → ua_sessions ua !! j = Some s' → flow_of s = flow_of s' → i = j.

Lemma getSessionID_spec fuel ua order c t clock :
  assoc_ok ua → order ≡ₚ map_to_list (ua_sessions ua) → enough_readings fuel (ua_sessions ua) clock →
  ∃ ua' id, getSessionID fuel ua order c t clock = Some (ua', id) ∧ assoc_ok ua' ∧
    (∃ s, ua_sessions ua' !! id = Some s ∧ flow_of s = flow_of (c, t)) ∧
    ua_sessions ua ⊆ ua_sessions ua'.
Proof.
  intros [Hid Hinj] Hord Hen. unfold getSessionID. destruct (find _ order) as [[id s]|] eqn:Hf.
  - apply find_some in Hf as [Hin Hb]. apply bool_decide_eq_true in Hb.
    apply list_elem_of_In in Hin. rewrite Hord in Hin. apply elem_of_map_to_list in Hin.
    exists ua, id. split_and!; [done|by split|by exists s|done].
  - assert (∀ id s, ua_sessions ua !! id = Some s → flow_of s ≠ flow_of (c, t)) as Hnew.
    { intros id s Hs Hb. pose proof (find_none _ _ Hf (id, s)) as Hn. cbn in Hn.
      rewrite bool_decide_true in Hn by done. discriminate Hn. apply list_elem_of_In. rewrite Hord.
      by apply elem_of_map_to_list. }
    destruct (fresh_id_enough _ _ _ Hen) as [id E]. rewrite E. cbn [mbind option_bind].
    destruct (fresh_id_Some _ _ _ _ _ E) as (H0 & H32 & Hfree).
    eexists _, id. split; [done|]. cbn [ua_sessions]. split_and!.
    + split; cbn [ua_sessions]; [by apply map_Forall_insert_2|].
      intros i j s s' Hi Hj Hfl. apply lookup_insert_Some in Hi as [[<- <-]|[Hne Hi]], Hj as [[<- <-]|[Hne' Hj]]; [done| | |by eapply Hinj].
      * by destruct (Hnew _ _ Hj).
      * by destruct (Hnew _ _ Hi).
    + exists (c, t). by rewrite lookup_insert_eq.
    + by apply insert_subseteq.
Qed.

(** ** The target of a request as the server sees it *)

(** The target that names an address. *)
Definition ip_target (a : list byte) : Target := if decide (length a = 4%nat) then TIPv4 a else TIPv6 a.

Lemma ip_target_spec a : length a = 4%nat ∨ length a = 16%nat →
  target_ok (ip_target a) ∧ target_host (ip_target a) = IP_String a ∧
  ∃ ip, To16 a = Some ip ∧ ParseIP (IP_String a) = Some ip.
Proof.
  intros Ha. unfold ip_target. split_and!.
  - case_decide; simpl; lia.
  - by case_decide.
  - rewrite ParseIP_String by done. unfold To16. case_decide; [eauto|]. rewrite decide_True by lia. eauto.
Qed.

Lemma resolve_target_ip LookupIP a port :
  length a = 4%nat ∨ length a = 16%nat → fits 16 port →
  ∃ ip, To16 a = Some ip ∧
    resolve_target LookupIP (JoinHostPort (IP_String a) (dec port)) =
    Some (ip, JoinHostPort (IP_String a) (dec port)).
Proof.
  intros Ha Hp. destruct (target_roundtrip a port Ha Hp) as (E & _ & _).
  destruct (ip_target_spec a Ha) as (_ & _ & ip & H16 & Hpi). exists ip. split; [done|].
  unfold resolve_target. by rewrite E, Hpi.
Qed.

(** ** The copy loop *)

(** A source that delivers chunks without error and then, with or without a last chunk,
    its end. *)
Definition stream_reads (chunks : list (list byte)) (last : list byte) : list (list byte * bool) :=
  map (λ c, (c, false)) chunks ++ [(last, true)].

(** A writer that takes everything it is given. *)
Definition takes_all (w : Writer) (n : nat) : Prop := ∀ i, snd (w i) = false ∧ (n ≤ fst (w i))%nat.

Lemma ioCopy_all w chunks last i n :
  takes_all w n → Forall (λ c, (length c ≤ n)%nat) (last :: chunks) →
  ioCopy (stream_reads chunks last) w i =
  Some (Z.of_nat (length (concat chunks ++ last)), false, concat chunks ++ last).
Proof.
  intros Hw [Hl Hc]%Forall_cons. unfold stream_reads. revert i. induction Hc as [|c chunks Hn Hc IH]; intros i.
  - cbn. destruct (w i) as [nw we] eqn:E. destruct (Hw i) as [He Hfit]. rewrite E in He, Hfit. simpl in He, Hfit.
    case_decide; [subst we|by destruct last; simpl in *; [|lia]].
    rewrite Nat.min_r by lia. by rewrite firstn_all.
  - cbn [map app ioCopy]. destruct (w i) as [nw we] eqn:E. destruct (Hw i) as [He Hfit]. rewrite E in He, Hfit. simpl in He, Hfit.
    case_decide as Hpos; [|destruct c; simpl in *; [apply IH|lia]]. subst we.
    rewrite IH. cbn [mbind option_bind]. rewrite Nat.min_r, firstn_all by lia.
    cbn [concat]. rewrite <- app_assoc, (length_app c), Nat2Z.inj_add. done.
Qed.

(** ** The two copies *)

(** Nothing is copied after one of the sources has ended: when a client closes its sending side,
    what the target answers afterwards is lost. *)
Lemma relay_stops turns t rest :
  snd (copy_step t) = true → relay (turns ++ t :: rest) = relay (turns ++ [t]).
Proof.
  intros Ht. induction turns as [|u turns IH]; cbn [relay app].
  - destruct (copy_step t) as [out []]; done.
  - destruct (copy_step u) as [out ended]. by rewrite IH.
Qed.

(** The turns of a copy to the target whose reads are not empty. *)
Fixpoint one_way (w : Writer) (i : nat) (reads : list (list byte * bool)) : list copy_turn :=
  match reads with
  | [] => []
  | r :: reads => mkTurn ToTarget (fst r) (snd r) (fst (w i)) (snd (w i)) :: one_way w (S i) reads
  end.

Lemma take_min {A} n (l : list A) : take (Nat.min n (length l)) l = take n l.
Proof.
  destruct (Nat.le_ge_cases n (length l)); [by rewrite Nat.min_l|]. rewrite Nat.min_r by done. by rewrite !take_ge.
Qed.

(** One direction alone is a run of [ioCopy]. *)
Lemma relay_one_way w reads i :
  Forall (λ r, fst r ≠ [] ∨ snd r = true) reads →
  relay (one_way w i reads) = (λ r, ([], snd r)) <$> ioCopy reads w i.
Proof.
  revert i. induction reads as [|[data err] reads IH]; intros i Hr; [done|].
  apply Forall_cons in Hr as [H Hr]. cbn [one_way relay ioCopy fst snd]. unfold copy_step.
  cbn [ct_data ct_took ct_werr ct_err ct_dir].
  destruct (decide (0 < length data)%nat) as [Hl|Hl].
  - destruct (w i) as [nw we]. cbn [fst snd]. destruct we; cbn [orb]; [cbn; by rewrite take_min, app_nil_r|].
    destruct err; [cbn; by rewrite take_min, app_nil_r|]. rewrite IH by done.
    destruct (ioCopy _ w (S i)) as [[[total e] out]|]; cbn; [|done]. by rewrite take_min.
  - destruct err; [done|]. destruct H as [H|H]; [|done]. cbn in H.
    destruct data; [done|cbn in Hl; lia].
Qed.

(** ** Properties *)

(** C30: which datagrams of a client are accepted, and how they are understood: exactly
    those of ten bytes or more with a zero header, one of the three kinds of targets and a
    port; what follows the port is the payload, untouched. No datagram makes the server
    panic. *)
Theorem datagram_exact data h port payload :
  (parse_datagram data = Ok (h, port, payload) ↔
   ∃ t, target_ok t ∧ fits 16 port ∧ contents data = datagram t port payload ∧
     (10 ≤ length (contents data))%nat ∧ h = target_host t) ∧
  parse_datagram data ≠ Panic.
Proof.
  split; [split|apply parse_datagram_no_panic].
  - apply parse_datagram_inv.
  - intros (t & Ht & Hp & E & H10 & ->). destruct data as [l sp]. cbn in E, H10. subst l.
    by apply parse_datagram_runs.
Qed.

(** C28: the search for a session number ends: once the clock has shown more different
    values than there are sessions and zero, a number is found. A flow that has one keeps
    it, no two flows share one, and no number is ever taken away. *)
Theorem session_number_found fuel ua order c t clock :
  assoc_ok ua → order ≡ₚ map_to_list (ua_sessions ua) → enough_readings fuel (ua_sessions ua) clock →
  ∃ ua' id, getSessionID fuel ua order c t clock = Some (ua', id) ∧ assoc_ok ua' ∧
    (∃ s, ua_sessions ua' !! id = Some s ∧ flow_of s = flow_of (c, t)) ∧
    ua_sessions ua ⊆ ua_sessions ua'.
Proof. apply getSessionID_spec. Qed.

Definition loopback (port : Z) : UDPAddr := mkUDPAddr [x7f; x00; x00; x01] port.

Definition example_ua : udpAssociate := mkUdpAssociate None {[ 7 := (loopback 1, loopback 2) ]}.

Lemma session_number_found_witness :
  ∃ ua' id,
    getSessionID 3 example_ua [(7, (loopback 1, loopback 2))] (loopback 1) (loopback 3)
      (λ i, 7 + Z.of_nat i) = Some (ua', id) ∧ assoc_ok ua' ∧
    (∃ s, ua_sessions ua' !! id = Some s ∧ flow_of s = flow_of (loopback 1, loopback 3)) ∧
    ua_sessions example_ua ⊆ ua_sessions ua'.
Proof.
  apply (session_number_found 3 example_ua [(7, (loopback 1, loopback 2))] (loopback 1) (loopback 3)
    (λ i, 7 + Z.of_nat i)).
  - split; cbn [ua_sessions example_ua].
    + intros i s Hi. apply lookup_singleton_Some in Hi as [<- _]. unfold fits. lia.
    + intros i j s s' Hi Hj _. apply lookup_singleton_Some in Hi as [<- _], Hj as [<- _]. done.
  - cbn [ua_sessions example_ua]. by rewrite map_to_list_singleton.
  - unfold enough_readings. vm_compute. lia.
Defined.

(** The reply of the protocol with no address, and what a client is owed: its connection is
    relayed, or it is told that there is no route (3) or that the dial failed (4). *)
Definition reply (rep : byte) : list byte := [x05; rep; x00; x01] ++ replicate 6 x00.

Definition owed (dialTCP : string → bool) (dialPeer : NodeID → string → bool) (target : string)
    (route : option Route) (out : list seffect) : Prop :=
  match route with
  | None => out = [SWrite (reply x03)]
  | Some r =>
      ∃ dial (ok : bool),
        out = dial :: (if ok then [SWrite (reply x00); SRelay] else [SWrite (reply x04)]) ∧
        (NextHop r = zeroID → dial = SDialTCP target ∧ ok = dialTCP target) ∧
        (NextHop r ≠ zeroID → dial = SDialPeer (NextHop r) target ∧ ok = dialPeer (NextHop r) target)
  end.

Lemma serve_owed s dt dp target route :
  dialTCPFunc s = Some dt → dialPeerFunc s = Some dp → owed dt dp target route (serve s route target).
Proof.
  intros Ht Hp. unfold serve, owed. rewrite Ht, Hp. destruct route as [r|]; [|reflexivity].
  unfold IsZero. destruct (bool_decide_reflect (NextHop r = zeroID)).
  - exists (SDialTCP target), (dt target). split; [by destruct (dt target)|]. by split.
  - exists (SDialPeer (NextHop r) target), (dp (NextHop r) target). split; [by destruct (dp _ _)|]. by split.
Qed.

(** A request to connect to an address is served with the result of the look-up. *)
Lemma connect_serves LookupIP s order listen methods rsv a port rest :
  length a = 4%nat ∨ length a = 16%nat → handshake_ok methods cmdConnect (ip_target a) port →
  ∃ ip, To16 a = Some ip ∧
    handleConnection LookupIP s order true listen
      (handshake_bytes methods cmdConnect rsv (ip_target a) port ++ rest) =
    (None, SWrite [socks5Version; authNone] ::
       serve s (Lookup (srv_routes s) order ip) (JoinHostPort (IP_String a) (dec port))).
Proof.
  intros Ha Hok. destruct (resolve_target_ip LookupIP a port Ha) as (ip & H16 & Hr); [apply Hok|].
  exists ip. split; [done|]. unfold handleConnection. rewrite handshake_runs by done.
  cbn [s_out app Cmd req_TargetAddr]. rewrite bool_decide_false by done.
  destruct (ip_target_spec a Ha) as (_ & -> & _). by rewrite Hr.
Qed.

(** What a request asks for: the address to look up and the text to dial. A name that is no address is resolved, and
    it is the first address found that is dialled. [None]: there is no such address. *)
Definition asked (LookupIP : string → list (list byte)) (t : Target) (port : Z) : option (list byte * string) :=
  let literal := λ host ip, (ip, JoinHostPort host (dec port)) in
  match t with
  | TIPv4 a | TIPv6 a => literal (IP_String a) <$> To16 a
  | TDomain d =>
      match ParseIP (string_of d) with
      | Some ip => Some (literal (string_of d) ip)
      | None => (λ ip, literal (IP_String ip) ip) <$> head (LookupIP (string_of d))
      end
  end.

(** A name without brackets, which [SplitHostPort] would take for its own. *)
Definition nameable (t : Target) : Prop :=
  match t with TDomain d => has "["%char (string_of d) = false ∧ has "]"%char (string_of d) = false | _ => True end.

Lemma resolve_target_asked LookupIP t port :
  target_ok t → nameable t → fits 16 port →
  resolve_target LookupIP (JoinHostPort (target_host t) (dec port)) = asked LookupIP t port.
Proof.
  intros Ht Hn Hp. assert (∀ a, length a = 4%nat ∨ length a = 16%nat →
    resolve_target LookupIP (JoinHostPort (IP_String a) (dec port)) =
    (λ ip, (ip, JoinHostPort (IP_String a) (dec port))) <$> To16 a) as Hip.
  { intros a Ha. by destruct (resolve_target_ip LookupIP a port Ha Hp) as (ip & -> & ->). }
  destruct t as [a|a|d]; cbn [target_ok target_host asked] in *; [by apply Hip; left|by apply Hip; right|].
  destruct Hn as [H1 H2]. destruct (plain_has (dec port)) as (P0 & P1 & P2 & _); [apply plain_dec; apply Hp|].
  unfold resolve_target. rewrite SplitHostPort_JoinHostPort by done. by destruct (ParseIP _).
Qed.

(** C14: a client that asks to be connected is served as the specification of look-ups says. The target is an
    address or a name without brackets; a name that is no address is resolved, and what is looked up and
    dialled is then the first address found. The text of this address (or of the address requested) and the port is
    dialled directly when the network is attached, else through the next hop of a best route, and the reply
    tells whether the dial succeeded or that there is no route; default routes are left aside, as in
    [RouteSelect.Lookup_correct]. When the name cannot be resolved the client gets no reply at all. What it
    sends after its request is not looked at. *)
Theorem connect_served LookupIP s dt dp order listen methods rsv t port rest :
  dialTCPFunc s = Some dt → dialPeerFunc s = Some dp → enumerates order (srv_routes s) →
  handshake_ok methods cmdConnect t port → nameable t →
  ∃ out,
    handleConnection LookupIP s order true listen (handshake_bytes methods cmdConnect rsv t port ++ rest) =
      (None, SWrite [socks5Version; authNone] :: out) ∧
    match asked LookupIP t port with
    | Some (ip, target) =>
        ∃ route, lookup_spec (without_defaults (srv_routes s)) ip route ∧ owed dt dp target route out
    | None => out = []
    end.
Proof.
  intros Ht Hp Hord Hok Hn. unfold handleConnection. rewrite handshake_runs by done.
  cbn [s_out app Cmd req_TargetAddr]. rewrite bool_decide_false by done.
  rewrite resolve_target_asked by (done || apply Hok). destruct (asked LookupIP t port) as [[ip target]|].
  - eexists. split; [reflexivity|]. eexists. split; [by apply Lookup_meets_spec|by apply serve_owed].
  - exists []. by split.
Qed.

(** A server at a node with one route, to 10.1.0.0/16 by a peer. *)
Definition example_server : Server :=
  SetDialPeer (SetDialTCP (NewServer "127.0.0.1:1080" example_table RouteTable.node_a) (λ _, true)) (λ _ _, true).

(** A request for the name [a], which has the address 10.1.2.3. *)
Lemma connect_served_witness :
  ∃ out,
    handleConnection (λ _, [[x0a; x01; x02; x03]]) example_server (map_to_list (routes example_table)) true None
      (handshake_bytes [authNone] cmdConnect x00 (TDomain [x61]) 80 ++ [x47; x45; x54]) =
    (None, SWrite [socks5Version; authNone] :: out) ∧
    ∃ route, lookup_spec (without_defaults example_table) [x0a; x01; x02; x03] route ∧
      owed (λ _, true) (λ _ _, true) "10.1.2.3:80" route out.
Proof.
  destruct (connect_served (λ _, [[x0a; x01; x02; x03]]) example_server (λ _, true) (λ _ _, true)
    (map_to_list (routes example_table)) None [authNone] x00 (TDomain [x61]) 80 [x47; x45; x54]) as (out & H1 & H2).
  - reflexivity.
  - reflexivity.
  - unfold enumerates. reflexivity.
  - split_and!; [simpl; lia|left|by left|cbn; lia|unfold fits; lia..].
  - by split.
  - exists out. split; [exact H1|exact H2].
Defined.

(** The copy loop ends when its source does, having written exactly the bytes the
    source delivered, those that came with the end included, and counted them. *)
Lemma ioCopy_complete w chunks last i n :
  takes_all w n → Forall (λ c, (length c ≤ n)%nat) (last :: chunks) →
  ioCopy (stream_reads chunks last) w i =
  Some (Z.of_nat (length (concat chunks ++ last)), false, concat chunks ++ last).
Proof. apply ioCopy_all. Qed.

Lemma ioCopy_complete_witness :
  ioCopy (stream_reads [[x41; x42]; []; [x43]] [x44]) (λ _, (100%nat, false)) 0 =
  Some (4, false, [x41; x42; x43; x44]).
Proof.
  apply (ioCopy_complete (λ _, (100%nat, false)) [[x41; x42]; []; [x43]] [x44] 0 100).
  - intros i. split; [reflexivity|simpl; lia].
  - repeat constructor; apply Nat.leb_le; reflexivity.
Defined.
