(* ===== verification/TCPRelay.v ===== *)
(** * TCP through a peer ([forward/tcp_relay.go], and the callbacks of [node/node.go])

    The entry node opens a stream to the next hop and writes a header with the target; the
    node at the other end reads the header and dials the target. Streams are those of
    [Conn]; what follows the header is copied between the stream and the socket. *)

From S2P Require Import Prelude Bytes Net NetText Crypto Wire WireForward Frame Conn SocksServer.
From stdpp Require Import options.

Inductive relay_error :=
| ErrDialStream (e : option conn_error) | ErrParseTarget | ErrTargetIP | ErrTargetPort
| ErrStream (e : conn_error) | ErrHeader (e : wire_error) | ErrDialTarget | ErrWriteRemaining.

#[export] Instance relay_error_eq_dec : EqDecision relay_error.
Proof. solve_decision. Defined.

(** The callback given to [NewTCPRelay]: the connection of the peer, if there is one. *)
Definition dialStream (peer : option Conn) : option Conn * res relay_error nat :=
  match peer with
  | None => (None, Err (ErrDialStream None))
  | Some c =>
      match OpenStream c with
      | (c, Ok r) => (Some c, Ok r)
      | (c, Err e) => (Some c, Err (ErrDialStream (Some e)))
      | (c, Panic) => (Some c, Panic)
      end
  end.

Definition StreamID_of (c : Conn) (r : nat) : Z := default 0 (s_id <$> store c !! r).

Definition forward_header (c : Conn) (r : nat) (ip : list byte) (port : Z) : list byte :=
  EncodeTCPForwardHeader (mkTCPForwardHeader TCPFlagNewStream (StreamID_of c r) ip port).

(** [stream.Close()]: the connection and the frame it sends. *)
Definition close_stream (c : Conn) (r : nat) (close_ok : bool) : Conn * list Frame :=
  let '(c, f, _) := Stream_Close c (Some r) close_ok in (c, option_list f).

(** The connection afterwards, the frames sent, and the stream that is spliced with the
    local connection. On an error the stream is closed again. [write_ok], [close_ok]:
    whether the connection takes the header, and the mark that closes the stream. *)
Definition RelayToPeer (peer : option Conn) (targetAddr : string) (write_ok close_ok : bool)
    : option Conn * list Frame * res relay_error nat :=
  match dialStream peer with
  | (Some c, Ok r) =>
      let stop e := let '(c, fs) := close_stream c r close_ok in (Some c, fs, Err e) in
      match SplitHostPort targetAddr with
      | Ok (host, port) =>
          match ParseIP host with
          | None => stop ErrTargetIP
          | Some ip =>
              match scan_uint16 port with
              | None => stop ErrTargetPort
              | Some portNum =>
                  match Stream_Write c (Some r) (forward_header c r ip portNum) write_ok with
                  | (f, Ok _) => (Some c, option_list f, Ok r)
                  | (f, Err e) => stop (ErrStream e)
                  | (f, Panic) => (Some c, [], Panic)
                  end
              end
          end
      | _ => stop ErrParseTarget
      end
  | (c, Ok r) => (c, [], Panic)
  | (c, Err e) => (c, [], Err e)
  | (c, Panic) => (c, [], Panic)
  end.

(** The SOCKS5 server's callback: as above, but what cannot be parsed is sent as zero. *)
Definition dialPeer (peer : option Conn) (target : string) (write_ok close_ok : bool)
    : option Conn * list Frame * res relay_error nat :=
  match dialStream peer with
  | (Some c, Ok r) =>
      let '(host, portStr) := match SplitHostPort target with Ok hp => hp | _ => ("", "") end in
      let ip := default [] (ParseIP host) in
      let port := default 0 (scan_uint16 portStr) in
      match Stream_Write c (Some r) (forward_header c r ip port) write_ok with
      | (f, Ok _) => (Some c, option_list f, Ok r)
      | (f, Err e) =>
          let '(c, fs) := close_stream c r close_ok in (Some c, fs, Err (ErrStream e))
      | (f, Panic) => (Some c, [], Panic)
      end
  | (c, Ok r) => (c, [], Panic)
  | (c, Err e) => (c, [], Err e)
  | (c, Panic) => (c, [], Panic)
  end.

Definition relayBuffer : nat := 32 * 1024.

(** What the exit node does before the splice: the target it dials, and the bytes it
    writes to it first. *)
Record Exit := mkExit { ex_target : string; ex_first : list byte }.

(** [None]: the stream has nothing to read yet. [rest] is what the buffer holds after the
    bytes read; [dial_ok] the outcome of the dial, [write_ok] of the first write. *)
Definition HandleIncomingRelay (c : Conn) (stream : nat) (rest : list byte) (dial_ok : string → bool)
    (write_ok : bool) : option (Conn * res relay_error Exit) :=
  '(c, r) ← Stream_Read c (Some stream) relayBuffer;
  Some (c,
    match r with
    | Ok data =>
        match DecodeTCPForwardHeader (mkSlice data rest) with
        | Ok (hdr, consumed) =>
            let targetAddr := JoinHostPort (IP_String (tf_TargetAddr hdr)) (dec (tf_TargetPort hdr)) in
            if dial_ok targetAddr then
              if (consumed <? length data)%nat && negb write_ok then Err ErrWriteRemaining
              else Ok (mkExit targetAddr (drop consumed data))
            else Err ErrDialTarget
        | Err e => Err (ErrHeader e)
        | Panic => Panic
        end
    | Err e => Err (ErrStream e)
    | Panic => Panic
    end).

(** One turn of [handleIncomingStreams]: a stream is accepted and relayed. *)
Definition incoming_stream (c : Conn) (pick_done : bool) (rest : list byte) (dial_ok : string → bool)
    (write_ok : bool) : option (Conn * res relay_error Exit) :=
  '(c, r) ← AcceptStream c pick_done;
  match r with
  | Ok s => HandleIncomingRelay c s rest dial_ok write_ok
  | Err e => Some (c, Err (ErrStream e))
  | Panic => Some (c, Panic)
  end.

(** [splice] copies as [relay] does; [io.Copy] takes a short write for an error. *)
Definition splice (turns : list copy_turn) : option (list byte * list byte) :=
  relay (map (λ t, mkTurn (ct_dir t) (ct_data t) (ct_err t) (ct_took t)
                     (ct_werr t || (ct_took t <? length (ct_data t))%nat)) turns).

(** ** Lemmas *)

(** A stream that has just been opened. *)
Lemma OpenStream_Ok c c' r :
  conn_ok c → OpenStream c = (c', Ok r) →
  ∃ id, fits 32 id ∧ Z.odd id = true ∧ store c' !! r = Some (mkStream id [] streamCap [] false).
Proof.
  intros Hok. unfold OpenStream. destruct (closed c); [done|].
  destruct (open_loop_spec 1000 c Hok) as [(k & c0 & _ & _ & _ & _ & E0 & ->)|(_ & _ & _ & E)].
  - intros [= <- <-]. exists (attempt_id (nextID c) k). split_and!.
    + by apply (wrap_fits 32).
    + apply odd_wrap_2, Hok.
    + rewrite E0. cbn. apply lookup_insert_eq.
  - destruct (open_loop 1000 c) as [c1 r1]. cbn in E. subst. by intros [=].
Qed.

Lemma header_fits c r ip port : Z.of_nat (length (forward_header c r ip port)) <= maxFrameSize.
Proof.
  unfold forward_header. rewrite length_EncodeTCPForwardHeader. cbn [tf_TargetAddr].
  unfold maxFrameSize. destruct (addr_len_cases ip) as [-> | ->]; lia.
Qed.

Lemma write_header c r s ip port :
  store c !! r = Some s → s_closed s = false →
  Stream_Write c (Some r) (forward_header c r ip port) true =
  (Some (mkFrame FrameData (s_id s) (Some (forward_header c r ip port))), Ok (length (forward_header c r ip port))).
Proof.
  intros Hs Hc. unfold Stream_Write. cbn [mbind option_bind]. rewrite Hs, Hc.
  rewrite (proj2 (Z.ltb_ge maxFrameSize _)); [done|apply header_fits].
Qed.

(** The text of an address survives the header. *)
Lemma IP_String_addr_bytes ip :
  length ip = 4%nat ∨ length ip = 16%nat → IP_String (addr_bytes ip) = IP_String ip.
Proof.
  intros Hl. pose proof (To4_cases ip Hl) as H. destruct (To4 ip) as [ip4|] eqn:E.
  - destruct H as [H4 _]. rewrite (addr_bytes_To4 _ _ E). rewrite !IP_String_cases by auto.
    by rewrite E, To4_short.
  - destruct H as [H _]. by rewrite addr_bytes_v6.
Qed.

(** What the exit makes of a header, whatever follows it in the same read. *)
Lemma exit_header c r c' id ip port payload rest dial_ok :
  fits 32 id → fits 16 port → length ip = 4%nat ∨ length ip = 16%nat →
  Stream_Read c (Some r) relayBuffer =
    Some (c', Ok (EncodeTCPForwardHeader (mkTCPForwardHeader TCPFlagNewStream id ip port) ++ payload)) →
  HandleIncomingRelay c r rest dial_ok true =
  Some (c', if dial_ok (JoinHostPort (IP_String ip) (dec port))
            then Ok (mkExit (JoinHostPort (IP_String ip) (dec port)) payload) else Err ErrDialTarget).
Proof.
  intros Hid Hp Ha Hr. unfold HandleIncomingRelay. rewrite Hr. cbn [mbind option_bind].
  rewrite decode_encode_tcp by done. cbn [tf_TargetAddr tf_TargetPort].
  rewrite IP_String_addr_bytes by done. rewrite andb_false_r, drop_app_length. done.
Qed.

(** The frame [f] arrives on a connection that is reading: the three steps of the read loop
    that enter its stream, queue it for acceptance and deliver the payload. *)
Definition receive (c : Conn) (f : Frame) : Sys :=
  fst (run (mkSys c Reading) [OpLoop (Ok f) false; OpLoop (Err EOF) false; OpLoop (Err EOF) false]).

Lemma receive_new c f :
  conn_ok c → closed c = false → acceptCh c = [] → Type_ f = FrameData →
  streams c !! StreamID f = None →
  ∃ c', receive c f = mkSys c' Reading ∧ closed c' = false ∧ acceptCh c' = [next_ref c] ∧
    store c' !! next_ref c = Some (mkStream (StreamID f) [Payload f] streamCap [] false).
Proof.
  intros Hok Hc Ha Ht Hs. unfold receive. cbn [run sys_step loop_step sys_conn sys_loop]. rewrite Hs.
  cbn [run sys_step loop_step sys_conn sys_loop add_stream acceptCh closed]. rewrite Ha, Hc.
  rewrite decide_True by (unfold acceptCap; simpl; lia). cbn [andb]. unfold dispatch. rewrite Ht.
  change (bool_decide (FrameData = FrameClose)) with false. cbv iota.
  cbn [run sys_step loop_step sys_conn sys_loop set_acceptCh add_stream store closed next_ref]. rewrite lookup_insert_eq.
  cbn [mbind option_bind readCh s_cap]. rewrite decide_True by (unfold streamCap; simpl; lia).
  rewrite Hc. cbn [andb fst]. eexists. split; [done|]. cbn. by rewrite lookup_insert_eq.
Qed.

Lemma read_one c r id data n :
  store c !! r = Some (mkStream id [Some data] streamCap [] false) → (length data ≤ n)%nat →
  ∃ c', Stream_Read c (Some r) n = Some (c', Ok data).
Proof.
  intros Hs Hn. unfold Stream_Read. cbn [mbind option_bind]. rewrite Hs. cbn [fmap option_fmap option_map buf length].
  rewrite decide_False by lia. cbn [readCh]. rewrite take_ge by done. eauto.
Qed.

(** ** Properties *)

(** The other end of the tunnel dials exactly the target the client asked for. When the
    entry node opens a stream for the printed form of an address and a port, it sends one
    frame; whatever follows on the wire, the exit node reads this frame back, accepts the
    stream it opens, and dials the same text, with nothing to write to it first. *)
Lemma tunnel_target entry entry' exit r a port rest dial_ok close_ok :
  conn_ok entry → conn_ok exit → closed exit = false → acceptCh exit = [] →
  length a = 4%nat ∨ length a = 16%nat → fits 16 port →
  OpenStream entry = (entry', Ok r) → streams exit !! StreamID_of entry' r = None →
  let target := JoinHostPort (IP_String a) (dec port) in
  dial_ok target = true →
  ∃ f exit1 exit2,
    dialPeer (Some entry) target true close_ok = (Some entry', [f], Ok r) ∧
    (∀ tail, ReadFrame (frame_bytes f ++ tail) = Ok (f, tail)) ∧
    receive exit f = mkSys exit1 Reading ∧
    incoming_stream exit1 false rest dial_ok true = Some (exit2, Ok (mkExit target [])).
Proof.
  intros Hok Hok' Hcl Hacc Ha Hp Ho Hs target Hd.
  destruct (OpenStream_Ok _ _ _ Hok Ho) as (id & Hid & _ & Hst).
  assert (StreamID_of entry' r = id) as Eid by (unfold StreamID_of; by rewrite Hst).
  rewrite Eid in Hs.
  destruct (target_roundtrip a port Ha Hp) as (Esp & Epi & Esc).
  assert (∃ ip, To16 a = Some ip ∧ length ip = 16%nat) as (ip & E16 & Hl16).
  { unfold To16. destruct Ha as [Ha|Ha]; rewrite Ha; simpl; [eexists; split; [done|]|by exists a].
    rewrite length_IPv4. lia. }
  set (hdr := forward_header entry' r ip port).
  set (f := mkFrame FrameData id (Some hdr)).
  assert (0 < length hdr)%nat as Hpos.
  { unfold hdr, forward_header. rewrite length_EncodeTCPForwardHeader. lia. }
  destruct (receive_new exit f) as (exit1 & Er & Hc1 & Ha1 & Hs1); [done..|].
  destruct (read_one (set_acceptCh exit1 []) (next_ref exit) id hdr relayBuffer) as [exit2 Hread]; [done| |].
  { unfold hdr, forward_header. rewrite length_EncodeTCPForwardHeader. unfold relayBuffer.
    cbn [tf_TargetAddr]. destruct (addr_len_cases ip) as [-> | ->]; apply Nat.leb_le; by vm_compute. }
  exists f, exit1, exit2. split_and!.
  - unfold dialPeer, dialStream. rewrite Ho. unfold target. rewrite Esp. cbv zeta. rewrite Epi, E16, Esc.
    change (default [] (Some ip)) with ip. change (default 0 (Some port)) with port.
    by rewrite (write_header _ _ _ ip port Hst).
  - intros tail. rewrite read_frame_bytes.
    + unfold frame_norm. by rewrite decide_False by done.
    + split; [done|]. apply header_fits.
  - done.
  - unfold incoming_stream, AcceptStream. rewrite Ha1, Hc1. cbn [andb mbind option_bind].
    rewrite <- (app_nil_r hdr) in Hread. unfold hdr, forward_header in Hread. rewrite Eid in Hread.
    rewrite (exit_header _ _ exit2 id ip port [] rest dial_ok) by auto.
    rewrite (IP_String_To16 _ _ E16). fold target. by rewrite Hd.
Qed.

Lemma tunnel_target_witness :
  ∃ f exit1 exit2,
    dialPeer (Some newConn) "10.1.2.3:80" true true = (Some (fst (OpenStream newConn)), [f], Ok 1%nat) ∧
    (∀ tail, ReadFrame (frame_bytes f ++ tail) = Ok (f, tail)) ∧
    receive newConn f = mkSys exit1 Reading ∧
    incoming_stream exit1 false [] (λ _, true) true = Some (exit2, Ok (mkExit "10.1.2.3:80" [])).
Proof.
  apply (tunnel_target newConn (fst (OpenStream newConn)) newConn 1 [x0a; x01; x02; x03] 80 [] (λ _, true) true).
  - exact newConn_ok.
  - exact newConn_ok.
  - reflexivity.
  - reflexivity.
  - left. reflexivity.
  - unfold fits. lia.
  - vm_compute. reflexivity.
  - vm_compute. reflexivity.
  - reflexivity.
Defined.

(** The entry node gives up a relay for exactly these reasons, and then has sent nothing
    but the mark that closes the stream again: there is no connection or stream, the target
    is not the text of an address and a port, or the connection does not take the header.
    In every other case it has sent exactly one frame, the header. *)
Lemma RelayToPeer_cases c target close_ok write_ok :
  conn_ok c →
  let '(c', fs, r) := RelayToPeer (Some c) target write_ok close_ok in
  match r with
  | Ok s =>
      write_ok = true ∧ OpenStream c = (default c c', Ok s) ∧
      ∃ host port ip p, SplitHostPort target = Ok (host, port) ∧ ParseIP host = Some ip ∧
        scan_uint16 port = Some p ∧
        fs = [mkFrame FrameData (StreamID_of (default c c') s) (Some (forward_header (default c c') s ip p))]
  | Err e => (∃ e', e = ErrDialStream (Some e')) ∧ fs = [] ∨
      fs = if close_ok then [mkFrame FrameClose (StreamID_of (default c c') (next_ref c)) None] else []
  | Panic => False
  end.
Proof.
  intros Hok. unfold RelayToPeer, dialStream.
  destruct (OpenStream c) as [c1 [r|e|]] eqn:Ho; [|left; split; [by eexists|done]|].
  2: { unfold OpenStream in Ho. destruct (closed c); [done|].
       destruct (open_loop_spec 1000 c Hok) as [(k & c0 & _ & _ & _ & _ & _ & E)|(_ & _ & _ & E)];
         rewrite Ho in E; discriminate E. }
  pose proof (OpenStream_Ok _ _ _ Hok Ho) as (id & _ & _ & Hst).
  assert (r = next_ref c) as Hr.
  { unfold OpenStream in Ho. destruct (closed c); [done|].
    destruct (open_loop_spec 1000 c Hok) as [(k & c0 & _ & _ & _ & _ & _ & E)|(_ & _ & _ & E)];
      rewrite Ho in E; [by injection E|discriminate E]. }
  assert (let '(c2, fs) := close_stream c1 r close_ok in
    fs = if close_ok then [mkFrame FrameClose (StreamID_of c2 r) None] else []) as Hclose.
  { unfold close_stream, Stream_Close. cbn [mbind option_bind]. rewrite Hst. cbn.
    destruct close_ok; cbn; [|done]. unfold StreamID_of. cbn. by rewrite lookup_insert_eq. }
  destruct (close_stream c1 r close_ok) as [c2 fs] eqn:Ec. rewrite Hr in Hclose.
  destruct (SplitHostPort target) as [[host port]| |] eqn:Hsp; [|by right..].
  destruct (ParseIP host) as [ip|] eqn:Hip; [|by right].
  destruct (scan_uint16 port) as [p|] eqn:Hp; [|by right].
  destruct write_ok.
  - rewrite (write_header _ _ _ ip p Hst) by done. split_and!; [done..|].
    exists host, port, ip, p. split_and!; [done..|]. cbn. unfold StreamID_of. by rewrite Hst.
  - unfold Stream_Write. cbn [mbind option_bind]. rewrite Hst. cbn [s_closed].
    rewrite (proj2 (Z.ltb_ge maxFrameSize _)) by apply header_fits. by right.
Qed.

Lemma RelayToPeer_cases_witness :
  let '(c', fs, r) := RelayToPeer (Some newConn) "example.org:80" true true in
  r = Err ErrTargetIP ∧
  match r with
  | Ok _ => False
  | Err e => (∃ e', e = ErrDialStream (Some e')) ∧ fs = [] ∨
      fs = [mkFrame FrameClose (StreamID_of (default newConn c') (next_ref newConn)) None]
  | Panic => False
  end.
Proof.
  pose proof (RelayToPeer_cases newConn "example.org:80" true true newConn_ok) as H.
  vm_compute. split; [reflexivity|]. right. reflexivity.
Defined.
