(* ===== verification/EndToEnd.v ===== *)
(** * From the client of one node to the target of another

    The SOCKS5 server of the entry node ([SocksServer]), the dial callback and the tunnel
    ([TCPRelay]) and the connection between the two nodes ([Conn], [Frame]) put together. *)

From S2P Require Import Prelude Bytes Net NetText Identity Crypto Wire RoutePath RouteTable RouteSelect.
From S2P Require Import Frame Conn Socks5 SocksServer TCPRelay.
From stdpp Require Import options.

(** The callback [SetDialPeer] as the server sees it: [conns] are the connections of the
    node, and the answer is whether the dial succeeds. *)
Definition node_dials (conns : NodeID → option Conn) (write_ok close_ok : bool) (peerID : NodeID)
    (target : string) : bool :=
  match snd (dialPeer (conns peerID) target write_ok close_ok) with Ok _ => true | _ => false end.

(** An exit node at the other end of a connection, as it is before the tunnel: connected, with no
    stream waiting and none of the identifier that is opened. *)
Record exit_ready (exit : Conn) (id : Z) : Prop := {
  exit_ok : conn_ok exit;
  exit_open : closed exit = false;
  exit_idle : acceptCh exit = [];
  exit_free : streams exit !! id = None }.

(** C10: a connect request for an address behind a peer reaches that peer and is dialled there. The client of the
    entry node asks for an IPv4 or IPv6 address and a port, and the best route for it leads to a next hop. Assume that the entry
    node has a connection to the next hop on which it can open a stream and all its writes succeed, and that at the
    next hop this connection is open, nothing waits to be accepted and the identifier of the new stream is not in use. Then the entry
    node opens that stream, sends one frame on it, tells the client of its success and starts to relay; the next hop reads the
    frame back from the wire, whatever follows it, accepts the stream, and, its own dial succeeding, dials exactly the
    address and port requested, with nothing to write to it first. (The next hop is the exit: it dials, it does not relay
    further.) *)
Theorem client_reaches_target LookupIP s order listen methods rsv a port rest ip rt conns entry entry' n exit
    buf_rest dial_ok close_ok :
  length a = 4%nat ∨ length a = 16%nat → To16 a = Some ip →
  handshake_ok methods cmdConnect (ip_target a) port →
  Lookup (srv_routes s) order ip = Some rt → NextHop rt ≠ zeroID →
  dialPeerFunc s = Some (node_dials conns true close_ok) → conns (NextHop rt) = Some entry →
  conn_ok entry → OpenStream entry = (entry', Ok n) → exit_ready exit (StreamID_of entry' n) →
  let target := JoinHostPort (IP_String a) (dec port) in
  dial_ok target = true →
  handleConnection LookupIP s order true listen
    (handshake_bytes methods cmdConnect rsv (ip_target a) port ++ rest) =
    (None, [SWrite [socks5Version; authNone]; SDialPeer (NextHop rt) target; SWrite (reply repSuccess); SRelay]) ∧
  ∃ f exit1 exit2,
    dialPeer (Some entry) target true close_ok = (Some entry', [f], Ok n) ∧
    (∀ tail, ReadFrame (frame_bytes f ++ tail) = Ok (f, tail)) ∧
    receive exit f = mkSys exit1 Reading ∧
    incoming_stream exit1 false buf_rest dial_ok true = Some (exit2, Ok (mkExit target [])).
Proof.
  intros Ha H16 Hok Hl Hz Hp Hc Hco Ho [E1 E2 E3 E4] target Hd.
  destruct (tunnel_target entry entry' exit n a port buf_rest dial_ok close_ok) as (f & x1 & x2 & Hf & Hr & Hx & Hi);
    try done; [apply Hok|].
  split; [|by exists f, x1, x2].
  destruct (connect_serves LookupIP s order listen methods rsv a port rest Ha Hok) as (ip' & H16' & ->).
  rewrite H16 in H16'. injection H16' as <-. rewrite Hl. unfold serve.
  unfold IsZero. rewrite bool_decide_false, Hp by done. fold target.
  assert (node_dials conns true close_ok (NextHop rt) target = true) as ->; [|done].
  unfold node_dials. rewrite Hc. unfold target. by rewrite Hf.
Qed.

(** Node a, connected to node b, which is the next hop of its only route. *)
Definition tunnel_conns (id : NodeID) : option Conn := Some newConn.
Definition tunnel_server : Server :=
  SetDialPeer (NewServer "127.0.0.1:1080" example_table RouteTable.node_a) (node_dials tunnel_conns true true).

Lemma client_reaches_target_witness :
  ∃ rt,
  handleConnection (λ _, []) tunnel_server (map_to_list (routes example_table)) true None
    (handshake_bytes [authNone] cmdConnect x00 (ip_target [x0a; x01; x02; x03]) 80 ++ [x47; x45; x54]) =
    (None, [SWrite [socks5Version; authNone]; SDialPeer (NextHop rt) "10.1.2.3:80"; SWrite (reply repSuccess); SRelay]) ∧
  ∃ f exit1 exit2,
    dialPeer (Some newConn) "10.1.2.3:80" true true = (Some (fst (OpenStream newConn)), [f], Ok 1%nat) ∧
    (∀ tail, ReadFrame (frame_bytes f ++ tail) = Ok (f, tail)) ∧
    receive newConn f = mkSys exit1 Reading ∧
    incoming_stream exit1 false [] (λ _, true) true = Some (exit2, Ok (mkExit "10.1.2.3:80" [])).
Proof.
  eexists.
  eapply (client_reaches_target (λ _, []) tunnel_server (map_to_list (routes example_table)) None [authNone] x00
    [x0a; x01; x02; x03] 80 [x47; x45; x54] (IPv4 [x0a; x01; x02; x03]) _ tunnel_conns newConn
    (fst (OpenStream newConn)) 1 newConn [] (λ _, true) true).
  - left. reflexivity.
  - reflexivity.
  - split_and!; [simpl; lia|left|by left|reflexivity|unfold fits; lia..].
  - vm_compute. reflexivity.
  - vm_compute. discriminate.
  - reflexivity.
  - reflexivity.
  - exact newConn_ok.
  - vm_compute. reflexivity.
  - split; [exact newConn_ok|reflexivity..].
  - reflexivity.
Defined.
