(* ===== verification/Pipe.v ===== *)
(** * A connection from end to end ([transport/conn.go] on [transport/frame.go])

    The read loop of [Conn] fed with the bytes that the other end has written: the frames of all
    its streams, one after the other. Each stream is then a queue of bytes of its own, as long as
    every stream is read. *)

From S2P Require Import Prelude Bytes Frame Conn.
From stdpp Require Import options.

(** ** The specification: one queue per identifier *)

(** The frames sent, as bytes; each is written under the lock, hence whole. *)
Definition wire_of (fs : list Frame) : list byte := concat (map frame_bytes fs).

Definition since_close (id : Z) (data : list byte) (f : Frame) : list byte :=
  if decide (StreamID f = id) then
    if bool_decide (Type_ f = FrameClose) then [] else data ++ payload_bytes f
  else data.

(** The bytes sent on the identifier since it was last closed. *)
Definition data_for (id : Z) (fs : list Frame) : list byte := foldl (since_close id) [] fs.

(** ** The receiving end *)

Record Pipe := mkPipe { wire : list byte; rsys : Sys }.

(** [PLoop]: the loop goes on, if it can; [PBreak]: its read from the connection fails;
    [PUser]: an operation of the users of the connection. *)
Inductive pop := PLoop (pick_done : bool) | PBreak (e : frame_error) | PUser (o : op).

Definition feed (p : Pipe) (w : list byte) (o : op) : Pipe * list event :=
  let '(s, ev) := sys_step (rsys p) o in (mkPipe w s, ev).

(** A frame that is not there in full keeps the reader waiting. Only while it is [Reading] does
    the loop look at its input. *)
Definition pipe_step (p : Pipe) (o : pop) : Pipe * list event :=
  match o, sys_loop (rsys p) with
  | PLoop pick, Reading =>
      match ReadFrame (wire p) with
      | Ok (f, rest) => feed p rest (OpLoop (Ok f) pick)
      | Err (ErrTooLarge n) => feed p (drop frameHeaderSize (wire p)) (OpLoop (Err (ErrTooLarge n)) pick)
      | _ => (p, [])
      end
  | PLoop pick, _ => feed p (wire p) (OpLoop (Err EOF) pick)
  | PBreak e, Reading => feed p (wire p) (OpLoop (Err e) false)
  | PBreak _, _ => (p, [])
  | PUser (OpLoop _ _), _ => (p, [])
  | PUser o, _ => feed p (wire p) o
  end.

Fixpoint pipe_run (p : Pipe) (ops : list pop) : Pipe * list event :=
  match ops with
  | [] => (p, [])
  | o :: ops =>
      let '(p, ev) := pipe_step p o in
      let '(p', ev') := pipe_run p ops in (p', ev ++ ev')
  end.

Definition pipe_start (fs : list Frame) : Pipe := mkPipe (wire_of fs) start.

Definition pconn (p : Pipe) : Conn := sys_conn (rsys p).

(** ** The invariant

    [done]: the frames read so far; [rest]: those on the wire. *)
Record pipe_ok (done rest : list Frame) (p : Pipe) (evs : list event) : Prop := {
  p_sys : sys_ok (rsys p);
  p_wire : wire p = wire_of rest;
  p_flow : ∀ r, flow (rsys p) (taken r evs) (read r evs) r;
  p_table : ∀ id r, streams (pconn p) !! id = Some r → taken r evs = data_for id done;
  p_absent : ∀ id, streams (pconn p) !! id = None → data_for id done = [];
  p_fresh : ∀ r, store (pconn p) !! r = None → taken r evs = [];
  p_closing : match sys_loop (rsys p) with
              | Accepting _ f => Type_ f = FrameClose → data_for (StreamID f) done = []
              | _ => True
              end }.

Lemma data_for_snoc id fs f : data_for id (fs ++ [f]) = since_close id (data_for id fs) f.
Proof. unfold data_for. by rewrite foldl_app. Qed.

Lemma since_close_norm id data f : since_close id data (frame_norm f) = since_close id data f.
Proof.
  unfold since_close. cbn [StreamID Type_ frame_norm]. unfold payload_bytes, frame_norm. cbn [Payload].
  repeat case_decide; try done. case_bool_decide; [done|]. unfold payload_bytes in *.
  destruct (Payload f) as [b|]; [|done]. cbn in *. by subst.
Qed.

(** What the user's operations leave alone: the loop, the table but for new entries, the
    references. *)
Lemma user_step c l o :
  conn_ok c → (∀ input pick, o ≠ OpLoop input pick) →
  let s' := fst (sys_step (mkSys c l) o) in
  sys_loop s' = l ∧ (∀ r, taken r (snd (sys_step (mkSys c l) o)) = []) ∧
  (∀ r, store (sys_conn s') !! r = None → store c !! r = None) ∧
  (∀ id r, streams (sys_conn s') !! id = Some r →
     streams c !! id = Some r ∨ streams c !! id = None ∧ store c !! r = None) ∧
  (∀ id, streams (sys_conn s') !! id = None → streams c !! id = None).
Proof.
  intros Hok Ho. destruct o as [input pick| |pick|r n|r ok|]; [by destruct (Ho input pick)|..];
    unfold sys_step; cbn [sys_conn sys_loop].
  - unfold OpenStream. destruct (closed c); [cbn; by auto 10|].
    destruct (open_loop_spec 1000 c Hok) as [(k & c0 & _ & Hn & _ & Hc0 & E0 & ->)|(_ & _ & E & _)].
    + pose proof (fresh_ref _ Hc0) as Hf. set (i := attempt_id (nextID c) k) in *.
      rewrite E0 in Hf |- *. cbn in *. split_and!; try done.
      * intros r [Hr _]%lookup_insert_None. done.
      * intros id r [[<- <-]|[_ Hr]]%lookup_insert_Some; auto.
      * by intros id [Hr _]%lookup_insert_None.
    + cbn [fst snd sys_conn sys_loop]. rewrite E. cbn. split_and!; auto.
  - unfold AcceptStream. destruct (acceptCh c), (closed c && pick), (closed c); cbn; split_and!; auto.
  - destruct (Stream_Read c (Some r) n) as [[c' res]|] eqn:E; [|cbn; split_and!; auto].
    assert ((∀ r, store c' !! r = None → store c !! r = None) ∧ streams c' = streams c) as [H1 H2].
    { apply Stream_Read_spec in E as [(_ & -> & _)|(s & s' & Hs & -> & _)]; [done|]. split; [|done].
      cbn. by intros r' [Hr _]%lookup_insert_None. }
    destruct res; cbn; rewrite H2; split_and!; auto.
  - unfold Stream_Close. cbn [mbind option_bind]. destruct (store c !! r) as [s|]; [|cbn; split_and!; auto].
    cbn. destruct (s_closed s), ok; cbn; split_and!; auto; by intros r' [? _]%lookup_insert_None.
  - cbn. split_and!; auto.
Qed.

(** A step that takes no frame off the wire. What it enters into the table is new; what it
    removes has no bytes. *)
Lemma quiet_step done rest p evs o s' ev :
  pipe_ok done rest p evs → op_ok o → sys_step (rsys p) o = (s', ev) → (∀ r, taken r ev = []) →
  (∀ r, store (sys_conn s') !! r = None → store (pconn p) !! r = None) →
  (∀ id r, streams (sys_conn s') !! id = Some r → streams (pconn p) !! id = Some r ∨
     streams (pconn p) !! id = None ∧ store (pconn p) !! r = None) →
  (∀ id, streams (sys_conn s') !! id = None → streams (pconn p) !! id = None ∨ data_for id done = []) →
  (match sys_loop s' with Accepting _ _ => sys_loop s' = sys_loop (rsys p) | _ => True end) →
  pipe_ok done rest (mkPipe (wire p) s') (evs ++ ev).
Proof.
  intros [H1 H2 H3 H4 H5 H6 H7] Ho Hs Ht Hst Hin Hout Hc.
  assert (∀ r, taken r (evs ++ ev) = taken r evs) as Et by (intros r; by rewrite taken_app, Ht, app_nil_r).
  split; cbn [rsys wire pconn]; [|done|..].
  - pose proof (sys_step_ok _ o H1 Ho) as E. by rewrite Hs in E.
  - intros r. pose proof (flow_step _ o r _ _ H1 (H3 r)) as E. rewrite Hs in E. by rewrite taken_app, read_app.
  - intros id r Hr. rewrite Et. destruct (Hin id r Hr) as [?|[? ?]]; [by apply H4|].
    by rewrite H6, H5.
  - intros id Hid. destruct (Hout id Hid); auto.
  - intros r Hr. rewrite Et. auto.
  - destruct (sys_loop s'); try done. by rewrite <- Hc in H7.
Qed.

(** The loop and what it holds. *)
Lemma holding_step c l pick c' l' input :
  loop_step c l input pick = Some (c', l') → l ≠ Reading →
  (∀ r, store c' !! r = None → store c !! r = None) ∧
  (∀ id r, streams c' !! id = Some r → streams c !! id = Some r) ∧
  (∀ id, streams c' !! id = None → streams c !! id = None ∨
     ∃ r f, l = Accepting r f ∧ Type_ f = FrameClose ∧ id = StreamID f) ∧
  (match l' with Accepting _ _ => False | _ => True end).
Proof.
  intros H Hl. destruct l as [|r0 f|r0 f|]; [done|..|done]; cbn [loop_step] in H.
  - destruct (decide _); [destruct (closed c && pick)|destruct (closed c); [|done]];
      injection H as H; simplify_eq; try by auto.
    unfold dispatch in H. case_bool_decide as Hf; [|simplify_eq; by auto].
    cbn [set_acceptCh store] in H. destruct (store c !! r0) as [s|]; simplify_eq; [|by auto].
    cbn. split_and!; [by intros r [? _]%lookup_insert_None| | |done].
    + by intros id r [_ ?]%lookup_delete_Some.
    + intros id [<-|?]%lookup_delete_None; [right|by left]. by eexists _, _.
  - destruct (store c !! r0) as [s|] eqn:Hs; [|done]. cbn [mbind option_bind] in H.
    destruct (decide _); [destruct (closed c && pick)|destruct (closed c); [|done]];
      injection H as H; simplify_eq; try by auto.
    cbn. split_and!; auto. by intros r [? _]%lookup_insert_None.
Qed.

Lemma closeAll_table c :
  streams (closeAll c) = streams c ∧ ∀ r, store (closeAll c) !! r = None → store c !! r = None.
Proof.
  split; [unfold closeAll; by destruct (closed c)|]. intros r Hr. apply eq_None_not_Some. intros Hs.
  apply (closeAll_is_Some c) in Hs. rewrite Hr in Hs. by destruct Hs.
Qed.

(** The loop takes no frame: it is holding one, or its read fails. *)
Lemma loop_quiet done rest p evs input pick s' ev :
  pipe_ok done rest p evs → op_ok (OpLoop input pick) →
  (sys_loop (rsys p) = Reading → ∀ f, input ≠ Ok f) →
  sys_step (rsys p) (OpLoop input pick) = (s', ev) → pipe_ok done rest (mkPipe (wire p) s') (evs ++ ev).
Proof.
  intros Hp Ho Hr Hs. pose proof (p_closing _ _ _ _ Hp) as Hc. pose proof Hs as Hs0. revert Hs0.
  unfold sys_step, pconn. destruct (loop_step _ _ _ _) as [[c' l']|] eqn:E.
  2: { intros [= <- <-]. destruct p as [w s]. by rewrite app_nil_r. }
  assert (sys_loop (rsys p) = Reading ∨ sys_loop (rsys p) ≠ Reading) as [El|Hl]
    by (destruct (sys_loop (rsys p)); auto).
  - rewrite El in E |- *. specialize (Hr El). cbn [loop_step] in E.
    destruct (closeAll_table (sys_conn (rsys p))) as [T1 T2].
    destruct input as [f|e|]; [by destruct (Hr f)|..]; injection E as <- <-; intros [= <- <-];
      (eapply (quiet_step _ _ _ _ _ _ _ Hp Ho Hs); unfold pconn; cbn [sys_conn sys_loop];
       [done|done|rewrite T1; auto|rewrite T1; auto|done]).
  - assert (match sys_loop (rsys p), pending l' with
            | Reading, Some (r, data) => [EvTaken r data] | _, _ => [] end = []) as ->
      by by destruct (sys_loop (rsys p)).
    intros [= <- <-]. destruct (holding_step _ _ _ _ _ _ E Hl) as (H1 & H2 & H3 & H4).
    eapply (quiet_step _ _ _ _ _ _ _ Hp Ho Hs); unfold pconn; cbn [sys_conn sys_loop]; auto.
    + intros id Hid. destruct (H3 id Hid) as [?|(r & f & E1 & E2 & ->)]; [by left|right].
      rewrite E1 in Hc. auto.
    + by destruct l'.
Qed.

Lemma payload_norm f : payload_bytes (frame_norm f) = payload_bytes f.
Proof.
  unfold payload_bytes, frame_norm. cbn [Payload]. case_decide as H; [|done].
  unfold payload_bytes in H. by destruct (Payload f).
Qed.

(** The event of taking frame [f] for the stream [r]. *)
Definition take_event (r : nat) (f : Frame) : list event :=
  if bool_decide (Type_ f = FrameClose) then [] else [EvTaken r (payload_bytes f)].

Lemma taken_take r0 f r :
  taken r (take_event r0 f) =
  if decide (r0 = r) then if bool_decide (Type_ f = FrameClose) then [] else payload_bytes f else [].
Proof.
  unfold take_event, taken. case_bool_decide; cbn; [by case_decide|]. by case_decide; rewrite ?app_nil_r.
Qed.

(** What taking the frame [f] for the stream [r] does to the table. *)
Definition table_change (c c' : Conn) (l' : loop_state) (f : Frame) (r : nat) : Prop :=
  streams c !! StreamID f = Some r ∧
    streams c' = (if bool_decide (Type_ f = FrameClose) then delete (StreamID f) (streams c) else streams c) ∧
    (l' = Reading ∨ l' = Delivering r f) ∨
  streams c !! StreamID f = None ∧ store c !! r = None ∧ streams c' = <[StreamID f := r]> (streams c) ∧
    l' = Accepting r f.

(** Taking a frame: which stream it is for, and what happens to the table. *)
Lemma reading_step c f pick c' l' :
  conn_ok c → loop_step c Reading (Ok f) pick = Some (c', l') →
  ∃ r, (match pending l' with Some (r, data) => [EvTaken r data] | _ => [] end) = take_event r f ∧
    (∀ r', store c' !! r' = None → store c !! r' = None ∧ r' ≠ r) ∧
    table_change c c' l' f r.
Proof.
  intros Hok H. unfold table_change. cbn [loop_step] in H. destruct (streams c !! StreamID f) as [r|] eqn:Hr.
  - injection H as H. exists r. destruct (ok_streams _ Hok _ _ Hr) as (s & Hs & _).
    unfold dispatch, take_event in *. rewrite Hs in H. case_bool_decide; simplify_eq; cbn.
    + split_and!; [done| |by left; auto]. by intros r' [??]%lookup_insert_None.
    + split_and!; [done| |by left; auto]. intros r' Hn. split; [done|]. congruence.
  - injection H as <- <-. exists (next_ref c). unfold take_event. cbn. split_and!.
    + by case_bool_decide.
    + intros r' [??]%lookup_insert_None. auto.
    + right. split_and!; [done|by apply fresh_ref|done|done].
Qed.

(** References in the table of different identifiers are different. *)
Lemma table_inj c id id' r :
  conn_ok c → streams c !! id = Some r → streams c !! id' = Some r → id = id'.
Proof.
  intros Hok H H'. destruct (ok_streams _ Hok _ _ H) as (s & Hs & <-), (ok_streams _ Hok _ _ H') as (s' & Hs' & <-).
  congruence.
Qed.

Lemma since_close_eq id f data :
  StreamID f = id → since_close id data f = if bool_decide (Type_ f = FrameClose) then [] else data ++ payload_bytes f.
Proof. intros E. unfold since_close. by rewrite decide_True. Qed.

Lemma since_close_ne id f data : StreamID f ≠ id → since_close id data f = data.
Proof. intros E. unfold since_close. by rewrite decide_False. Qed.

(** The table and the bytes of the identifiers after a frame has been taken; [tk]: the bytes taken
    for each stream before. *)
Lemma table_ok c c' l' f r done (tk : nat → list byte) :
  conn_ok c → table_change c c' l' (frame_norm f) r →
  (∀ id r, streams c !! id = Some r → tk r = data_for id done) →
  (∀ id, streams c !! id = None → data_for id done = []) →
  (∀ r, store c !! r = None → tk r = []) →
  (∀ id r', streams c' !! id = Some r' →
     tk r' ++ (if decide (r = r') then if bool_decide (Type_ f = FrameClose) then [] else payload_bytes f else []) =
     data_for id (done ++ [f])) ∧
  (∀ id, streams c' !! id = None → data_for id (done ++ [f]) = []).
Proof.
  intros Hok Hcase H4 H5 H6. split.
  - intros id r' Hr. rewrite data_for_snoc.
    destruct Hcase as [(Hr0 & Hm & _)|(Hr0 & Hn & Hm & _)]; rewrite Hm in Hr; cbn [StreamID Type_ frame_norm] in *.
    + destruct (decide (StreamID f = id)) as [Hid|Hid].
      * rewrite since_close_eq by done. case_bool_decide; [by rewrite Hid, lookup_delete_eq in Hr|].
        rewrite Hid, Hr in Hr0. injection Hr0 as ->. by rewrite decide_True, (H4 _ _ Hr).
      * rewrite since_close_ne by done.
        assert (streams c !! id = Some r') as Hr'
          by (case_bool_decide; [by apply lookup_delete_Some in Hr as [_ ?]|done]).
        rewrite decide_False, app_nil_r by (intros ->; by apply Hid, (table_inj _ _ _ _ Hok Hr0 Hr')). by apply H4.
    + apply lookup_insert_Some in Hr as [[Hid <-]|[Hid Hr]].
      * rewrite since_close_eq, decide_True, H6, <- Hid, H5 by done. by case_bool_decide.
      * rewrite since_close_ne, (H4 _ _ Hr) by done. destruct (ok_streams _ Hok _ _ Hr) as (s & Hs & _).
        rewrite decide_False, app_nil_r by congruence. done.
  - intros id Hid. rewrite data_for_snoc.
    destruct Hcase as [(Hr0 & Hm & _)|(Hr0 & Hn & Hm & _)]; rewrite Hm in Hid; cbn [StreamID Type_ frame_norm] in *.
    + destruct (decide (StreamID f = id)) as [He|He].
      * rewrite since_close_eq by done. case_bool_decide; [done|]. congruence.
      * rewrite since_close_ne by done. apply H5. case_bool_decide; [|done].
        by apply lookup_delete_None in Hid as [?|?].
    + apply lookup_insert_None in Hid as [Hid He]. rewrite since_close_ne by done. by apply H5.
Qed.

Lemma reading_ok done f rest p evs pick s' ev :
  pipe_ok done (f :: rest) p evs → frame_ok f → sys_loop (rsys p) = Reading →
  sys_step (rsys p) (OpLoop (Ok (frame_norm f)) pick) = (s', ev) →
  pipe_ok (done ++ [f]) rest (mkPipe (wire_of rest) s') (evs ++ ev).
Proof.
  intros [H1 H2 H3 H4 H5 H6 H7] Hf El Hs. pose proof (proj1 H1) as Hok.
  assert (op_ok (OpLoop (Ok (frame_norm f)) pick)) as Ho by apply Hf.
  pose proof (sys_step_ok _ _ H1 Ho) as Hs1.
  pose proof (λ r, flow_step _ (OpLoop (Ok (frame_norm f)) pick) r _ _ H1 (H3 r)) as Hs2.
  rewrite Hs in Hs1, Hs2. cbn [fst snd] in Hs1, Hs2.
  unfold pconn, sys_step in *. rewrite El in Hs.
  destruct (loop_step _ _ _ _) as [[c' l']|] eqn:E;
    [|cbn [loop_step] in E; by destruct (streams (sys_conn (rsys p)) !! _)].
  destruct (reading_step _ _ _ _ _ Hok E) as (r & Hev & Hst & Hcase).
  injection Hs as <- <-. rewrite Hev in *.
  destruct (table_ok _ _ _ _ _ _ _ Hok Hcase H4 H5 H6) as [T1 T2].
  assert (∀ r', taken r' (evs ++ take_event r (frame_norm f)) = taken r' evs ++
    (if decide (r = r') then if bool_decide (Type_ f = FrameClose) then [] else payload_bytes f else [])) as Et.
  { intros r'. by rewrite taken_app, taken_take, payload_norm. }
  split; unfold pconn; cbn [rsys wire sys_conn sys_loop];
    [done|done|intros r'; by rewrite taken_app, read_app|intros id r' Hr; by rewrite Et, (T1 _ _ Hr)|done|..].
  - intros r' Hr. destruct (Hst r' Hr) as [Hn Hne]. by rewrite Et, H6, decide_False by done.
  - destruct Hcase as [(_ & _ & [-> | ->])|(_ & _ & _ & ->)]; [done..|].
    cbn [StreamID Type_ frame_norm]. intros Hc. by rewrite data_for_snoc, since_close_eq, bool_decide_true.
Qed.

(** An operation that takes no frame off the wire. *)
Definition quiet_op (p : Pipe) (o : op) : Prop :=
  op_ok o ∧ match o with OpLoop input _ => sys_loop (rsys p) = Reading → ∀ f, input ≠ Ok f | _ => True end.

(** A step of the pipe does nothing, feeds its connection an operation that takes no frame, or the next frame
    of the wire. *)
Lemma pipe_step_cases rest p o :
  wire p = wire_of rest → Forall frame_ok rest →
  pipe_step p o = (p, []) ∨
  (∃ o', quiet_op p o' ∧ pipe_step p o = feed p (wire p) o' ∧ ∀ r n, o' = OpRead r n → o = PUser (OpRead r n)) ∨
  (∃ f rest' pick, rest = f :: rest' ∧ frame_ok f ∧ Forall frame_ok rest' ∧ sys_loop (rsys p) = Reading ∧
     pipe_step p o = feed p (wire_of rest') (OpLoop (Ok (frame_norm f)) pick)).
Proof.
  intros Hw Hrest. unfold pipe_step, quiet_op. destruct o as [pick|e|o].
  - destruct (sys_loop (rsys p)) eqn:El.
    2-4: right; left; eexists; split; [|split; [reflexivity|done]]; done.
    rewrite Hw. destruct Hrest as [|f rest Hf Hrest]; [by left|]. right. right.
    cbn [wire_of map concat]. rewrite read_frame_bytes by done. by exists f, rest, pick.
  - destruct (sys_loop (rsys p)) eqn:El; [|by left..].
    right. left. eexists. split; [|split; [reflexivity|done]]. done.
  - destruct o; [by left|right; left; eexists; (split; [|split; [reflexivity|by intros ? ? [= <- <-]]]); done..].
Qed.

Lemma quiet_op_ok done rest p evs o s' ev :
  pipe_ok done rest p evs → quiet_op p o → sys_step (rsys p) o = (s', ev) →
  pipe_ok done rest (mkPipe (wire p) s') (evs ++ ev).
Proof.
  intros Hp [Ho Hq] Hs.
  assert ((∀ input pick, o ≠ OpLoop input pick) → pipe_ok done rest (mkPipe (wire p) s') (evs ++ ev)).
  2: { destruct o; [by eapply loop_quiet|auto..]. }
  intros Hu. pose proof (p_sys _ _ _ _ Hp) as [Hok _].
  destruct (user_step (pconn p) (sys_loop (rsys p)) o Hok Hu) as (U1 & U2 & U3 & U4 & U5).
  unfold pconn in *. destruct (rsys p) as [c l] eqn:Er. cbn [sys_conn sys_loop] in *. rewrite Hs in *.
  eapply (quiet_step _ _ _ _ o _ _ Hp Ho); unfold pconn; rewrite ?Er; cbn [fst snd sys_conn sys_loop] in *; auto.
  rewrite U1. by destruct l.
Qed.

Lemma pipe_step_ok done rest p evs o :
  pipe_ok done rest p evs → Forall frame_ok rest →
  ∃ done' rest', done' ++ rest' = done ++ rest ∧ Forall frame_ok rest' ∧
    pipe_ok done' rest' (fst (pipe_step p o)) (evs ++ snd (pipe_step p o)).
Proof.
  intros Hp Hrest.
  destruct (pipe_step_cases rest p o (p_wire _ _ _ _ Hp) Hrest)
    as [->|[(o' & Hq & -> & _)|(f & rest' & pick & -> & Hf & Hr & El & ->)]].
  - exists done, rest. by rewrite app_nil_r.
  - exists done, rest. split_and!; [done|done|]. unfold feed.
    destruct (sys_step (rsys p) o') as [s' ev] eqn:Hs. by apply (quiet_op_ok _ _ _ _ o').
  - exists (done ++ [f]), rest'. split; [by rewrite <- app_assoc|]. split; [done|]. unfold feed.
    destruct (sys_step _ _) as [s' ev] eqn:Hs. by apply (reading_ok _ _ _ p _ pick).
Qed.

Lemma pipe_start_ok fs : pipe_ok [] fs (pipe_start fs) [].
Proof.
  split; cbn; try done; [by apply start_ok|..].
  - intros r. exists []. split; [|done]. cbn. unfold stream_bytes. cbn. destruct (decide (r = 0%nat)) as [->|]; [done|].
    by rewrite lookup_singleton_ne.
Qed.

Lemma pipe_run_ok ops done rest p evs :
  pipe_ok done rest p evs → Forall frame_ok rest →
  ∃ done' rest', done' ++ rest' = done ++ rest ∧
    pipe_ok done' rest' (fst (pipe_run p ops)) (evs ++ snd (pipe_run p ops)).
Proof.
  revert done rest p evs. induction ops as [|o ops IH]; intros done rest p evs Hp Hr; cbn [pipe_run].
  { exists done, rest. by rewrite app_nil_r. }
  destruct (pipe_step_ok _ _ _ _ o Hp Hr) as (d1 & r1 & E1 & Hr1 & Hp1).
  destruct (pipe_step p o) as [p1 ev1]. cbn [fst snd] in *.
  destruct (IH d1 r1 p1 (evs ++ ev1) Hp1 Hr1) as (d2 & r2 & E2 & Hp2).
  destruct (pipe_run p1 ops) as [p2 ev2]. cbn [fst snd] in *. exists d2, r2.
  split; [by rewrite E2|]. by rewrite app_assoc.
Qed.

(** What the streams of the other end send: frames of their identifier, with the bytes written. *)
Lemma written_frame c r s b write_ok f res :
  conn_ok c → store c !! r = Some s → Stream_Write c (Some r) b write_ok = (Some f, res) →
  frame_ok f ∧ res = Ok (length b) ∧ ∀ id data, since_close id data f = if decide (s_id s = id) then data ++ b else data.
Proof.
  intros Hok Hs. unfold Stream_Write. cbn [mbind option_bind]. rewrite Hs.
  destruct (s_closed s); [done|]. destruct (Z.ltb_spec maxFrameSize (Z.of_nat (length b))) as [|Hb]; [done|].
  destruct write_ok; [|done]. intros [= <- <-]. destruct (ok_store _ Hok _ _ Hs) as [[_ Hf] _].
  split; [by split|]. split; [done|]. intros id data. unfold since_close. cbn. by case_decide.
Qed.

(** ** When a stream is not read *)

(** The operations that can end the wait for room in the queue of stream [r]. *)
Definition makes_room (r : nat) (o : pop) : bool :=
  match o with
  | PUser (OpRead r' _) => bool_decide (r' = r)
  | PUser OpClose => true
  | _ => false
  end.

(** The loop holds a frame for stream [r], whose queue is full, and the connection is open. *)
Definition stuck (p : Pipe) (r : nat) (f : Frame) : Prop :=
  sys_ok (rsys p) ∧ sys_loop (rsys p) = Delivering r f ∧ closed (pconn p) = false ∧
  ∃ s, store (pconn p) !! r = Some s ∧ length (readCh s) = s_cap s.

(** What an operation of the users keeps of a stream that it does not read. *)
Lemma user_keeps c l o r s :
  conn_ok c → store c !! r = Some s → (∀ input pick, o ≠ OpLoop input pick) → makes_room r (PUser o) = false →
  let c' := sys_conn (fst (sys_step (mkSys c l) o)) in
  closed c' = closed c ∧ ∃ s', store c' !! r = Some s' ∧ readCh s' = readCh s ∧ s_cap s' = s_cap s.
Proof.
  intros Hok Hs Ho Hm. destruct o as [input pick| |pick|r0 n|r0 ok|]; [by destruct (Ho input pick)|..|done];
    unfold sys_step; cbn [sys_conn sys_loop].
  - split; [|exists s; split; [by apply open_frame|done]].
    unfold OpenStream. destruct (closed c) eqn:Ec; [done|].
    destruct (open_loop_spec 1000 c Hok) as [(k & c0 & _ & _ & _ & _ & E0 & ->)|(_ & _ & -> & _)]; [|done].
    cbn. by rewrite E0.
  - unfold AcceptStream. destruct (acceptCh c), (closed c && pick), (closed c) eqn:Ec; cbn; rewrite ?Ec; eauto.
  - cbn in Hm. apply bool_decide_eq_false in Hm.
    destruct (Stream_Read c (Some r0) n) as [[c' res]|] eqn:E; [|cbn; eauto].
    assert (closed c' = closed c ∧ store c' !! r = Some s) as [H1 H2].
    { apply Stream_Read_spec in E as [(_ & -> & _)|(s0 & s1 & _ & -> & _)]; [done|]. cbn.
      by rewrite lookup_insert_ne. }
    destruct res; cbn; eauto.
  - unfold Stream_Close. cbn [mbind option_bind]. destruct (store c !! r0) as [s0|] eqn:E0; [|cbn; eauto].
    cbn. destruct (s_closed s0), ok; cbn; (split; [done|]); eauto;
      destruct (decide (r0 = r)) as [->|]; rewrite ?lookup_insert_eq, ?lookup_insert_ne by done; eauto;
      simplify_eq; eauto.
Qed.

Lemma stuck_step p r f o :
  stuck p r f → makes_room r o = false →
  stuck (fst (pipe_step p o)) r f ∧ wire (fst (pipe_step p o)) = wire p ∧
  ∀ r', taken r' (snd (pipe_step p o)) = [].
Proof.
  intros Hst Hm. pose proof Hst as (Hok & El & Hcl & s & Hs & Hfull). unfold pipe_step. rewrite El.
  destruct o as [pick|e|o]; [|done|].
  - unfold feed, sys_step. rewrite El. cbn [loop_step]. unfold pconn in *. rewrite Hs, Hcl. cbn [mbind option_bind].
    rewrite decide_False by lia. by destruct p as [w [c l]].
  - assert ((∀ input pick, o ≠ OpLoop input pick) →
      stuck (fst (feed p (wire p) o)) r f ∧ wire (fst (feed p (wire p) o)) = wire p ∧
      ∀ r', taken r' (snd (feed p (wire p) o)) = []) as H; [|by destruct o; [done|apply H..]].
    intros Hu. assert (op_ok o) as Ho by (destruct o as [input pick| | | | |]; [by destruct (Hu input pick)|done..]).
    pose proof (sys_step_ok _ o Hok Ho) as Hok'. destruct Hok as [Hok _].
    destruct (user_step (pconn p) (sys_loop (rsys p)) o Hok Hu) as (U1 & U2 & _).
    destruct (user_keeps (pconn p) (sys_loop (rsys p)) o r s Hok Hs Hu Hm) as (V1 & s' & V2 & V3 & V4).
    unfold stuck, feed, pconn in *. destruct (rsys p) as [c l]. cbn [sys_conn sys_loop] in *.
    destruct (sys_step (mkSys c l) o) as [[c' l'] ev]. cbn [fst snd rsys wire sys_conn sys_loop] in *.
    split_and!; [done|congruence|congruence|exists s'; split; [done|congruence]|done|done].
Qed.

Lemma stuck_run ops p r f :
  stuck p r f → Forall (λ o, makes_room r o = false) ops →
  stuck (fst (pipe_run p ops)) r f ∧ wire (fst (pipe_run p ops)) = wire p ∧
  ∀ r', taken r' (snd (pipe_run p ops)) = [].
Proof.
  intros Hst Hops. revert p Hst. induction Hops as [|o ops Ho Hops IH]; intros p Hst; [done|]. cbn [pipe_run].
  destruct (stuck_step p r f o Hst Ho) as (H1 & H2 & H3). destruct (pipe_step p o) as [p1 ev1]. cbn [fst snd] in *.
  destruct (IH p1 H1) as (H4 & H5 & H6). destruct (pipe_run p1 ops) as [p2 ev2]. cbn [fst snd] in *.
  split_and!; [done|congruence|]. intros r'. by rewrite taken_app, H3, H6.
Qed.

(** ** Properties *)

(** C17: the streams of a connection are independent queues of bytes, from the frames that one end
    writes to what the readers of the other end get. Whatever frames are sent, of whatever streams
    and in whatever order, and however the loop, the readers, and whoever opens, accepts and closes
    streams interleave: the frames taken off the wire are the first of those sent, and for every
    identifier the bytes read from its stream, then those queued, then those the loop holds are
    exactly the bytes sent on it since it was last closed. Only a connection that has ended can miss
    the last bytes. *)
Theorem streams_are_queues sent ops :
  Forall frame_ok sent →
  let '(p, evs) := pipe_run (pipe_start sent) ops in
  ∃ done rest, sent = done ++ rest ∧ wire p = wire_of rest ∧
    (∀ id r, streams (pconn p) !! id = Some r → ∃ lost,
       read r evs ++ stream_bytes (pconn p) r ++ held (sys_loop (rsys p)) r ++ lost = data_for id done ∧
       (sys_loop (rsys p) ≠ Exited → lost = [])) ∧
    (∀ id, streams (pconn p) !! id = None → data_for id done = []).
Proof.
  intros Hs. destruct (pipe_run_ok ops _ _ _ _ (pipe_start_ok sent) Hs) as (done & rest & E & Hp).
  destruct (pipe_run (pipe_start sent) ops) as [p evs]. cbn [fst snd app] in *. exists done, rest.
  split_and!; [done|apply Hp| |apply Hp]. intros id r Hr. rewrite <- (p_table _ _ _ _ Hp _ _ Hr). apply Hp.
Qed.

(** Two streams, one frame each and one more for the first; the first is read byte by byte. *)
Definition two_streams : list Frame :=
  [mkFrame FrameData 1 (Some [x68; x69]); mkFrame FrameData 3 (Some [x6f]); mkFrame FrameData 1 (Some [x21])].

Definition two_streams_ops : list pop :=
  [PLoop false; PLoop false; PLoop false; PUser (OpRead 1 1); PLoop false; PLoop false; PLoop false; PUser (OpRead 1 1);
   PLoop false; PLoop false; PUser (OpAccept false)].

Lemma streams_are_queues_witness :
  let '(p, evs) := pipe_run (pipe_start two_streams) two_streams_ops in
  ∃ done rest, two_streams = done ++ rest ∧ wire p = wire_of rest ∧
    (∀ id r, streams (pconn p) !! id = Some r → ∃ lost,
       read r evs ++ stream_bytes (pconn p) r ++ held (sys_loop (rsys p)) r ++ lost = data_for id done ∧
       (sys_loop (rsys p) ≠ Exited → lost = [])) ∧
    (∀ id, streams (pconn p) !! id = None → data_for id done = []).
Proof.
  apply (streams_are_queues two_streams two_streams_ops).
  repeat constructor; unfold fits, maxFrameSize; cbn; lia.
Defined.

(** C35: one stream that nobody reads stops the whole connection. Once the queue of a stream is full
    and one more frame has come for it, no frame of any stream is taken off the wire any more, those
    of the control stream included, whatever else is done on the connection, until that stream is
    read or the connection is closed. Until then the loop waits; as soon as there is room it goes
    on. *)
Theorem unread_stream_stalls p r f ops :
  stuck p r f → Forall (λ o, makes_room r o = false) ops →
  (let '(p', evs) := pipe_run p ops in
   wire p' = wire p ∧ sys_loop (rsys p') = Delivering r f ∧ ∀ r', taken r' evs = []) ∧
  (∀ c s, conn_ok c → store c !! r = Some s → (length (readCh s) < s_cap s)%nat →
    ∃ c', pipe_step (mkPipe (wire p) (mkSys c (Delivering r f))) (PLoop false) = (mkPipe (wire p) (mkSys c' Reading), []) ∧
      stream_bytes c' r = stream_bytes c r ++ payload_bytes f).
Proof.
  intros Hst Hops. split.
  - destruct (stuck_run ops p r f Hst Hops) as ((_ & H1 & _) & H2 & H3). by destruct (pipe_run p ops).
  - intros c s Hok Hs Hroom. eexists. unfold pipe_step, feed, sys_step. cbn [rsys sys_loop sys_conn loop_step].
    rewrite Hs. cbn [mbind option_bind]. rewrite decide_True, andb_false_r by done. split; [reflexivity|].
    rewrite bytes_set_stream, decide_True by done. unfold stream_bytes, queued. rewrite Hs. cbn [readCh buf].
    rewrite map_app, concat_app. cbn. by rewrite app_nil_r, app_assoc.
Qed.

(** Seventeen frames for a stream that is accepted and not read, then a frame for the control
    stream. *)
Definition unread : list Frame :=
  replicate 17 (mkFrame FrameData 1 (Some [x78])) ++ [mkFrame FrameData 0 (Some [x79])].

Definition unread_pipe : Pipe :=
  fst (pipe_run (pipe_start unread) (replicate 34 (PLoop false) ++ [PUser (OpAccept false)])).

Lemma unread_stuck : stuck unread_pipe 1 (mkFrame FrameData 1 (Some [x78])).
Proof.
  assert (Forall frame_ok unread) as Hu by (repeat constructor; unfold fits, maxFrameSize; cbn; lia).
  destruct (pipe_run_ok (replicate 34 (PLoop false) ++ [PUser (OpAccept false)]) _ _ _ _ (pipe_start_ok unread) Hu)
    as (d & r & _ & Hp).
  split; [apply (p_sys _ _ _ _ Hp)|]. split; [vm_compute; done|]. split; [vm_compute; done|].
  eexists. split; vm_compute; reflexivity.
Qed.

Lemma unread_stream_stalls_witness :
  let ops := [PLoop false; PUser (OpRead 0 1000); PUser OpOpen; PLoop true; PUser (OpStreamClose 1 true); PLoop false] in
  (let '(p', evs) := pipe_run unread_pipe ops in
   wire p' = wire unread_pipe ∧ sys_loop (rsys p') = Delivering 1 (mkFrame FrameData 1 (Some [x78])) ∧
   ∀ r', taken r' evs = []) ∧
  (∀ c s, conn_ok c → store c !! 1%nat = Some s → (length (readCh s) < s_cap s)%nat →
    ∃ c', pipe_step (mkPipe (wire unread_pipe) (mkSys c (Delivering 1 (mkFrame FrameData 1 (Some [x78]))))) (PLoop false) =
            (mkPipe (wire unread_pipe) (mkSys c' Reading), []) ∧
      stream_bytes c' 1 = stream_bytes c 1 ++ payload_bytes (mkFrame FrameData 1 (Some [x78]))).
Proof.
  intros ops. apply (unread_stream_stalls unread_pipe 1 (mkFrame FrameData 1 (Some [x78])) ops unread_stuck).
  repeat constructor.
Defined.
