(* ===== verification/Control.v ===== *)
(** * The control stream ([transport/conn.go], as [node/node.go] uses it)

    Control messages are written one to a frame, and read into a buffer of 64 KiB. A stream is a queue
    of bytes ([Pipe]), yet as long as no message is longer than the buffer each read gives exactly one
    message, whatever goes on in the other streams of the connection. *)

From S2P Require Import Prelude Bytes Wire WireGossip Frame Conn Pipe.
From stdpp Require Import options.

(** [make([]byte, 65536)] in [handleControlMessages], [handleIncomingConn] and [bootstrapPeer]. *)
Definition controlBuffer : nat := Z.to_nat 65536.

(** The store's reference of the control stream, made with the connection. *)
Definition ctl : nat := 0.

(** ** The specification: a queue of messages *)

(** The messages that frames carry on the control stream. *)
Definition messages (fs : list Frame) : list (list byte) :=
  omap (λ f, if decide (StreamID f = ControlStreamID) then Some (payload_bytes f) else None) fs.

Definition message_fits (m : list byte) : Prop := (0 < length m ≤ controlBuffer)%nat.

(** The other end never closes its control stream, and its messages fit. *)
Definition control_ok (f : Frame) : Prop :=
  StreamID f = ControlStreamID → Type_ f ≠ FrameClose ∧ message_fits (payload_bytes f).

(** The pieces that were taken off the wire for the control stream, and those that were read from it. *)
Definition pieces_taken (evs : list event) : list (list byte) :=
  omap (λ e, match e with EvTaken r d => if decide (r = ctl) then Some d else None | _ => None end) evs.
Definition pieces_read (evs : list event) : list (list byte) :=
  omap (λ e, match e with EvRead r d => if decide (r = ctl) then Some d else None | _ => None end) evs.

(** Whoever reads the control stream has a buffer of that size. *)
Definition control_read (o : op) : Prop :=
  match o with OpRead r n => r = ctl → n = controlBuffer | _ => True end.

(** ** The invariant *)

Definition held_piece (l : loop_state) : list (list byte) :=
  match pending l with Some (r, d) => if decide (r = ctl) then [d] else [] | None => [] end.

Record ctl_ok (s : Sys) (tk rd : list (list byte)) : Prop := {
  ctl_table : streams (sys_conn s) !! ControlStreamID = Some ctl;
  ctl_accepting : match sys_loop s with Accepting _ f => StreamID f ≠ ControlStreamID | _ => True end;
  ctl_held : Forall message_fits (held_piece (sys_loop s));
  ctl_flow : ∃ st lost, store (sys_conn s) !! ctl = Some st ∧ s_id st = ControlStreamID ∧ buf st = [] ∧
    Forall message_fits (omap id (readCh st)) ∧
    rd ++ omap id (readCh st) ++ held_piece (sys_loop s) ++ lost = tk ∧ (sys_loop s ≠ Exited → lost = []) }.

Lemma omap_id_wake s : omap id (readCh (wake s)) = omap id (readCh s).
Proof. unfold wake, try_send. cbn. case_decide; [|done]. by rewrite omap_app, app_nil_r. Qed.

(** What an operation does to the control stream, when it neither reads it nor brings a message for it. *)
Definition ctl_same (c c' : Conn) : Prop :=
  streams c' !! ControlStreamID = Some ctl ∧
  ∀ st, store c !! ctl = Some st → ∃ st', store c' !! ctl = Some st' ∧ s_id st' = s_id st ∧ buf st' = buf st ∧
    omap id (readCh st') = omap id (readCh st).

Lemma ctl_ok_same s c' l' tk rd :
  ctl_ok s tk rd → ctl_same (sys_conn s) c' →
  (held_piece l' = held_piece (sys_loop s) ∧ (sys_loop s = Exited → l' = Exited) ∨ l' = Exited) →
  (match l' with Accepting _ f => StreamID f ≠ ControlStreamID | _ => True end) →
  ctl_ok (mkSys c' l') tk rd.
Proof.
  intros [H1 H2 H3 (st & lost & Hst & Hid & Hb & Hf & E & Hl)] [T S] Hh Ha.
  destruct (S st Hst) as (st' & Hst' & I & B & Q). split; cbn [sys_conn sys_loop]; [done|done|..].
  - destruct Hh as [[-> _]| ->]; [done|constructor].
  - exists st'. destruct Hh as [[Eh He]| ->].
    + exists lost. rewrite I, B, Q, Eh. split_and!; try done. intros Hn. apply Hl. auto.
    + exists (held_piece (sys_loop s) ++ lost). rewrite I, B, Q. by split_and!.
Qed.

Lemma ctl_same_refl c : streams c !! ControlStreamID = Some ctl → ctl_same c c.
Proof. intros H. split; [done|]. intros st Hst. by exists st. Qed.

Lemma ctl_same_set c r st st' :
  streams c !! ControlStreamID = Some ctl → store c !! r = Some st → s_id st' = s_id st →
  (r = ctl → buf st' = buf st ∧ omap id (readCh st') = omap id (readCh st)) → ctl_same c (set_stream c r st').
Proof.
  intros Ht Hr Hid Hsame. split; [done|]. intros s0 H0. cbn. destruct (decide (r = ctl)) as [->|Hne].
  - exists st'. rewrite lookup_insert_eq. assert (s0 = st) as -> by congruence. destruct (Hsame eq_refl). by split_and!.
  - exists s0. by rewrite lookup_insert_ne.
Qed.

Lemma ctl_same_closeAll c : streams c !! ControlStreamID = Some ctl → ctl_same c (closeAll c).
Proof.
  intros Ht. destruct (closeAll_table c) as [E _]. split; [by rewrite E|]. intros st Hst.
  destruct (closeAll_is_Some c ctl) as [s' Hs']; [by exists st|]. exists s'. split; [done|].
  apply closeAll_lookup in Hs' as (s0 & H0 & [->|[-> _]]); assert (s0 = st) as -> by congruence; [done|].
  split_and!; [done|done|apply omap_id_wake].
Qed.

Lemma ctl_same_add c id : conn_ok c → streams c !! ControlStreamID = Some ctl → id ≠ ControlStreamID → ctl_same c (add_stream c id).
Proof.
  intros Hok Ht Hne. split; [cbn; by rewrite lookup_insert_ne|]. intros st Hst. exists st. cbn.
  rewrite lookup_insert_ne; [done|]. intros E. pose proof (fresh_ref c Hok). congruence.
Qed.

(** A frame for another stream is dispatched. *)
Lemma ctl_same_dispatch c r f st :
  streams c !! ControlStreamID = Some ctl → store c !! r = Some st → r ≠ ctl → StreamID f ≠ ControlStreamID →
  ctl_same c (fst (dispatch c r f)).
Proof.
  intros Ht Hr Hne Hf. unfold dispatch. case_bool_decide; [|by apply ctl_same_refl]. rewrite Hr. split; cbn.
  - by rewrite lookup_delete_ne.
  - intros s0 H0. exists s0. by rewrite lookup_insert_ne.
Qed.

Lemma held_dispatch_piece c r f : r ≠ ctl → held_piece (snd (dispatch c r f)) = [] ∧ held_piece (Accepting r f) = [].
Proof.
  intros Hne. unfold dispatch, held_piece. cbn. case_bool_decide; cbn; [done|]. by rewrite decide_False.
Qed.

(** A frame that the loop takes for another stream. *)
Lemma ctl_other c c1 r f st l' c' :
  streams c !! ControlStreamID = Some ctl → streams c1 = streams c → store c1 = store c → store c !! r = Some st → r ≠ ctl →
  StreamID f ≠ ControlStreamID → dispatch c1 r f = (c', l') →
  ctl_same c c' ∧ held_piece l' = [] ∧ match l' with Accepting _ _ | Exited => False | _ => True end.
Proof.
  intros Ht E1 E2 Hr Hne Hf Ed. destruct (held_dispatch_piece c1 r f Hne) as [D _].
  destruct (ctl_same_dispatch c1 r f st) as [T S]; [by rewrite E1|by rewrite E2|done|done|]. rewrite Ed in D, T, S. cbn [fst snd] in *.
  split_and!; [split; [done|by rewrite <- E2]|done|]. unfold dispatch in Ed. case_bool_decide; by injection Ed as _ <-.
Qed.

Lemma taken_held l : pieces_taken (match pending l with Some (r, data) => [EvTaken r data] | None => [] end) = held_piece l.
Proof. unfold held_piece, pieces_taken. destruct (pending l) as [[r d]|]; [|done]. cbn. by case_decide. Qed.

(** The loop takes a frame, or its read fails. *)
Lemma ctl_reading c input pick tk rd c' l' :
  sys_ok (mkSys c Reading) → ctl_ok (mkSys c Reading) tk rd → (∀ f, input = Ok f → control_ok f) →
  loop_step c Reading input pick = Some (c', l') → ctl_ok (mkSys c' l') (tk ++ held_piece l') rd.
Proof.
  intros [Hok _] Hc Hin H. pose proof Hc as [H1 _ _ (st & lost & Hst & Hid & Hb & Hf & E & Hlost)].
  cbn [sys_conn sys_loop loop_step] in *.
  destruct input as [f|e|]; [|injection H as <- <-; rewrite app_nil_r;
    apply (ctl_ok_same _ _ _ _ _ Hc); [by apply ctl_same_closeAll|by right|done]..].
  destruct (decide (StreamID f = ControlStreamID)) as [Hs|Hs].
  - destruct (Hin f eq_refl Hs) as [Hcl Hm]. rewrite Hs, H1 in H. unfold dispatch in H. rewrite bool_decide_false in H by done.
    injection H as <- <-. rewrite Hlost in E by done. change (held_piece Reading) with (@nil (list byte)) in E. rewrite !app_nil_r in E.
    split; cbn [sys_conn sys_loop]; [done|done|by apply Forall_singleton|]. exists st, []. rewrite app_nil_r.
    split_and!; try done. by rewrite <- E, <- app_assoc.
  - assert (∀ l1, held_piece l1 = [] → match l1 with Accepting _ g => StreamID g ≠ ControlStreamID | _ => True end →
      ctl_same c c' → l' = l1 → ctl_ok (mkSys c' l') (tk ++ held_piece l') rd) as Hd.
    { intros l1 Eh Ha Hsame ->. rewrite Eh, app_nil_r. apply (ctl_ok_same _ _ _ _ _ Hc); [done|left; by rewrite Eh|done]. }
    destruct (streams c !! StreamID f) as [r|] eqn:Hr.
    + destruct (ok_streams _ Hok _ _ Hr) as (st1 & Hst1 & Hid1). injection H as H.
      assert (r ≠ ctl) as Hne by (intros ->; congruence).
      destruct (ctl_other c c r f st1 l' c' H1 eq_refl eq_refl Hst1 Hne Hs H) as (D1 & D2 & D3).
      apply (Hd l'); [exact D2|by destruct l'|exact D1|reflexivity].
    + injection H as <- <-. assert (next_ref c ≠ ctl) as Hne by (intros Hn; pose proof (fresh_ref c Hok); congruence).
      apply (Hd (Accepting (next_ref c) f)); [|exact Hs|by apply ctl_same_add|reflexivity]. by apply (held_dispatch_piece c).
Qed.

(** A message that the loop holds enters the queue. *)
Lemma ctl_deliver c f st tk rd :
  ctl_ok (mkSys c (Delivering ctl f)) tk rd → store c !! ctl = Some st →
  ctl_ok (mkSys (set_stream c ctl (mkStream (s_id st) (readCh st ++ [Payload f]) (s_cap st) (buf st) (s_closed st))) Reading) tk rd.
Proof.
  intros [H1 _ H3 (st' & lost & Hst' & Hid & Hb & Hf & E & Hlost)] Hst. cbn [sys_conn sys_loop] in *.
  assert (st' = st) as -> by congruence. rewrite Hlost in E by done. change (held_piece (Delivering ctl f)) with [payload_bytes f] in *.
  pose proof (proj1 (Forall_singleton _ _) H3) as Hm. assert (Payload f = Some (payload_bytes f)) as Ep.
  { destruct Hm as [Hm _]. unfold payload_bytes in *. destruct (Payload f); [done|by apply Nat.lt_irrefl in Hm]. }
  split; cbn [sys_conn sys_loop]; [done|done|constructor|].
  eexists _, []. cbn. rewrite lookup_insert_eq. split; [reflexivity|]. cbn. rewrite Ep, omap_app. cbn. split_and!; try done.
  - by apply Forall_app.
  - by rewrite <- E, <- !app_assoc.
Qed.

(** The loop goes on with the frame that it holds. *)
Lemma ctl_holding c l input pick tk rd c' l' :
  sys_ok (mkSys c l) → ctl_ok (mkSys c l) tk rd → l ≠ Reading → loop_step c l input pick = Some (c', l') → ctl_ok (mkSys c' l') tk rd.
Proof.
  intros [Hok Hl] Hc Hnr H. pose proof Hc as [H1 H2 _ (st & lost & Hst & Hid & _)]. cbn [sys_conn sys_loop] in *.
  destruct l as [|r f|r f|]; cbn [loop_step loop_ok] in *; [congruence| | |discriminate]; destruct Hl as (st1 & Hst1 & Hid1).
  - assert (r ≠ ctl) as Hne by (intros ->; congruence).
    destruct (decide _); [destruct (closed c && pick)|destruct (closed c); [|done]]; injection H as H; simplify_eq;
      try (apply (ctl_ok_same _ _ _ _ _ Hc); [by apply ctl_same_refl|by right|done]).
    destruct (ctl_other c (set_acceptCh c (acceptCh c ++ [r])) r f st1 l' c' H1 eq_refl eq_refl Hst1 Hne H2 H) as (D1 & D2 & D3).
    destruct (held_dispatch_piece c r f Hne) as [_ D4].
    apply (ctl_ok_same _ _ _ _ _ Hc); [done|left; cbn [sys_loop]; by rewrite D2, D4|by destruct l'].
  - rewrite Hst1 in H. cbn [mbind option_bind] in H.
    destruct (decide _) as [Hroom|]; [destruct (closed c && pick)|destruct (closed c); [|done]]; injection H as H; simplify_eq;
      try (apply (ctl_ok_same _ _ _ _ _ Hc); [by apply ctl_same_refl|by right|done]).
    destruct (decide (r = ctl)) as [->|Hne]; [by apply (ctl_deliver c f)|].
    apply (ctl_ok_same _ _ _ _ _ Hc); [by apply (ctl_same_set c r st1)| |done].
    left. unfold held_piece. cbn. by rewrite decide_False.
Qed.

Lemma ctl_loop s input pick tk rd :
  sys_ok s → ctl_ok s tk rd → (sys_loop s = Reading → ∀ f, input = Ok f → control_ok f) →
  let r := sys_step s (OpLoop input pick) in
  ctl_ok (fst r) (tk ++ pieces_taken (snd r)) (rd ++ pieces_read (snd r)).
Proof.
  destruct s as [c l]. intros Hok Hc Hin. unfold sys_step. cbn [sys_conn sys_loop] in *.
  destruct (loop_step c l input pick) as [[c' l']|] eqn:H; [|by rewrite !app_nil_r]. cbn [fst snd].
  assert (l = Reading ∨ l ≠ Reading) as [->|Hl] by (destruct l; auto).
  - rewrite taken_held. replace (pieces_read _) with (@nil (list byte)) by by destruct (pending l') as [[]|].
    rewrite app_nil_r. eapply ctl_reading; [done|done|by apply Hin|done].
  - assert (match l, pending l' with Reading, Some (r, data) => [EvTaken r data] | _, _ => [] end = []) as -> by by destruct l.
    cbn. rewrite !app_nil_r. by eapply ctl_holding.
Qed.

(** A read of the control stream gives the next message, whole. *)
Lemma ctl_read c l tk rd c' res :
  ctl_ok (mkSys c l) tk rd → Stream_Read c (Some ctl) controlBuffer = Some (c', res) →
  ctl_ok (mkSys c' l) tk (rd ++ match res with Ok d => [d] | _ => [] end).
Proof.
  intros [H1 H2 H3 (st & lost & Hst & Hid & Hb & Hf & E & Hlost)] H. cbn [sys_conn sys_loop] in *.
  apply Stream_Read_spec in H as [(Hn & _)|(s & s' & Hs & -> & Hid' & _ & _ & Hcase)]; [congruence|].
  assert (s = st) as -> by congruence. split; cbn [sys_conn sys_loop]; [done|done|done|].
  exists s', lost. cbn. rewrite lookup_insert_eq, Hid'. split; [done|]. split; [done|].
  destruct Hcase as [(_ & Hne & _)|[(d & Eq & _ & -> & Hb')|(Eq & _ & Hb' & ->)]]; [done|..].
  - rewrite Eq in Hf, E. cbn in Hf, E. apply Forall_cons in Hf as [[_ Hd] Hf]. rewrite Hb', take_ge, drop_ge by done.
    split_and!; try done. by rewrite <- E, <- !app_assoc.
  - rewrite Eq in Hf, E. cbn in Hf, E. rewrite app_nil_r. by split_and!.
Qed.

(** The other operations of the users. *)
Lemma ctl_user c l o :
  conn_ok c → streams c !! ControlStreamID = Some ctl → (∀ input pick, o ≠ OpLoop input pick) → (∀ n, o ≠ OpRead ctl n) →
  let r := sys_step (mkSys c l) o in
  ctl_same c (sys_conn (fst r)) ∧ sys_loop (fst r) = l ∧ pieces_taken (snd r) = [] ∧ pieces_read (snd r) = [].
Proof.
  intros Hok Ht Ho Hr. pose proof (ctl_same_refl c Ht) as Hsame.
  destruct o as [input pick| |pick|r n|r ok|]; [by destruct (Ho input pick)|..]; unfold sys_step; cbn [sys_conn sys_loop].
  - split_and!; try done. split.
    + cbn. unfold OpenStream. destruct (closed c); [done|].
      destruct (open_loop_spec 1000 c Hok) as [(k & c0 & _ & Hn & _ & _ & E0 & ->)|(_ & _ & -> & _)]; [|done].
      cbn. rewrite E0. cbn. rewrite lookup_insert_ne; [done|]. intros E. rewrite E in Hn. congruence.
    + intros st Hst. exists st. split; [by apply open_frame|done].
  - unfold AcceptStream. destruct (acceptCh c), (closed c && pick), (closed c); cbn; by split_and!.
  - destruct (Stream_Read c (Some r) n) as [[c' res]|] eqn:E; [|by split_and!].
    assert (r ≠ ctl) as Hne by (intros ->; by destruct (Hr n)).
    assert (ctl_same c c') as Hc'.
    { apply Stream_Read_spec in E as [(_ & -> & _)|(s & s' & Hs & -> & Hid & _)]; [done|]. by apply (ctl_same_set c r s). }
    destruct res; cbn; (split_and!; [done|done|done|]); try done. unfold pieces_read. cbn. by rewrite decide_False.
  - unfold Stream_Close. cbn [mbind option_bind]. destruct (store c !! r) as [s|] eqn:Hs; [|by split_and!]. cbn.
    destruct (s_closed s); [by split_and!|].
    assert (ctl_same c (set_stream c r (mkStream (s_id s) (readCh s) (s_cap s) (buf s) true))) as Hc' by by apply (ctl_same_set c r s).
    destruct ok; by split_and!.
  - by split_and!.
Qed.

Lemma ctl_step s o tk rd :
  sys_ok s → ctl_ok s tk rd → control_read o →
  (∀ f pick, o = OpLoop (Ok f) pick → sys_loop s = Reading → control_ok f) →
  let r := sys_step s o in
  ctl_ok (fst r) (tk ++ pieces_taken (snd r)) (rd ++ pieces_read (snd r)).
Proof.
  intros Hok Hc Hr Hin.
  assert ((∀ input pick, o ≠ OpLoop input pick) → (∀ n, o ≠ OpRead ctl n) →
    ctl_ok (fst (sys_step s o)) (tk ++ pieces_taken (snd (sys_step s o))) (rd ++ pieces_read (snd (sys_step s o)))) as Huser.
  { intros H1 H2. destruct s as [c l].
    destruct (ctl_user c l o (proj1 Hok) (ctl_table _ _ _ Hc) H1 H2) as (Hs & El & -> & ->). rewrite !app_nil_r.
    destruct (fst (sys_step (mkSys c l) o)) as [c' l']. cbn [sys_conn sys_loop] in *. subst l'.
    apply (ctl_ok_same _ _ _ _ _ Hc); [done|by left|apply Hc]. }
  destruct o as [input pick| |pick|r n|r ok|]; try by apply Huser.
  - apply ctl_loop; [done|done|]. intros El f ->. by apply (Hin f pick).
  - destruct (decide (r = ctl)) as [->|Hne]; [|apply Huser; [done|by intros ? [= ? ?]]].
    rewrite (Hr eq_refl). destruct s as [c l]. unfold sys_step. cbn [sys_conn sys_loop].
    destruct (Stream_Read c (Some ctl) controlBuffer) as [[c' res]|] eqn:E; [|by rewrite !app_nil_r].
    pose proof (ctl_read _ _ _ _ _ _ Hc E) as H. by destruct res; cbn; rewrite ?app_nil_r in *.
Qed.

(** ** The pipe *)

Lemma pieces_taken_app a b : pieces_taken (a ++ b) = pieces_taken a ++ pieces_taken b.
Proof. apply omap_app. Qed.

Lemma pieces_read_app a b : pieces_read (a ++ b) = pieces_read a ++ pieces_read b.
Proof. apply omap_app. Qed.

Lemma messages_snoc fs f : messages (fs ++ [f]) = messages fs ++ messages [f].
Proof. apply omap_app. Qed.

Lemma messages_one f : messages [f] = if decide (StreamID f = ControlStreamID) then [payload_bytes f] else [].
Proof. unfold messages. cbn. by case_decide. Qed.

Lemma control_norm f : control_ok f → control_ok (frame_norm f).
Proof. unfold control_ok. by rewrite payload_norm. Qed.

(** An operation that takes no frame off the wire takes no message. *)
Lemma quiet_takes p o : quiet_op p o → pieces_taken (snd (sys_step (rsys p) o)) = [].
Proof.
  intros [_ Hq]. destruct p as [w [c l]]. unfold sys_step. cbn [rsys sys_conn sys_loop] in *.
  destruct o as [input pick| |pick|r n|r ok|]; [|done|by destruct (AcceptStream c pick) as [[]|]
    |by destruct (Stream_Read c (Some r) n) as [[? []]|]|done|done].
  destruct (loop_step c l input pick) as [[c' l']|] eqn:E; [|done]. cbn [snd]. destruct l; try done.
  cbn [loop_step] in E. destruct input as [f|e|]; [by destruct (Hq eq_refl f)|by injection E as <- <-..].
Qed.

(** A frame off the wire brings the message that it carries. *)
Lemma frame_takes s f pick tk rd :
  sys_ok s → ctl_ok s tk rd → sys_loop s = Reading → control_ok f →
  pieces_taken (snd (sys_step s (OpLoop (Ok f) pick))) = messages [f].
Proof.
  intros [Hok _] Hc El Hf. pose proof (ctl_table _ _ _ Hc) as Ht. destruct s as [c l]. cbn [sys_conn sys_loop] in *. subst l.
  unfold sys_step. cbn [sys_conn sys_loop].
  destruct (loop_step c Reading (Ok f) pick) as [[c' l']|] eqn:E.
  2: { cbn [loop_step] in E. by destruct (streams c !! StreamID f). }
  destruct (reading_step _ _ _ _ _ Hok E) as (r & Er & _ & Hcase). cbn [snd]. rewrite Er. unfold take_event, messages. cbn.
  assert (r = ctl ↔ StreamID f = ControlStreamID) as Hiff.
  { destruct Hc as [_ _ _ (st & _ & Hst & _)]. cbn in Hst.
    destruct Hcase as [(Hr & _)|(Hn & Hno & _)]; split; intros E0;
      [subst r; by eapply table_inj|rewrite E0 in Hr; congruence|congruence|rewrite E0 in Hn; congruence]. }
  case_bool_decide as Hcl; cbn.
  - destruct (decide (StreamID f = ControlStreamID)) as [Hs|]; [by destruct (Hf Hs)|done].
  - destruct (decide (r = ctl)), (decide (StreamID f = ControlStreamID)); tauto.
Qed.

Record control_pipe (done : list Frame) (p : Pipe) (evs : list event) : Prop := {
  cp_pieces : pieces_taken evs = messages done;
  cp_ctl : ctl_ok (rsys p) (pieces_taken evs) (pieces_read evs) }.

Definition control_op (o : pop) : Prop := match o with PUser o => control_read o | _ => True end.

Lemma control_step done rest p evs o :
  pipe_ok done rest p evs → control_pipe done p evs → Forall frame_ok rest → Forall control_ok rest → control_op o →
  ∃ done' rest', done' ++ rest' = done ++ rest ∧ Forall frame_ok rest' ∧ Forall control_ok rest' ∧
    pipe_ok done' rest' (fst (pipe_step p o)) (evs ++ snd (pipe_step p o)) ∧
    control_pipe done' (fst (pipe_step p o)) (evs ++ snd (pipe_step p o)).
Proof.
  intros Hp [C1 C2] Hrest Hctl Ho. pose proof (p_sys _ _ _ _ Hp) as Hok.
  destruct (pipe_step_cases rest p o (p_wire _ _ _ _ Hp) Hrest)
    as [->|[(o' & Hq & -> & Hread)|(f & rest' & pick & -> & Hf & Hr & El & ->)]].
  - exists done, rest. by rewrite app_nil_r.
  - exists done, rest. unfold feed. pose proof (quiet_takes p o' Hq) as Hn.
    assert (ctl_ok (fst (sys_step (rsys p) o')) (pieces_taken evs ++ pieces_taken (snd (sys_step (rsys p) o')))
      (pieces_read evs ++ pieces_read (snd (sys_step (rsys p) o')))) as Hc.
    { apply ctl_step; [done|done| |].
      - destruct o' as [| | |r n| |]; try done. rewrite (Hread r n eq_refl) in Ho. exact Ho.
      - intros f pick -> El. by destruct Hq as [_ Hq], (Hq El f). }
    destruct (sys_step (rsys p) o') as [s' ev] eqn:Hs. cbn [fst snd rsys] in *.
    split_and!; [done..|by apply (quiet_op_ok _ _ _ _ o')|]. split; rewrite ?pieces_read_app, pieces_taken_app; [|done].
    by rewrite Hn, app_nil_r.
  - apply Forall_cons in Hctl as [Hcf Hctl]. exists (done ++ [f]), rest'. unfold feed.
    pose proof (frame_takes (rsys p) (frame_norm f) pick _ _ Hok C2 El (control_norm _ Hcf)) as Ht.
    pose proof (ctl_loop (rsys p) (Ok (frame_norm f)) pick _ _ Hok C2) as Hc. cbv zeta in Hc.
    assert (messages [frame_norm f] = messages [f]) as Em.
    { by rewrite !messages_one, payload_norm. }
    destruct (sys_step _ _) as [s' ev] eqn:Hs. cbn [fst snd rsys] in *.
    split_and!; [by rewrite <- app_assoc|done|done|by apply (reading_ok _ _ _ p _ pick)|].
    split; cbn [rsys]; rewrite ?pieces_read_app, pieces_taken_app.
    + by rewrite C1, Ht, Em, messages_snoc.
    + apply Hc. intros _ g [= <-]. by apply control_norm.
Qed.

Lemma control_run ops done rest p evs :
  pipe_ok done rest p evs → control_pipe done p evs → Forall frame_ok rest → Forall control_ok rest → Forall control_op ops →
  ∃ done' rest', done' ++ rest' = done ++ rest ∧
    pipe_ok done' rest' (fst (pipe_run p ops)) (evs ++ snd (pipe_run p ops)) ∧
    control_pipe done' (fst (pipe_run p ops)) (evs ++ snd (pipe_run p ops)).
Proof.
  intros Hp Hc Hr Hk Hops. revert done rest p evs Hp Hc Hr Hk. induction Hops as [|o ops Ho _ IH]; intros done rest p evs Hp Hc Hr Hk; cbn [pipe_run].
  { exists done, rest. by rewrite app_nil_r. }
  destruct (control_step _ _ _ _ o Hp Hc Hr Hk Ho) as (d1 & r1 & E1 & Hr1 & Hk1 & Hp1 & Hc1).
  destruct (pipe_step p o) as [p1 ev1]. cbn [fst snd] in *.
  destruct (IH d1 r1 p1 (evs ++ ev1) Hp1 Hc1 Hr1 Hk1) as (d2 & r2 & E2 & Hp2 & Hc2).
  destruct (pipe_run p1 ops) as [p2 ev2]. cbn [fst snd] in *. exists d2, r2. by rewrite E2, app_assoc.
Qed.

Lemma control_start sent : control_pipe [] (pipe_start sent) [].
Proof.
  split; [done|]. split; cbn; [done|done|constructor|]. eexists _, []. by rewrite lookup_singleton_eq.
Qed.

(** The message that a write of the control stream sends. *)
Lemma control_write c s m write_ok f res :
  conn_ok c → store c !! ctl = Some s → s_id s = ControlStreamID → message_fits m →
  Stream_Write c (Some ctl) m write_ok = (Some f, res) →
  res = Ok (length m) ∧ frame_ok f ∧ control_ok f ∧ messages [f] = [m].
Proof.
  intros Hok Hs Hid Hm H. destruct (written_frame _ _ _ _ _ _ _ Hok Hs H) as (Hf & -> & _).
  split; [done|]. split; [done|]. revert H. unfold Stream_Write. cbn [mbind option_bind]. rewrite Hs.
  destruct (s_closed s); [done|]. destruct (_ <? _)%Z; [done|]. destruct write_ok; [|done]. intros [= <-].
  unfold control_ok, messages. cbn. rewrite Hid. by split.
Qed.

(** The messages waiting in the queue of the control stream. *)
Definition queued_messages (p : Pipe) : list (list byte) :=
  match store (pconn p) !! ctl with Some s => omap id (readCh s) | None => [] end.

(** ** Properties *)

(** C18: control messages arrive whole, one to a read. A stream is a queue of bytes, and nothing on the wire says
    where a control message ends; but as long as no message of the control stream is longer than the reader's
    buffer of 64 KiB (nor empty), then whatever the other streams of the connection carry and however they are
    used, the reads of the control stream give exactly the messages that were sent, in their order: those read,
    then those queued, then the one the loop holds are the messages of the frames taken off the wire, and only a
    connection that has ended can miss the last of them. *)
Theorem control_messages_whole sent ops :
  Forall frame_ok sent → Forall control_ok sent → Forall control_op ops →
  let '(p, evs) := pipe_run (pipe_start sent) ops in
  ∃ done rest lost, sent = done ++ rest ∧ wire p = wire_of rest ∧
    pieces_read evs ++ queued_messages p ++ held_piece (sys_loop (rsys p)) ++ lost = messages done ∧
    (sys_loop (rsys p) ≠ Exited → lost = []).
Proof.
  intros Hs Hk Ho. destruct (control_run ops _ _ _ _ (pipe_start_ok sent) (control_start sent) Hs Hk Ho) as (done & rest & E & Hp & [C1 C2]).
  destruct (pipe_run (pipe_start sent) ops) as [p evs]. cbn [fst snd app] in *.
  destruct C2 as [_ _ _ (st & lost & Hst & _ & _ & _ & C & Hl)]. exists done, rest, lost.
  unfold queued_messages, pconn. rewrite Hst, <- C1. split_and!; [done|apply Hp|done|done].
Qed.

(** Two messages, with data of another stream between them. *)
Definition two_messages : list Frame :=
  [mkFrame FrameData 0 (Some [x68; x69]); mkFrame FrameData 1 (Some [x6f]); mkFrame FrameData 0 (Some [x21])].

Definition two_messages_ops : list pop :=
  [PLoop false; PLoop false; PLoop false; PLoop false; PLoop false; PUser (OpRead 0 controlBuffer); PLoop false;
   PUser (OpAccept false); PUser (OpRead 1 1); PLoop false].

Lemma fits_buffer m : (0 <? Z.of_nat (length m)) && (Z.of_nat (length m) <=? 65536) = true → message_fits m.
Proof. intros [H1%Z.ltb_lt H2%Z.leb_le]%andb_prop. unfold message_fits, controlBuffer. lia. Qed.

Lemma control_messages_whole_witness :
  let '(p, evs) := pipe_run (pipe_start two_messages) two_messages_ops in
  ∃ done rest lost, two_messages = done ++ rest ∧ wire p = wire_of rest ∧
    pieces_read evs ++ queued_messages p ++ held_piece (sys_loop (rsys p)) ++ lost = messages done ∧
    (sys_loop (rsys p) ≠ Exited → lost = []).
Proof.
  apply (control_messages_whole two_messages two_messages_ops).
  - repeat constructor; unfold fits, maxFrameSize; cbn; lia.
  - unfold two_messages. rewrite !Forall_cons, Forall_nil. split_and!; [..|done];
      (intros Hid; first [discriminate Hid|split; [discriminate|by apply fits_buffer]]).
  - repeat constructor; cbn; done.
Defined.

(** A longer message is read in pieces, and each piece is dispatched as a message. *)
Lemma read_in_two c r s m q n :
  store c !! r = Some s → buf s = [] → readCh s = Some m :: q → (n < length m ≤ n + n)%nat →
  ∃ c1 c2, Stream_Read c (Some r) n = Some (c1, Ok (take n m)) ∧ Stream_Read c1 (Some r) n = Some (c2, Ok (drop n m)) ∧
    ∃ s2, store c2 !! r = Some s2 ∧ buf s2 = [] ∧ readCh s2 = q.
Proof.
  intros Hs Hb Hq Hm. set (s1 := mkStream (s_id s) q (s_cap s) (drop n m) (s_closed s)).
  exists (set_stream c r s1), (set_stream (set_stream c r s1) r (mkStream (s_id s) q (s_cap s) [] (s_closed s))).
  assert (length (drop n m) = (length m - n)%nat) as El by apply length_drop. split_and!.
  - unfold Stream_Read. cbn [mbind option_bind]. rewrite Hs. cbn. rewrite Hb, decide_False, Hq, decide_True by (cbn; lia). done.
  - unfold Stream_Read. cbn [mbind option_bind set_stream store]. rewrite lookup_insert_eq. cbn.
    rewrite decide_True, take_ge, (drop_ge (drop n m)) by lia. done.
  - eexists. cbn. by rewrite lookup_insert_eq.
Qed.

Lemma large_message_cut c s m q :
  store c !! ctl = Some s → buf s = [] → readCh s = Some m :: q → (controlBuffer < length m ≤ controlBuffer + controlBuffer)%nat →
  ∃ c1 c2, Stream_Read c (Some ctl) controlBuffer = Some (c1, Ok (take controlBuffer m)) ∧
    Stream_Read c1 (Some ctl) controlBuffer = Some (c2, Ok (drop controlBuffer m)).
Proof. intros Hs Hb Hq Hm. destruct (read_in_two c ctl s m q controlBuffer Hs Hb Hq Hm) as (c1 & c2 & H1 & H2 & _). by exists c1, c2. Qed.

(** A push of 1130 peers is longer than the buffer, even without a signature. *)
Lemma long_push msg : (1130 ≤ length (Peers msg))%nat → (controlBuffer < length (EncodeGossipPush msg))%nat.
Proof.
  intros Hn. unfold EncodeGossipPush. cbn [length]. rewrite length_app, length_be_put.
  assert (∀ l, (58 * length l ≤ length (concat (map encode_peer l)))%nat) as Hl.
  { intros l. induction l as [|p l IH]; [cbn; lia|]. cbn [map concat length]. rewrite length_app, length_encode_peer. lia. }
  specialize (Hl (Peers msg)). unfold controlBuffer. lia.
Qed.
