(* ===== verification/Tunnel.v ===== *)
(** * A tunnel with its data ([forward/tcp_relay.go] on [transport/conn.go])

    The frames of one stream among those of a connection: the header, what the client sends,
    and the mark of the end; the exit node that reads them ([HandleIncomingRelay] and [splice]),
    interleaved with the loop and all other users of the connection ([Pipe]). *)

From S2P Require Import Prelude Bytes Net NetText Wire WireForward Frame Conn SocksServer TCPRelay Pipe.
From stdpp Require Import options.

(** ** What each stream was sent

    [Pipe.pipe_ok] knows the streams that are in the table. A stream that a close frame has
    taken out of it keeps what it had then. *)

(** The stream [r] with identifier [id] has left the table. *)
Definition closed_with (done : list Frame) (id : Z) (data : list byte) : Prop :=
  ∃ d1 f d2, done = d1 ++ f :: d2 ∧ StreamID f = id ∧ Type_ f = FrameClose ∧ data = data_for id d1.

Definition refs_ok (done : list Frame) (p : Pipe) (evs : list event) : Prop :=
  (∀ r s, store (pconn p) !! r = Some s →
     streams (pconn p) !! s_id s = Some r ∨ closed_with done (s_id s) (taken r evs)) ∧
  match sys_loop (rsys p) with
  | Accepting _ f => Type_ f = FrameClose → closed_with done (StreamID f) []
  | _ => True
  end.

(** A step keeps the identifiers of the streams, and what it adds is in the table. *)
Definition ids_kept (c c' : Conn) : Prop :=
  ∀ r s', store c' !! r = Some s' →
    (∃ s, store c !! r = Some s ∧ s_id s = s_id s') ∨ store c !! r = None ∧ streams c' !! s_id s' = Some r.

Lemma ids_kept_refl c : ids_kept c c.
Proof. intros r s Hr. left. by exists s. Qed.

Lemma ids_kept_store c c' : store c' = store c → ids_kept c c'.
Proof. intros E r s. rewrite E. intros Hr. left. by exists s. Qed.

Lemma ids_kept_set c r s s' : store c !! r = Some s → s_id s' = s_id s → ids_kept c (set_stream c r s').
Proof.
  intros Hr Hid u s1. cbn. intros [[<- <-]|[_ Hu]]%lookup_insert_Some; left; [by exists s|by exists s1].
Qed.

Lemma ids_kept_dispatch c c0 r f s :
  store c0 = store c → store c !! r = Some s → ids_kept c (fst (dispatch c0 r f)).
Proof.
  intros E Hr. unfold dispatch. rewrite E, Hr. case_bool_decide; [|by apply ids_kept_store].
  intros u s1. cbn. intros [[<- <-]|[_ Hu]]%lookup_insert_Some; left; [by exists s|by exists s1].
Qed.

Lemma loop_ids c l input pick c' l' :
  sys_ok (mkSys c l) → loop_step c l input pick = Some (c', l') → ids_kept c c'.
Proof.
  intros [Hok Hl] H. destruct l as [|r f|r f|]; cbn [loop_step loop_ok sys_conn sys_loop] in *; [| | |done].
  - destruct input as [f|e|].
    + destruct (streams c !! StreamID f) as [r|] eqn:Hr; injection H as H.
      * destruct (ok_streams _ Hok _ _ Hr) as (s & Hs & _).
        pose proof (ids_kept_dispatch c c r f s eq_refl Hs) as Hd. by rewrite H in Hd.
      * simplify_eq. intros u s1. cbn. intros [[<- <-]|[_ Hu]]%lookup_insert_Some; [right|left; by exists s1].
        split; [by apply fresh_ref|]. apply lookup_insert_eq.
    + injection H as <- _. intros r s (s0 & H0 & Hc)%closeAll_lookup. left. exists s0. split; [done|].
      by destruct Hc as [->|[-> _]].
    + injection H as <- _. intros r s (s0 & H0 & Hc)%closeAll_lookup. left. exists s0. split; [done|].
      by destruct Hc as [->|[-> _]].
  - destruct Hl as (s & Hs & _).
    destruct (decide _); [destruct (closed c && pick)|destruct (closed c); [|done]]; injection H as H;
      simplify_eq; try by apply ids_kept_refl.
    pose proof (ids_kept_dispatch c (set_acceptCh c (acceptCh c ++ [r])) r f s eq_refl Hs) as Hd. by rewrite H in Hd.
  - destruct Hl as (s & Hs & _). rewrite Hs in H. cbn [mbind option_bind] in H.
    destruct (decide _); [destruct (closed c && pick)|destruct (closed c); [|done]]; injection H as H;
      simplify_eq; try by apply ids_kept_refl. by apply (ids_kept_set _ _ s).
Qed.

Lemma sys_step_ids s o : sys_ok s → ids_kept (sys_conn s) (sys_conn (fst (sys_step s o))).
Proof.
  destruct s as [c l]. intros Hok. pose proof Hok as [Hc _]. unfold sys_step. cbn [sys_conn sys_loop] in *.
  destruct o as [input pick| |pick|r n|r ok|].
  - destruct (loop_step c l input pick) as [[c' l']|] eqn:E; [|apply ids_kept_refl]. by eapply loop_ids.
  - unfold OpenStream. destruct (closed c); [apply ids_kept_refl|].
    destruct (open_loop_spec 1000 c Hc) as [(k & c0 & _ & _ & _ & Hc0 & E0 & ->)|(_ & _ & E & _)].
    + pose proof (fresh_ref _ Hc0) as Hf. rewrite E0 in Hf |- *. intros u s1. cbn in *.
      intros [[<- <-]|[_ Hu]]%lookup_insert_Some; [right|left; by exists s1]. split; [done|]. apply lookup_insert_eq.
    + cbn [fst sys_conn]. rewrite E. by apply ids_kept_store.
  - unfold AcceptStream. destruct (acceptCh c), (closed c && pick), (closed c); by apply ids_kept_store.
  - destruct (Stream_Read c (Some r) n) as [[c' res]|] eqn:E; [|apply ids_kept_refl].
    assert (ids_kept c c') as H; [|by destruct res].
    apply Stream_Read_spec in E as [(_ & -> & _)|(s & s' & Hs & -> & Hid & _)]; [apply ids_kept_refl|].
    by apply (ids_kept_set _ _ s).
  - unfold Stream_Close. cbn [mbind option_bind]. destruct (store c !! r) as [s|] eqn:Hs; [|apply ids_kept_refl].
    cbn. destruct (s_closed s), ok; try apply ids_kept_refl; by apply (ids_kept_set _ _ s).
  - by apply ids_kept_store.
Qed.

Lemma closed_with_snoc done f id data : closed_with done id data → closed_with (done ++ [f]) id data.
Proof.
  intros (d1 & g & d2 & -> & H). exists d1, g, (d2 ++ [f]). by rewrite <- app_assoc.
Qed.

(** A step that takes no bytes off the wire: a stream that leaves the table has been closed. *)
Lemma refs_quiet done p evs w s' ev :
  refs_ok done p evs → ids_kept (pconn p) (sys_conn s') → (∀ r, taken r ev = []) →
  (∀ id r, streams (pconn p) !! id = Some r →
     streams (sys_conn s') !! id = Some r ∨ closed_with done id (taken r evs)) →
  (match sys_loop s' with Accepting _ _ => sys_loop s' = sys_loop (rsys p) | _ => True end) →
  refs_ok done (mkPipe w s') (evs ++ ev).
Proof.
  intros [H1 H2] Hid Ht Htab Hl. split; cbn [rsys].
  - intros r s Hr. rewrite taken_app, Ht, app_nil_r. destruct (Hid r s Hr) as [(s0 & H0 & <-)|[_ ?]]; [|by left].
    destruct (H1 r s0 H0) as [Hs|?]; [|by right]. by apply Htab.
  - destruct (sys_loop s'); try done. by rewrite <- Hl in H2.
Qed.

Lemma refs_quiet_op done rest p evs o s' ev :
  pipe_ok done rest p evs → refs_ok done p evs → quiet_op p o → sys_step (rsys p) o = (s', ev) →
  refs_ok done (mkPipe (wire p) s') (evs ++ ev).
Proof.
  intros Hp Hr Hq Hs. pose proof (p_sys _ _ _ _ Hp) as Hsys. pose proof Hsys as [Hok _].
  pose proof (sys_step_ids (rsys p) o Hsys) as Hid. rewrite Hs in Hid. cbn [fst] in Hid.
  assert ((∀ input pick, o ≠ OpLoop input pick) → refs_ok done (mkPipe (wire p) s') (evs ++ ev)) as Huser.
  { intros Hu. destruct (user_step (pconn p) (sys_loop (rsys p)) o Hok Hu) as (U1 & U2 & U3 & U4 & U5).
    apply (refs_quiet done p); try done; unfold pconn in *; destruct (rsys p) as [c l];
      cbn [sys_conn sys_loop] in *; rewrite Hs in *; cbn [fst snd] in *; [done| |by rewrite U1; destruct l].
    intros id r Hr0. left. destruct (streams (sys_conn s') !! id) as [r'|] eqn:E; [|by rewrite (U5 _ E) in Hr0].
    destruct (U4 _ _ E) as [?|[? _]]; congruence. }
  destruct o as [input pick| |pick|r n|r ok|]; [|by apply Huser..]. destruct Hq as [_ Hq].
  revert Hs. unfold sys_step, pconn in *. destruct (loop_step _ _ _ _) as [[c' l']|] eqn:E.
  2: { intros [= <- <-]. rewrite app_nil_r. by destruct p as [w s]. }
  assert (sys_loop (rsys p) = Reading ∨ sys_loop (rsys p) ≠ Reading) as [El|Hl] by (destruct (sys_loop (rsys p)); auto).
  - rewrite El in E |- *. specialize (Hq El). cbn [loop_step] in E.
    destruct (closeAll_table (sys_conn (rsys p))) as [T1 _].
    destruct input as [f|e|]; [by destruct (Hq f)|..]; injection E as <- <-; intros [= <- <-];
      (apply (refs_quiet done p); try done; unfold pconn; cbn [sys_conn]; rewrite T1; by left).
  - assert (match sys_loop (rsys p), pending l' with
            | Reading, Some (r, data) => [EvTaken r data] | _, _ => [] end = []) as -> by by destruct (sys_loop (rsys p)).
    intros [= <- <-]. destruct (holding_step _ _ _ _ _ _ E Hl) as (G1 & G2 & G3 & G4).
    apply (refs_quiet done p); try done; unfold pconn; cbn [sys_conn sys_loop]; [|by destruct l'].
    intros id r Hr0. destruct (streams c' !! id) as [r'|] eqn:E'; [left; rewrite (G2 _ _ E') in Hr0; congruence|right].
    destruct (G3 _ E') as [?|(r1 & f & E1 & E2 & ->)]; [congruence|]. destruct Hr as [_ Hc]. rewrite E1 in Hc.
    rewrite (p_table _ _ _ _ Hp _ _ Hr0). pose proof (p_closing _ _ _ _ Hp) as Hc'. rewrite E1 in Hc'.
    rewrite (Hc' E2). by apply Hc.
Qed.

(** Taking the frame [f] off the wire. *)
Lemma refs_reading done f rest p evs pick s' ev :
  pipe_ok done (f :: rest) p evs → refs_ok done p evs → sys_loop (rsys p) = Reading →
  sys_step (rsys p) (OpLoop (Ok (frame_norm f)) pick) = (s', ev) →
  refs_ok (done ++ [f]) (mkPipe (wire_of rest) s') (evs ++ ev).
Proof.
  intros Hp [H1 H2] El Hs. pose proof (p_sys _ _ _ _ Hp) as Hsys. pose proof Hsys as [Hok _].
  pose proof (sys_step_ids (rsys p) (OpLoop (Ok (frame_norm f)) pick) Hsys) as Hid. rewrite Hs in Hid.
  unfold sys_step in Hs. rewrite El in Hs.
  destruct (loop_step _ _ _ _) as [[c' l']|] eqn:E;
    [|cbn [loop_step] in E; by destruct (streams (sys_conn (rsys p)) !! _)].
  destruct (reading_step _ _ _ _ _ Hok E) as (r & Hev & Hst & Hcase). injection Hs as <- <-. rewrite Hev.
  assert (∀ r', r' ≠ r → taken r' (evs ++ take_event r (frame_norm f)) = taken r' evs) as Et.
  { intros r' Hne. rewrite taken_app, taken_take, decide_False, app_nil_r by congruence. done. }
  assert (∀ id d, d = data_for id done → StreamID f = id → Type_ f = FrameClose → closed_with (done ++ [f]) id d) as Hcl.
  { intros id d -> Hi Hc. by exists done, f, []. }
  split; cbn [rsys sys_loop].
  - intros r' s' Hr'. unfold pconn in *. cbn [rsys sys_conn] in Hr' |- *.
    destruct (Hid r' s' Hr') as [(s0 & H0 & <-)|[_ ?]]; [|by left].
    destruct Hcase as [(Hr0 & Hm & _)|(Hr0 & Hn & Hm & _)]; cbn [StreamID Type_ frame_norm] in *.
    + destruct (decide (r' = r)) as [->|Hne].
      * destruct (ok_streams _ Hok _ _ Hr0) as (s1 & Hs1 & Hi). assert (s_id s0 = StreamID f) as Hi0 by congruence.
        rewrite Hm, Hi0. case_bool_decide as Hc; [right|by left].
        assert (taken r (take_event r (frame_norm f)) = []) as Et0 by (unfold take_event; cbn; by rewrite bool_decide_true).
        rewrite taken_app, Et0, app_nil_r. apply Hcl; [|done|done]. by apply (p_table _ _ _ _ Hp).
      * rewrite Et by done. destruct (H1 r' s0 H0) as [Hs0|?]; [|right; by apply closed_with_snoc].
        rewrite Hm. case_bool_decide as Hc; [|by left].
        destruct (decide (s_id s0 = StreamID f)) as [Hi|Hi]; [rewrite Hi in Hs0; congruence|].
        left. by rewrite lookup_delete_ne.
    + rewrite Hm. assert (r' ≠ r) as Hne by (intros ->; congruence). rewrite Et by done.
      destruct (H1 r' s0 H0) as [Hs0|?]; [left|right; by apply closed_with_snoc].
      destruct (decide (s_id s0 = StreamID f)) as [Hi|Hi]; [rewrite Hi in Hs0; congruence|].
      by rewrite lookup_insert_ne.
  - destruct Hcase as [(_ & _ & [-> | ->])|(Hr0 & _ & _ & ->)]; [done..|]. cbn [StreamID Type_ frame_norm] in *.
    intros Hc. apply Hcl; [|done|done]. symmetry. by apply (p_absent _ _ _ _ Hp).
Qed.

Lemma refs_start fs : refs_ok [] (pipe_start fs) [].
Proof.
  split; [|done]. intros r s. cbn. intros [<- <-]%lookup_singleton_Some. left. reflexivity.
Qed.

Lemma pipe_step_both done rest p evs o :
  pipe_ok done rest p evs → refs_ok done p evs → Forall frame_ok rest →
  ∃ done' rest', done' ++ rest' = done ++ rest ∧ Forall frame_ok rest' ∧
    pipe_ok done' rest' (fst (pipe_step p o)) (evs ++ snd (pipe_step p o)) ∧
    refs_ok done' (fst (pipe_step p o)) (evs ++ snd (pipe_step p o)).
Proof.
  intros Hp Hr Hrest.
  destruct (pipe_step_cases rest p o (p_wire _ _ _ _ Hp) Hrest)
    as [->|[(o' & Hq & -> & _)|(f & rest' & pick & -> & Hf & Hrest' & El & ->)]].
  - exists done, rest. by rewrite app_nil_r.
  - exists done, rest. unfold feed. destruct (sys_step (rsys p) o') as [s' ev] eqn:Hs. split_and!; [done|done|..].
    + by apply (quiet_op_ok _ _ _ _ o').
    + by apply (refs_quiet_op _ rest _ _ o').
  - exists (done ++ [f]), rest'. unfold feed. destruct (sys_step _ _) as [s' ev] eqn:Hs.
    split_and!; [by rewrite <- app_assoc|done|..].
    + by apply (reading_ok _ _ _ p _ pick).
    + by apply (refs_reading _ _ rest' p _ pick).
Qed.

(** The bytes of a stream, in terms of what was sent on its identifier: all that was sent since the last
    close if it is in the table, and otherwise all that was sent up to a close. *)
Lemma stream_history done rest p evs r s :
  pipe_ok done rest p evs → refs_ok done p evs → store (pconn p) !! r = Some s →
  ∃ d1, d1 `prefix_of` done ∧
    (streams (pconn p) !! s_id s = Some r ∧ d1 = done ∨ ∃ f, d1 ++ [f] `prefix_of` done ∧ StreamID f = s_id s ∧ Type_ f = FrameClose) ∧
    ∃ lost, read r evs ++ stream_bytes (pconn p) r ++ held (sys_loop (rsys p)) r ++ lost = data_for (s_id s) d1 ∧
      (sys_loop (rsys p) ≠ Exited → lost = []).
Proof.
  intros Hp [H1 _] Hr. destruct (p_flow _ _ _ _ Hp r) as (lost & E & Hl).
  destruct (H1 r s Hr) as [Hs|(d1 & f & d2 & -> & Hi & Hc & Ht)].
  - exists done. split; [done|]. split; [by left|]. exists lost. rewrite <- (p_table _ _ _ _ Hp _ _ Hs). done.
  - exists d1. split; [by exists (f :: d2)|]. split.
    + right. exists f. split; [|done]. exists d2. by rewrite <- app_assoc.
    + exists lost. by rewrite <- Ht.
Qed.

(** ** The exit node *)

Inductive tun_end := Running | StreamEnded | Failed.

#[export] Instance tun_end_eq_dec : EqDecision tun_end.
Proof. solve_decision. Defined.

(** The connection at the exit node, what [HandleIncomingRelay] has found out on stream [r], the bytes
    that have reached the target, and whether the copy to it goes on. *)
Record Tun := mkTun { t_pipe : Pipe; t_exit : option Exit; t_out : list byte; t_end : tun_end }.

Definition set_pconn (p : Pipe) (c : Conn) : Pipe := mkPipe (wire p) (mkSys c (sys_loop (rsys p))).

(** A write to the target: [None] takes all, [Some k] fails after [k] bytes. *)
Definition target_write (data : list byte) (w : option nat) : list byte * tun_end :=
  match w with None => (data, Running) | Some k => (take k data, Failed) end.

(** What followed the header is written first, if anything did. *)
Definition first_write (data : list byte) (w : option nat) : list byte * tun_end :=
  match data with [] => ([], Running) | _ => target_write data w end.

(** The next step of [HandleIncomingRelay]: the header, then one turn of the copy to the target
    after another. When the first write fails, the call returns its error ([relay_first_write]) and
    some of the bytes may have got through. [spare] is what the buffer holds after the bytes read. *)
Definition exit_step (r : nat) (dial_ok : string → bool) (t : Tun) (spare : list byte) (w : option nat) : Tun :=
  let p := t_pipe t in
  match t_end t with
  | Running =>
      match t_exit t with
      | None =>
          match HandleIncomingRelay (pconn p) r spare dial_ok true with
          | None => t
          | Some (c, Ok ex) =>
              let '(out, e) := first_write (ex_first ex) w in mkTun (set_pconn p c) (Some ex) out e
          | Some (c, _) => mkTun (set_pconn p c) None [] Failed
          end
      | Some ex =>
          match Stream_Read (pconn p) (Some r) relayBuffer with
          | None => t
          | Some (c, Ok data) =>
              let '(out, e) := target_write data w in mkTun (set_pconn p c) (Some ex) (t_out t ++ out) e
          | Some (c, _) => mkTun (set_pconn p c) (Some ex) (t_out t) StreamEnded
          end
      end
  | _ => t
  end.

(** [TPipe]: anything else on the connection. Nobody but the exit reads its stream. *)
Inductive top := TPipe (o : pop) | TExit (spare : list byte) (w : option nat).

Definition reads (r : nat) (o : pop) : bool :=
  match o with PUser (OpRead r' _) => bool_decide (r' = r) | _ => false end.

Definition tun_step (r : nat) (dial_ok : string → bool) (t : Tun) (o : top) : Tun :=
  match o with
  | TPipe o => if reads r o then t else mkTun (fst (pipe_step (t_pipe t) o)) (t_exit t) (t_out t) (t_end t)
  | TExit spare w => exit_step r dial_ok t spare w
  end.

Definition tun_run (r : nat) (dial_ok : string → bool) (t : Tun) (ops : list top) : Tun :=
  foldl (tun_step r dial_ok) t ops.

Definition tun_start (sent : list Frame) : Tun := mkTun (pipe_start sent) None [] Running.

(** ** The invariant *)

(** What the target has got is what was read from the stream after the header. *)
Definition out_ok (r : nat) (t : Tun) (evs : list event) : Prop :=
  match t_exit t with
  | None => t_out t = [] ∧ (t_end t = Running → read r evs = [])
  | Some ex => ∃ d0 tl sp h n,
      read r evs = d0 ++ tl ∧ DecodeTCPForwardHeader (mkSlice d0 sp) = Ok (h, n) ∧
      ex_target ex = JoinHostPort (IP_String (tf_TargetAddr h)) (dec (tf_TargetPort h)) ∧
      (if decide (t_end t = Failed) then t_out t `prefix_of` drop n d0 ++ tl else t_out t = drop n d0 ++ tl)
  end.

Definition tun_ok (sent : list Frame) (r : nat) (t : Tun) : Prop :=
  ∃ done rest evs, done ++ rest = sent ∧ Forall frame_ok rest ∧ pipe_ok done rest (t_pipe t) evs ∧
    refs_ok done (t_pipe t) evs ∧ out_ok r t evs.

(** ** Lemmas *)

(** A read of stream [r], as a step of the pipe. *)
Lemma pipe_read p r n :
  pipe_step p (PUser (OpRead r n)) =
  match Stream_Read (pconn p) (Some r) n with
  | Some (c, Ok data) => (set_pconn p c, [EvRead r data])
  | Some (c, _) => (set_pconn p c, [])
  | None => (p, [])
  end.
Proof.
  unfold pipe_step, feed, sys_step, set_pconn, pconn.
  destruct (sys_loop (rsys p)) eqn:El; destruct (Stream_Read _ _ _) as [[c [data|e|]]|]; try done; by destruct p as [w [c l]].
Qed.

(** Only reads of the stream are its reads. *)
Lemma pipe_other_reads p o r rest :
  wire p = wire_of rest → Forall frame_ok rest → reads r o = false → read r (snd (pipe_step p o)) = [].
Proof.
  intros Hw Hf Ho.
  assert (∀ o', (∀ n, o' ≠ OpRead r n) → read r (snd (sys_step (rsys p) o')) = []) as Hs.
  { intros o' Hne. unfold sys_step. destruct o' as [input pick| |pick|r' n|r' ok|]; try done.
    - destruct (loop_step _ _ _ _) as [[c' l']|]; [|done]. destruct (sys_loop (rsys p)); try done.
      by destruct (pending l') as [[r' data]|].
    - destruct (AcceptStream _ _) as [[c' x]|]; done.
    - destruct (Stream_Read _ _ _) as [[c' [data|e|]]|]; try done. unfold read. cbn.
      rewrite decide_False; [done|]. intros ->. by destruct (Hne n). }
  destruct (pipe_step_cases rest p o Hw Hf) as [->|[(o' & _ & -> & Hr)|(f & rest' & pick & -> & _ & _ & _ & ->)]];
    [done|unfold feed..].
  - specialize (Hs o'). destruct (sys_step (rsys p) o') as [s' ev]. cbn [snd] in *. apply Hs. intros n ->.
    rewrite (Hr r n eq_refl) in Ho. cbn in Ho. by rewrite bool_decide_true in Ho.
  - specialize (Hs (OpLoop (Ok (frame_norm f)) pick)). destruct (sys_step _ _) as [s' ev]. by apply Hs.
Qed.

Lemma decode_tcp_length d sp h n :
  DecodeTCPForwardHeader (mkSlice d sp) = Ok (h, n) → (n ≤ length d)%nat.
Proof.
  unfold DecodeTCPForwardHeader, guard_err. cbn [contents].
  destruct (_ <=? length d)%nat; [|done]. intros H.
  apply res_bind_Ok in H as (? & _ & H). apply res_bind_Ok in H as (? & _ & H).
  apply res_bind_Ok in H as (? & _ & H). apply res_bind_Ok in H as (l & _ & H).
  destruct (_ || _); [|done]. destruct (Nat.leb_spec (7 + byte_int l + 2) (length d)); [|done].
  apply res_bind_Ok in H as (? & _ & H). apply res_bind_Ok in H as (? & _ & H). injection H as _ <-. lia.
Qed.

Lemma relay_inv c r spare dial_ok c' res :
  HandleIncomingRelay c r spare dial_ok true = Some (c', res) →
  ∃ got, Stream_Read c (Some r) relayBuffer = Some (c', got) ∧
    ∀ ex, res = Ok ex → ∃ data h n, got = Ok data ∧ DecodeTCPForwardHeader (mkSlice data spare) = Ok (h, n) ∧
      dial_ok (ex_target ex) = true ∧
      ex = mkExit (JoinHostPort (IP_String (tf_TargetAddr h)) (dec (tf_TargetPort h))) (drop n data).
Proof.
  unfold HandleIncomingRelay. destruct (Stream_Read c (Some r) relayBuffer) as [[c1 got]|]; [|done].
  cbn [mbind option_bind]. intros [= <- <-]. exists got. split; [done|]. intros ex Hex.
  destruct got as [data|e|]; [|done..]. exists data.
  destruct (DecodeTCPForwardHeader _) as [[h n]|e|] eqn:Ed; [|done..]. cbv zeta in Hex.
  destruct (dial_ok _) eqn:Ehd; [|done]. rewrite andb_false_r in Hex. injection Hex as <-. by exists h, n.
Qed.

Lemma target_write_spec data w out e :
  target_write data w = (out, e) → if decide (e = Failed) then out `prefix_of` data else out = data.
Proof. destruct w as [k|]; intros [= <- <-]; cbn; [apply prefix_take|done]. Qed.

Lemma first_write_spec data w out e :
  first_write data w = (out, e) → if decide (e = Failed) then out `prefix_of` data else out = data.
Proof. destruct data; [by intros [= <- <-]|apply target_write_spec]. Qed.

(** The call ends with the error of the first write exactly when [exit_step] takes it for failed. *)
Lemma relay_first_write c r spare dial_ok c' ex k :
  HandleIncomingRelay c r spare dial_ok true = Some (c', Ok ex) →
  HandleIncomingRelay c r spare dial_ok false =
    Some (c', if decide (snd (first_write (ex_first ex) (Some k)) = Failed) then Err ErrWriteRemaining else Ok ex).
Proof.
  unfold HandleIncomingRelay. destruct (Stream_Read c (Some r) relayBuffer) as [[c1 got]|]; [|done].
  cbn [mbind option_bind]. destruct got as [data|e|]; [|discriminate..]. destruct (DecodeTCPForwardHeader _) as [[h n]|e|]; [|discriminate..].
  cbv zeta. destruct (dial_ok _); [|discriminate]. rewrite andb_false_r. intros [= <- <-]. cbn [ex_first negb].
  rewrite andb_true_r. pose proof (length_drop data n) as El.
  destruct (Nat.ltb_spec n (length data)), (drop n data); cbn [length] in El; try lia;
    cbn [first_write target_write snd]; [by rewrite decide_True|by rewrite decide_False].
Qed.

(** A turn of the exit is a read of its stream. *)
Lemma exit_reads sent r t c got :
  tun_ok sent r t → Stream_Read (pconn (t_pipe t)) (Some r) relayBuffer = Some (c, got) →
  ∃ done rest evs, done ++ rest = sent ∧ Forall frame_ok rest ∧ out_ok r t evs ∧
    let ev := match got with Ok data => [EvRead r data] | _ => [] end in
    pipe_ok done rest (set_pconn (t_pipe t) c) (evs ++ ev) ∧ refs_ok done (set_pconn (t_pipe t) c) (evs ++ ev).
Proof.
  intros (done & rest & evs & Hs & Hf & Hp & Hr & Ho) Hgot.
  destruct (pipe_step_both _ _ _ _ (PUser (OpRead r relayBuffer)) Hp Hr Hf) as (d' & r' & Hs' & Hf' & Hp' & Hr').
  rewrite pipe_read, Hgot in Hp', Hr'. exists d', r', evs. split; [by rewrite Hs'|].
  by destruct got.
Qed.

Lemma read_snoc r evs data : read r (evs ++ [EvRead r data]) = read r evs ++ data.
Proof. rewrite read_app. unfold read at 2. cbn. by rewrite decide_True, app_nil_r. Qed.

Lemma exit_step_ok sent r dial_ok t spare w : tun_ok sent r t → tun_ok sent r (exit_step r dial_ok t spare w).
Proof.
  intros Ht. unfold exit_step. destruct (t_end t) eqn:Ee; [|done..].
  destruct (t_exit t) as [ex|] eqn:Ex.
  - destruct (Stream_Read _ _ _) as [[c got]|] eqn:Eg; [|done].
    destruct (exit_reads _ _ _ _ _ Ht Eg) as (d & rest & evs & Hs & Hf & Ho & Hp & Hr).
    unfold out_ok in Ho. rewrite Ex, Ee in Ho. destruct Ho as (d0 & tl & sp & h & n & Erd & Hdec & Htg & Hout).
    rewrite decide_False in Hout by done.
    destruct got as [data|e|]; cbn zeta in *.
    + destruct (target_write data w) as [out en] eqn:Ew. exists d, rest, (evs ++ [EvRead r data]).
      split_and!; try done. unfold out_ok. cbn [t_exit t_end t_out]. exists d0, (tl ++ data), sp, h, n.
      rewrite read_snoc, Erd, Hout, <- app_assoc. split_and!; try done.
      apply target_write_spec in Ew. rewrite <- app_assoc. destruct (decide _); [by do 2 apply prefix_app|by subst].
    + exists d, rest, evs. rewrite app_nil_r in Hp, Hr. split_and!; try done. unfold out_ok. cbn [t_exit t_end t_out].
      by exists d0, tl, sp, h, n.
    + exists d, rest, evs. rewrite app_nil_r in Hp, Hr. split_and!; try done. unfold out_ok. cbn [t_exit t_end t_out].
      by exists d0, tl, sp, h, n.
  - destruct (HandleIncomingRelay _ _ _ _ _) as [[c res]|] eqn:Eh; [|done].
    destruct (relay_inv _ _ _ _ _ _ Eh) as (got & Eg & Hex).
    destruct (exit_reads _ _ _ _ _ Ht Eg) as (d & rest & evs & Hs & Hf & Ho & Hp & Hr).
    unfold out_ok in Ho. rewrite Ex, Ee in Ho. destruct Ho as [Hout Hrd]. specialize (Hrd eq_refl).
    destruct res as [ex|e|].
    + destruct (Hex ex eq_refl) as (data & h & n & -> & Hdec & _ & ->). cbn zeta in *.
      destruct (first_write _ w) as [out en] eqn:Ew. cbn [ex_first] in Ew. apply first_write_spec in Ew.
      exists d, rest, (evs ++ [EvRead r data]). split_and!; try done. unfold out_ok. cbn.
      exists data, [], spare, h, n. by rewrite read_snoc, Hrd, !app_nil_r.
    + eexists d, rest, _. split_and!; [done|done|apply Hp|apply Hr|done].
    + eexists d, rest, _. split_and!; [done|done|apply Hp|apply Hr|done].
Qed.

Lemma tun_run_ok sent r dial_ok ops t : tun_ok sent r t → tun_ok sent r (tun_run r dial_ok t ops).
Proof.
  unfold tun_run. revert t. induction ops as [|o ops IH]; intros t Ht; [done|]. cbn. apply IH.
  destruct o as [o|spare w]; [|by apply exit_step_ok]. cbn [tun_step]. destruct (reads r o) eqn:Er; [done|].
  destruct Ht as (d & rest & evs & Hs & Hf & Hp & Hr & Ho).
  destruct (pipe_step_both _ _ _ _ o Hp Hr Hf) as (d' & r' & Hs' & Hf' & Hp' & Hr').
  exists d', r', (evs ++ snd (pipe_step (t_pipe t) o)). split; [by rewrite Hs'|]. split_and!; try done.
  pose proof (pipe_other_reads _ o r _ (p_wire _ _ _ _ Hp) Hf Er) as E.
  unfold out_ok in *. cbn [t_exit t_end t_out]. by rewrite read_app, E, app_nil_r.
Qed.

Lemma tun_start_ok sent r : Forall frame_ok sent → tun_ok sent r (tun_start sent).
Proof.
  intros Hf. exists [], sent, []. split_and!; [done|done|apply pipe_start_ok|apply refs_start|done].
Qed.

(** A header that has not arrived in full is not taken for one. *)
Lemma decode_short hdr tail d sp x :
  d `prefix_of` EncodeTCPForwardHeader hdr ++ tail → (length d < length (EncodeTCPForwardHeader hdr))%nat →
  DecodeTCPForwardHeader (mkSlice d sp) ≠ Ok x.
Proof.
  intros [k Hk] Hl. rewrite length_EncodeTCPForwardHeader in Hl.
  unfold DecodeTCPForwardHeader, guard_err. cbn [contents].
  destruct (_ <=? length d)%nat eqn:E13; [|done]. apply Nat.leb_le in E13. intros H.
  apply res_bind_Ok in H as (? & _ & H). apply res_bind_Ok in H as (? & _ & H).
  apply res_bind_Ok in H as (? & _ & H). apply res_bind_Ok in H as (l & Hat & H).
  assert (d !! 6%nat = Some (byte_of (Z.of_nat (addr_len (tf_TargetAddr hdr))))) as E6.
  { rewrite <- (lookup_app_l d k), <- Hk by lia.
    assert (EncodeTCPForwardHeader hdr ++ tail = (MsgTCPForward :: tf_Flags hdr :: be_put 4 (tf_StreamID hdr)) ++
      byte_of (Z.of_nat (addr_len (tf_TargetAddr hdr))) :: addr_bytes (tf_TargetAddr hdr) ++ be_put 2 (tf_TargetPort hdr) ++ tail) as ->.
    { unfold EncodeTCPForwardHeader. cbn [app]. rewrite <- !app_assoc. cbn [app]. by rewrite <- !app_assoc. }
    apply list_lookup_middle. cbn [length]. by rewrite length_be_put. }
  unfold at_ in Hat. cbn [contents] in Hat. rewrite E6 in Hat. injection Hat as <-.
  rewrite byte_int_addr_len in H. destruct (_ || _); [|done].
  destruct (Nat.leb_spec (7 + addr_len (tf_TargetAddr hdr) + 2) (length d)); [lia|done].
Qed.

(** ** The frames of a tunnel *)

Definition data_frame (id : Z) (b : list byte) : Frame := mkFrame FrameData id (Some b).

(** The header, the chunks that the client's side of [relay] writes, and the mark of the end. *)
Definition tunnel_frames (id : Z) (hdr : list byte) (chunks : list (list byte)) (close : bool) : list Frame :=
  map (data_frame id) (hdr :: chunks) ++ if close then [mkFrame FrameClose id None] else [].

Lemma data_for_filter id fs : data_for id (filter (λ f, StreamID f = id) fs) = data_for id fs.
Proof.
  unfold data_for. generalize (@nil byte). induction fs as [|f fs IH]; intros acc; [done|]. rewrite filter_cons.
  cbn [foldl]. destruct (decide (StreamID f = id)) as [Hi|Hi]; [cbn [foldl]; apply IH|].
  by rewrite since_close_ne.
Qed.

Lemma data_for_chunks id l : data_for id (map (data_frame id) l) = concat l.
Proof.
  induction l as [|b l IH] using rev_ind; [done|]. rewrite map_app, concat_app. cbn [map].
  rewrite data_for_snoc, IH. unfold since_close. cbn. by rewrite decide_True, app_nil_r.
Qed.

(** A part of the frames of a tunnel carries a part of its bytes; just before the mark of the end,
    all of them. *)
Lemma data_for_prefix id l (c : bool) fs :
  fs `prefix_of` map (data_frame id) l ++ (if c then [mkFrame FrameClose id None] else []) →
  data_for id fs `prefix_of` concat l ∧
  ∀ f, fs ++ [f] `prefix_of` map (data_frame id) l ++ (if c then [mkFrame FrameClose id None] else []) →
    Type_ f = FrameClose → data_for id fs = concat l.
Proof.
  intros Hp. split.
  - assert (fs `prefix_of` map (data_frame id) l ∨ fs = map (data_frame id) l ++ [mkFrame FrameClose id None]) as [[k Hk]| ->].
    { destruct c; [|left; by rewrite app_nil_r in Hp]. destruct Hp as [k Hk].
      destruct k as [|g k] using rev_ind; [right; by rewrite app_nil_r in Hk|left]. clear IHk.
      rewrite app_assoc in Hk. apply app_inj_tail in Hk as [Hk _]. by exists k. }
    + apply map_eq_app in Hk as (l1 & l2 & -> & <- & _). rewrite data_for_chunks, concat_app. by eexists.
    + rewrite data_for_snoc. unfold since_close. cbn. rewrite decide_True by done. apply prefix_nil.
  - intros f [k Hk] Hf. destruct c.
    + destruct k as [|g k] using rev_ind.
      * rewrite app_nil_r in Hk. apply app_inj_tail in Hk as [<- _]. apply data_for_chunks.
      * clear IHk. rewrite app_assoc in Hk. apply app_inj_tail in Hk as [Hk _]. exfalso.
        assert (f ∈ map (data_frame id) l) as Hin by (rewrite Hk; set_solver). by apply list_elem_of_fmap in Hin as (b & -> & _).
    + exfalso. rewrite app_nil_r in Hk.
      assert (f ∈ map (data_frame id) l) as Hin by (rewrite Hk; set_solver). by apply list_elem_of_fmap in Hin as (b & -> & _).
Qed.

(** What the exit has read, when it is the beginning of what was sent. *)
Lemma exit_out id ip port chunks d0 tl sp h n out_end :
  fits 32 id → fits 16 port → length ip = 4%nat ∨ length ip = 16%nat →
  let hdr := EncodeTCPForwardHeader (mkTCPForwardHeader TCPFlagNewStream id ip port) in
  d0 ++ tl ++ out_end = hdr ++ chunks → DecodeTCPForwardHeader (mkSlice d0 sp) = Ok (h, n) →
  JoinHostPort (IP_String (tf_TargetAddr h)) (dec (tf_TargetPort h)) = JoinHostPort (IP_String ip) (dec port) ∧
  (drop n d0 ++ tl) ++ out_end = chunks.
Proof.
  intros Hid Hp Ha hdr E Hdec.
  destruct (decide (length hdr ≤ length d0)%nat) as [Hle|Hlt].
  2: { exfalso. apply (decode_short (mkTCPForwardHeader TCPFlagNewStream id ip port) chunks d0 sp (h, n)); [|fold hdr; lia|done].
       exists (tl ++ out_end). by rewrite E. }
  assert (∃ pay, d0 = hdr ++ pay) as [pay ->].
  { exists (drop (length hdr) d0). rewrite <- (take_drop (length hdr) d0) at 1. f_equal.
    rewrite <- (take_app_le d0 (tl ++ out_end)) by lia. by rewrite E, take_app_length. }
  unfold hdr in Hdec. rewrite decode_encode_tcp in Hdec by done. apply Ok_inj, pair_eq in Hdec as [<- <-]. cbn [tf_TargetAddr tf_TargetPort].
  rewrite IP_String_addr_bytes by done. split; [done|]. replace (drop _ (hdr ++ pay)) with pay by (symmetry; apply (drop_app_length hdr pay)).
  rewrite <- app_assoc in E. apply app_inv_head in E. by rewrite <- app_assoc.
Qed.

(** ** The other side: what [relay] makes of what the client sends *)

(** The chunks that the copy to the target writes, in order. *)
Definition target_chunks (turns : list copy_turn) : list (list byte) :=
  omap (λ t, match ct_dir t with ToTarget => Some (fst (copy_step t)) | ToClient => None end) turns.

Lemma relay_chunks turns cl tg :
  relay turns = Some (cl, tg) → ∃ n, tg = concat (target_chunks (take n turns)).
Proof.
  revert cl tg. induction turns as [|t turns IH]; intros cl tg; [done|]. cbn [relay].
  destruct (copy_step t) as [out []] eqn:Et.
  - intros [= H]. exists 1%nat. unfold target_chunks. cbn. destruct (ct_dir t); cbn in *; injection H as _ <-; [done|].
    by rewrite Et, !app_nil_r.
  - destruct (relay turns) as [[cl1 tg1]|]; [|done]. cbn. intros [= H]. destruct (IH _ _ eq_refl) as [n ->].
    exists (S n). unfold target_chunks in *. cbn. destruct (ct_dir t); cbn in *; injection H as _ <-; [done|]. by rewrite Et.
Qed.

(** ** Properties *)

(** C11: a tunnel carries the bytes of the client to the target, in order, and nothing else. Let the
    frames of one identifier, among those of all the streams that an entry node sends on a connection, be the
    header with the client's target, the chunks it copies, and maybe the mark of the end.
    In every run of the exit node, whatever its other streams and users do, if it gets to dial, it dials the
    target that the client asked for, and what has reached the target is the beginning of what was
    sent; once the end has been taken off the wire and the queue of the stream is empty, all of it
    has, unless a write to the target has failed. *)
Theorem tunnel_delivers sent id ip port chunks close ops r dial_ok :
  Forall frame_ok sent → fits 32 id → fits 16 port → length ip = 4%nat ∨ length ip = 16%nat →
  filter (λ f, StreamID f = id) sent =
    tunnel_frames id (EncodeTCPForwardHeader (mkTCPForwardHeader TCPFlagNewStream id ip port)) chunks close →
  let t := tun_run r dial_ok (tun_start sent) ops in
  let c := pconn (t_pipe t) in
  s_id <$> store c !! r = Some id →
  match t_exit t with
  | None => t_out t = []
  | Some ex =>
      ex_target ex = JoinHostPort (IP_String ip) (dec port) ∧ t_out t `prefix_of` concat chunks ∧
      (sys_loop (rsys (t_pipe t)) = Reading → streams c !! id ≠ Some r → stream_bytes c r = [] →
       t_end t ≠ Failed → t_out t = concat chunks)
  end.
Proof.
  intros Hf Hid Hp Ha Hflt t c Hr.
  destruct (tun_run_ok sent r dial_ok ops _ (tun_start_ok sent r Hf)) as (done & rest & evs & Hs & _ & Hpipe & Href & Ho).
  fold t in Hpipe, Href, Ho. apply fmap_Some in Hr as (s & Hst & ->).
  destruct (stream_history _ _ _ _ _ _ Hpipe Href Hst) as (d1 & Hd1 & Hcase & lost & Hflow & Hlost).
  unfold out_ok in Ho. destruct (t_exit t) as [ex|]; [|apply Ho].
  destruct Ho as (d0 & tl & sp & h & n & Erd & Hdec & Htg & Hout).
  set (hdr := EncodeTCPForwardHeader _) in *.
  assert (∀ fs, fs `prefix_of` done → filter (λ f, StreamID f = s_id s) fs `prefix_of`
    map (data_frame (s_id s)) (hdr :: chunks) ++ (if close then [mkFrame FrameClose (s_id s) None] else [])) as Hpre.
  { intros fs [k ->]. change (map _ _ ++ _) with (tunnel_frames (s_id s) hdr chunks close). rewrite <- Hflt, <- Hs.
    rewrite !filter_app, <- app_assoc. by eexists. }
  destruct (data_for_prefix _ (hdr :: chunks) close _ (Hpre d1 Hd1)) as [[k Hk] Hall]. rewrite data_for_filter in *.
  rewrite <- Hflow, Erd in Hk. cbn [concat] in Hk. rewrite <- !app_assoc in Hk.
  destruct (exit_out (s_id s) ip port (concat chunks) d0 tl sp h n _ Hid Hp Ha (eq_sym Hk) Hdec) as [Et Ec].
  split; [by rewrite Htg|]. split.
  - rewrite <- Ec. apply prefix_app_r. destruct (decide _); [done|by rewrite Hout].
  - intros Hl Hno Hb Hfail. rewrite decide_False in Hout by done. rewrite Hout.
    destruct Hcase as [[? _]|(f & Hf1 & Hfi & Hfc)]; [done|].
    assert (data_for (s_id s) d1 = concat (hdr :: chunks)) as Edata.
    { apply (Hall f); [|done]. specialize (Hpre _ Hf1).
      rewrite filter_app, filter_cons_True in Hpre by done. exact Hpre. }
    unfold held in Hflow. rewrite Hl in Hflow. cbn [pending] in Hflow. fold c in Hflow.
    rewrite Hb, Erd, Edata, Hlost in Hflow by by rewrite Hl. rewrite !app_nil_r in Hflow. cbn [concat] in Hflow.
    destruct (exit_out (s_id s) ip port (concat chunks) d0 tl sp h n [] Hid Hp Ha) as [_ Ec']; [by rewrite app_nil_r|done|].
    by rewrite app_nil_r in Ec'.
Qed.

(** A request in two chunks and its end, among frames of another stream. *)
Definition tunnel_header : list byte :=
  EncodeTCPForwardHeader (mkTCPForwardHeader TCPFlagNewStream 1 [x0a; x01; x02; x03] 80).

Definition tunnel_sent : list Frame :=
  [data_frame 1 tunnel_header; data_frame 3 [x7a]; data_frame 1 [x47; x45]; data_frame 1 [x54];
   data_frame 3 [x79]; mkFrame FrameClose 1 None].

Definition tunnel_ops : list top :=
  replicate 3 (TPipe (PLoop false)) ++ [TPipe (PUser (OpAccept false)); TExit [x00] None] ++
  replicate 10 (TPipe (PLoop false)) ++ [TExit [] None; TExit [] None; TExit [] None].

Lemma tunnel_delivers_witness :
  let t := tun_run 1 (λ _, true) (tun_start tunnel_sent) tunnel_ops in
  t_end t = StreamEnded ∧
  match t_exit t with
  | None => t_out t = []
  | Some ex =>
      ex_target ex = JoinHostPort (IP_String [x0a; x01; x02; x03]) (dec 80) ∧
      t_out t `prefix_of` concat [[x47; x45]; [x54]] ∧
      (sys_loop (rsys (t_pipe t)) = Reading → streams (pconn (t_pipe t)) !! 1 ≠ Some 1%nat →
       stream_bytes (pconn (t_pipe t)) 1 = [] → t_end t ≠ Failed → t_out t = concat [[x47; x45]; [x54]])
  end.
Proof.
  split; [vm_compute; reflexivity|].
  apply (tunnel_delivers tunnel_sent 1 [x0a; x01; x02; x03] 80 [[x47; x45]; [x54]] true tunnel_ops 1 (λ _, true)).
  - unfold tunnel_sent. repeat (apply Forall_cons; split; [split; [unfold fits; cbn; lia|vm_compute; discriminate]|]).
    apply Forall_nil_2.
  - unfold fits. lia.
  - unfold fits. lia.
  - by left.
  - vm_compute. reflexivity.
  - vm_compute. reflexivity.
Defined.

(** ** A stream whose end gets lost *)

(** Nobody can reach the stream [r] any more but who reads it, and nothing in its queue is the mark of an
    end. *)
Definition orphan (s : Sys) (r : nat) : Prop :=
  (∃ st, store (sys_conn s) !! r = Some st ∧ Forall (λ v, is_Some v) (readCh st)) ∧
  (∀ id, streams (sys_conn s) !! id ≠ Some r) ∧
  match sys_loop s with Accepting r' _ | Delivering r' _ => r' ≠ r | _ => True end.

Lemma dispatch_other c r' f r :
  r' ≠ r → store (fst (dispatch c r' f)) !! r = store c !! r ∧
  (∀ id, streams (fst (dispatch c r' f)) !! id = Some r → streams c !! id = Some r) ∧
  match snd (dispatch c r' f) with Accepting r'' _ | Delivering r'' _ => r'' = r' | _ => True end.
Proof.
  intros Hne. unfold dispatch. case_bool_decide; [|done]. cbn. destruct (store c !! r'); cbn; [|done].
  split_and!; [by apply lookup_insert_ne|by intros id [_ ?]%lookup_delete_Some|done].
Qed.

Lemma orphan_loop c l input pick c' l' r :
  conn_ok c → orphan (mkSys c l) r → loop_step c l input pick = Some (c', l') → orphan (mkSys c' l') r.
Proof.
  intros Hok ((st & Hst & Hq) & Htab & Hl) H. cbn [sys_conn sys_loop] in *.
  assert (∀ c1 r1 f, r1 ≠ r → store c1 = store c → (∀ id, streams c1 !! id = Some r → streams c !! id = Some r) →
    dispatch c1 r1 f = (c', l') → orphan (mkSys c' l') r) as Hd.
  { intros c1 r1 f Hne E1 E2 E. destruct (dispatch_other c1 r1 f r Hne) as (D1 & D2 & D3). rewrite E in D1, D2, D3.
    cbn [fst snd] in *. split; [exists st; split; [cbn; by rewrite D1, E1|done]|]. split.
    - intros id Hid. by apply (Htab id), E2, D2.
    - cbn. destruct l'; congruence. }
  assert (orphan (mkSys (closeAll c) Exited) r) as Hca.
  { unfold closeAll. destruct (closed c); [by split; [exists st|]|]. split; [exists st; split; [cbn|done]|by split].
    rewrite lookup_close_all, decide_False; [done|].
    intros ([id r'] & E & Hin)%list_elem_of_fmap. cbn in E. subst r'. apply elem_of_map_to_list in Hin. by apply (Htab id). }
  destruct l as [|r0 f|r0 f|]; cbn [loop_step] in H; [| | |done].
  - destruct input as [f|e|].
    + destruct (streams c !! StreamID f) as [r1|] eqn:E1; injection H as H.
      * eapply (Hd c r1 f); try done. intros ->. by apply (Htab (StreamID f)).
      * simplify_eq. assert (next_ref c ≠ r) as Hne by (intros E; pose proof (fresh_ref c Hok); congruence).
        split; [exists st; split; [|done]; cbn; by rewrite lookup_insert_ne|]. split; [|done].
        intros id. cbn. rewrite lookup_insert_Some. intros [[_ ?]|[_ ?]]; [done|by apply (Htab id)].
    + by injection H as <- <-.
    + by injection H as <- <-.
  - destruct (decide _); [destruct (closed c && pick)|destruct (closed c); [|done]]; injection H as H; simplify_eq.
    + split; [by exists st|done].
    + eapply (Hd _ r0 f Hl); [| |exact H]; done.
    + split; [by exists st|done].
  - destruct (store c !! r0) as [s0|]; [|done]. cbn [mbind option_bind] in H.
    destruct (decide _); [destruct (closed c && pick)|destruct (closed c); [|done]]; injection H as H; simplify_eq;
      (split; [exists st; split; [|done]|done]); cbn; by rewrite ?lookup_insert_ne.
Qed.

Lemma orphan_step s o r : sys_ok s → orphan s r → orphan (fst (sys_step s o)) r.
Proof.
  intros Hok Ho. pose proof Hok as [Hc _]. pose proof Ho as ((st & Hst & Hq) & Htab & Hl).
  destruct s as [c l]. unfold sys_step. cbn [sys_conn sys_loop] in *.
  destruct o as [input pick| |pick|r0 n|r0 ok|].
  - destruct (loop_step c l input pick) as [[c' l']|] eqn:E; [|done]. by eapply orphan_loop.
  - pose proof (open_frame c r st Hc Hst) as Hs. split; [by exists st|]. split; [|done]. intros id Hid. cbn in Hid.
    destruct (user_step c l OpOpen Hc) as (_ & _ & _ & U & _); [done|].
    destruct (U id r Hid) as [?|[_ ?]]; [by apply (Htab id)|congruence].
  - unfold AcceptStream. destruct (acceptCh c), (closed c && pick), (closed c); cbn; done.
  - destruct (Stream_Read c (Some r0) n) as [[c' res]|] eqn:E; [|done].
    assert (orphan (mkSys c' l) r) as H; [|by destruct res].
    apply Stream_Read_spec in E as [(_ & -> & _)|(s0 & s1 & Hs0 & -> & _ & _ & _ & Hcase)]; [done|].
    split; [|done]. cbn. destruct (decide (r0 = r)) as [->|Hne].
    + exists s1. rewrite lookup_insert_eq. split; [done|]. assert (s0 = st) as -> by congruence.
      destruct Hcase as [(-> & _)|[(d & E & _)|(E & _)]]; [done|rewrite E in Hq; by apply Forall_cons in Hq as [_ ?]..].
    + exists st. by rewrite lookup_insert_ne.
  - unfold Stream_Close. cbn [mbind option_bind]. destruct (store c !! r0) as [s0|] eqn:E0; [|done]. cbn.
    destruct (s_closed s0); [done|].
    assert (orphan (mkSys (set_stream c r0 (mkStream (s_id s0) (readCh s0) (s_cap s0) (buf s0) true)) l) r) as H; [|by destruct ok].
    split; [|done]. cbn. destruct (decide (r0 = r)) as [->|Hne].
    + eexists. rewrite lookup_insert_eq. split; [done|]. by replace s0 with st by congruence.
    + exists st. by rewrite lookup_insert_ne.
  - done.
Qed.

Lemma orphan_run ops p r :
  sys_ok (rsys p) → (∃ rest, wire p = wire_of rest ∧ Forall frame_ok rest) → orphan (rsys p) r →
  orphan (rsys (fst (pipe_run p ops))) r.
Proof.
  revert p. induction ops as [|o ops IH]; intros p Hok (rest & Hw & Hf) Ho; [done|]. cbn [pipe_run].
  destruct (pipe_step_cases rest p o Hw Hf) as [->|[(o' & [Hop _] & -> & _)|(f & rest' & pick & -> & Hf1 & Hf' & _ & ->)]].
  - specialize (IH p Hok ltac:(by exists rest) Ho). by destruct (pipe_run p ops).
  - unfold feed. pose proof (sys_step_ok _ _ Hok Hop) as H1. pose proof (orphan_step _ o' r Hok Ho) as H2.
    destruct (sys_step (rsys p) o') as [s' ev]. specialize (IH (mkPipe (wire p) s') H1 ltac:(by exists rest) H2).
    by destruct (pipe_run _ ops).
  - unfold feed. assert (op_ok (OpLoop (Ok (frame_norm f)) pick)) as Hop by apply Hf1.
    pose proof (sys_step_ok _ _ Hok Hop) as H1. pose proof (orphan_step _ (OpLoop (Ok (frame_norm f)) pick) r Hok Ho) as H2.
    destruct (sys_step _ _) as [s' ev]. specialize (IH (mkPipe (wire_of rest') s') H1 ltac:(by exists rest') H2).
    by destruct (pipe_run _ ops).
Qed.

(** C36: the end of a stream can get lost. When the frame that closes a stream is taken off the wire while the
    queue of the stream is full, its reader is never told: whatever happens then, the end of the
    connection included, each of its reads gives bytes or waits, and once the bytes are read it waits
    for ever. *)
Theorem end_lost p r s pl rest ops n :
  sys_ok (rsys p) → sys_loop (rsys p) = Reading → streams (pconn p) !! s_id s = Some r →
  store (pconn p) !! r = Some s → length (readCh s) = s_cap s → Forall (λ v, is_Some v) (readCh s) →
  wire p = wire_of (mkFrame FrameClose (s_id s) pl :: rest) → Forall frame_ok (mkFrame FrameClose (s_id s) pl :: rest) →
  let p' := fst (pipe_run p (PLoop false :: ops)) in
  Stream_Read (pconn p') (Some r) n = None ∨ ∃ c data, Stream_Read (pconn p') (Some r) n = Some (c, Ok data).
Proof.
  intros Hok El Htab Hst Hfull Hq Hw Hf p'.
  assert (orphan (rsys p') r) as ((st & Hst' & Hq') & _).
  { unfold p'. cbn [pipe_run]. unfold pipe_step. rewrite El, Hw. pose proof (proj1 (Forall_cons _ _ _) Hf) as [Hf1 Hf'].
    cbn [wire_of map concat]. rewrite read_frame_bytes by done. unfold feed.
    assert (op_ok (OpLoop (Ok (frame_norm (mkFrame FrameClose (s_id s) pl))) false)) as Hop by apply Hf1.
    pose proof (sys_step_ok _ _ Hok Hop) as Hok'. destruct Hok as [Hc _].
    assert (orphan (fst (sys_step (rsys p) (OpLoop (Ok (frame_norm (mkFrame FrameClose (s_id s) pl))) false))) r) as Ho.
    { unfold sys_step, pconn in *. rewrite El. cbn [loop_step frame_norm StreamID]. rewrite Htab. unfold dispatch.
      cbn [Type_ StreamID]. rewrite bool_decide_true, Hst by done. cbn.
      split; [exists (wake s); cbn; rewrite lookup_insert_eq; split; [done|]; cbn; unfold try_send; by rewrite decide_False by lia|].
      split; [|done]. cbn. intros id Hid. apply lookup_delete_Some in Hid as [Hne Hid]. by apply Hne, (table_inj _ _ _ r Hc). }
    destruct (sys_step (rsys p) _) as [s' ev]. cbn [fst] in *.
    pose proof (orphan_run ops (mkPipe (wire_of rest) s') r Hok' ltac:(by exists rest) Ho) as H.
    by destruct (pipe_run _ ops). }
  destruct (Stream_Read (pconn p') (Some r) n) as [[c res]|] eqn:E; [right|by left].
  apply Stream_Read_spec in E as [(Hn & _)|(s0 & s1 & Hs0 & _ & _ & _ & _ & Hcase)]; [unfold pconn in *; congruence|].
  exists c. unfold pconn in *. assert (s0 = st) as -> by congruence.
  destruct Hcase as [(_ & _ & -> & _)|[(d & _ & _ & -> & _)|(E & _)]]; [by eexists..|].
  rewrite E in Hq'. by apply Forall_cons in Hq' as [[? ?] _].
Qed.

(** Sixteen frames for a stream that nobody reads yet, its end, and a frame of the control stream. *)
Definition unread_end : list Frame :=
  replicate 16 (data_frame 1 [x78]) ++ [mkFrame FrameClose 1 None; data_frame 0 [x79]].

Definition unread_end_pipe : Pipe :=
  fst (pipe_run (pipe_start unread_end) (replicate 33 (PLoop false) ++ [PUser (OpAccept false)])).

Lemma unread_end_ok : sys_ok (rsys unread_end_pipe).
Proof.
  assert (Forall frame_ok unread_end) as Hu by (repeat constructor; unfold fits, maxFrameSize; cbn; lia).
  destruct (pipe_run_ok (replicate 33 (PLoop false) ++ [PUser (OpAccept false)]) _ _ _ _ (pipe_start_ok unread_end) Hu)
    as (d & r & _ & Hp).
  apply (p_sys _ _ _ _ Hp).
Qed.

Lemma end_lost_witness :
  let ops := replicate 16 (PUser (OpRead 1 1)) ++ [PLoop false; PLoop false; PLoop false] in
  let p' := fst (pipe_run unread_end_pipe (PLoop false :: ops)) in
  Stream_Read (pconn p') (Some 1%nat) 5 = None ∨ ∃ c data, Stream_Read (pconn p') (Some 1%nat) 5 = Some (c, Ok data).
Proof.
  intros ops.
  apply (end_lost unread_end_pipe 1 (mkStream 1 (replicate 16 (Some [x78])) 16 [] false) None [data_frame 0 [x79]] ops 5).
  - apply unread_end_ok.
  - vm_compute. reflexivity.
  - vm_compute. reflexivity.
  - vm_compute. reflexivity.
  - reflexivity.
  - repeat constructor; eexists; reflexivity.
  - vm_compute. reflexivity.
  - repeat constructor; unfold fits, maxFrameSize; cbn; lia.
Defined.
