(* ===== verification/Answer.v ===== *)
(** * What comes back through a tunnel ([forward/tcp_relay.go], [socks5/server.go] on [transport/conn.go])

    The exit node copies what its target sends into the stream of the tunnel ([splice]); the entry node
    copies the stream to its client ([relay]), interleaved with the loop and all other users of its
    connection ([Pipe]). Nobody at the exit closes the stream. *)

From S2P Require Import Prelude Bytes Frame Conn TCPRelay Pipe Tunnel.
From stdpp Require Import options.

(** ** The exit: from the target to the stream *)

(** [io.Copy] into stream [r]: a frame for each read of the target, until a write fails. *)
Fixpoint copy_to_stream (c : Conn) (r : nat) (reads : list (list byte * bool)) : list Frame * bool :=
  match reads with
  | [] => ([], true)
  | (data, write_ok) :: reads =>
      match Stream_Write c (Some r) data write_ok with
      | (Some f, Ok _) => let '(fs, ok) := copy_to_stream c r reads in (f :: fs, ok)
      | (out, _) => (option_list out, false)
      end
  end.

(** ** The entry: from the stream to the client *)

(** [make([]byte, 32*1024)] in [ioCopy]. *)
Definition ioCopyBuffer : nat := 32 * 1024.

(** The connection at the entry node, what has reached the client, and whether the copy goes on. *)
Record Back := mkBack { b_pipe : Pipe; b_out : list byte; b_end : tun_end }.

(** One turn of the copy; [w]: how the write to the client ends. Before the stream has been opened there is nothing to copy. *)
Definition answer_step (r : nat) (t : Back) (w : option nat) : Back :=
  match b_end t with
  | Running =>
      match Stream_Read (pconn (b_pipe t)) (Some r) ioCopyBuffer with
      | None => t
      | Some (c, Ok data) =>
          let '(out, e) := first_write data w in mkBack (set_pconn (b_pipe t) c) (b_out t ++ out) e
      | Some (c, Err _) => mkBack (set_pconn (b_pipe t) c) (b_out t) StreamEnded
      | Some (_, Panic) => t
      end
  | _ => t
  end.

(** [BPipe]: anything else on the connection. Nobody but the copy reads its stream. *)
Inductive bop := BPipe (o : pop) | BCopy (w : option nat).

Definition back_step (r : nat) (t : Back) (o : bop) : Back :=
  match o with
  | BPipe o => if reads r o then t else mkBack (fst (pipe_step (b_pipe t) o)) (b_out t) (b_end t)
  | BCopy w => answer_step r t w
  end.

Definition back_run (r : nat) (t : Back) (ops : list bop) : Back := foldl (back_step r) t ops.

Definition back_start (sent : list Frame) : Back := mkBack (pipe_start sent) [] Running.

(** ** A stream that the other end does not close *)

Definition not_end (id : Z) (f : Frame) : Prop := StreamID f = id → Type_ f ≠ FrameClose ∧ payload_bytes f ≠ [].

(** While the loop runs, no mark of an end is in a queue of the identifier. *)
Record unended (id : Z) (s : Sys) : Prop := {
  un_queue : sys_loop s ≠ Exited → ∀ r st, store (sys_conn s) !! r = Some st → s_id st = id → Forall (λ v, is_Some v) (readCh st);
  un_loop : match sys_loop s with Accepting _ f | Delivering _ f => not_end id f | _ => True end }.

Definition queues_open (id : Z) (c : Conn) : Prop :=
  ∀ r st, store c !! r = Some st → s_id st = id → Forall (λ v, is_Some v) (readCh st).

Lemma queues_open_set id c r st :
  queues_open id c → (s_id st = id → Forall (λ v, is_Some v) (readCh st)) → queues_open id (set_stream c r st).
Proof. intros H Hst r' st' Hr. cbn in Hr. apply lookup_insert_Some in Hr as [[_ <-]|[_ Hr]]; [done|by apply (H r')]. Qed.

Lemma queues_open_dispatch id c r f st :
  queues_open id c → store c !! r = Some st → s_id st = StreamID f → not_end id f →
  queues_open id (fst (dispatch c r f)) ∧ match snd (dispatch c r f) with Accepting _ g | Delivering _ g => g = f | _ => True end.
Proof.
  intros H Hr Hid Hf. unfold dispatch. case_bool_decide as Hc; [|done]. rewrite Hr. split; [|done].
  intros r' st' Hr'. cbn in Hr'. apply lookup_insert_Some in Hr' as [[_ <-]|[_ Hr']]; [|by apply (H r')]. cbn. intros E.
  destruct Hf as [Hf _]; [congruence|done].
Qed.

Lemma unended_loop id c l input pick c' l' :
  sys_ok (mkSys c l) → unended id (mkSys c l) → (∀ f, l = Reading → input = Ok f → not_end id f) →
  loop_step c l input pick = Some (c', l') → unended id (mkSys c' l').
Proof.
  intros [Hok Hl] [H1 H2] Hin H. cbn [sys_conn sys_loop] in *.
  assert (∀ c1 r f st, queues_open id c1 → store c1 !! r = Some st → s_id st = StreamID f → not_end id f →
    dispatch c1 r f = (c', l') → unended id (mkSys c' l')) as Hd.
  { intros c1 r f st Hq Hr Hid Hf E. destruct (queues_open_dispatch id c1 r f st Hq Hr Hid Hf) as [D1 D2].
    rewrite E in D1, D2. cbn [fst snd] in *. split; [done|]. cbn. destruct l'; by subst. }
  assert (l ≠ Exited → queues_open id c) as Hq by done.
  destruct l as [|r f|r f|]; cbn [loop_step loop_ok] in *; [| | |done].
  - destruct input as [f|e|]; [|injection H as <- <-; by split..].
    destruct (streams c !! StreamID f) as [r|] eqn:Hr; injection H as H.
    + destruct (ok_streams _ Hok _ _ Hr) as (st & Hst & Hid). apply (Hd c r f st); auto.
    + simplify_eq. split; [|by apply Hin]. intros _ r st Hr'. cbn in Hr'.
      apply lookup_insert_Some in Hr' as [[_ <-]|[_ Hr']]; [constructor|by apply (Hq ltac:(done) r)].
  - destruct Hl as (st & Hst & Hid).
    destruct (decide _); [destruct (closed c && pick)|destruct (closed c); [|done]]; injection H as H; simplify_eq; try by split.
    apply (Hd (set_acceptCh c (acceptCh c ++ [r])) r f st); [by apply Hq|exact Hst|exact Hid|done|exact H].
  - destruct Hl as (st & Hst & Hid). rewrite Hst in H. cbn [mbind option_bind] in H.
    destruct (decide _); [destruct (closed c && pick)|destruct (closed c); [|done]]; injection H as H; simplify_eq; try by split.
    split; [|done]. intros _. apply queues_open_set; [by apply Hq|]. cbn. intros E. apply Forall_app. split; [by apply (Hq ltac:(done) r)|].
    apply Forall_singleton. destruct H2 as [_ Hne]; [congruence|]. unfold payload_bytes in Hne. destruct (Payload f); [by eexists|done].
Qed.

Lemma unended_step id s o :
  sys_ok s → unended id s → (∀ f pick, o = OpLoop (Ok f) pick → sys_loop s = Reading → not_end id f) → unended id (fst (sys_step s o)).
Proof.
  intros Hok Hu Hin. destruct s as [c l]. pose proof Hok as [Hc _]. pose proof Hu as [H1 H2]. unfold sys_step. cbn [sys_conn sys_loop] in *.
  assert (∀ c', (l ≠ Exited → queues_open id c → queues_open id c') → unended id (mkSys c' l)) as Huser.
  { intros c' H. split; [|done]. cbn. intros Hn. exact (H Hn (H1 Hn)). }
  destruct o as [input pick| |pick|r n|r ok|].
  - destruct (loop_step c l input pick) as [[c' l']|] eqn:E; [|done]. cbn [fst]. eapply unended_loop; [exact Hok|done| |exact E].
    intros f -> ->. by eapply Hin.
  - apply Huser. intros _ Hq r st Hr Hid.
    destruct (store c !! r) as [st0|] eqn:E; [rewrite (open_frame c r st0 Hc E) in Hr; injection Hr as <-; by apply (Hq r)|].
    revert Hr. unfold OpenStream. destruct (closed c); [cbn [fst sys_conn]; intros ?; congruence|].
    destruct (open_loop_spec 1000 c Hc) as [(k & c0 & _ & _ & _ & _ & E0 & ->)|(_ & _ & Es & _)]; [|cbn [fst sys_conn]; rewrite Es; cbn; intros ?; congruence].
    cbn [fst sys_conn]. rewrite E0. cbn. intros [[_ <-]|[_ ?]]%lookup_insert_Some; [constructor|congruence].
  - unfold AcceptStream. destruct (acceptCh c), (closed c && pick), (closed c); apply Huser; done.
  - destruct (Stream_Read c (Some r) n) as [[c' res]|] eqn:E; [|done].
    assert (unended id (mkSys c' l)) as H; [|by destruct res]. apply Huser. intros _ Hq.
    apply Stream_Read_spec in E as [(_ & -> & _)|(s0 & s1 & Hs0 & -> & Hid & _ & _ & Hcase)]; [done|].
    apply queues_open_set; [done|]. rewrite Hid. intros Ei. specialize (Hq r s0 Hs0 Ei).
    destruct Hcase as [(-> & _)|[(d & E & _)|(E & _)]]; [done|rewrite E in Hq; by apply Forall_cons in Hq as [_ ?]..].
  - apply Huser. intros _ Hq. unfold Stream_Close. cbn [mbind option_bind]. destruct (store c !! r) as [s0|] eqn:E0; [|done].
    cbn. destruct (s_closed s0); [done|]. destruct ok; (apply queues_open_set; [done|exact (Hq r s0 E0)]).
  - apply Huser. done.
Qed.

(** Once the loop has ended it stays so. *)
Lemma exited_step s o : sys_loop s = Exited → sys_loop (fst (sys_step s o)) = Exited.
Proof.
  intros El. destruct o as [input pick| |pick|r n|r ok|]; unfold sys_step; rewrite El; cbn [loop_step fst]; try done.
  - by destruct (AcceptStream _ pick) as [[]|].
  - by destruct (Stream_Read _ _ _) as [[? []]|].
Qed.

(** Streams stay in the store, with their identifiers. *)
Lemma sys_step_stays s o r : sys_ok s → store (sys_conn (fst (sys_step s o))) !! r = None → store (sys_conn s) !! r = None.
Proof.
  intros [Hc _] H. destruct s as [c l]. cbn [sys_conn sys_loop] in *.
  assert ((∀ input pick, o ≠ OpLoop input pick) → store c !! r = None) as Hu.
  { intros Hu. destruct (user_step c l o Hc Hu) as (_ & _ & U & _). by apply U. }
  destruct o as [input pick| | | | |]; try by apply Hu. revert H. unfold sys_step. cbn [sys_conn sys_loop].
  destruct (loop_step c l input pick) as [[c' l']|] eqn:E; [|done]. cbn [fst sys_conn]. intros H.
  assert (l = Reading ∨ l ≠ Reading) as [->|Hl] by (destruct l; auto).
  - destruct input as [f|e|]; [|injection E as <- <-; by apply (closeAll_table c)..].
    destruct (reading_step _ _ _ _ _ Hc E) as (r' & _ & Hst & _). by apply Hst.
  - destruct (holding_step _ _ _ _ _ _ E Hl) as (G & _). by apply G.
Qed.

Lemma sys_step_id s o r id :
  sys_ok s → s_id <$> store (sys_conn s) !! r = Some id → s_id <$> store (sys_conn (fst (sys_step s o))) !! r = Some id.
Proof.
  intros Hok (st & Hst & ->)%fmap_Some. destruct (store (sys_conn (fst (sys_step s o))) !! r) as [st'|] eqn:E.
  - destruct (sys_step_ids s o Hok r st' E) as [(s0 & H0 & Hid)|[Hn _]]; [|congruence]. cbn. f_equal. congruence.
  - apply sys_step_stays in E; [congruence|done].
Qed.

(** ** The invariant *)

Record back_pipe (id : Z) (done rest : list Frame) (p : Pipe) (evs : list event) : Prop := {
  bp_pipe : pipe_ok done rest p evs;
  bp_refs : refs_ok done p evs;
  bp_open : unended id (rsys p);
  bp_rest : Forall frame_ok rest ∧ Forall (not_end id) rest }.

Lemma not_end_norm id f : not_end id f → not_end id (frame_norm f).
Proof. unfold not_end. by rewrite payload_norm. Qed.

(** A step of the pipe keeps it; the loop does not come back; the streams stay. *)
Lemma back_pipe_step id done rest p evs o :
  back_pipe id done rest p evs →
  (∃ done' rest', done' ++ rest' = done ++ rest ∧
    back_pipe id done' rest' (fst (pipe_step p o)) (evs ++ snd (pipe_step p o))) ∧
  (sys_loop (rsys p) = Exited → sys_loop (rsys (fst (pipe_step p o))) = Exited) ∧
  ∀ r i, s_id <$> store (pconn p) !! r = Some i → s_id <$> store (pconn (fst (pipe_step p o))) !! r = Some i.
Proof.
  intros [Hp Hr Hu [Hf Hn]]. pose proof (p_sys _ _ _ _ Hp) as Hok. unfold pconn.
  destruct (pipe_step_cases rest p o (p_wire _ _ _ _ Hp) Hf)
    as [->|[(o' & Hq & -> & _)|(f & rest' & pick & -> & Hf1 & Hf' & El & ->)]].
  - split; [|done]. exists done, rest. by rewrite app_nil_r.
  - unfold feed. pose proof (exited_step (rsys p) o') as He. pose proof (λ r i, sys_step_id (rsys p) o' r i Hok) as Hi.
    assert (unended id (fst (sys_step (rsys p) o'))) as Hu'.
    { apply unended_step; [done|done|]. intros f pick -> El. by destruct Hq as [_ Hq], (Hq El f). }
    destruct (sys_step (rsys p) o') as [s' ev] eqn:Hs. cbn [fst snd rsys] in *. split; [|done]. exists done, rest. split; [done|].
    split; [by apply (quiet_op_ok _ _ _ _ o')|by apply (refs_quiet_op _ rest _ _ o')|done|done].
  - apply Forall_cons in Hn as [Hn1 Hn']. unfold feed. set (o' := OpLoop (Ok (frame_norm f)) pick).
    pose proof (exited_step (rsys p) o') as He. pose proof (λ r i, sys_step_id (rsys p) o' r i Hok) as Hi.
    assert (unended id (fst (sys_step (rsys p) o'))) as Hu'.
    { apply unended_step; [done|done|]. intros g pick' [= <- _] _. by apply not_end_norm. }
    destruct (sys_step (rsys p) o') as [s' ev] eqn:Hs. cbn [fst snd rsys] in *. split; [|done].
    exists (done ++ [f]), rest'. split; [by rewrite <- app_assoc|].
    split; [by apply (reading_ok _ _ _ p _ pick)|by apply (refs_reading _ _ rest' p _ pick)|done|done].
Qed.

(** What the client has got is what was read from the stream; the copy ends with the connection only. *)
Definition back_ok (id : Z) (r : nat) (sent : list Frame) (t : Back) : Prop :=
  ∃ done rest evs, done ++ rest = sent ∧ back_pipe id done rest (b_pipe t) evs ∧
    (if decide (b_end t = Failed) then b_out t `prefix_of` read r evs else b_out t = read r evs) ∧
    (b_end t = StreamEnded → sys_loop (rsys (b_pipe t)) = Exited ∨
       ∃ i, s_id <$> store (pconn (b_pipe t)) !! r = Some i ∧ i ≠ id).

Lemma back_step_ok id r sent t o : back_ok id r sent t → back_ok id r sent (back_step r t o).
Proof.
  intros (done & rest & evs & Hs & Hp & Ho & He).
  assert (∀ o', let p' := fst (pipe_step (b_pipe t) o') in ∃ done' rest', done' ++ rest' = sent ∧
    back_pipe id done' rest' p' (evs ++ snd (pipe_step (b_pipe t) o')) ∧
    (b_end t = StreamEnded → sys_loop (rsys p') = Exited ∨ ∃ i, s_id <$> store (pconn p') !! r = Some i ∧ i ≠ id)) as Hstep.
  { intros o'. destruct (back_pipe_step _ _ _ _ _ o' Hp) as ((d' & r' & Hs' & Hp') & Hx & Hi). exists d', r'. rewrite Hs'.
    split_and!; [done|done|]. intros [?|(i & Hid & Hne)]%He; [left; auto|right; exists i; auto]. }
  destruct o as [o|w]; cbn [back_step].
  - destruct (reads r o) eqn:Er; [by exists done, rest, evs|]. destruct (Hstep o) as (d' & r' & Hs' & Hp' & He').
    exists d', r', (evs ++ snd (pipe_step (b_pipe t) o)). split_and!; [done|done| |done]. cbn [b_end b_out].
    pose proof (pipe_other_reads _ o r _ (p_wire _ _ _ _ (bp_pipe _ _ _ _ _ Hp)) (proj1 (bp_rest _ _ _ _ _ Hp)) Er) as E.
    by rewrite read_app, E, app_nil_r.
  - unfold answer_step. destruct (b_end t) eqn:Ee; [|by exists done, rest, evs; rewrite Ee..].
    destruct (Hstep (PUser (OpRead r ioCopyBuffer))) as (d' & r' & Hs' & Hp' & _). rewrite pipe_read in Hp'.
    destruct (Stream_Read (pconn (b_pipe t)) (Some r) ioCopyBuffer) as [[c got]|] eqn:Eg; [|by exists done, rest, evs; rewrite Ee].
    rewrite decide_False in Ho by done. destruct got as [data|e|].
    + destruct (first_write data w) as [out en] eqn:Ew. cbn [fst snd] in Hp'. exists d', r', (evs ++ [EvRead r data]).
      split_and!; [done|done| |]; cbn [b_end b_out].
      * rewrite read_snoc, Ho. apply first_write_spec in Ew. destruct (decide _); [by apply prefix_app|by subst].
      * intros ->. destruct data; [by injection Ew|]. by destruct w; injection Ew.
    + cbn [fst snd] in Hp'. rewrite app_nil_r in Hp'. exists d', r', evs. split_and!; [done|done|by rewrite decide_False|].
      intros _. cbn [b_pipe set_pconn rsys sys_loop]. apply Stream_Read_spec in Eg as [(_ & _ & [=])|(s0 & s1 & Hs0 & -> & Hid & _ & _ & Hcase)].
      destruct Hcase as [(_ & _ & [=] & _)|[(d & _ & _ & [=] & _)|(Eq & _)]].
      assert (sys_loop (rsys (b_pipe t)) = Exited ∨ sys_loop (rsys (b_pipe t)) ≠ Exited) as [|Hne]
        by (destruct (sys_loop (rsys (b_pipe t))); auto); [by left|right]. exists (s_id s0). split.
      * cbn. by rewrite lookup_insert_eq, <- Hid.
      * intros Ei. pose proof (un_queue _ _ (bp_open _ _ _ _ _ Hp) Hne r s0 Hs0 Ei) as Hq. rewrite Eq in Hq.
        by apply Forall_cons in Hq as [[? ?] _].
    + by exists done, rest, evs; rewrite Ee.
Qed.

Lemma back_run_ok id r sent ops t : back_ok id r sent t → back_ok id r sent (back_run r t ops).
Proof.
  unfold back_run. revert t. induction ops as [|o ops IH]; intros t Ht; [done|]. cbn. apply IH. by apply back_step_ok.
Qed.

Lemma back_start_ok id r sent : Forall frame_ok sent → Forall (not_end id) sent → back_ok id r sent (back_start sent).
Proof.
  intros Hf Hn. exists [], sent, []. split_and!; [done| |done|done].
  split; [apply pipe_start_ok|apply refs_start| |done]. split; [|done]. cbn. intros _ r' st [_ <-]%lookup_singleton_Some _. constructor.
Qed.

(** The frames of a tunnel's answer: those that [splice] writes, and no mark of the end. *)
Lemma answer_frames_not_end id chunks sent :
  filter (λ f, StreamID f = id) sent = map (data_frame id) chunks → Forall (λ b, b ≠ []) chunks → Forall (not_end id) sent.
Proof.
  intros E Hc. apply Forall_forall. intros f Hin Hid.
  assert (f ∈ filter (λ f, StreamID f = id) sent) as Hf by by apply list_elem_of_filter.
  rewrite E in Hf. apply list_elem_of_fmap in Hf as (b & -> & Hb). split; [done|]. rewrite Forall_forall in Hc. by apply Hc.
Qed.

(** What the exit copies into its stream goes out as one frame for each read. *)
Lemma copied_frames c r s reads fs ok :
  store c !! r = Some s → copy_to_stream c r reads = (fs, ok) →
  ∃ n, fs = map (data_frame (s_id s)) (take n (map fst reads)) ∧ (ok = true → n = length reads).
Proof.
  intros Hs. revert fs ok. induction reads as [|[data write_ok] reads IH]; intros fs ok; cbn [copy_to_stream].
  { intros [= <- <-]. by exists 0%nat. }
  unfold Stream_Write. cbn [mbind option_bind]. rewrite Hs.
  destruct (s_closed s); [intros [= <- <-]; by exists 0%nat|]. destruct (_ <? _)%Z; [intros [= <- <-]; by exists 0%nat|].
  destruct write_ok; [|intros [= <- <-]; by exists 0%nat].
  destruct (copy_to_stream c r reads) as [fs' ok']. intros [= <- <-]. destruct (IH _ _ eq_refl) as (n & -> & Hn).
  exists (S n). split; [done|]. intros Hok. cbn. by rewrite Hn.
Qed.

(** ** Properties *)

(** C12: a tunnel carries the answer of the target to the client, in order and nothing else, but not its end. Let the frames of
    one identifier, among those of all the streams that an exit node sends on a connection, be the chunks it copies from the
    target. In every run of the entry node, whatever its other streams and users do, what has reached the client is the beginning of
    the answer, and, unless a write to the client has failed, all that has been taken off the wire but what waits in the
    queue of the stream or is held by the loop. As long as the loop of the connection runs, the copy does not end: each of its
    reads gives bytes or waits, also when the target has closed its connection. *)
Theorem answer_delivers sent id chunks ops r :
  Forall frame_ok sent → filter (λ f, StreamID f = id) sent = map (data_frame id) chunks → Forall (λ b, b ≠ []) chunks →
  let t := back_run r (back_start sent) ops in
  let c := pconn (b_pipe t) in
  s_id <$> store c !! r = Some id →
  b_out t `prefix_of` concat chunks ∧
  (sys_loop (rsys (b_pipe t)) ≠ Exited →
    (b_end t ≠ Failed → ∃ done rest, sent = done ++ rest ∧ wire (b_pipe t) = wire_of rest ∧
       b_out t ++ stream_bytes c r ++ held (sys_loop (rsys (b_pipe t))) r = data_for id done) ∧
    b_end t ≠ StreamEnded ∧
    ∀ n, Stream_Read c (Some r) n = None ∨ ∃ c' data, Stream_Read c (Some r) n = Some (c', Ok data)).
Proof.
  intros Hf Hflt Hne t c Hr. pose proof (answer_frames_not_end _ _ _ Hflt Hne) as Hn.
  destruct (back_run_ok id r sent ops _ (back_start_ok id r sent Hf Hn)) as (done & rest & evs & Hs & [Hp Hrf Hu _] & Ho & He).
  fold t in Hp, Hrf, Hu, Ho, He. pose proof Hr as (s & Hst & Hid)%fmap_Some.
  destruct (stream_history _ _ _ _ _ _ Hp Hrf Hst) as (d1 & Hd1 & Hcase & lost & Hflow & Hlost). rewrite <- Hid in *.
  assert (∀ d, d `prefix_of` sent → filter (λ f, StreamID f = id) d `prefix_of` map (data_frame id) chunks) as Hpre.
  { intros d [k ->]. rewrite <- Hflt, filter_app. by eexists. }
  assert (done `prefix_of` sent) as Hdone by by exists rest.
  assert (d1 = done) as ->.
  { destruct Hcase as [[_ ?]|(f & Hf1 & Hfi & Hfc)]; [done|]. exfalso. rewrite Forall_forall in Hn.
    destruct (Hn f) as [Hc _]; [|done|done]. destruct Hf1 as [k ->]. rewrite <- Hs. set_solver. }
  split; [|intros Hl; split_and!].
  - assert (data_for id done `prefix_of` concat chunks) as Hd.
    { rewrite <- data_for_filter. apply (data_for_prefix id chunks false). rewrite app_nil_r. by apply Hpre. }
    etrans; [|exact Hd]. rewrite <- Hflow. apply prefix_app_r. destruct (decide _); [done|by rewrite Ho].
  - intros Hfail. rewrite decide_False in Ho by done. exists done, rest. split; [done|]. split; [apply Hp|].
    rewrite Ho, <- Hflow, Hlost by done. by rewrite app_nil_r.
  - intros Ee. destruct (He Ee) as [?|(i & Hi & Hine)]; [done|]. fold c in Hi. congruence.
  - intros n. destruct (Stream_Read c (Some r) n) as [[c' res]|] eqn:Eg; [right|by left].
    apply Stream_Read_spec in Eg as [(? & _)|(s0 & s1 & Hs0 & _ & _ & _ & _ & Hcase')]; [unfold c, pconn in *; congruence|]. exists c'.
    destruct Hcase' as [(_ & _ & -> & _)|[(d & _ & _ & -> & _)|(Eq & _)]]; [by eexists..|]. exfalso.
    assert (s0 = s) as -> by (unfold c, pconn in *; congruence).
    pose proof (un_queue _ _ Hu Hl r s Hst (eq_sym Hid)) as Hq. rewrite Eq in Hq. by apply Forall_cons in Hq as [[? ?] _].
Qed.

(** An answer in two chunks, among frames of another stream; the entry has opened the stream before. *)
Definition answer_sent : list Frame := [data_frame 1 [x4f; x4b]; data_frame 3 [x7a]; data_frame 1 [x21]].

Definition answer_ops : list bop :=
  [BPipe (PUser OpOpen)] ++ replicate 3 (BPipe (PLoop false)) ++ [BCopy None] ++ replicate 6 (BPipe (PLoop false)) ++
  [BCopy None; BCopy None].

Lemma answer_delivers_witness :
  let t := back_run 1 (back_start answer_sent) answer_ops in
  let c := pconn (b_pipe t) in
  b_out t = [x4f; x4b; x21] ∧
  b_out t `prefix_of` concat [[x4f; x4b]; [x21]] ∧
  (sys_loop (rsys (b_pipe t)) ≠ Exited →
    (b_end t ≠ Failed → ∃ done rest, answer_sent = done ++ rest ∧ wire (b_pipe t) = wire_of rest ∧
       b_out t ++ stream_bytes c 1 ++ held (sys_loop (rsys (b_pipe t))) 1 = data_for 1 done) ∧
    b_end t ≠ StreamEnded ∧
    ∀ n, Stream_Read c (Some 1%nat) n = None ∨ ∃ c' data, Stream_Read c (Some 1%nat) n = Some (c', Ok data)).
Proof.
  split; [vm_compute; reflexivity|]. apply (answer_delivers answer_sent 1 [[x4f; x4b]; [x21]] answer_ops 1).
  - unfold answer_sent. repeat (apply Forall_cons; split; [split; [unfold fits; cbn; lia|vm_compute; discriminate]|]).
    apply Forall_nil_2.
  - vm_compute. reflexivity.
  - repeat constructor; discriminate.
  - vm_compute. reflexivity.
Defined.
