(* ===== verification/Float.v ===== *)
(** * Floating point ([float64])

    The program computes with [float64] in two places: the refill of the rate limiter, and
    [time.ParseDuration] for fractions. A number is a fraction in lowest terms; an operation
    rounds its exact result to 53 bits, to the nearest and to even. The results are far from the
    limits of the exponent. *)

From S2P Require Import Prelude.
From stdpp Require Import options.

(** ** Floating point *)

Definition f64 : Type := Z * Z.

(** The integer nearest to [p / q], the even one of two. *)
Definition nearest_even (p q : Z) : Z :=
  let d := p `div` q in
  let r := p `mod` q in
  if 2 * r <? q then d
  else if q <? 2 * r then d + 1
  else if Z.even d then d else d + 1.

(** [p / q] times [2 ^ -e], as a fraction. *)
Definition scaled (p q e : Z) : Z * Z := if e <=? 0 then (p * 2 ^ (- e), q) else (p, q * 2 ^ e).

(** The exponent for which the mantissa has 53 bits. *)
Definition exponent (p q : Z) : Z :=
  let e := Z.log2 p - Z.log2 q - 52 in
  let '(p1, q1) := scaled p q e in
  if p1 <? 2 ^ 52 * q1 then e - 1 else e.

Definition lowest (f : f64) : f64 :=
  let g := Z.gcd (fst f) (snd f) in (fst f `div` g, snd f `div` g).

Definition round_pos (p q : Z) : f64 :=
  let e := exponent p q in
  let '(p1, q1) := scaled p q e in
  let m := nearest_even p1 q1 in
  lowest (if e <=? 0 then (m, 2 ^ (- e)) else (m * 2 ^ e, 1)).

(** [p / q] rounded, for [q] positive. *)
Definition round53 (p q : Z) : f64 :=
  if p =? 0 then (0, 1)
  else if 0 <? p then round_pos p q
  else let '(n, d) := round_pos (- p) q in (- n, d).

Definition of_int (z : Z) : f64 := round53 z 1.
Definition f_mul (a b : f64) : f64 := round53 (fst a * fst b) (snd a * snd b).
(** For a positive divisor. *)
Definition f_div (a b : f64) : f64 := round53 (fst a * snd b) (snd a * fst b).
(** For positive denominators, which all numbers have. *)
Definition f_add (a b : f64) : f64 := round53 (fst a * snd b + fst b * snd a) (snd a * snd b).
(** [int(f)]: towards zero. *)
Definition to_int (f : f64) : Z := fst f `quot` snd f.

(** ** Rounding *)

Lemma nearest_even_bounds p q : 0 < q →
  let m := nearest_even p q in p `div` q <= m ∧ 2 * m * q <= 2 * p + q ∧ 2 * p - q <= 2 * m * q.
Proof.
  intros Hq. cbv zeta. unfold nearest_even. pose proof (Z.div_mod p q ltac:(lia)) as E.
  pose proof (Z.mod_pos_bound p q Hq) as Hr.
  destruct (Z.ltb_spec (2 * (p `mod` q)) q); [split_and!; nia|].
  destruct (Z.ltb_spec q (2 * (p `mod` q))); [split_and!; nia|].
  destruct (Z.even _); split_and!; nia.
Qed.

Lemma nearest_even_exact p q : 0 < q → nearest_even (p * q) q = p.
Proof.
  intros Hq. unfold nearest_even. rewrite Z.div_mul, Z.mod_mul by lia.
  by rewrite (proj2 (Z.ltb_lt (2 * 0) q)) by lia.
Qed.

Lemma scaled_pred p q e : 0 < q →
  let '(p1, q1) := scaled p q e in
  let '(p2, q2) := scaled p q (e - 1) in
  0 < q1 ∧ 0 < q2 ∧ p2 * q1 = 2 * p1 * q2.
Proof.
  intros Hq. unfold scaled. destruct (Z.leb_spec e 0), (Z.leb_spec (e - 1) 0); try lia.
  - replace (- (e - 1)) with (1 + - e) by lia. rewrite Z.pow_add_r by lia. change (2 ^ 1) with 2.
    generalize (2 ^ (- e)). intros x. split_and!; [lia..|ring].
  - replace e with 1 by lia. change (2 ^ 1) with 2. replace (2 ^ (- (1 - 1))) with 1 by reflexivity. split_and!; [lia|lia|]. rewrite Z.mul_1_r, Z.mul_assoc. lia.
  - assert (2 ^ e = 2 * 2 ^ (e - 1)) as ->.
    { replace e with (1 + (e - 1)) at 1 by lia. by rewrite Z.pow_add_r by lia. }
    pose proof (Z.pow_pos_nonneg 2 (e - 1) ltac:(lia) ltac:(lia)) as Hx.
    revert Hx. generalize (2 ^ (e - 1)). intros x Hx. split_and!; nia.
Qed.

(** The first guess of the exponent is at most one too large. *)
Lemma scaled_guess p q : 0 < p → 0 < q →
  let '(p1, q1) := scaled p q (Z.log2 p - Z.log2 q - 52) in
  0 < q1 ∧ 2 ^ 51 * q1 < p1 < 2 ^ 53 * q1.
Proof.
  intros Hp Hq. pose proof (Z.log2_spec p Hp) as [Lp Lp']. pose proof (Z.log2_spec q Hq) as [Lq Lq'].
  pose proof (Z.log2_nonneg p) as Np. pose proof (Z.log2_nonneg q) as Nq.
  set (a := Z.log2 p) in *. set (b := Z.log2 q) in *. unfold scaled.
  rewrite <- Z.add_1_r, Z.pow_add_r in Lp', Lq' by lia.
  destruct (Z.leb_spec (a - b - 52) 0).
  - replace (- (a - b - 52)) with (52 + b - a) by lia. set (k := 52 + b - a) in *.
    assert (2 ^ a * 2 ^ k = 2 ^ 52 * 2 ^ b) as E by (rewrite <- !Z.pow_add_r by lia; f_equal; lia).
    pose proof (Z.pow_pos_nonneg 2 k ltac:(lia) ltac:(lia)). split; [lia|].
    assert (2 ^ a * 2 ^ k <= p * 2 ^ k) by nia. assert (p * 2 ^ k < 2 ^ a * 2 ^ 1 * 2 ^ k) by nia. lia.
  - set (k := a - b - 52) in *.
    assert (2 ^ a = 2 ^ 52 * (2 ^ b * 2 ^ k)) as E by (rewrite <- !Z.pow_add_r by lia; f_equal; lia).
    pose proof (Z.pow_pos_nonneg 2 k ltac:(lia) ltac:(lia)).
    assert (2 ^ b * 2 ^ k <= q * 2 ^ k) by nia. assert (q * 2 ^ k < 2 ^ b * 2 ^ 1 * 2 ^ k) by nia. lia.
Qed.

(** The value of a scaled fraction lies between [2^52] and [2^53]. *)
Lemma scaled_exponent p q : 0 < p → 0 < q →
  let '(p1, q1) := scaled p q (exponent p q) in
  0 < q1 ∧ 2 ^ 52 * q1 <= p1 < 2 ^ 53 * q1.
Proof.
  intros Hp Hq. unfold exponent. pose proof (scaled_guess p q Hp Hq) as Hg.
  set (e := Z.log2 p - Z.log2 q - 52) in *. pose proof (scaled_pred p q e Hq) as Hs.
  destruct (scaled p q e) as [p1 q1] eqn:E1. destruct Hg as (Hq1 & Hlo & Hhi).
  destruct (Z.ltb_spec p1 (2 ^ 52 * q1)).
  - destruct (scaled p q (e - 1)) as [p2 q2]. destruct Hs as (_ & Hq2 & E). split; [done|].
    assert (2 ^ 52 * q2 * q1 < p2 * q1) by nia. assert (p2 * q1 < 2 ^ 53 * q2 * q1) by nia. nia.
  - rewrite E1. lia.
Qed.

(** Lowest terms do not change the value. *)
Lemma lowest_spec a b : 0 < b →
  ∃ g a' b', 0 < g ∧ 0 < b' ∧ a = a' * g ∧ b = b' * g ∧ lowest (a, b) = (a', b').
Proof.
  intros Hb. unfold lowest. cbn [fst snd].
  destruct (Z.gcd_divide_l a b) as [a' Ea], (Z.gcd_divide_r a b) as [b' Eb].
  pose proof (Z.gcd_nonneg a b) as Hg.
  assert (Z.gcd a b ≠ 0) as Hne by (intros H; rewrite H in Eb; lia).
  exists (Z.gcd a b), a', b'. set (g := Z.gcd a b) in *. split_and!; [lia|nia|done|done|].
  clearbody g. subst a b. by rewrite !Z.div_mul by done.
Qed.

Lemma lowest_integer z b : 0 < b → lowest (z * b, b) = (z, 1).
Proof.
  intros Hb. unfold lowest. cbn [fst snd].
  assert (Z.gcd (z * b) b = b) as ->.
  { rewrite Z.gcd_comm. apply Z.divide_gcd_iff; [lia|]. by exists z. }
  by rewrite Z.div_mul, Z.div_same by lia.
Qed.

(** The rounded value, before it is put in lowest terms. *)
Lemma round_pos_value p q : 0 < p → 0 < q →
  ∃ m k j, round_pos p q = lowest (m * 2 ^ j, 2 ^ k) ∧ 0 <= k ∧ 0 <= j ∧ (k = 0 ∨ j = 0) ∧
    2 ^ 52 <= m ∧ (p * 2 ^ k) `div` (q * 2 ^ j) <= m ∧
    2 * m * (q * 2 ^ j) <= 2 * (p * 2 ^ k) + q * 2 ^ j ∧
    2 ^ 52 * (q * 2 ^ j) <= p * 2 ^ k < 2 ^ 53 * (q * 2 ^ j) ∧
    m = nearest_even (p * 2 ^ k) (q * 2 ^ j).
Proof.
  intros Hp Hq. pose proof (scaled_exponent p q Hp Hq) as Hs. unfold round_pos.
  set (e := exponent p q) in *. clearbody e. unfold scaled in *.
  destruct (Z.leb_spec e 0).
  - pose proof (nearest_even_bounds (p * 2 ^ (- e)) q Hq) as (B1 & B2 & B3).
    exists (nearest_even (p * 2 ^ (- e)) q), (- e), 0. change (2 ^ 0) with 1. rewrite !Z.mul_1_r. destruct Hs as [_ Hs].
    split_and!; [done|lia|lia|auto| |done|done|lia|lia|done]. nia.
  - assert (0 < q * 2 ^ e) as Hqe by (pose proof (Z.pow_pos_nonneg 2 e); nia).
    pose proof (nearest_even_bounds p (q * 2 ^ e) Hqe) as (B1 & B2 & B3).
    exists (nearest_even p (q * 2 ^ e)), 0, e. change (2 ^ 0) with 1. rewrite !Z.mul_1_r. destruct Hs as [_ Hs].
    split_and!; [done|lia|lia|auto| |done|done|lia|lia|done]. nia.
Qed.

Lemma round53_pos p q : 0 < p → round53 p q = round_pos p q.
Proof. intros Hp. unfold round53. by rewrite (proj2 (Z.eqb_neq p 0)), (proj2 (Z.ltb_lt 0 p)) by lia. Qed.

(** An integer below [2^53] is represented exactly. *)
Lemma of_int_exact z : 0 <= z < 2 ^ 53 → of_int z = (z, 1).
Proof.
  intros Hz. unfold of_int. destruct (decide (z = 0)) as [->|Hne]; [done|].
  rewrite round53_pos by lia.
  destruct (round_pos_value z 1) as (m & k & j & -> & Hk & Hj & Hkj & Hm & _ & _ & Hlo & Em); [lia..|].
  rewrite Z.mul_1_l in *.
  assert (j = 0) as ->.
  { destruct Hkj as [->|?]; [|done]. change (2 ^ 0) with 1 in *.
    destruct (decide (j = 0)); [done|]. assert (2 ^ 1 <= 2 ^ j) by (apply Z.pow_le_mono_r; lia). nia. }
  change (2 ^ 0) with 1 in *. rewrite Z.mul_1_r in *.
  replace (z * 2 ^ k) with ((z * 2 ^ k) * 1) in Em by lia. rewrite nearest_even_exact in Em by lia.
  subst m. apply lowest_integer. apply Z.pow_pos_nonneg; lia.
Qed.

Lemma to_int_lowest a b : 0 < b → to_int (lowest (a, b)) = a `quot` b.
Proof.
  intros Hb. destruct (lowest_spec a b Hb) as (g & a' & b' & Hg & Hb' & -> & -> & ->).
  unfold to_int. cbn [fst snd]. by rewrite Z.quot_mul_cancel_r by lia.
Qed.

(** The integer part of a quotient of two integers below [2^53] is exact. *)
Lemma quotient_exact p q : 0 <= p < 2 ^ 53 → 0 < q < 2 ^ 53 → to_int (round53 p q) = p `div` q.
Proof.
  intros Hp Hq. destruct (decide (p = 0)) as [->|Hne].
  { by rewrite Z.div_0_l by lia. }
  rewrite round53_pos by lia.
  destruct (round_pos_value p q) as (m & k & j & -> & Hk & Hj & Hkj & Hm & Hdiv & Hup & Hlo & _); [lia..|].
  assert (j = 0) as ->.
  { destruct Hkj as [->|?]; [|done]. change (2 ^ 0) with 1 in *.
    destruct (decide (j = 0)); [done|]. assert (2 ^ 1 <= 2 ^ j) by (apply Z.pow_le_mono_r; lia). nia. }
  change (2 ^ 0) with 1 in *. rewrite !Z.mul_1_r in *.
  assert (0 < 2 ^ k) as Hpk by (apply Z.pow_pos_nonneg; lia).
  rewrite to_int_lowest, Z.quot_div_nonneg by lia.
  set (n := p `div` q). pose proof (Z.div_mod p q ltac:(lia)) as Edm. fold n in Edm.
  pose proof (Z.mod_pos_bound p q ltac:(lia)) as Hr. set (r := p `mod` q) in *.
  symmetry. apply (Z.div_unique_pos m (2 ^ k) n (m - n * 2 ^ k)); [|lia].
  (* the mantissa is between the two multiples of [2^k] *)
  split.
  - assert (n * 2 ^ k <= (p * 2 ^ k) `div` q); [|lia]. apply Z.div_le_lower_bound; nia.
  - assert (q < 2 ^ k * 2) as Hqk.
    { assert (2 ^ 52 * q <= p * 2 ^ k) by lia. nia. }
    assert (2 * (m - n * 2 ^ k) * q < 2 * 2 ^ k * q); [|nia].
    assert (2 * m * q <= 2 * ((q * n + r) * 2 ^ k) + q) by (rewrite <- Edm; lia). nia.
Qed.

(** Rounding at most halves a value. *)
Lemma round53_half p q : 0 < p → 0 < q →
  let '(n, d) := round53 p q in 0 < n ∧ 0 < d ∧ p * d <= 2 * n * q.
Proof.
  intros Hp Hq. rewrite round53_pos by lia.
  destruct (round_pos_value p q) as (m & k & j & -> & Hk & Hj & _ & Hm & _ & _ & Hlo & _); [lia..|].
  assert (0 < 2 ^ k) as Hpk by (apply Z.pow_pos_nonneg; lia).
  assert (0 < 2 ^ j) as Hpj by (apply Z.pow_pos_nonneg; lia).
  destruct (lowest_spec (m * 2 ^ j) (2 ^ k) Hpk) as (g & a' & b' & Hg & Hb' & Ea & Eb & ->).
  assert (0 < a') by nia. split_and!; [done..|].
  assert (p * 2 ^ k < 2 * m * q * 2 ^ j) as H1 by nia.
  rewrite Eb in H1. assert (2 * m * q * 2 ^ j = 2 * q * (a' * g)) as E by (rewrite <- Ea; ring). nia.
Qed.
