(* ===== verification/Duration.v ===== *)
(** * Durations as text ([time.ParseDuration])

    The intervals of the configuration are written as text. This file models the parser of
    Go's standard library, overflow checks included, and shows what it makes of a whole
    number of seconds. *)

From Stdlib Require Import Strings.Ascii.
From S2P Require Import Prelude Bytes Net NetText Float.
From stdpp Require Import options.

Inductive duration_error := ErrInvalidDuration | ErrMissingUnit | ErrUnknownUnit.

#[export] Instance duration_error_eq_dec : EqDecision duration_error.
Proof. solve_decision. Defined.

(** The digits at the front: their value, at most [2^63], and the rest. *)
Fixpoint leadingInt (x : Z) (s : string) : option (Z * string) :=
  match s with
  | String c s' =>
      match digit c with
      | None => Some (x, s)
      | Some d =>
          if 2 ^ 63 `div` 10 <? x then None
          else let x := x * 10 + d in if 2 ^ 63 <? x then None else leadingInt x s'
      end
  | EmptyString => Some (x, s)
  end.

(** The digits of a fraction: their value, the power of ten by which to divide it, and the
    rest. The digits after an overflow are ignored. *)
Fixpoint leadingFraction (x scale : Z) (overflow : bool) (s : string) : Z * Z * string :=
  match s with
  | String c s' =>
      match digit c with
      | None => (x, scale, s)
      | Some d =>
          if overflow || ((2 ^ 63 - 1) `div` 10 <? x) then leadingFraction x scale true s'
          else let y := x * 10 + d in
               if 2 ^ 63 <? y then leadingFraction x scale true s'
               else leadingFraction y (scale * 10) false s'
      end
  | EmptyString => (x, scale, s)
  end.

(** What is before the next digit or point, and the rest. *)
Fixpoint take_unit (s : string) : string * string :=
  match s with
  | String c s' =>
      if ascii_is c "."%char || bool_decide (is_Some (digit c)) then (EmptyString, s)
      else let '(u, rest) := take_unit s' in (String c u, rest)
  | EmptyString => (EmptyString, EmptyString)
  end.

(** [unitMap]; the micro sign and the Greek letter are two bytes each. *)
Definition unitMap : list (string * Z) :=
  [("ns", 1); ("us", 1000);
   (String (ascii_of_nat 194) (String (ascii_of_nat 181) "s"), 1000);
   (String (ascii_of_nat 206) (String (ascii_of_nat 188) "s"), 1000);
   ("ms", 1000000); ("s", Second); ("m", 60 * Second); ("h", 3600 * Second)]%string.

Definition unit_of (u : string) : option Z := snd ∘ snd <$> list_find (λ p, fst p = u) unitMap.

(** One number with its unit: its value, and the rest. *)
Definition one_value (s : string) : res duration_error (Z * string) :=
  match leadingInt 0 s with
  | None => Err ErrInvalidDuration
  | Some (v, s1) =>
      let pre := negb (String.length s1 =? String.length s)%nat in
      let '(f, scale, s2, post) :=
        match s1 with
        | String "." s1' =>
            let '(f, scale, s2) := leadingFraction 0 1 false s1' in
            (f, scale, s2, negb (String.length s2 =? String.length s1')%nat)
        | _ => (0, 1, s1, false)
        end in
      if negb pre && negb post then Err ErrInvalidDuration else
      let '(u, s3) := take_unit s2 in
      if bool_decide (u = EmptyString) then Err ErrMissingUnit else
      match unit_of u with
      | None => Err ErrUnknownUnit
      | Some unit =>
          if 2 ^ 63 `div` unit <? v then Err ErrInvalidDuration else
          let v := v * unit in
          let v := if 0 <? f then v + to_int (f_mul (of_int f) (f_div (of_int unit) (scale, 1))) else v in
          if (0 <? f) && (2 ^ 63 <? v) then Err ErrInvalidDuration else Ok (v, s3)
      end
  end.

(** The loop over the numbers. Each takes one character at least, so the length of the text
    is fuel enough. *)
Fixpoint values (fuel : nat) (d : Z) (s : string) : res duration_error Z :=
  match s with
  | EmptyString => Ok d
  | String c _ =>
      match fuel with
      | O => Err ErrInvalidDuration
      | S fuel =>
          if ascii_is c "."%char || bool_decide (is_Some (digit c)) then
            '(v, s) ← one_value s;
            let d := wrap 64 (d + v) in
            if 2 ^ 63 <? d then Err ErrInvalidDuration else values fuel d s
          else Err ErrInvalidDuration
      end
  end.

Definition ParseDuration (s : string) : res duration_error Z :=
  let '(neg, s) :=
    match s with
    | String "-" s => (true, s)
    | String "+" s => (false, s)
    | _ => (false, s)
    end in
  if bool_decide (s = "0"%string) then Ok 0
  else if bool_decide (s = EmptyString) then Err ErrInvalidDuration
  else
    d ← values (String.length s) 0 s;
    if neg then Ok (- d)
    else if 2 ^ 63 - 1 <? d then Err ErrInvalidDuration else Ok d.

Example parse_mixed : ParseDuration "1h15m30.918s" = Ok (4530918 * 1000000).
Proof. vm_compute. reflexivity. Qed.

Example parse_negative : ParseDuration "-1.5h" = Ok (- 5400 * Second).
Proof. vm_compute. reflexivity. Qed.

Example parse_no_unit : ParseDuration "30" = Err ErrMissingUnit.
Proof. vm_compute. reflexivity. Qed.

(** ** Printing *)

(** The [prec] last decimal digits of [v] in front of [s], from the last one that is not zero
    on. The second result tells whether one was printed. *)
Fixpoint fmtFrac_go (prec : nat) (v : Z) (print : bool) (s : string) : Z * bool * string :=
  match prec with
  | O => (v, print, s)
  | S prec =>
      let d := v `mod` 10 in
      let print := print || negb (d =? 0) in
      fmtFrac_go prec (v `div` 10) print (if print then dec d +:+ s else s)
  end.

Definition fmtFrac (v : Z) (prec : nat) (s : string) : Z * string :=
  let '(v, print, s) := fmtFrac_go prec v false s in (v, if print : bool then "." +:+ s else s).

(** [Duration.String] *)
Definition Duration_String (d : Z) : string :=
  let u := Z.abs d in
  let text :=
    if u <? Second then
      if u =? 0 then "0s"%string
      else
        let '(v, s) :=
          if u <? 1000 then fmtFrac u 0 "ns"
          else if u <? 1000000 then fmtFrac u 3 (String (ascii_of_nat 194) (String (ascii_of_nat 181) "s"))
          else fmtFrac u 6 "ms" in
        dec v +:+ s
    else
      let '(v, s) := fmtFrac u 9 "s" in
      let s := dec (v `mod` 60) +:+ s in
      let v := v `div` 60 in
      if 0 <? v then
        let s := dec (v `mod` 60) +:+ "m" +:+ s in
        let v := v `div` 60 in
        if 0 <? v then dec v +:+ "h" +:+ s else s
      else s in
  if d <? 0 then "-" +:+ text else text.

(** [Duration.Seconds] *)
Definition Seconds (d : Z) : f64 :=
  f_add (of_int (d `quot` Second)) (f_div (of_int (d `rem` Second)) (of_int Second)).

Example print_mixed : Duration_String (4530918 * 1000000) = "1h15m30.918s"%string.
Proof. vm_compute. reflexivity. Qed.

Example print_small : map Duration_String [0; 15; 1500000; - 2 * Second] = ["0s"; "15ns"; "1.5ms"; "-2s"]%string.
Proof. vm_compute. reflexivity. Qed.

(** ** Fuel *)

Lemma length_leadingInt x s v r : leadingInt x s = Some (v, r) → (String.length r ≤ String.length s)%nat.
Proof.
  revert x. induction s as [|c s IH]; intros x; cbn [leadingInt]; [by intros [= _ <-]|].
  destruct (digit c); [|by intros [= _ <-]].
  destruct (_ <? x); [done|]. destruct (2 ^ 63 <? _); [done|]. intros H%IH. cbn. lia.
Qed.

Lemma length_leadingFraction x scale o s :
  (String.length (snd (leadingFraction x scale o s)) ≤ String.length s)%nat.
Proof.
  revert x scale o. induction s as [|c s IH]; intros x scale o; cbn [leadingFraction]; [done|].
  destruct (digit c) as [d|]; [|done].
  destruct (_ || _); [specialize (IH x scale true); cbn; lia|].
  destruct (2 ^ 63 <? _); [specialize (IH x scale true)|specialize (IH (x * 10 + d) (scale * 10) false)]; cbn; lia.
Qed.

Lemma length_take_unit s :
  String.length s = (String.length (fst (take_unit s)) + String.length (snd (take_unit s)))%nat.
Proof.
  induction s as [|c s IH]; [done|]. cbn. destruct (_ || _); [done|].
  destruct (take_unit s) as [u r]. cbn in *. lia.
Qed.

Lemma one_value_shorter s v r : one_value s = Ok (v, r) → (String.length r < String.length s)%nat.
Proof.
  unfold one_value. destruct (leadingInt 0 s) as [[x s1]|] eqn:E1; [|done].
  apply length_leadingInt in E1. cbv zeta.
  assert (∃ f scale s2 post, (match s1 with
        | String "." s1' =>
            let '(f, scale, s2) := leadingFraction 0 1 false s1' in
            (f, scale, s2, negb (String.length s2 =? String.length s1')%nat)
        | _ => (0, 1, s1, false)
        end) = (f, scale, s2, post) ∧ (String.length s2 ≤ String.length s1)%nat) as (f & scale & s2 & post & -> & H2).
  { assert (∀ s1', (String.length (snd (leadingFraction 0 1 false s1')) ≤ String.length s1')%nat) as Hf
      by (intros; apply length_leadingFraction).
    destruct s1 as [|[[] [] [] [] [] [] [] []] s1']; try by eexists _, _, _, _.
    specialize (Hf s1'). destruct (leadingFraction 0 1 false s1') as [[f scale] s2].
    eexists _, _, _, _. split; [done|]. cbn in *. lia. }
  destruct (_ && _); [done|]. pose proof (length_take_unit s2) as H3.
  destruct (take_unit s2) as [u s3]. cbn [fst snd] in H3.
  destruct (bool_decide_reflect (u = EmptyString)) as [|Hu]; [done|].
  destruct (unit_of u); [|done]. destruct (_ <? x); [done|]. destruct (_ && _); [done|].
  intros [= _ <-]. destruct u; [done|]. cbn in H3. lia.
Qed.

(** More fuel than the length of the text changes nothing. *)
Lemma values_fuel n s d :
  (String.length s ≤ n)%nat → values n d s = values (String.length s) d s.
Proof.
  assert (∀ n m s d, (String.length s ≤ n)%nat → (String.length s ≤ m)%nat → values n d s = values m d s) as H;
    [|intros; by apply H].
  clear n s d. induction n as [|n IH]; intros m s d Hn Hm.
  { destruct s; [by destruct m|]. cbn in Hn. lia. }
  destruct s as [|c s]; [by destruct m|]. destruct m as [|m]; [cbn in Hm; lia|].
  cbn [values]. destruct (_ || _); [|done].
  destruct (one_value (String c s)) as [[v r]| |] eqn:E; [|done..]. cbn [mbind res_bind].
  apply one_value_shorter in E. destruct (2 ^ 63 <? _); [done|]. cbn in *. apply IH; lia.
Qed.

Lemma one_value_no_panic s : one_value s ≠ Panic.
Proof. unfold one_value. repeat case_match; done. Qed.

Lemma ParseDuration_no_panic s : ParseDuration s ≠ Panic.
Proof.
  assert (∀ n d t, values n d t ≠ Panic) as Hv.
  { induction n as [|n IH]; intros d [|c t]; cbn [values]; try done. destruct (_ || _); [|done].
    destruct (one_value _) as [[v r]| |] eqn:E; [|done|by apply one_value_no_panic in E].
    cbn [mbind res_bind]. destruct (_ <? _); [done|apply IH]. }
  unfold ParseDuration. destruct (match s with EmptyString => _ | _ => _ end) as [neg t].
  case_bool_decide; [done|]. case_bool_decide; [done|].
  destruct (values _ 0 t) eqn:E; [|done|by apply Hv in E]. cbn [mbind res_bind]. by repeat case_match.
Qed.

(** ** Range *)

Lemma values_range n d s v : 0 <= d <= 2 ^ 63 → values n d s = Ok v → 0 <= v <= 2 ^ 63.
Proof.
  revert d s. induction n as [|n IH]; intros d s Hd; destruct s as [|c s]; cbn [values]; try (by intros [= <-]); try done.
  destruct (_ || _); [|done]. destruct (one_value (String c s)) as [[x r]| |]; [|done..].
  cbn [mbind res_bind]. destruct (Z.ltb_spec (2 ^ 63) (wrap 64 (d + x))); [done|]. apply IH.
  split; [|done]. unfold wrap. by apply Z.mod_pos_bound.
Qed.

(** A duration that is parsed fits its 64 bits. *)
Lemma ParseDuration_range s d : ParseDuration s = Ok d → - 2 ^ 63 <= d < 2 ^ 63.
Proof.
  unfold ParseDuration. destruct (match s with EmptyString => _ | _ => _ end) as [neg t].
  case_bool_decide; [intros [= <-]; lia|]. case_bool_decide; [done|].
  destruct (values _ 0 t) as [v| |] eqn:E; [|done..]. cbn [mbind res_bind].
  apply values_range in E; [|lia]. destruct neg; [intros [= <-]; lia|].
  destruct (Z.ltb_spec (2 ^ 63 - 1) v); [done|]. intros [= <-]. lia.
Qed.

(** ** Whole numbers of seconds *)

#[local] Arguments String.append !_ _ / : simpl nomatch.

Lemma pretty_N_go_append x : (0 < x)%N → ∀ s t, pretty_N_go x (s +:+ t) = pretty_N_go x s +:+ t.
Proof.
  induction (N.lt_wf_0 x) as [x _ IH]. intros Hx s t. rewrite !(pretty_N_go_step x) by done.
  change (String (pretty_N_char (x `mod` 10)) (s +:+ t)) with (String (pretty_N_char (x `mod` 10)) s +:+ t).
  destruct (decide (x `div` 10 = 0)%N) as [->|E]; [by rewrite !pretty_N_go_0|].
  apply IH; [by apply N.div_lt|by apply N.neq_0_lt_0].
Qed.

Lemma leadingInt_pretty x : (0 < x)%N →
  ∃ k, ∀ acc s, 0 <= acc → acc * 10 ^ Z.of_nat k + Z.of_N x <= 2 ^ 63 →
    leadingInt acc (pretty_N_go x s) = leadingInt (acc * 10 ^ Z.of_nat k + Z.of_N x) s.
Proof.
  induction (N.lt_wf_0 x) as [x _ IH]. intros Hx.
  assert (x `mod` 10 < 10)%N as Hm by by apply N.mod_lt.
  pose proof (digit_pretty _ Hm) as Hd. pose proof (N.div_mod x 10 ltac:(done)) as Hdm.
  assert (∀ y s, 0 <= y → y * 10 + Z.of_N (x `mod` 10) <= 2 ^ 63 →
    leadingInt y (String (pretty_N_char (x `mod` 10)) s) = leadingInt (y * 10 + Z.of_N (x `mod` 10)) s) as Hstep.
  { intros y s H0 Hy. cbn [leadingInt]. rewrite Hd.
    pose proof (N2Z.is_nonneg (x `mod` 10)).
    assert (y <= 2 ^ 63 `div` 10) by (apply Z.div_le_lower_bound; lia).
    rewrite (proj2 (Z.ltb_ge _ y)), (proj2 (Z.ltb_ge _ (y * 10 + _))) by done. done. }
  destruct (decide (x `div` 10 = 0)%N) as [E|E].
  - exists 1%nat. intros acc s Ha Hb. rewrite pretty_N_go_step, E, pretty_N_go_0 by done.
    rewrite Hstep by lia. f_equal. lia.
  - destruct (IH (x `div` 10)%N) as [k Hk]; [by apply N.div_lt|lia|].
    exists (S k). intros acc s Ha Hb. rewrite pretty_N_go_step by done.
    rewrite Nat2Z.inj_succ, Z.pow_succ_r in * by lia.
    pose proof (Z.pow_pos_nonneg 10 (Z.of_nat k) ltac:(lia) ltac:(lia)) as Hp.
    assert (Z.of_N x = 10 * Z.of_N (x `div` 10) + Z.of_N (x `mod` 10)) as Hz by lia.
    pose proof (N2Z.is_nonneg (x `mod` 10)). pose proof (N2Z.is_nonneg (x `div` 10)).
    rewrite Hz in *. clear Hdm. generalize dependent (Z.of_N (x `div` 10)). intros q Hk Hq Hz Hb.
    assert (0 <= acc * 10 ^ Z.of_nat k) by nia.
    rewrite Hk by lia. rewrite Hstep by lia. f_equal. lia.
Qed.

(** The most that fits in 63 bits *)
Definition maxSeconds : Z := 9223372036.

Lemma maxSeconds_eq : 2 ^ 63 `div` Second = maxSeconds.
Proof. reflexivity. Qed.

(** [n] seconds: the digits of [n] and the letter s. *)
Definition seconds (n : Z) : string := dec n +:+ "s".

Lemma dec_digits n t : 0 < n → dec n +:+ t = pretty_N_go (Z.to_N n) t.
Proof.
  intros Hn. unfold dec, pretty, pretty_N. rewrite decide_False by lia.
  by rewrite <- pretty_N_go_append by lia.
Qed.

Lemma one_value_seconds n : 0 < n <= maxSeconds → one_value (seconds n) = Ok (n * Second, EmptyString).
Proof.
  intros Hn. assert (n <= 2 ^ 63) by (unfold maxSeconds in *; lia).
  assert (leadingInt 0 (seconds n) = Some (n, "s"%string)) as E.
  { unfold seconds. rewrite dec_digits by lia. destruct (leadingInt_pretty (Z.to_N n)) as [k Hk]; [lia|].
    rewrite Hk by lia. cbn. f_equal. f_equal. lia. }
  unfold one_value. rewrite E. cbv zeta.
  assert (String.length (seconds n) ≠ 1%nat) as Hlen.
  { destruct (dec_spec n) as (_ & c & w & d & Hw & _ & _); [lia|]. unfold seconds. rewrite Hw.
    cbn. destruct w; cbn; lia. }
  cbn [String.length]. rewrite (proj2 (Nat.eqb_neq 1 _)) by lia. cbn [negb andb].
  change (take_unit "s") with ("s"%string, EmptyString). cbv iota beta.
  rewrite bool_decide_false by done.
  change (unit_of "s") with (Some Second). cbv iota beta.
  rewrite maxSeconds_eq, (proj2 (Z.ltb_ge _ n)) by lia. done.
Qed.

Lemma ParseDuration_seconds n : 0 < n <= maxSeconds → ParseDuration (seconds n) = Ok (n * Second).
Proof.
  intros Hn. pose proof (one_value_seconds n Hn) as E. unfold ParseDuration.
  destruct (dec_spec n) as (_ & c & w & d & Hw & Hd & _); [lia|].
  assert (seconds n = String c (w +:+ "s")) as Hs by (unfold seconds; by rewrite Hw). rewrite Hs in *.
  assert (match String c (w +:+ "s") with
    | String "-" s => (true, s) | String "+" s => (false, s) | _ => (false, String c (w +:+ "s")) end =
    (false, String c (w +:+ "s"))) as ->.
  { destruct c as [[] [] [] [] [] [] [] []]; try done; discriminate Hd. }
  rewrite !bool_decide_false; [|done|destruct w; cbn; congruence].
  cbn [String.length values]. rewrite Hd. rewrite (bool_decide_true (is_Some (Some d))) by eauto.
  rewrite orb_true_r, E. cbn [mbind res_bind].
  assert (0 < n * Second < 2 ^ 63) as Hr.
  { unfold Second, maxSeconds in *. lia. }
  unfold wrap. rewrite Z.mod_small by lia. rewrite (proj2 (Z.ltb_ge _ _)) by lia.
  destruct (String.length (w +:+ "s")); cbn [values mbind res_bind];
    rewrite (proj2 (Z.ltb_ge _ _)) by lia; done.
Qed.
