(* ===== verification/Json.v ===== *)
(** * Decoding JSON ([encoding/json], as the program uses it)

    The program reads its configuration and the pins of certificates from JSON files. This file
    models what [json.Unmarshal] makes of the tree of a text: how it finds the field of a key, and
    how it writes a value over the one that is there. The syntax of the texts is not
    modelled, nor are texts that give the same list twice, whose memory is used again. *)

From Stdlib Require Import Strings.Ascii.
From S2P Require Import Prelude.
From stdpp Require Import options.

#[local] Set Warnings "-register-all".

(** A JSON value. [JNum] has the value of a literal without fraction and exponent, which is
    all that an integer field accepts. *)
Inductive json :=
| JNull
| JBool (b : bool)
| JNum (n : option Z)
| JStr (s : string)
| JArr (l : list json)
| JObj (l : list (string * json)).

(** Decoding into a value that is there already; null leaves it as it is. *)
Definition as_string (j : json) (old : string) : option string :=
  match j with JNull => Some old | JStr s => Some s | _ => None end.

Definition as_int (lo hi : Z) (j : json) (old : Z) : option Z :=
  match j with
  | JNull => Some old
  | JNum (Some n) => if (lo <=? n) && (n <=? hi) then Some n else None
  | _ => None
  end.

(** A slice is decoded in place, element by element; null makes it nil. *)
Fixpoint as_elements (l : list json) (old : list string) : option (list string) :=
  match l with
  | [] => Some []
  | j :: l =>
      s ← as_string j (default EmptyString (head old));
      rest ← as_elements l (tail old);
      Some (s :: rest)
  end.

Definition as_strings (j : json) (old : list string) : option (list string) :=
  match j with JNull => Some [] | JArr l => as_elements l old | _ => None end.

Definition as_int64 (j : json) (old : Z) : option Z := as_int (- 2 ^ 63) (2 ^ 63 - 1) j old.
Definition as_uint32 (j : json) (old : Z) : option Z := as_int 0 (2 ^ 32 - 1) j old.

(** Keys match a field by name or, failing that, regardless of case; the Kelvin sign and the
    long s count as k and s. *)
Definition lower (c : ascii) : ascii :=
  let n := N_of_ascii c in if ((65 <=? n) && (n <=? 90))%N then ascii_of_N (n + 32) else c.

Fixpoint fold_key (s : string) : string :=
  match s with
  | EmptyString => EmptyString
  | String c s1 =>
      match s1 with
      | String d s2 =>
          if decide (N_of_ascii c = 197 ∧ N_of_ascii d = 191)%N then String "s" (fold_key s2) else
          match s2 with
          | String e s3 =>
              if decide (N_of_ascii c = 226 ∧ N_of_ascii d = 132 ∧ N_of_ascii e = 170)%N
              then String "k" (fold_key s3) else String (lower c) (fold_key s1)
          | EmptyString => String (lower c) (fold_key s1)
          end
      | EmptyString => String (lower c) EmptyString
      end
  end.

(** The fields of a struct, with their tags, and how to decode into them. *)
Definition fields (S : Type) : Type := list (string * (json → S → option S)).

Fixpoint find_field {S} (key : string) (fs : fields S) : option (json → S → option S) :=
  match fs with
  | [] => None
  | (k, f) :: fs => if decide (k = key) then Some f else find_field key fs
  end.

Definition field_of {S} (fs : fields S) (key : string) : option (json → S → option S) :=
  match find_field key fs with Some f => Some f | None => find_field (fold_key key) fs end.

Fixpoint decode_members {S} (fs : fields S) (l : list (string * json)) (s : S) : option S :=
  match l with
  | [] => Some s
  | (key, j) :: l =>
      match field_of fs key with
      | Some f => s ← f j s; decode_members fs l s
      | None => decode_members fs l s
      end
  end.

Definition decode_struct {S} (fs : fields S) (j : json) (s : S) : option S :=
  match j with
  | JNull => Some s
  | JObj l => decode_members fs l s
  | _ => None
  end.

(** Decoding into a map of strings: null gives the zero value of an element. *)
Fixpoint as_map (l : list (string * json)) (m : gmap string string) : option (gmap string string) :=
  match l with
  | [] => Some m
  | (key, j) :: l => v ← as_string j EmptyString; as_map l (<[key := v]> m)
  end.

(** ** Lemmas *)

Lemma as_elements_strings l old : as_elements (map JStr l) old = Some l.
Proof.
  revert old. induction l as [|s l IH]; intros old; [done|]. cbn [map as_elements as_string mbind option_bind].
  by rewrite IH.
Qed.

Lemma as_int_in lo hi n old : lo <= n <= hi → as_int lo hi (JNum (Some n)) old = Some n.
Proof. intros [H1 H2]. cbn. by rewrite (proj2 (Z.leb_le _ _) H1), (proj2 (Z.leb_le _ _) H2). Qed.

Lemma decode_member {S} (fs : fields S) key f j l s :
  field_of fs key = Some f → decode_members fs ((key, j) :: l) s = f j s ≫= decode_members fs l.
Proof. cbn. intros ->. done. Qed.

Lemma as_map_strings l m : as_map (prod_map id JStr <$> l) m = Some (foldl (λ m p, <[p.1 := p.2]> m) m l).
Proof.
  revert m. induction l as [|[key v] l IH]; intros m; [done|]. cbn. by rewrite IH.
Qed.
