(* ===== verification/PinFile.v ===== *)
(** * The file of the pin store ([identity/pinstore.go])

    Loading and saving the pins as a JSON object, and the checks of one process after
    another on the same file. *)

From S2P Require Import Prelude Bytes Net Identity Json.
From stdpp Require Import options.

Inductive pinfile_error := ErrReadPins | ErrParsePins.

#[export] Instance pinfile_error_eq_dec : EqDecision pinfile_error.
Proof. solve_decision. Defined.

(** The file as [os.ReadFile] finds it: its tree, if the text has one. *)
Inductive pin_file := PinsMissing | PinsUnreadable | PinsText (j : option json).

(** A store whose map is nil, after a text that is null, is not usable: [None]. *)
Definition NewPinStore (f : pin_file) : res pinfile_error (option PinStore) :=
  match f with
  | PinsMissing => Ok (Some (mkPinStore ∅))
  | PinsUnreadable => Err ErrReadPins
  | PinsText (Some JNull) => Ok None
  | PinsText (Some (JObj l)) =>
      match as_map l ∅ with Some m => Ok (Some (mkPinStore m)) | None => Err ErrParsePins end
  | PinsText _ => Err ErrParsePins
  end.

(** [save] writes the keys in their order. *)
Definition save (ps : PinStore) (sorted : list (string * string)) : pin_file :=
  PinsText (Some (JObj (prod_map id JStr <$> sorted))).

(** The text of a store: its pins in some order. *)
Definition saved (ps : PinStore) (f : pin_file) : Prop :=
  ∃ l, l ≡ₚ map_to_list (pins ps) ∧ f = save ps l.

(** [Check] on a store that may be nil: reading a nil map is possible, writing is not. *)
Definition Check_loaded (ps : option PinStore) (addr fp : string) (save_ok : bool)
    : option PinStore * res pin_error bool :=
  match ps with
  | None => (None, Panic)
  | Some ps => let '(ps, r) := Check_pin ps addr fp save_ok in (Some ps, r)
  end.

Lemma foldl_insert_perm (l : list (string * string)) (m : gmap string string) :
  NoDup l.*1 → foldl (λ m p, <[p.1 := p.2]> m) m l = list_to_map l ∪ m.
Proof.
  revert m. induction l as [|[key v] l IH]; intros m Hd; [cbn; by rewrite (left_id_L ∅ (∪))|].
  cbn. apply NoDup_cons in Hd as [Hn Hd]. cbn in Hn. rewrite IH by done.
  rewrite <- insert_union_l, insert_union_r; [done|]. by apply not_elem_of_list_to_map_1.
Qed.

(** What was saved is loaded again. *)
Lemma load_saved ps f : saved ps f → NewPinStore f = Ok (Some ps).
Proof.
  intros (l & Hl & ->). unfold save. cbn [NewPinStore].
  assert (NoDup l.*1) as Hd by (rewrite Hl; apply NoDup_fst_map_to_list).
  rewrite as_map_strings, foldl_insert_perm, (right_id_L ∅ (∪)) by done.
  rewrite (list_to_map_proper l _ Hd Hl), list_to_map_to_list. by destruct ps.
Qed.

(** Trust on first use across restarts: a pin that a check has accepted and saved is the
    only one that the next process accepts for the address. *)
Lemma pin_survives ps addr fp f ps' fp' save_ok :
  snd (Check_pin ps addr fp true) = Ok true → saved (fst (Check_pin ps addr fp true)) f →
  NewPinStore f = Ok (Some ps') → snd (Check_pin ps' addr fp' save_ok) = Ok true → fp' = fp.
Proof.
  intros Hc Hs Hn Hc'. rewrite (load_saved _ _ Hs) in Hn. injection Hn as <-.
  apply Check_pin_trusted in Hc. pose proof (Check_pin_keeps _ addr fp' save_ok _ _ Hc) as Hk.
  apply Check_pin_trusted in Hc'. congruence.
Qed.

(** A file that contains null is accepted, and the first check of a new address then panics. *)
Lemma null_pins_panic addr fp save_ok :
  NewPinStore (PinsText (Some JNull)) = Ok None ∧ snd (Check_loaded None addr fp save_ok) = Panic.
Proof. done. Qed.
