(* ===== verification/RateLimit.v ===== *)
(** * The limiter of incoming connections ([rateLimiter] in [node/node.go])

    A token bucket whose refill is computed with 64-bit floating point numbers ([Float]). *)

From S2P Require Import Prelude Float.
From stdpp Require Import options.

(** ** The limiter *)

Record rateLimiter := mkRateLimiter { tokens : Z; rl_max : Z; rl_interval : Z; last : Z }.

Definition newRateLimiter (maxPerInterval interval now : Z) : rateLimiter :=
  mkRateLimiter maxPerInterval maxPerInterval interval now.

Definition refill (rl : rateLimiter) (elapsed : Z) : Z :=
  to_int (f_div (f_mul (of_int (rl_max rl)) (of_int elapsed)) (of_int (rl_interval rl))).

Definition allow (rl : rateLimiter) (now : Z) : rateLimiter * bool :=
  let elapsed := time_sub now (last rl) in
  let t := tokens rl + refill rl elapsed in
  let t := if rl_max rl <? t then rl_max rl else t in
  if 0 <? t then (mkRateLimiter (t - 1) (rl_max rl) (rl_interval rl) now, true)
  else (mkRateLimiter t (rl_max rl) (rl_interval rl) now, false).

(** The answers to calls at the given times. *)
Fixpoint calls (rl : rateLimiter) (times : list Z) : list bool :=
  match times with
  | [] => []
  | t :: times => let '(rl, b) := allow rl t in b :: calls rl times
  end.

(** The limiter of the node: 10 connections per second. *)
Definition acceptLimiter (now : Z) : rateLimiter := newRateLimiter 10 Second now.

(** ** The reference: a token bucket in integers *)

Definition allow_ref (rl : rateLimiter) (now : Z) : rateLimiter * bool :=
  let t := Z.min (rl_max rl) (tokens rl + (rl_max rl * (now - last rl)) `div` rl_interval rl) in
  (mkRateLimiter (if 0 <? t then t - 1 else t) (rl_max rl) (rl_interval rl) now, 0 <? t).

Record limiter_ok (rl : rateLimiter) : Prop := {
  lim_max : 0 < rl_max rl;
  lim_interval : 0 < rl_interval rl;
  lim_small : (rl_max rl + 1) * rl_interval rl <= 2 ^ 50;
  lim_tokens : 0 <= tokens rl <= rl_max rl }.

(** Up to ten days, for ten per second: the refill is the integer quotient. *)
Lemma refill_exact rl elapsed :
  limiter_ok rl → 0 <= elapsed → rl_max rl * elapsed < 2 ^ 53 →
  refill rl elapsed = (rl_max rl * elapsed) `div` rl_interval rl.
Proof.
  intros [Hm Hi Hs _] He Hlt. unfold refill.
  rewrite (of_int_exact (rl_max rl)), (of_int_exact elapsed), (of_int_exact (rl_interval rl)) by nia.
  unfold f_mul. cbn [fst snd]. change (1 * 1) with 1.
  change (round53 (rl_max rl * elapsed) 1) with (of_int (rl_max rl * elapsed)).
  rewrite of_int_exact by nia. unfold f_div. cbn [fst snd]. rewrite Z.mul_1_r, Z.mul_1_l.
  apply quotient_exact; nia.
Qed.

(** Beyond, both fill the bucket. *)
Lemma refill_full rl elapsed :
  limiter_ok rl → 2 ^ 53 <= rl_max rl * elapsed → rl_max rl <= refill rl elapsed.
Proof.
  intros [Hm Hi Hs _] Hlt. unfold refill. assert (0 < elapsed) as He by nia.
  rewrite (of_int_exact (rl_max rl)), (of_int_exact (rl_interval rl)) by nia.
  pose proof (round53_half elapsed 1 He ltac:(lia)) as H1. unfold of_int in *.
  destruct (round53 elapsed 1) as [n1 d1]. destruct H1 as (Hn1 & Hd1 & H1).
  unfold f_mul. cbn [fst snd]. rewrite Z.mul_1_l.
  pose proof (round53_half (rl_max rl * n1) d1 ltac:(nia) Hd1) as H2.
  destruct (round53 (rl_max rl * n1) d1) as [n2 d2]. destruct H2 as (Hn2 & Hd2 & H2).
  unfold f_div. cbn [fst snd]. rewrite Z.mul_1_r.
  pose proof (round53_half n2 (d2 * rl_interval rl) Hn2 ltac:(nia)) as H3.
  destruct (round53 n2 (d2 * rl_interval rl)) as [n3 d3]. destruct H3 as (Hn3 & Hd3 & H3).
  unfold to_int. cbn [fst snd]. rewrite Z.quot_div_nonneg by lia.
  apply Z.div_le_lower_bound; [lia|].
  set (M := rl_max rl) in *. set (I := rl_interval rl) in *.
  assert (M * elapsed * d1 <= 2 * (M * n1)) as G1 by nia.
  assert (M * elapsed * d2 <= 4 * n2) as G2.
  { apply (Z.mul_le_mono_pos_r _ _ d1); [done|].
    transitivity (2 * (M * n1) * d2); [|lia].
    replace (M * elapsed * d2 * d1) with (M * elapsed * d1 * d2) by ring.
    apply Z.mul_le_mono_nonneg_r; lia. }
  assert (M * elapsed * d3 <= 8 * n3 * I) as G3.
  { apply (Z.mul_le_mono_pos_r _ _ d2); [done|].
    transitivity (4 * n2 * d3); [|lia].
    replace (M * elapsed * d3 * d2) with (M * elapsed * d2 * d3) by ring.
    apply Z.mul_le_mono_nonneg_r; lia. }
  assert (2 ^ 53 * d3 <= 8 * (n3 * I)) as G4.
  { transitivity (M * elapsed * d3); [|lia]. apply Z.mul_le_mono_nonneg_r; lia. }
  assert ((M + 1) * I * d3 <= n3 * I) as G5.
  { transitivity (2 ^ 50 * d3); [apply Z.mul_le_mono_nonneg_r; lia|lia]. }
  assert ((M + 1) * d3 <= n3); [|lia].
  apply (Z.mul_le_mono_pos_r _ _ I); [done|]. lia.
Qed.

Lemma allow_eq rl now :
  limiter_ok rl → last rl <= now → allow rl now = allow_ref rl now.
Proof.
  intros Hok Hnow. pose proof Hok as [Hm Hi Hs Ht]. unfold allow, allow_ref. cbv zeta.
  set (d := now - last rl).
  assert (Z.min (rl_max rl) (tokens rl + refill rl (time_sub now (last rl))) =
    Z.min (rl_max rl) (tokens rl + (rl_max rl * d) `div` rl_interval rl)) as E.
  { assert (time_sub now (last rl) = Z.min max_duration d) as ->.
    { unfold time_sub, min_duration, max_duration, d. lia. }
    destruct (Z.ltb_spec (rl_max rl * Z.min max_duration d) (2 ^ 53)) as [Hlt|Hge].
    - assert (Z.min max_duration d = d) as Hd.
      { destruct (Z.min_spec max_duration d) as [[_ Hd]|[_ Hd]]; [|done].
        rewrite Hd in Hlt. unfold max_duration in Hlt. nia. }
      rewrite Hd in *. by rewrite refill_exact by (done || lia).
    - pose proof (refill_full rl _ Hok Hge).
      assert (rl_max rl <= (rl_max rl * d) `div` rl_interval rl); [|lia].
      apply Z.div_le_lower_bound; [done|]. assert (2 ^ 53 <= rl_max rl * d) by nia. nia. }
  replace (if rl_max rl <? tokens rl + refill rl (time_sub now (last rl)) then rl_max rl
           else tokens rl + refill rl (time_sub now (last rl)))
    with (Z.min (rl_max rl) (tokens rl + refill rl (time_sub now (last rl)))).
  - rewrite E. by destruct (0 <? Z.min _ _).
  - destruct (Z.ltb_spec (rl_max rl) (tokens rl + refill rl (time_sub now (last rl)))); lia.
Qed.

Lemma allow_ok rl now : limiter_ok rl → last rl <= now →
  limiter_ok (fst (allow rl now)) ∧ last (fst (allow rl now)) = now ∧
  rl_max (fst (allow rl now)) = rl_max rl ∧ rl_interval (fst (allow rl now)) = rl_interval rl.
Proof.
  intros Hok Hnow. rewrite allow_eq by done. destruct Hok as [Hm Hi Hs Ht]. unfold allow_ref. cbn.
  split; [|done]. split; cbn; [done..|].
  pose proof (Z.div_pos (rl_max rl * (now - last rl)) (rl_interval rl) ltac:(nia) Hi).
  destruct (Z.ltb_spec 0 (Z.min (rl_max rl) (tokens rl + (rl_max rl * (now - last rl)) `div` rl_interval rl))); lia.
Qed.

Lemma acceptLimiter_ok now : limiter_ok (acceptLimiter now).
Proof. split; cbn; unfold Second; lia. Qed.

(** ** Runs of calls *)

(** Calls at times that never decrease, from [t] on. *)
Fixpoint ordered (t : Z) (times : list Z) : Prop :=
  match times with [] => True | u :: times => t <= u ∧ ordered u times end.

Definition accepted (l : list bool) : Z := Z.of_nat (length (filter (λ b, b = true) l)).

Lemma accepted_cons b l : accepted (b :: l) = (if b then 1 else 0) + accepted l.
Proof. unfold accepted. rewrite filter_cons. destruct b; simpl; lia. Qed.

Lemma last_cons_default {A} (l : list A) a d : List.last (a :: l) d = List.last l a.
Proof.
  revert a d. induction l as [|b l IH]; intros a d; [done|].
  change (List.last (a :: b :: l) d) with (List.last (b :: l) d). by rewrite !IH.
Qed.

(** The tokens spent are those of the bucket and those earned. *)
Lemma calls_bound rl times :
  limiter_ok rl → ordered (last rl) times →
  accepted (calls rl times) * rl_interval rl <=
  tokens rl * rl_interval rl + rl_max rl * (List.last times (last rl) - last rl).
Proof.
  revert rl. induction times as [|t times IH]; intros rl Hok Ho; cbn [calls].
  { destruct Hok. change (accepted []) with 0. cbn [List.last]. rewrite Z.sub_diag. nia. }
  destruct Ho as [Ht Ho]. destruct (allow_ok rl t Hok Ht) as (Hok' & Hl & Hm & Hi).
  pose proof (allow_eq rl t Hok Ht) as E. destruct (allow rl t) as [rl' b]. cbn [fst] in *.
  rewrite accepted_cons. specialize (IH rl' Hok'). rewrite Hl, Hm, Hi in IH. specialize (IH Ho).
  rewrite last_cons_default.
  assert ((tokens rl' + if b then 1 else 0) * rl_interval rl <=
    tokens rl * rl_interval rl + rl_max rl * (t - last rl)); [|destruct b; nia].
  unfold allow_ref in E. injection E as -> ->. cbn [tokens]. destruct Hok as [Hmx Hin Hs Htk].
  pose proof (Z.mul_div_le (rl_max rl * (t - last rl)) (rl_interval rl) Hin).
  set (n := (rl_max rl * (t - last rl)) `div` rl_interval rl) in *.
  destruct (Z.ltb_spec 0 (Z.min (rl_max rl) (tokens rl + n))); nia.
Qed.

Fixpoint calls_ref (rl : rateLimiter) (times : list Z) : list bool :=
  match times with
  | [] => []
  | t :: times => let '(rl, b) := allow_ref rl t in b :: calls_ref rl times
  end.

(** ** Properties *)

(** C23: the limiter, which computes with floating point numbers, answers every sequence of
    calls exactly as a token bucket in integers does, however long the pauses between the
    calls: rounding never gains nor loses a token. *)
Theorem limiter_exact now times :
  ordered now times → calls (acceptLimiter now) times = calls_ref (acceptLimiter now) times.
Proof.
  assert (∀ rl, limiter_ok rl → ordered (last rl) times → calls rl times = calls_ref rl times) as H.
  { induction times as [|t times IH]; intros rl Hok; [done|]. intros [Ht Ho]. cbn [calls calls_ref].
    destruct (allow_ok rl t Hok Ht) as (Hok' & Hl & _). rewrite <- allow_eq by done.
    destruct (allow rl t) as [rl' b]. cbn [fst] in *. f_equal. apply IH; [done|by rewrite Hl]. }
  intros Ho. apply H; [apply acceptLimiter_ok|done].
Qed.

Lemma limiter_exact_witness :
  calls (acceptLimiter 5) [5; 100000004; 900000000000000000] =
  calls_ref (acceptLimiter 5) [5; 100000004; 900000000000000000].
Proof. apply (limiter_exact 5). simpl. lia. Defined.

(** Over any period, the connections let in are at most ten and ten more for every
    second of the period. *)
Lemma limiter_bound now times :
  ordered now times →
  accepted (calls (acceptLimiter now) times) * Second <= 10 * Second + 10 * (List.last times now - now).
Proof. intros Ho. by apply (calls_bound (acceptLimiter now)); [apply acceptLimiter_ok|]. Qed.

Lemma limiter_bound_witness :
  accepted (calls (acceptLimiter 0) (map (λ k, 10000000 * Z.of_nat k) (seq 0 30))) * Second <=
  10 * Second + 10 * (290000000 - 0).
Proof. apply (limiter_bound 0 (map (λ k, 10000000 * Z.of_nat k) (seq 0 30))). simpl. lia. Defined.

(** An empty bucket is never filled again while calls keep coming less than a tenth of
    a second apart: each call restarts the count and earns the integer part of less than
    one token. Whoever connects often enough keeps everybody out. *)
Lemma limiter_starves rl times :
  limiter_ok rl → tokens rl = 0 → rl_max rl = 10 → rl_interval rl = Second →
  (∀ i t u, (last rl :: times) !! i = Some t → times !! i = Some u → t <= u < t + 100000000) →
  Forall (λ b, b = false) (calls rl times).
Proof.
  revert rl. induction times as [|t times IH]; intros rl Hok H0 Hm Hi Hgap; [constructor|].
  pose proof (Hgap 0%nat _ _ eq_refl eq_refl) as Ht. cbn [calls].
  destruct (allow_ok rl t Hok) as (Hok' & Hl & Hm' & Hi'); [lia|].
  rewrite allow_eq in * by (done || lia). unfold allow_ref in *. cbn [fst] in *.
  assert ((rl_max rl * (t - last rl)) `div` rl_interval rl = 0) as E.
  { rewrite Hm, Hi. unfold Second. apply Z.div_small. lia. }
  rewrite E, H0, Hm in *. change (Z.min 10 (0 + 0)) with 0 in *. change (0 <? 0) with false in *. cbv iota in *.
  constructor; [done|]. apply IH; cbn; try done.
  intros i v w Hv Hw. apply (Hgap (S i) v w); [done|exact Hw].
Qed.

Lemma limiter_starves_witness :
  Forall (λ b, b = false) (calls (mkRateLimiter 0 10 Second 0) [60000000; 120000000; 180000000; 240000000]).
Proof.
  apply limiter_starves; [split; cbn; unfold Second; lia|reflexivity..|].
  intros i t u. do 4 (destruct i as [|i]; [intros [= <-] [= <-]; lia|]). intros _ [=].
Defined.
