(* ===== verification/Acceptor.v ===== *)
(** * Incoming connections ([transport/listener.go] and [acceptLoop] in [node/node.go])

    The listener's goroutine accepts connections from the socket and hands them over through a
    channel; the node's goroutine takes them and asks the rate limiter. The two goroutines
    and the network are interleaved by events. *)

From S2P Require Import Prelude RateLimit.
From stdpp Require Import options.

(** Where the listener's [acceptLoop] is: in the socket's [Accept], sending a connection to
    a full channel, or ended. *)
Inductive listen_state := LAccepting | LSending (conn : nat) | LEnded.

Record Listener := mkListener { connCh : list nat; errCh : bool; l_loop : listen_state }.

Definition connCap : nat := 8.

Definition Listen : Listener := mkListener [] false LAccepting.

(** The socket's [Accept] has returned a connection, or an error. *)
Definition socket_accept (l : Listener) (raw : option nat) : Listener :=
  match l_loop l, raw with
  | LAccepting, Some conn =>
      if (length (connCh l) <? connCap)%nat then mkListener (connCh l ++ [conn]) (errCh l) LAccepting
      else mkListener (connCh l) (errCh l) (LSending conn)
  | LAccepting, None => mkListener (connCh l) true LEnded
  | _, _ => l
  end.

(** A connection is taken out of the channel, and a sender that waits puts its own in. *)
Definition take_conn (l : Listener) : option (nat * Listener) :=
  match connCh l with
  | [] => None
  | conn :: rest =>
      Some (conn, match l_loop l with
                  | LSending next => mkListener (rest ++ [next]) (errCh l) LAccepting
                  | st => mkListener rest (errCh l) st
                  end)
  end.

Definition take_err (l : Listener) : option Listener :=
  if errCh l then Some (mkListener (connCh l) false (l_loop l)) else None.

(** The node: its listener and its limiter, whether its loop runs and whether it is
    stopping. [handled]: the connections taken so far, each with the answer of the
    limiter; those allowed are given to [handleIncomingConn], the others are closed. *)
Record Acceptor := mkAcceptor {
  listener : Listener; limiter : rateLimiter; running : bool; stopping : bool;
  handled : list (nat * bool) }.

Definition acceptor_start (now : Z) : Acceptor := mkAcceptor Listen (acceptLimiter now) true false [].

Inductive aevent :=
| ASocket (raw : option nat)
| AConn (now : Z)
| AErr
| ACancel.

(** One step; [AConn] and [AErr] are the two cases of [Accept]. An event that is not possible
    changes nothing. *)
Definition astep (a : Acceptor) (e : aevent) : Acceptor :=
  let '(mkAcceptor l rl run stop h) := a in
  match e with
  | ASocket raw => mkAcceptor (socket_accept l raw) rl run stop h
  | AConn now =>
      if negb run then a else
      match take_conn l with
      | None => a
      | Some (conn, l) =>
          let '(rl, ok) := allow rl now in mkAcceptor l rl run stop (h ++ [(conn, ok)])
      end
  | AErr =>
      if negb run then a else
      match take_err l with
      | None => a
      | Some l => mkAcceptor l rl (negb stop) stop h
      end
  | ACancel => mkAcceptor l rl run true h
  end.

Definition arun (a : Acceptor) (es : list aevent) : Acceptor := foldl astep a es.

(** The connections that the socket has given while the listener was accepting. *)
Fixpoint arrivals (a : Acceptor) (es : list aevent) : list nat :=
  match es with
  | [] => []
  | e :: es =>
      (match e, l_loop (listener a) with ASocket (Some conn), LAccepting => [conn] | _, _ => [] end)
      ++ arrivals (astep a e) es
  end.

(** The connections that are on their way through the listener. *)
Definition waiting (l : Listener) : list nat :=
  connCh l ++ match l_loop l with LSending conn => [conn] | _ => [] end.

(** A sender waits only when the channel is full. *)
Definition listener_ok (l : Listener) : Prop :=
  (length (connCh l) ≤ connCap)%nat ∧
  match l_loop l with LSending _ => length (connCh l) = connCap | _ => True end.

(** ** Lemmas *)

Lemma accepted_ok l raw : listener_ok l → listener_ok (socket_accept l raw).
Proof.
  intros [H1 H2]. unfold socket_accept. destruct (l_loop l) as [|next|] eqn:E, raw as [conn|]; try (by split; rewrite ?E).
  destruct (Nat.ltb_spec (length (connCh l)) connCap); split; cbn; rewrite ?length_app; cbn; lia || done.
Qed.

Lemma take_conn_ok l conn l' :
  listener_ok l → take_conn l = Some (conn, l') →
  listener_ok l' ∧ waiting l = conn :: waiting l' ∧ (l_loop l = LEnded ↔ l_loop l' = LEnded).
Proof.
  intros [H1 H2]. unfold take_conn, waiting. destruct (connCh l) as [|c rest] eqn:Ec; [done|].
  intros [= -> <-]. destruct (l_loop l) as [|next|]; cbn in *.
  - split_and!; [split; cbn; [lia|done]|done|done].
  - split_and!; [split; cbn; [rewrite length_app; cbn; lia|done]|by rewrite app_nil_r|done].
  - split_and!; [split; cbn; [lia|done]|done|done].
Qed.

Lemma astep_spec a e :
  listener_ok (listener a) →
  listener_ok (listener (astep a e)) ∧
  map fst (handled a) ++ waiting (listener a) ++
    (match e, l_loop (listener a) with ASocket (Some conn), LAccepting => [conn] | _, _ => [] end) =
  map fst (handled (astep a e)) ++ waiting (listener (astep a e)) ∧
  (l_loop (listener a) = LEnded → l_loop (listener (astep a e)) = LEnded).
Proof.
  intros Hok. destruct a as [l rl run stop h]. cbn [listener] in Hok. destruct e as [raw|now| |]; cbn.
  - split; [by apply accepted_ok|]. unfold socket_accept, waiting.
    destruct (l_loop l) as [|next|] eqn:El, raw as [conn|]; try (by rewrite ?El, ?app_nil_r).
    destruct (_ <? connCap)%nat; cbn; by rewrite ?app_nil_r.
  - destruct run; cbn; [|by rewrite app_nil_r].
    destruct (take_conn l) as [[conn l']|] eqn:Et; [|by rewrite app_nil_r].
    destruct (take_conn_ok _ _ _ Hok Et) as (H1 & H2 & H3).
    destruct (allow rl now) as [rl' ok]. cbn. split_and!; [done| |by intros ?%H3].
    by rewrite app_nil_r, H2, map_app, <- app_assoc.
  - destruct run; cbn; [|by rewrite app_nil_r]. unfold take_err.
    destruct (errCh l); cbn; rewrite app_nil_r; by destruct l.
  - by rewrite app_nil_r.
Qed.

Lemma arun_spec es a :
  listener_ok (listener a) →
  listener_ok (listener (arun a es)) ∧
  map fst (handled a) ++ waiting (listener a) ++ arrivals a es =
    map fst (handled (arun a es)) ++ waiting (listener (arun a es)) ∧
  (l_loop (listener a) = LEnded → l_loop (listener (arun a es)) = LEnded ∧ arrivals a es = []).
Proof.
  revert a. induction es as [|e es IH]; intros a Hok; [cbn; by rewrite app_nil_r|].
  destruct (astep_spec a e Hok) as (H1 & H2 & H3). destruct (IH (astep a e) H1) as (H4 & H5 & H6).
  change (arun a (e :: es)) with (arun (astep a e) es). cbn [arrivals].
  split_and!; [done| |].
  - rewrite <- H5, !app_assoc, <- H2, !app_assoc. done.
  - intros E. destruct (H6 (H3 E)) as [? Ha]. split; [done|]. rewrite Ha, E. by destruct e as [[]| | |].
Qed.

(** What has been handled stays so. *)
Lemma astep_grows a e : ∃ l, handled (astep a e) = handled a ++ l.
Proof.
  destruct a as [ln rl run stop h]. destruct e as [raw|now| |]; cbn; try (exists []; by rewrite app_nil_r).
  - destruct run; cbn; [|exists []; by rewrite app_nil_r].
    destruct (take_conn ln) as [[conn l1]|]; [|exists []; by rewrite app_nil_r].
    destruct (allow rl now) as [rl' ok]. by eexists.
  - destruct run; cbn; [|exists []; by rewrite app_nil_r].
    destruct (take_err ln); exists []; by rewrite app_nil_r.
Qed.

Lemma arun_grows es a : ∃ l, handled (arun a es) = handled a ++ l.
Proof.
  revert a. induction es as [|e es IH]; intros a; [exists []; by rewrite app_nil_r|].
  destruct (IH (astep a e)) as [l El]. change (arun a (e :: es)) with (arun (astep a e) es). rewrite El.
  destruct (astep_grows a e) as [l' ->]. exists (l' ++ l). by rewrite app_assoc.
Qed.

(** ** Properties *)

(** No incoming connection is lost, repeated or overtaken on the way from the socket to
    the node. Whatever the interleaving of the two goroutines, the connections the node has taken,
    then those in the channel, then the one the listener still holds, are those the
    socket gave, in the same order; the channel holds at most eight. *)
Lemma accept_in_order now es :
  let a := arun (acceptor_start now) es in
  map fst (handled a) ++ connCh (listener a) ++
    (match l_loop (listener a) with LSending conn => [conn] | _ => [] end) =
  arrivals (acceptor_start now) es ∧
  (length (connCh (listener a)) ≤ connCap)%nat.
Proof.
  intros a. destruct (arun_spec es (acceptor_start now)) as ((H1 & _) & H2 & _).
  { split; cbn; [lia|done]. }
  split; [|exact H1]. symmetry. exact H2.
Qed.

(** One failed accept is the last. When the socket's accept has failed once, although the
    node is not stopping and its loop goes on, no connection enters ever again: the node
    takes at most those that are in the channel already. *)
Lemma accept_error_fatal a es :
  listener_ok (listener a) → l_loop (listener a) = LAccepting →
  let a1 := astep a (ASocket None) in
  running a1 = running a ∧ arrivals a1 es = [] ∧
  ∃ l, map fst (handled (arun a1 es)) = map fst (handled a) ++ l ∧ l `prefix_of` connCh (listener a).
Proof.
  intros Hok Hl a1. destruct (astep_spec a (ASocket None) Hok) as (H1 & _ & _). fold a1 in H1.
  assert (l_loop (listener a1) = LEnded ∧ waiting (listener a1) = connCh (listener a) ∧
    handled a1 = handled a ∧ running a1 = running a) as (E1 & E2 & E3 & E4).
  { unfold a1. destruct a as [l rl run stop h]. cbn in *. unfold socket_accept. rewrite Hl. unfold waiting.
    cbn. by rewrite app_nil_r. }
  destruct (arun_spec es a1 H1) as (_ & H2 & H3). destruct (H3 E1) as [_ Ha].
  split_and!; [done|done|]. rewrite Ha, E2, E3, app_nil_r in H2.
  exists (drop (length (handled a)) (map fst (handled (arun a1 es)))).
  destruct (arun_grows es a1) as [l El]. rewrite E3 in El. rewrite El, map_app in H2 |- *.
  rewrite drop_app_length' by by rewrite length_map. split; [done|].
  rewrite <- app_assoc in H2. apply app_inv_head in H2. rewrite H2. by eexists.
Qed.

Lemma accept_error_fatal_witness :
  let a := arun (acceptor_start 0) [ASocket (Some 1%nat); ASocket (Some 2%nat)] in
  let a1 := astep a (ASocket None) in
  let es := [AErr; ASocket (Some 3%nat); AConn 5; AConn 6; AConn 7] in
  running a1 = running a ∧ arrivals a1 es = [] ∧
  ∃ l, map fst (handled (arun a1 es)) = map fst (handled a) ++ l ∧ l `prefix_of` connCh (listener a).
Proof.
  intros a a1 es. apply (accept_error_fatal a es); [split; vm_compute; [lia|done]|vm_compute; reflexivity].
Defined.
