(* ===== verification/Node.v ===== *)
(** * The node ([node/node.go])

    The node wires the components together: it authenticates and dispatches control
    messages, gives the components their callbacks, and keeps the connections of its
    peers. Its operations are what its goroutines do between two points where another one can
    come in: one call of a component, or one critical section of the node's own. What leaves the node is
    the effects of an operation; those that need the control stream of a connection panic when it is gone. *)

From S2P Require Import Prelude Bytes Crypto Net Identity Wire WireRoute WireGossip WireForward.
From S2P Require Import RoutePath RouteTable Propagation Peers Gossip Session.
From stdpp Require Import options.

(** [NControl]: [conn.ControlStream().Write(data)], for the node and for its engine; [NAwait]: the control stream is
    taken to be read from. *)
Inductive neffect :=
| NControl (conn : ConnRef) (data : list byte)
| NAwait (conn : ConnRef)
| NClose (conn : ConnRef)
| NConnect (id : NodeID) (addr : list byte)
| NReconnect (id : NodeID)
| NUDP (addr : UDPAddr) (data : list byte)
| NDeliver (sessionID : Z) (data : list byte).

(** The enumerations of the node's maps and the readings of the clock that an
    operation uses; [hello_order] is that of the peers when a greeting is built, before the connection is
    registered. [cs_gone]: the connections whose control stream is gone, because the peer has closed it
    ([Conn.control_stream_lost]): [ControlStream] then returns nil. *)
Record Env := mkEnv {
  hello_order : list (string * Peer);
  peer_order : list (string * Peer);
  conn_order : list (string * ConnRef);
  route_order : list (string * list Route);
  udp_order : list (string * UDPAddr);
  peerconn_order : list (string * ConnRef);
  clock : nat → Z;
  cs_gone : ConnRef → bool }.

(** The control stream that an effect uses. *)
Definition stream_of (e : neffect) : option ConnRef :=
  match e with NControl conn _ | NAwait conn => Some conn | _ => None end.

(** The effects of an operation take place: reading from or writing to a control stream that is gone is the use of a
    nil pointer. *)
Definition perform {S} (gone : ConnRef → bool) (r : S * list neffect) : res wire_error (S * list neffect) :=
  if existsb (λ e, match stream_of e with Some conn => gone conn | None => false end) (snd r) then Panic else Ok r.

Section node.
Context `{C : Ed25519}.
(** The host part of the remote address of a connection, as [SplitHostPort] gives it. *)
Context (conn_host : ConnRef → string).

Record Node := mkNode {
  n_identity : Identity;
  gossipEng : Engine;
  propagator : Propagator;
  udpRelay : UDPRelay;
  peerConns : gmap string ConnRef;
  peerUDPAddrs : gmap string UDPAddr;
  udpLn : bool }.

Definition set_gossip (n : Node) (e : Engine) : Node :=
  mkNode (n_identity n) e (propagator n) (udpRelay n) (peerConns n) (peerUDPAddrs n) (udpLn n).
Definition set_propagator (n : Node) (p : Propagator) : Node :=
  mkNode (n_identity n) (gossipEng n) p (udpRelay n) (peerConns n) (peerUDPAddrs n) (udpLn n).
Definition set_udpRelay (n : Node) (r : UDPRelay) : Node :=
  mkNode (n_identity n) (gossipEng n) (propagator n) r (peerConns n) (peerUDPAddrs n) (udpLn n).
Definition set_peerConns (n : Node) (m : gmap string ConnRef) : Node :=
  mkNode (n_identity n) (gossipEng n) (propagator n) (udpRelay n) m (peerUDPAddrs n) (udpLn n).
Definition set_peerUDPAddrs (n : Node) (m : gmap string UDPAddr) : Node :=
  mkNode (n_identity n) (gossipEng n) (propagator n) (udpRelay n) (peerConns n) m (udpLn n).

(** ** Construction: [New] and [wireCallbacks] *)

Definition New (id : Identity) (listenAddr : list byte) (directNets : list IPNet)
    (cfg : Config) (adv_interval session_ttl : Z) : Node :=
  let routes := SetDirectNetworks (NewRoutingTable (id_ID id)) directNets in
  let eng := NewEngine (id_ID id) listenAddr (array_copy 32 (id_PubKey id)) cfg in
  let eng := OnPeerDiscovered (SetSignFunc eng (λ msg, SignMessage msg (id_PrivKey id))) in
  let p := SetPeersFunc (SetBroadcaster (SetSender (NewPropagator routes (id_ID id) adv_interval))) [] in
  let relay := SetDeliverFunc (SetSendFunc (NewUDPRelay (NewSessionTable session_ttl))) in
  mkNode id eng p relay ∅ ∅ false.

(** ** Callbacks *)

Definition getPeerConn (n : Node) (peerID : NodeID) : option ConnRef :=
  peerConns n !! NodeID_String peerID.

(** An error for a peer without connection is only logged by the callers. *)
Definition sendControlMsg (n : Node) (peerID : NodeID) (msg : list byte) : list neffect :=
  match getPeerConn n peerID with
  | Some conn => [NControl conn (SignMessage msg (id_PrivKey (n_identity n)))]
  | None => []
  end.

Definition gossip_effect (g : geffect) : list neffect :=
  match g with
  | ControlWrite conn msg => [NControl conn msg]
  | PeerDiscovered p => [NConnect (ID p) (Addr p)]
  end.

Definition route_effect (n : Node) (env : Env) (e : effect) : list neffect :=
  match e with
  | Send peer msg => sendControlMsg n peer msg
  | Propagation.Broadcast msg =>
      concat (map gossip_effect (Gossip.Broadcast (gossipEng n) (conn_order env) msg))
  end.

Definition udp_effect (n : Node) (e : ueffect) : list neffect :=
  match e with
  | SendUDP peerID data =>
      match peerUDPAddrs n !! NodeID_String peerID with
      | Some addr => if udpLn n then [NUDP addr data] else []
      | None => []
      end
  | DeliverLocal session data =>
      match ClientAddr session with
      | None => []
      | Some _ => [NDeliver (us_ID session) data]
      end
  end.

(** The propagator as its callbacks see it: the peers alive now. *)
Definition with_peers (n : Node) (env : Env) : Propagator :=
  SetPeersFunc (propagator n) (map ID (GetAlive (peer_order env))).

Definition after_propagator (n : Node) (env : Env) (r : Propagator * list effect)
    : Node * list neffect :=
  let n := set_propagator n (fst r) in (n, concat (map (route_effect n env) (snd r))).

Definition after_gossip (n : Node) (r : Engine * list geffect) : Node * list neffect :=
  (set_gossip n (fst r), concat (map gossip_effect (snd r))).

Definition after_relay (n : Node) (r : UDPRelay * list ueffect) : Node * list neffect :=
  let n := set_udpRelay n (fst r) in (n, concat (map (udp_effect n) (snd r))).

(** ** Control messages *)

(** The signature check, when the sender's key is known: [None] drops the message. *)
Definition authenticate (n : Node) (from : NodeID) (data : Slice) : option Slice :=
  match Get (e_peers (gossipEng n)) from with
  | Some peer =>
      if decide (PubKey peer = []) then Some data
      else match VerifyMessage data (PubKey peer) with Ok m => Some m | _ => None end
  | None => Some data
  end.

Definition handle_verified (n : Node) (env : Env) (from : NodeID) (data : Slice)
    : res wire_error (Node * list neffect) :=
  '(e, eff, handled) ← HandleMessage (gossipEng n) from data (clock env) (peer_order env);
  let '(n, out) := after_gossip n (e, eff) in
  if handled : bool then Ok (n, out)
  else
    t ← at_ data 0;
    if decide (t = MsgRouteUpdate) then
      r ← HandleRouteUpdate (with_peers n env) from data (clock env 0%nat) (clock env 1%nat);
      Ok (after_propagator n env r)
    else if decide (t = MsgUDPForward) then
      r ← HandleIncoming (udpRelay n) from data (clock env);
      Ok (after_relay n r)
    else Ok (n, []).

Definition dispatchControlMsg (n : Node) (env : Env) (from : NodeID) (data : Slice)
    : res wire_error (Node * list neffect) :=
  if decide (contents data = []) then Ok (n, [])
  else match authenticate n from data with
       | None => Ok (n, [])
       | Some data => handle_verified n env from data
       end.

(** ** Connections *)

Definition buildSelfGossipPush (n : Node) (env : Env) : list byte :=
  EncodeGossipPush (mkGossipPush
    (mkPeerEntry (array_copy 16 (bytes_of (id_ID (n_identity n)))) (array_copy 32 (id_PubKey (n_identity n)))
       PeerAlive 1 (selfAddr (gossipEng n)) :: map wire_entry (GetAll (hello_order env)))).

(** The peer's name, taken from its first message: the first entry of a push. *)
Definition identify (data : Slice) : res wire_error (option NodeID) :=
  match contents data with
  | t :: _ =>
      if decide (t = MsgGossipPush) then
        match DecodeGossipPush data with
        | Ok (mkGossipPush (e :: _)) =>
            let id := array_copy 16 (bytes_of (pe_ID e)) in
            Ok (if IsZero id then None else Some id)
        | Panic => Panic
        | _ => Ok None
        end
      else Ok None
  | [] => Ok None
  end.

(** [resolved]: what name resolution makes of the peer's host with our UDP port. *)
Definition registerPeerUDPAddr (n : Node) (peerID : NodeID) (resolved : option UDPAddr) : Node :=
  match resolved with
  | Some a => set_peerUDPAddrs n (<[NodeID_String peerID := a]> (peerUDPAddrs n))
  | None => n
  end.

(** A connection is registered for a peer, unless there is one to keep: the critical section of [peerConnsMu] in which
    a handler looks and registers. [None]: the connection is not needed. *)
Definition claim (n : Node) (keep : ConnRef → bool) (peerID : NodeID) (conn : ConnRef) : option Node :=
  let registered := set_peerConns n (<[NodeID_String peerID := conn]> (peerConns n)) in
  match getPeerConn n peerID with
  | Some existing => if keep existing then None else Some registered
  | None => Some registered
  end.

(** What the handlers of a connection do after they have registered it, and when it is lost. Another goroutine can come
    in between two steps. *)
Inductive conn_step :=
| SUDPAddr (peerID : NodeID) (resolved : option UDPAddr)
| SHello (conn : ConnRef)
| SAddConn (peerID : NodeID) (conn : ConnRef)
| SAdvertise
| SControl (conn : ConnRef)
| SForget (peerID : NodeID) (conn : ConnRef)
| SRemoveConn (peerID : NodeID)
| SMarkDead (peerID : NodeID)
| SWithdraw (peerID : NodeID).

Definition conn_step_do (n : Node) (env : Env) (s : conn_step) : Node * list neffect :=
  match s with
  | SUDPAddr peerID resolved => (registerPeerUDPAddr n peerID resolved, [])
  | SHello conn => (n, [NControl conn (buildSelfGossipPush n env)])
  | SAddConn peerID conn =>
      after_gossip n (AddDirectConnection (gossipEng n) peerID conn (clock env 0%nat) (peer_order env))
  | SAdvertise =>
      after_propagator n env (AdvertiseDirectNetworks (propagator n) (λ i, clock env (S i)))
  | SControl conn => (n, [NAwait conn])
  | SForget peerID conn => (set_peerConns n (delete (NodeID_String peerID) (peerConns n)), [NClose conn])
  | SRemoveConn peerID => (set_gossip n (RemoveDirectConnection (gossipEng n) peerID), [])
  | SMarkDead peerID => (set_gossip n (set_peers (gossipEng n) (MarkDead (e_peers (gossipEng n)) peerID)), [])
  | SWithdraw peerID =>
      after_propagator n env (WithdrawAllFromPeer (propagator n) (route_order env) peerID)
  end.

Definition incoming_steps (peerID : NodeID) (conn : ConnRef) (resolved : option UDPAddr) : list conn_step :=
  [SUDPAddr peerID resolved; SAddConn peerID conn; SControl conn].

(** [connectToPeer] and [reconnectPeer]: the peer is told who we are, and our networks are advertised. *)
Definition dialled_steps (peerID : NodeID) (conn : ConnRef) (resolved : option UDPAddr) : list conn_step :=
  [SUDPAddr peerID resolved; SHello conn; SAddConn peerID conn; SAdvertise; SControl conn].

(** [bootstrapPeer], before the peer has named itself and after. *)
Definition hello_steps (conn : ConnRef) : list conn_step := [SHello conn; SControl conn].
Definition bootstrapped_steps (peerID : NodeID) (conn : ConnRef) (resolved : option UDPAddr) : list conn_step :=
  [SAddConn peerID conn; SUDPAddr peerID resolved; SControl conn].

(** The end of [handleControlMessages]: a read from [conn] has failed. *)
Definition lost_steps (peerID : NodeID) (conn : ConnRef) : list conn_step :=
  [SForget peerID conn; SRemoveConn peerID; SMarkDead peerID; SWithdraw peerID].

(** The steps of a handler that nobody interrupts. *)
Fixpoint conn_steps (n : Node) (env : Env) (ss : list conn_step) : Node * list neffect :=
  match ss with
  | [] => (n, [])
  | s :: ss =>
      let '(n, out) := conn_step_do n env s in
      let '(n, out') := conn_steps n env ss in
      (n, out ++ out')
  end.

(** [handleIncomingConn], once the first message has been read from [conn], up to its dispatch, when nobody comes in
    between. *)
Definition handleIncomingConn (n : Node) (env : Env) (conn : ConnRef) (data : Slice)
    (resolved : option UDPAddr) : res wire_error (Node * list neffect) :=
  who ← identify data;
  match who with
  | None => Ok (n, [NAwait conn; NClose conn])
  | Some peerID =>
      let n := default n (claim n (λ _, false) peerID conn) in
      let '(n, out) := conn_steps n env (incoming_steps peerID conn resolved) in
      '(n, out') ← dispatchControlMsg n env peerID data;
      Ok (n, NAwait conn :: out ++ out')
  end.

(** [handleControlMessages], when its read has failed and nobody comes in between. *)
Definition peer_lost (n : Node) (env : Env) (peerID : NodeID) (conn : ConnRef) (autoReconnect : bool)
    : Node * list neffect :=
  let '(n, out) := conn_steps n env (lost_steps peerID conn) in
  (n, out ++ (if autoReconnect then [NReconnect peerID] else [])).

(** The callback for dead peers, which the gossip engine is given and never calls. *)
Definition peer_dead (n : Node) (env : Env) (id : NodeID) : Node * list neffect :=
  let '(n, out) := after_propagator n env (WithdrawAllFromPeer (propagator n) (route_order env) id) in
  match getPeerConn n id with
  | Some conn => (set_peerConns n (delete (NodeID_String id) (peerConns n)), out ++ [NClose conn])
  | None => (n, out)
  end.

(** [handleControlMessages]: the first message, if there is one, then those that are read from
    the control stream until it fails. Each message is dispatched with its own [Env]. *)
Fixpoint control_messages (n : Node) (from : NodeID) (msgs : list (Env * Slice))
    : res wire_error (Node * list neffect) :=
  match msgs with
  | [] => Ok (n, [])
  | (env, data) :: msgs =>
      '(n, out) ← dispatchControlMsg n env from data;
      '(n, out') ← control_messages n from msgs;
      Ok (n, out ++ out')
  end.

Definition handleControlMessages (n : Node) (env : Env) (peerID : NodeID) (conn : ConnRef)
    (initialData : option (Env * Slice)) (reads : list (Env * Slice)) (autoReconnect : bool)
    : res wire_error (Node * list neffect) :=
  '(n, out) ← control_messages n peerID (option_list initialData ++ reads);
  let '(n, out') := peer_lost n env peerID conn autoReconnect in
  Ok (n, out ++ out').

(** ** UDP *)

(** The SOCKS5 server's UDP callback: every datagram makes a session, without a client. *)
Definition socks_udp_forward (n : Node) (env : Env) (nextHop : NodeID) (targetAddr : UDPAddr)
    (payload : list byte) : Node * list neffect :=
  let '(r, session) :=
    CreateSession (udpRelay n) None (Some targetAddr) nextHop (clock env 0%nat) (clock env 1%nat) in
  after_relay n (r, ForwardToPeer r nextHop session payload).

Definition parse_or_zero (s : string) : NodeID :=
  match ParseNodeID s with Ok id => id | _ => zeroID end.

(** The peer a datagram comes from: by its address, else by its host among the
    connections, whose UDP address it then becomes. *)
Definition udp_sender (n : Node) (env : Env) (remote : UDPAddr) : option (Node * NodeID) :=
  match list_find (λ '(_, a), IP_Equal (ua_IP a) (ua_IP remote) = true ∧ ua_Port a = ua_Port remote)
          (udp_order env) with
  | Some (_, (id, _)) => Some (n, parse_or_zero id)
  | None =>
      match list_find (λ '(_, conn), conn_host conn = IP_String (ua_IP remote))
              (peerconn_order env) with
      | Some (_, (id, _)) =>
          Some (set_peerUDPAddrs n (<[id := remote]> (peerUDPAddrs n)), parse_or_zero id)
      | None => None
      end
  end.

(** One datagram of [udpReadLoop]. *)
Definition udp_datagram (n : Node) (env : Env) (remote : UDPAddr) (data : Slice)
    : res wire_error (Node * list neffect) :=
  match udp_sender n env remote with
  | None => Ok (n, [])
  | Some (n, peerID) =>
      r ← HandleIncoming (udpRelay n) peerID data (clock env);
      Ok (after_relay n r)
  end.

(** ** Timers *)

Definition session_gc (n : Node) (now : Z) : Node :=
  set_udpRelay n (set_sessions (udpRelay n) (Session_GC (ur_sessions (udpRelay n)) now)).

Definition route_gc (n : Node) (now : Z) : Node :=
  let p := propagator n in
  set_propagator n (set_table p (fst (GC (table p) (signed64 (interval p * 3)) now))).

Definition advertise (n : Node) (env : Env) : Node * list neffect :=
  after_propagator n env (advertise_tick (propagator n) (clock env) (route_order env)).

(** The ticks of the loops of the gossip engine, and the timer of a probe. *)
Definition gossip_push (n : Node) (orders : nat → list (string * Peer)) (rng : Z) : Node * list neffect :=
  after_gossip n (gossipEng n, fst (pushToRandom (gossipEng n) orders rng)).

(** The write of a ping to a control stream that is gone does not fail, it panics. *)
Definition gossip_probe (n : Node) (env : Env) (rng : Z) (write_ok : bool) : Node * list neffect :=
  let ping := λ ok, after_gossip n (fst (fst (probeRandomPeer (gossipEng n) (peer_order env) rng ok))) in
  if write_ok then ping true
  else match perform (cs_gone env) (ping true) with Ok _ => ping false | _ => ping true end.

Definition probe_expired (n : Node) (target : NodeID) (now : Z) : Node :=
  set_gossip n (probe_timeout (gossipEng n) target now).

(** ** Lemmas *)

Lemma perform_cases {S} gone (r : S * list neffect) :
  (perform gone r = Ok r ∧ ∀ e conn, e ∈ snd r → stream_of e = Some conn → gone conn = false) ∨
  (perform gone r = Panic ∧ ∃ e conn, e ∈ snd r ∧ stream_of e = Some conn ∧ gone conn = true).
Proof.
  unfold perform. destruct (existsb _ _) eqn:E; [right|left]; (split; [done|]).
  - apply existsb_exists in E as (e & Hin%list_elem_of_In & He). destruct (stream_of e) as [conn|] eqn:Es; [|done].
    by exists e, conn.
  - intros e conn Hin Hs. apply not_true_iff_false. intros Hg. apply not_true_iff_false in E. apply E, existsb_exists.
    exists e. split; [by apply list_elem_of_In|]. by rewrite Hs.
Qed.

Lemma perform_Ok {S} gone (r r' : S * list neffect) :
  perform gone r = Ok r' ↔ r = r' ∧ ∀ e conn, e ∈ snd r' → stream_of e = Some conn → gone conn = false.
Proof.
  destruct (perform_cases gone r) as [[-> H]|[-> (e & conn & Hin & Hs & Hg)]].
  - split; [by intros [= <-]|by intros [-> _]].
  - split; [done|]. intros [-> H]. by rewrite (H e conn) in Hg.
Qed.

Lemma perform_Panic {S} gone (r : S * list neffect) :
  perform gone r = Panic ↔ ∃ e conn, e ∈ snd r ∧ stream_of e = Some conn ∧ gone conn = true.
Proof.
  destruct (perform_cases gone r) as [[-> H]|[-> (e & conn & Hin & Hs & Hg)]].
  - split; [done|]. intros (e & conn & Hin & Hs & Hg). by rewrite (H e conn) in Hg.
  - split; [|done]. by exists e, conn.
Qed.

Lemma HandleMessage_no_panic e from data clk order : HandleMessage e from data clk order ≠ Panic.
Proof.
  unfold HandleMessage. destruct (contents data) as [|t l]; [done|].
  destruct (bool_decide _).
  { destruct (DecodeGossipPush data) as [m| |] eqn:E; [|done|by apply DecodeGossipPush_no_panic in E].
    by destruct (handlePush e m clk). }
  by repeat case_match.
Qed.

(** Messages the gossip engine does not handle leave it as it is. *)
Lemma HandleMessage_cases e from data clk order :
  (∃ e' eff, HandleMessage e from data clk order = Ok (e', eff, true)) ∨
  (HandleMessage e from data clk order = Ok (e, [], false) ∧
   ∀ t, contents data !! 0%nat = Some t →
     t ≠ MsgGossipPush ∧ t ≠ MsgGossipPull ∧ t ≠ MsgPing ∧ t ≠ MsgPong).
Proof.
  unfold HandleMessage. destruct (contents data) as [|t l] eqn:Hc; [right; split; [done|by intros t]|].
  destruct (bool_decide (t = MsgGossipPush)) eqn:E1.
  { left. destruct (DecodeGossipPush data) as [m| |] eqn:E;
      [|by eexists _, _|by apply DecodeGossipPush_no_panic in E].
    destruct (handlePush e m clk). by eexists _, _. }
  destruct (bool_decide (t = MsgGossipPull)) eqn:E2; [left; by eexists _, _|].
  destruct (bool_decide (t = MsgPing)) eqn:E3; [left; by eexists _, _|].
  destruct (bool_decide (t = MsgPong)) eqn:E4; [left; by eexists _, _|].
  right. split; [done|]. intros t' [= <-].
  split_and!; intros ->; discriminate.
Qed.

Lemma HandleMessage_route e from data clk order :
  contents data !! 0%nat = Some MsgRouteUpdate →
  HandleMessage e from data clk order = Ok (e, [], false).
Proof. intros H. unfold HandleMessage. destruct (contents data); [done|]. by injection H as ->. Qed.

Lemma HandleIncoming_no_panic r from data clk : HandleIncoming r from data clk ≠ Panic.
Proof.
  unfold HandleIncoming. destruct (DecodeUDPForward data) as [[hdr p]| |] eqn:E;
    [|done|by apply DecodeUDPForward_no_panic in E].
  by destruct (relay_session _ _ _ _ _).
Qed.

Lemma HandleRouteUpdate_panic p from data now now' :
  HandleRouteUpdate p from data now now' = Panic ↔ DecodeRouteMessage data = Panic.
Proof.
  unfold HandleRouteUpdate. destruct (DecodeRouteMessage data) as [m| |]; [|done|done].
  split; [|done]. repeat case_match; done.
Qed.

(** A message that is handled panics when it is empty, or on the route decoder. *)
Lemma handle_verified_panic n env from data :
  handle_verified n env from data = Panic ↔
  contents data = [] ∨ DecodeRouteMessage data = Panic.
Proof.
  unfold handle_verified.
  assert (DecodeRouteMessage data = Panic → contents data !! 0%nat = Some MsgRouteUpdate) as Hd.
  { intros H%route_decode_panic_iff. apply H. }
  destruct (HandleMessage_cases (gossipEng n) from data (clock env) (peer_order env))
    as [(e' & eff & E)|[E Hne]].
  - rewrite E. cbn [mbind res_bind]. split; [done|]. intros [Hnil|H].
    + unfold HandleMessage in E. by rewrite Hnil in E.
    + by rewrite HandleMessage_route in E by auto.
  - rewrite E. cbn [mbind res_bind after_gossip fst snd map concat].
    destruct (contents data) as [|t l] eqn:Hc.
    { unfold at_. rewrite Hc. cbn [mbind res_bind]. split; [by left|done]. }
    unfold at_. rewrite Hc. cbn [lookup list_lookup mbind res_bind].
    destruct (decide (t = MsgRouteUpdate)) as [->|Ht].
    + cbn [set_gossip].
      destruct (HandleRouteUpdate _ from data _ _) as [[p' eff]| |] eqn:Hr; cbn [mbind res_bind];
        (split; [done || (intros _; right; by eapply HandleRouteUpdate_panic)|]); try done;
        intros [|H]; try done; by rewrite (proj2 (HandleRouteUpdate_panic _ _ _ _ _) H) in Hr.
    + split.
      * destruct (decide _); [|done].
        destruct (HandleIncoming _ from data _) eqn:Hi; cbn [mbind res_bind]; try done.
        by apply HandleIncoming_no_panic in Hi.
      * intros [|H]; [done|]. specialize (Hd H). injection Hd as ->. done.
Qed.

(** Nothing that is handled fails otherwise. *)
Lemma handle_verified_no_err n env from m x : handle_verified n env from m ≠ Err x.
Proof.
  unfold handle_verified. destruct (HandleMessage_cases (gossipEng n) from m (clock env) (peer_order env)) as [(e' & eff & ->)|[-> _]];
    cbn [mbind res_bind after_gossip fst snd]; [done|].
  unfold at_. destruct (contents m !! 0%nat) as [t|]; [|done]. cbn [mbind res_bind].
  destruct (decide (t = MsgRouteUpdate)).
  { unfold HandleRouteUpdate. by repeat (case_match; cbn [mbind res_bind]; try done). }
  destruct (decide (t = MsgUDPForward)); [|done]. unfold HandleIncoming.
  by repeat (case_match; cbn [mbind res_bind]; try done).
Qed.

(** ** Pushes leave the connections alone *)

Lemma authenticate_prefix n from data m :
  authenticate n from data = Some m →
  contents m = contents data ∨ ∃ sig, contents data = contents m ++ sig ∧ length sig = sigSize.
Proof.
  unfold authenticate. destruct (Get _ _) as [peer|]; [|intros [= <-]; by left].
  case_decide; [intros [= <-]; by left|].
  destruct (VerifyMessage data (PubKey peer)) as [m'| |] eqn:E; [|done..]. intros [= <-].
  apply VerifyMessage_Ok in E as (sig & H1 & H2 & _). eauto.
Qed.

Lemma handle_push_conns n env from m :
  contents m !! 0%nat = Some MsgGossipPush →
  ∃ n' out, handle_verified n env from m = Ok (n', out) ∧
    peerConns n' = peerConns n ∧ conns (gossipEng n') = conns (gossipEng n).
Proof.
  intros Hm. unfold handle_verified, HandleMessage. destruct (contents m) as [|t l]; [done|].
  injection Hm as ->. rewrite bool_decide_true by done.
  destruct (DecodeGossipPush m) as [msg|e|] eqn:Hd; [| |by apply DecodeGossipPush_no_panic in Hd].
  - pose proof (push_entries_frame (gossipEng n) (Peers msg) (clock env) 0) as (_ & Hc & _).
    unfold handlePush. destruct (push_entries _ _ _ _) as [e' eff]. by eexists _, _.
  - by eexists _, _.
Qed.

Lemma dispatch_push_conns n env from data :
  contents data !! 0%nat = Some MsgGossipPush → length (contents data) ≠ sigSize →
  ∃ n' out, dispatchControlMsg n env from data = Ok (n', out) ∧
    peerConns n' = peerConns n ∧ conns (gossipEng n') = conns (gossipEng n).
Proof.
  intros Hd Hl. unfold dispatchControlMsg. case_decide as Hnil; [by rewrite Hnil in Hd|].
  destruct (authenticate n from data) as [m|] eqn:Ha; [|by eexists _, _].
  apply handle_push_conns. destruct (authenticate_prefix _ _ _ _ Ha) as [->|(sig & E & Hs)]; [done|].
  destruct (contents m) as [|t l]; [|by rewrite E in Hd].
  by rewrite E in Hl.
Qed.

(** ** UDP sessions of a node have no client *)

Definition clientless (r : UDPRelay) : Prop :=
  map_Forall (λ _ s, ClientAddr s = None) (sessions (ur_sessions r)).

Definition delivers (e : neffect) : Prop := match e with NDeliver _ _ => True | _ => False end.

(** The relay's part of an operation: nothing is delivered, and no client appears. *)
Definition silent (n : Node) (out : list neffect) : Prop :=
  clientless (udpRelay n) ∧ Forall (λ e, ¬ delivers e) out.

Lemma silent_concat {A} (f : A → list neffect) l :
  (∀ x, x ∈ l → Forall (λ e, ¬ delivers e) (f x)) → Forall (λ e, ¬ delivers e) (concat (map f l)).
Proof.
  intros H. induction l as [|x l IH]; simpl; [constructor|].
  apply Forall_app. split; [apply H; left|apply IH]. intros y Hy. apply H. by right.
Qed.

Lemma silent_gossip n r n' out :
  after_gossip n r = (n', out) → clientless (udpRelay n) → silent n' out.
Proof.
  intros [= <- <-] H. split; [done|]. apply silent_concat. intros [] _; repeat constructor; by intros [].
Qed.

Lemma silent_propagator n env r n' out :
  after_propagator n env r = (n', out) → clientless (udpRelay n) → silent n' out.
Proof.
  intros [= <- <-] H. split; [done|]. apply silent_concat. intros [peer msg|msg] _; simpl.
  - unfold sendControlMsg. destruct (getPeerConn _ _); repeat constructor. by intros [].
  - apply silent_concat. intros [] _; repeat constructor; by intros [].
Qed.

Lemma silent_relay n r n' out :
  after_relay n r = (n', out) → clientless (fst r) →
  (∀ s d, DeliverLocal s d ∈ snd r → ClientAddr s = None) → silent n' out.
Proof.
  intros [= <- <-] H He. split; [done|]. apply silent_concat. intros [peer d|s d] Hin; simpl.
  - destruct (peerUDPAddrs n !! _); [|constructor]. destruct (udpLn n); repeat constructor. by intros [].
  - by rewrite (He s d Hin).
Qed.

Lemma clientless_touch st id now :
  map_Forall (λ _ s, ClientAddr s = None) (sessions st) →
  map_Forall (λ _ s, ClientAddr s = None) (sessions (Touch st id now)).
Proof.
  intros H k s Hk. simpl in Hk.
  apply lookup_alter_Some in Hk as [(-> & s' & Hk & ->)|[_ Hk]]; [apply (H _ _ Hk)|by apply (H k)].
Qed.

Lemma HandleIncoming_clientless r from data clk r' eff :
  clientless r → HandleIncoming r from data clk = Ok (r', eff) →
  clientless r' ∧ ∀ s d, DeliverLocal s d ∈ eff → ClientAddr s = None.
Proof.
  intros H. unfold HandleIncoming. destruct (DecodeUDPForward data) as [[hdr p]| |]; [|intros [= <- <-]|done].
  2: { split; [done|]. by intros s d ?%not_elem_of_nil. }
  destruct (relay_session _ _ _ _ _) as [st s] eqn:Hrs.
  assert (map_Forall (λ _ s, ClientAddr s = None) (sessions st) ∧ ClientAddr s = None) as [Hst Hs].
  { unfold relay_session, Session_Lookup in Hrs.
    destruct (sessions (ur_sessions r) !! uf_SessionID hdr) as [s'|] eqn:E.
    - injection Hrs as <- <-. split; [done|]. by apply (H _ _ E).
    - injection Hrs as <- <-. split; [|done]. by apply map_Forall_insert_2. }
  intros [= <- <-]. split; [by apply clientless_touch|]. intros s' d.
  destruct (NodeID_Equal _ _).
  - destruct (deliverLocal _); [|by intros ?%not_elem_of_nil].
    by intros [= -> _]%list_elem_of_singleton.
  - unfold ForwardToPeer. destruct (sendUDP _); [|by intros ?%not_elem_of_nil].
    by intros ?%list_elem_of_singleton.
Qed.

Lemma clientless_gc r now :
  clientless r → clientless (set_sessions r (Session_GC (ur_sessions r) now)).
Proof. intros H k s Hk. apply map_lookup_filter_Some in Hk as [Hk _]. by apply (H k). Qed.

(** ** The operations of a node *)

(** [OClaim]: a handler registers a connection, unless there is one that it keeps. *)
Inductive node_op :=
| ODispatch (env : Env) (from : NodeID) (data : Slice)
| OClaim (keep : ConnRef → bool) (id : NodeID) (conn : ConnRef)
| OStep (env : Env) (s : conn_step)
| OSocksUDP (env : Env) (hop : NodeID) (target : UDPAddr) (payload : list byte)
| OUDP (env : Env) (remote : UDPAddr) (data : Slice)
| OSessionGC (now : Z) | ORouteGC (now : Z) | OAdvertise (env : Env)
| OPush (env : Env) (orders : nat → list (string * Peer)) (rng : Z) | OProbe (env : Env) (rng : Z) (write_ok : bool)
| OTimeout (target : NodeID) (now : Z).

(** What an operation makes of the node, and what it asks for. *)
Definition node_effects (n : Node) (o : node_op) : res wire_error (Node * list neffect) :=
  match o with
  | ODispatch env from data => dispatchControlMsg n env from data
  | OClaim keep id conn => Ok (match claim n keep id conn with Some n => (n, []) | None => (n, [NClose conn]) end)
  | OStep env s => Ok (conn_step_do n env s)
  | OSocksUDP env hop t p => Ok (socks_udp_forward n env hop t p)
  | OUDP env remote data => udp_datagram n env remote data
  | OSessionGC now => Ok (session_gc n now, [])
  | ORouteGC now => Ok (route_gc n now, [])
  | OAdvertise env => Ok (advertise n env)
  | OPush env orders rng => Ok (gossip_push n orders rng)
  | OProbe env rng write_ok => Ok (gossip_probe n env rng write_ok)
  | OTimeout target now => Ok (probe_expired n target now, [])
  end.

Definition op_gone (o : node_op) : ConnRef → bool :=
  match o with
  | ODispatch env _ _ | OStep env _ | OSocksUDP env _ _ _ | OUDP env _ _ | OAdvertise env | OPush env _ _ | OProbe env _ _ =>
      cs_gone env
  | _ => λ _, false
  end.

Definition node_step (n : Node) (o : node_op) : res wire_error (Node * list neffect) :=
  r ← node_effects n o; perform (op_gone o) r.

(** A run: the effects in order, until the first panic, which ends the program. *)
Fixpoint node_run (n : Node) (ops : list node_op) : list neffect :=
  match ops with
  | [] => []
  | o :: ops =>
      match node_step n o with
      | Ok (n, out) => out ++ node_run n ops
      | _ => []
      end
  end.

Lemma dispatch_silent n env from data n' out :
  clientless (udpRelay n) → dispatchControlMsg n env from data = Ok (n', out) → silent n' out.
Proof.
  intros H. unfold dispatchControlMsg. case_decide; [intros [= <- <-]; by split|].
  destruct (authenticate n from data) as [m|]; [|intros [= <- <-]; by split].
  unfold handle_verified. intros Hr. apply res_bind_Ok in Hr as ([[e eff] handled] & _ & Hr).
  destruct (after_gossip n (e, eff)) as [n1 out1] eqn:Hg. apply silent_gossip in Hg; [|done].
  destruct handled; [injection Hr as <- <-; done|].
  apply res_bind_Ok in Hr as (t & _ & Hr).
  destruct (decide (t = MsgRouteUpdate)).
  { apply res_bind_Ok in Hr as (r & _ & Hr).
    apply (silent_propagator n1 env r); [exact (Ok_inj _ _ Hr)|apply Hg]. }
  destruct (decide (t = MsgUDPForward)); [|injection Hr as <- <-; split; [apply Hg|constructor]].
  apply res_bind_Ok in Hr as ([r1 eff1] & Hi & Hr).
  apply (HandleIncoming_clientless _ _ _ _ _ _ (proj1 Hg)) in Hi as [Hc He].
  apply (silent_relay n1 (r1, eff1)); [exact (Ok_inj _ _ Hr)|done..].
Qed.

Lemma closes_silent n conn n' out :
  (n, [NClose conn]) = (n', out) → clientless (udpRelay n) → silent n' out.
Proof. intros [= <- <-] H. split; [done|by repeat constructor; intros []]. Qed.

Lemma silent_step n env s n' out : clientless (udpRelay n) → conn_step_do n env s = (n', out) → silent n' out.
Proof.
  intros H. destruct s as [id a|conn|id conn| |conn|id conn|id|id|id]; cbn [conn_step_do].
  1: intros [= <- <-]; split; [by unfold registerPeerUDPAddr; destruct a|constructor].
  2: intros E; by eapply silent_gossip.
  2,7: intros E; by eapply silent_propagator.
  all: intros [= <- <-]; split; [done|by repeat constructor; intros []].
Qed.

Lemma node_step_effects n o n' out :
  node_step n o = Ok (n', out) ↔ node_effects n o = Ok (n', out) ∧
    ∀ e conn, e ∈ out → stream_of e = Some conn → op_gone o conn = false.
Proof.
  unfold node_step. rewrite res_bind_Ok. split.
  - intros (r & E & [-> H]%perform_Ok). by split.
  - intros [E H]. exists (n', out). split; [done|]. by apply perform_Ok.
Qed.

Lemma node_effects_silent n o n' out :
  clientless (udpRelay n) → node_effects n o = Ok (n', out) → silent n' out.
Proof.
  intros H. destruct o as [env from data|keep id conn|env s|env hop t p|env remote data|now|now|env|env orders rng|env rng ok|
    target now]; cbn [node_effects].
  - by apply dispatch_silent.
  - unfold claim. destruct (getPeerConn n id); [destruct (keep _)|]; intros [= <- <-];
      (split; [done|by repeat constructor; intros []]).
  - intros E%Ok_inj. by eapply silent_step.
  - unfold socks_udp_forward, CreateSession. cbn [Create]. intros Hr%Ok_inj.
    apply (silent_relay _ _ _ _ Hr); cbn [fst snd].
    + unfold clientless. cbn [set_sessions ur_sessions sessions]. by apply map_Forall_insert_2.
    + intros s d. unfold ForwardToPeer. destruct (sendUDP _); [|by intros ?%not_elem_of_nil].
      by intros ?%list_elem_of_singleton.
  - unfold udp_datagram, udp_sender. intros Hr.
    assert (∀ m peer, udpRelay m = udpRelay n →
      (r ← HandleIncoming (udpRelay m) peer data (clock env); Ok (after_relay m r)) = Ok (n', out) →
      silent n' out) as Hrelay.
    { intros m peer Hm Hr'. apply res_bind_Ok in Hr' as ([r1 eff1] & Hi & Hr').
      rewrite Hm in Hi. apply (HandleIncoming_clientless _ _ _ _ _ _ H) in Hi as [Hc He].
      apply (silent_relay m (r1, eff1)); [exact (Ok_inj _ _ Hr')|done..]. }
    destruct (list_find _ (udp_order env)) as [[? [? ?]]|]; [by eapply Hrelay in Hr|].
    destruct (list_find _ (peerconn_order env)) as [[? [? ?]]|]; [by eapply Hrelay in Hr|].
    injection Hr as <- <-. by split.
  - intros [= <- <-]. split; [by apply clientless_gc|constructor].
  - intros [= <- <-]. by split.
  - unfold advertise. intros Hr%Ok_inj. by eapply silent_propagator.
  - intros Hr%Ok_inj. by apply silent_gossip in Hr.
  - unfold gossip_probe. intros Hr%Ok_inj. by repeat case_match; apply silent_gossip in Hr.
  - intros [= <- <-]. by split.
Qed.

Lemma node_step_silent n o n' out : clientless (udpRelay n) → node_step n o = Ok (n', out) → silent n' out.
Proof. intros H [E _]%node_step_effects. by eapply node_effects_silent. Qed.

Lemma node_run_silent n ops : clientless (udpRelay n) → Forall (λ e, ¬ delivers e) (node_run n ops).
Proof.
  revert n. induction ops as [|o ops IH]; intros n H; simpl; [constructor|].
  destruct (node_step n o) as [[n' out]| |] eqn:E; [|constructor..].
  apply node_step_silent in E as [H' F]; [|done]. apply Forall_app. auto.
Qed.
(** ** What a message makes the node write *)

(** The connections that the node writes to when it handles a message: the one of the sender, to answer a pull or a
    ping, and those of the peers to which a change of a route is passed on. *)
Definition answers (n : Node) (env : Env) (from : NodeID) (m : Slice) (conn : ConnRef) : Prop :=
  match contents m with
  | t :: _ =>
      ((t = MsgGossipPull ∨ t = MsgPing) ∧ conns (gossipEng n) !! NodeID_String from = Some conn) ∨
      (t = MsgRouteUpdate ∧ ∃ p eff to msg,
         HandleRouteUpdate (with_peers n env) from m (clock env 0%nat) (clock env 1%nat) = Ok (p, eff) ∧
         Send to msg ∈ eff ∧ getPeerConn n to = Some conn)
  | [] => False
  end.

Lemma HandleRouteUpdate_sends p from data now now' p' eff e :
  HandleRouteUpdate p from data now now' = Ok (p', eff) → e ∈ eff → ∃ to msg, e = Send to msg.
Proof.
  assert (∀ q msg, e ∈ propagateExcept q msg from → ∃ to msg, e = Send to msg) as Hp.
  { intros q msg. unfold propagateExcept. destruct (getPeersFunc q); [|by intros ?%not_elem_of_nil].
    destruct (sendFunc q); [|by intros ?%not_elem_of_nil]. intros (to & -> & _)%list_elem_of_fmap. by eexists _, _. }
  unfold HandleRouteUpdate. destruct (DecodeRouteMessage data) as [m| |]; [|by intros [= _ <-] ?%not_elem_of_nil|done].
  destruct (is_withdrawal m); [intros [= _ <-]; by apply Hp|].
  destruct (path_Contains _ _); [by intros [= _ <-] ?%not_elem_of_nil|].
  destruct (32 <=? _)%nat; [by intros [= _ <-] ?%not_elem_of_nil|].
  destruct (AddRoute _ _ _ _) as [rt []]; intros [= _ <-]; [by apply Hp|by intros ?%not_elem_of_nil].
Qed.

Lemma push_no_writes e m clk c b : ControlWrite c b ∉ snd (handlePush e m clk).
Proof.
  unfold handlePush. generalize 0%nat. generalize (Peers m). intros ens i. revert e i. induction ens as [|en ens IH]; intros e i.
  { by apply not_elem_of_nil. }
  cbn [push_entries]. destruct (NodeID_Equal _ _); [apply IH|].
  destruct (AddOrUpdate _ _ _) as [pm new]. specialize (IH (set_peers e pm) (S i)).
  destruct (push_entries _ _ _ _) as [e' eff]. cbn [snd] in *. intros [Hin|Hin]%elem_of_app; [|done].
  destruct (new && _); [by apply list_elem_of_singleton in Hin|by apply not_elem_of_nil in Hin].
Qed.

(** The writes of a message that the engine handles. *)
Lemma HandleMessage_writes e from data clk order e' eff h conn t l :
  contents data = t :: l → HandleMessage e from data clk order = Ok (e', eff, h) →
  ((∃ b, ControlWrite conn b ∈ eff) ↔ (t = MsgGossipPull ∨ t = MsgPing) ∧ conns e !! NodeID_String from = Some conn).
Proof.
  assert (∀ m, (∃ b, ControlWrite conn b ∈ SendTo e from m) ↔ conns e !! NodeID_String from = Some conn) as Hs.
  { intros m. unfold SendTo. destruct (conns e !! _) as [c|].
    - split; [by intros (b & [= -> _]%list_elem_of_singleton)|]. intros [= ->]. eexists. by apply list_elem_of_singleton.
    - split; [by intros (b & ?%not_elem_of_nil)|done]. }
  assert (∀ P : Prop, (P → False) → (∃ b, ControlWrite conn b ∈ []) ↔ P) as Hnil.
  { intros P HP. split; [by intros (b & ?%not_elem_of_nil)|by intros ?%HP]. }
  intros Hc. unfold HandleMessage. rewrite Hc.
  case_bool_decide as E1.
  { subst t. destruct (DecodeGossipPush data) as [m|x|]; [|intros [= _ <- _]; by apply Hnil; intros [[|] _]|done].
    pose proof (push_no_writes e m clk conn) as Hp. destruct (handlePush e m clk) as [e1 eff1]. intros [= _ <- _].
    split; [by intros (b & ?%Hp)|by intros [[|] _]]. }
  case_bool_decide as E2; [intros [= _ <- _]; rewrite Hs; split; [by split; [left|]|by intros [_ ?]]|].
  case_bool_decide as E3; [intros [= _ <- _]; rewrite Hs; split; [by split; [right|]|by intros [_ ?]]|].
  case_bool_decide as E4; intros [= _ <- _]; apply Hnil; by intros [[?|?] _].
Qed.

Lemma gossip_effect_writes eff conn :
  (∃ e, e ∈ concat (map gossip_effect eff) ∧ stream_of e = Some conn) ↔ ∃ b, ControlWrite conn b ∈ eff.
Proof.
  split.
  - intros (e & Hin & He). apply list_elem_of_In, in_concat in Hin as (l & Hl & Hin).
    apply in_map_iff in Hl as ([c b|p] & <- & Hg%list_elem_of_In); destruct Hin as [<-|[]]; [|done].
    injection He as ->. by exists b.
  - intros (b & Hin). exists (NControl conn b). split; [|done]. apply list_elem_of_In, in_concat.
    exists [NControl conn b]. split; [|by left]. apply in_map_iff. exists (ControlWrite conn b).
    split; [done|by apply list_elem_of_In].
Qed.

Lemma route_effect_sends n env eff conn :
  (∀ e, e ∈ eff → ∃ to msg, e = Send to msg) →
  (∃ e, e ∈ concat (map (route_effect n env) eff) ∧ stream_of e = Some conn) ↔
  ∃ to msg, Send to msg ∈ eff ∧ getPeerConn n to = Some conn.
Proof.
  intros Hs. split.
  - intros (e & Hin & He). apply list_elem_of_In, in_concat in Hin as (l & Hl & Hin).
    apply in_map_iff in Hl as (x & <- & Hx%list_elem_of_In). destruct (Hs x Hx) as (to & msg & ->).
    exists to, msg. split; [done|]. cbn in Hin. unfold sendControlMsg in Hin.
    destruct (getPeerConn n to) as [c|]; [|done]. destruct Hin as [<-|[]]. by injection He as ->.
  - intros (to & msg & Hin & Hg). eexists (NControl conn _). split; [|done]. apply list_elem_of_In, in_concat.
    exists (route_effect n env (Send to msg)). split; [apply in_map_iff; eexists; split; [done|by apply list_elem_of_In]|].
    cbn. unfold sendControlMsg. rewrite Hg. by left.
Qed.

Lemma after_relay_quiet n r e : e ∈ snd (after_relay n r) → stream_of e = None.
Proof.
  intros Hin. apply list_elem_of_In, in_concat in Hin as (l & Hl & Hin). apply in_map_iff in Hl as (x & <- & _).
  destruct x as [peer d|sess d]; cbn in Hin.
  - destruct (peerUDPAddrs _ !! _); [|done]. destruct (udpLn _); [|done]. by destruct Hin as [<-|[]].
  - destruct (ClientAddr sess); [|done]. by destruct Hin as [<-|[]].
Qed.

Lemma handle_verified_writes n env from m n' out conn :
  handle_verified n env from m = Ok (n', out) →
  (∃ e, e ∈ out ∧ stream_of e = Some conn) ↔ answers n env from m conn.
Proof.
  unfold answers, handle_verified. destruct (contents m) as [|t l] eqn:Hc.
  { unfold HandleMessage, at_. by rewrite Hc. }
  destruct (HandleMessage_cases (gossipEng n) from m (clock env) (peer_order env)) as [(e' & eff & E)|[E Hne]].
  - rewrite E. cbn [mbind res_bind]. pose proof (HandleMessage_writes _ _ _ _ _ _ _ _ conn _ _ Hc E) as Hw.
    intros [= _ <-]. rewrite gossip_effect_writes, Hw. split; [by left|]. intros [?|[-> _]]; [done|].
    rewrite HandleMessage_route in E by by rewrite Hc. done.
  - rewrite E. cbn [mbind res_bind after_gossip fst snd map concat]. unfold at_. rewrite Hc in *.
    cbn [lookup list_lookup mbind res_bind]. assert (set_gossip n (gossipEng n) = n) as -> by by destruct n.
    specialize (Hne t eq_refl). destruct (decide (t = MsgRouteUpdate)) as [->|Ht].
    + destruct (HandleRouteUpdate _ _ _ _ _) as [[p eff]| |] eqn:Hr; cbn [mbind res_bind]; [|done..]. intros [= _ <-].
      cbn [fst snd]. rewrite (route_effect_sends (set_propagator n p)) by (intros e He; by eapply HandleRouteUpdate_sends).
      split; [intros (to & msg & ? & ?); right; by split; [|exists p, eff, to, msg]|].
      intros [[[?|?] _]|[_ (p' & eff' & to & msg & [= <- <-] & ? & ?)]]; [by destruct Hne as (_ & ? & _)|by destruct Hne as (_ & _ & ? & _)|].
      by exists to, msg.
    + assert ((((t = MsgGossipPull ∨ t = MsgPing) ∧ conns (gossipEng n) !! NodeID_String from = Some conn) ∨
        (t = MsgRouteUpdate ∧ ∃ p eff to msg,
         HandleRouteUpdate (with_peers n env) from m (clock env 0%nat) (clock env 1%nat) = Ok (p, eff) ∧
         Send to msg ∈ eff ∧ getPeerConn n to = Some conn)) → False) as Hno.
      { destruct Hne as (_ & ? & ? & _). by intros [[[?|?] _]|[? _]]. }
      destruct (decide _).
      * destruct (HandleIncoming _ _ _ _) as [r| |]; cbn [mbind res_bind]; [|done..]. intros [= _ <-].
        split; [|done]. intros (x & He & Hs). by rewrite (after_relay_quiet n r x He) in Hs.
      * intros [= _ <-]. split; [by intros (x & ?%not_elem_of_nil & _)|done].
Qed.
End node.

(** ** Properties *)

(** C22: what [dispatchControlMsg] does with the signature of a message in the name of a peer whose key is known: a message
    that ends in 64 bytes that verify is handled without them, and any other one changes nothing and sends
    nothing. The first message of a connection acts before it is dispatched ([first_push_claims]), and datagrams are
    not signed. *)
Theorem dispatch_authentic `{C : Ed25519} n env from l sp peer :
  Get (e_peers (gossipEng n)) from = Some peer → PubKey peer ≠ [] → l ≠ [] →
  (∀ m sig, l = m ++ sig → length sig = sigSize → ed_Verify (PubKey peer) m sig = true →
     dispatchControlMsg n env from (mkSlice l sp) = handle_verified n env from (mkSlice m (sig ++ sp))) ∧
  ((∀ m sig, l = m ++ sig → length sig = sigSize → ed_Verify (PubKey peer) m sig = false) →
     dispatchControlMsg n env from (mkSlice l sp) = Ok (n, [])).
Proof.
  intros Hp Hk Hl. unfold dispatchControlMsg, authenticate. cbn [contents].
  rewrite decide_False, Hp, decide_False by done. split.
  - intros m sig -> Hs Hv. by rewrite VerifyMessage_split, Hv.
  - intros Hbad. destruct (VerifyMessage (mkSlice l sp) (PubKey peer)) as [m|e|] eqn:Hv; [|done..].
    apply VerifyMessage_Ok in Hv as (sig & E & Hs & Hv). cbn [contents] in E.
    by rewrite (Hbad _ _ E Hs) in Hv.
Qed.

Definition seed_7 : list byte := replicate 32 x07.
Definition id_7 : Identity := fromKeypair (C := toy_ed25519) seed_7 seed_7.

(** A node that knows one peer, with its key. *)
Definition example_node : Node :=
  let n := New (C := toy_ed25519) id_7 [x31] [example_net] DefaultConfig 30 60 in
  set_gossip n (set_peers (gossipEng n)
    (fst (AddOrUpdate (e_peers (gossipEng n)) (mkPeer RouteTable.node_b (replicate 32 x09) [x61] PeerAlive 3 0 []) 5))).
Definition peer_b : Peer := mkPeer RouteTable.node_b (replicate 32 x09) [x61] PeerAlive 1 5 [].
Definition example_env : Env := mkEnv [] [] [] [] [] [] Z.of_nat (λ _, false).

Lemma example_knows : Get (e_peers (gossipEng example_node)) RouteTable.node_b = Some peer_b.
Proof. vm_compute. reflexivity. Qed.

Lemma dispatch_authentic_witness :
  dispatchControlMsg (C := toy_ed25519) example_node example_env RouteTable.node_b
    (mkSlice (SignMessage (C := toy_ed25519) [MsgPing] (replicate 32 x09)) []) =
  handle_verified (C := toy_ed25519) example_node example_env RouteTable.node_b
    (mkSlice [MsgPing] (toy_sign (replicate 32 x09) [MsgPing])).
Proof.
  destruct (dispatch_authentic (C := toy_ed25519) example_node example_env RouteTable.node_b
    (SignMessage (C := toy_ed25519) [MsgPing] (replicate 32 x09)) [] peer_b) as [H _];
    [exact example_knows|done|done|].
  rewrite (H [MsgPing] (toy_sign (replicate 32 x09) [MsgPing]));
    [by rewrite app_nil_r|reflexivity|reflexivity|vm_compute; reflexivity].
Defined.

(** C29: which messages crash a node. A control message makes it panic exactly when, once
    its signature is taken off, it is empty, or it is one of the IPv6 route updates that are
    cut short (34 to 45 bytes), or the node answers it or passes it on over a connection whose control stream
    is gone, because the peer at its other end has closed it. *)
Theorem dispatch_panic_iff `{C : Ed25519} conn_host n env from data :
  node_step conn_host n (ODispatch env from data) = Panic ↔
  contents data ≠ [] ∧
  ∃ m, authenticate n from data = Some m ∧
    (contents m = [] ∨
     ((34 ≤ length (contents m) < 46)%nat ∧
      contents m !! 0%nat = Some MsgRouteUpdate ∧ contents m !! 3%nat = Some x06) ∨
     ∃ conn, answers n env from m conn ∧ cs_gone env conn = true).
Proof.
  unfold node_step. cbn [node_effects op_gone]. unfold dispatchControlMsg.
  case_decide as Hl; [split; [done|by intros [? _]]|].
  destruct (authenticate n from data) as [m|]; [|split; [done|by intros (_ & m' & [=] & _)]].
  destruct (handle_verified n env from m) as [[n' out]|x|] eqn:E; cbn [mbind res_bind].
  - assert ((contents m = [] ∨ DecodeRouteMessage m = Panic) → False) as Hno.
    { intros H%(handle_verified_panic n env from). congruence. }
    rewrite route_decode_panic_iff in Hno. rewrite perform_Panic. cbn [snd]. split.
    + intros (e & conn & He & Hs & Hg). split; [done|]. exists m. split; [done|]. right. right. exists conn.
      split; [|done]. eapply handle_verified_writes; [exact E|]. by exists e.
    + intros (_ & m' & [= <-] & [H|[H|(conn & Ha & Hg)]]); [destruct Hno; by left|destruct Hno; by right|].
      eapply handle_verified_writes in Ha as (e & He & Hs); [|exact E]. by exists e, conn.
  - by apply handle_verified_no_err in E.
  - split; [|done]. intros _. split; [done|]. exists m. split; [done|].
    apply handle_verified_panic in E as [?|?%route_decode_panic_iff]; auto.
Qed.

(** A route update signed by its sender does the same to a node that knows the sender's
    key and to one that does not yet know it, for which the signature is bytes after the
    message: the route it describes, one hop further, is offered to the table. *)
Lemma signed_update_applied `{C : Ed25519, L : !Ed25519Laws C} n env from seed peer msg sp :
  length seed = 32%nat → Get (e_peers (gossipEng n)) from = Some peer →
  PubKey peer = [] ∨ PubKey peer = Public (NewKeyFromSeed seed) →
  route_msg_ok msg → is_withdrawal msg = false →
  p_selfID (propagator n) ∉ rm_ASPath msg → (length (rm_ASPath msg) < 32)%nat →
  ∃ n' out,
    dispatchControlMsg n env from
      (mkSlice (SignMessage (EncodeRouteMessage msg) (NewKeyFromSeed seed)) sp) = Ok (n', out) ∧
    table (propagator n') =
      fst (AddRoute (table (propagator n)) (received_route from (route_norm msg))
             (clock env 0%nat) (clock env 1%nat)) ∧
    gossipEng n' = gossipEng n ∧ udpRelay n' = udpRelay n ∧ peerConns n' = peerConns n.
Proof.
  intros Hs Hp Hk Hok Hw Hself Hlen. set (priv := NewKeyFromSeed seed) in *.
  assert (∃ tail sp', authenticate n from (mkSlice (SignMessage (EncodeRouteMessage msg) priv) sp) =
    Some (mkSlice (EncodeRouteMessage msg ++ tail) sp')) as (tail & sp' & Ha).
  { unfold authenticate, SignMessage. rewrite Hp. destruct (decide (PubKey peer = [])); [by eexists _, _|].
    destruct Hk as [| ->]; [done|]. rewrite VerifyMessage_split by apply length_sign.
    unfold priv. rewrite verify_sign by done. exists []. rewrite app_nil_r. by eexists. }
  unfold dispatchControlMsg. rewrite decide_False, Ha by done.
  unfold handle_verified. rewrite HandleMessage_route by done. cbn [mbind res_bind after_gossip fst snd].
  unfold at_. cbn [contents EncodeRouteMessage app lookup list_lookup mbind res_bind].
  rewrite decide_True by done.
  set (p := with_peers _ env).
  pose proof (handle_update_eq p from msg tail sp' (clock env 0%nat) (clock env 1%nat) Hok Hw Hself Hlen) as H.
  cbv zeta in H. change (table p) with (table (propagator n)) in H.
  destruct (AddRoute _ _ _ _) as [rt changed].
  match goal with |- context [ HandleRouteUpdate p from ?d _ _ ] =>
    change d with (mkSlice (EncodeRouteMessage msg ++ tail) sp') end.
  rewrite H. cbn [mbind res_bind]. eexists _, _. by split_and!.
Qed.

Lemma signed_update_applied_witness :
  let msg := mkRouteMessage RouteFlagUpdate example_net 1 RouteTable.node_b 100 [RouteTable.node_b] in
  ∃ n' out,
    dispatchControlMsg (C := toy_ed25519) example_node example_env RouteTable.node_b
      (mkSlice (SignMessage (C := toy_ed25519) (EncodeRouteMessage msg) (replicate 32 x09)) []) = Ok (n', out) ∧
    table (propagator n') =
      fst (AddRoute (table (propagator example_node)) (received_route RouteTable.node_b (route_norm msg)) 0 1) ∧
    gossipEng n' = gossipEng example_node ∧ udpRelay n' = udpRelay example_node ∧
    peerConns n' = peerConns example_node.
Proof.
  intros msg. apply (signed_update_applied (C := toy_ed25519) (L := toy_ed25519_laws) example_node
    example_env RouteTable.node_b (replicate 32 x09) peer_b msg []).
  - reflexivity.
  - exact example_knows.
  - right. reflexivity.
  - split; [exists 16%nat; vm_compute; split; [lia|done]|unfold fits; simpl; lia..].
  - reflexivity.
  - intros Hin. apply list_elem_of_singleton, (f_equal bytes_of) in Hin. vm_compute in Hin. congruence.
  - simpl. lia.
Defined.

(** C40: no answer to a UDP datagram ever reaches a local client. Whatever the peers send
    and the clients do, a node never delivers a datagram, because every session it makes,
    for a datagram of a client as for one of a peer, is made without a client address, and
    the delivery callback drops the datagrams of such sessions. *)
Theorem udp_answers_dropped `{C : Ed25519} conn_host id listenAddr nets cfg adv ttl ops :
  Forall (λ e, ¬ delivers e) (node_run conn_host (New id listenAddr nets cfg adv ttl) ops).
Proof. apply node_run_silent, map_Forall_empty. Qed.

(** When a connection breaks, the node forgets everything that went through it: the
    connection itself, for control messages and for gossip, and every route that
    originates at the peer or has it as next hop. The peer, if known, is left dead. *)
Lemma peer_lost_clean `{C : Ed25519} n env id conn auto :
  table_ok (table (propagator n)) →
  let n' := fst (peer_lost n env id conn auto) in
  getPeerConn n' id = None ∧ conns (gossipEng n') !! NodeID_String id = None ∧
  Get (e_peers (gossipEng n')) id = dead_entry <$> Get (e_peers (gossipEng n)) id ∧
  (∀ key origin hop, origin = id ∨ hop = id → get_route (table (propagator n')) key (origin, hop) = None) ∧
  (∀ id', id' ≠ id → getPeerConn n' id' = getPeerConn n id' ∧
     Get (e_peers (gossipEng n')) id' = Get (e_peers (gossipEng n)) id').
Proof.
  intros Hok n'. unfold n', peer_lost, after_propagator, WithdrawAllFromPeer, getPeerConn. cbn.
  split_and!.
  - apply lookup_delete_eq.
  - apply lookup_delete_eq.
  - by rewrite Get_MarkDead, decide_True.
  - intros key origin hop Ho. rewrite get_route_RemoveAll by done. by rewrite decide_True.
  - intros id' Hne. split.
    + apply lookup_delete_ne. intros H. by apply Hne, (inj NodeID_String).
    + by rewrite Get_MarkDead, decide_False.
Qed.

(** What the callback for dead peers would do, were it called: the peer has no connection and no route any more,
    but the gossip engine would go on sending pushes to the connection that was closed. *)
Lemma peer_dead_clean `{C : Ed25519} n env id :
  table_ok (table (propagator n)) →
  let n' := fst (peer_dead n env id) in
  getPeerConn n' id = None ∧ gossipEng n' = gossipEng n ∧
  (∀ key origin hop, origin = id ∨ hop = id → get_route (table (propagator n')) key (origin, hop) = None) ∧
  (∀ conn, getPeerConn n id = Some conn → NClose conn ∈ snd (peer_dead n env id)).
Proof.
  intros Hok n'. unfold n', peer_dead, after_propagator, WithdrawAllFromPeer, getPeerConn. cbn.
  assert (∀ key origin hop, origin = id ∨ hop = id →
    get_route (RemoveAllFromOrigin (table (propagator n)) id) key (origin, hop) = None) as Hr.
  { intros key origin hop Ho. rewrite get_route_RemoveAll by done. by rewrite decide_True. }
  destruct (peerConns n !! NodeID_String id) as [conn|] eqn:E; cbn; split_and!; try done.
  - apply lookup_delete_eq.
  - intros ? [= <-]. apply elem_of_app. right. by left.
Qed.

Lemma peer_lost_clean_witness :
  let n := set_propagator example_node (set_table (propagator example_node) example_table) in
  let n' := fst (peer_lost (C := toy_ed25519) n example_env RouteTable.node_b (mkConnRef 1 [x61]) true) in
  getPeerConn n' RouteTable.node_b = None ∧
  get_route (table (propagator n')) "10.1.0.0/16" (node_c, RouteTable.node_b) = None.
Proof.
  intros n. destruct (peer_lost_clean (C := toy_ed25519) n example_env RouteTable.node_b (mkConnRef 1 [x61]) true
    example_table_ok) as (H1 & _ & _ & H2 & _).
  split; [exact H1|]. apply H2. right. reflexivity.
Defined.

(** C32: a connection belongs to whoever claims it. The first push on an incoming connection
    makes it the connection of the node its first entry names, in place of any other, for
    control messages and for gossip; the connections of the other peers stay. The signature does not
    matter: this holds also where the key of that node is known and the message is then
    dropped. *)
Theorem first_push_claims `{C : Ed25519} n env conn e es tail sp resolved :
  let id : NodeID := array_copy 16 (bytes_of (pe_ID e)) in
  let push := EncodeGossipPush (mkGossipPush (e :: es)) ++ tail in
  gossip_push_ok (mkGossipPush (e :: es)) → IsZero id = false → length push ≠ sigSize →
  ∃ n' out,
    handleIncomingConn n env conn (mkSlice push sp) resolved = Ok (n', out) ∧
    getPeerConn n' id = Some conn ∧ conns (gossipEng n') !! NodeID_String id = Some conn ∧
    ∀ id', id' ≠ id → getPeerConn n' id' = getPeerConn n id'.
Proof.
  intros id push Hok Hz Hl. unfold handleIncomingConn.
  assert (identify (mkSlice push sp) = Ok (Some id)) as ->.
  { unfold identify, push. rewrite (decode_encode_gossip _ tail sp Hok). cbn.
    fold id. by rewrite Hz. }
  cbn [mbind res_bind].
  assert (∃ n2 out2, conn_steps (default n (claim n (λ _, false) id conn)) env (incoming_steps id conn resolved) = (n2, out2) ∧
    peerConns n2 = <[NodeID_String id := conn]> (peerConns n) ∧ conns (gossipEng n2) !! NodeID_String id = Some conn)
    as (n2 & out2 & -> & H1 & H2).
  { eexists _, _. split; [reflexivity|]. cbn [after_gossip gossipEng set_gossip fst snd set_conns set_peers conns AddDirectConnection].
    rewrite lookup_insert_eq. split; [|done]. unfold claim, registerPeerUDPAddr.
    by destruct (getPeerConn n id), resolved. }
  destruct (dispatch_push_conns n2 env id (mkSlice push sp)) as (n3 & out3 & -> & H3 & H4); [done|done|].
  cbn [mbind res_bind]. eexists _, _. unfold getPeerConn. rewrite H3, H4, H1, lookup_insert_eq.
  split_and!; [done..|]. intros id' Hne. apply lookup_insert_ne.
  intros E. by apply NodeID_String_inj in E.
Qed.

Lemma first_push_claims_witness :
  let e := mkPeerEntry (array_copy 16 [x0b]) (array_copy 32 [x09]) PeerAlive 1 [x61] in
  let id : NodeID := array_copy 16 (bytes_of (pe_ID e)) in
  ∃ n' out,
    handleIncomingConn (C := toy_ed25519) example_node example_env (mkConnRef 2 [x62])
      (mkSlice (EncodeGossipPush (mkGossipPush [e]) ++ []) []) None = Ok (n', out) ∧
    getPeerConn n' id = Some (mkConnRef 2 [x62]) ∧
    conns (gossipEng n') !! NodeID_String id = Some (mkConnRef 2 [x62]) ∧
    ∀ id', id' ≠ id → getPeerConn n' id' = getPeerConn example_node id'.
Proof.
  intros e id. apply (first_push_claims (C := toy_ed25519) example_node example_env (mkConnRef 2 [x62]) e [] [] [] None).
  - split; [|unfold fits; simpl; lia]. apply list.Forall_singleton. split; unfold fits; simpl; lia.
  - vm_compute. reflexivity.
  - vm_compute. lia.
Defined.
