(* ===== verification/Associate.v ===== *)
(** * A UDP association and where its datagrams go ([socks5/udp.go], the UDP callbacks in [node/node.go])

    The association of one client is its table of flows, its socket and two goroutines: the loop that
    reads datagrams, and the one that waits for the client's TCP connection to say anything. What the loop hands
    to the callbacks is followed through the node and into the node that is the next hop. *)

From S2P Require Import Prelude Bytes Crypto Net NetText Identity Wire WireForward RoutePath RouteTable RouteSelect.
From S2P Require Import Propagation Peers Gossip Session Socks5 SocksServer Node.
From stdpp Require Import options.

Section associate.
Context (LookupIP : string → list (list byte)).

(** Whether the socket is open, the loop runs, and the other goroutine still waits. *)
Record Assoc := mkAssoc { as_ua : udpAssociate; as_open : bool; as_loop : bool; as_watch : bool }.

Definition assoc_start (listen : option UDPAddr) : option Assoc * list seffect :=
  match handleUDPAssociate listen with
  | (Some ua, out) => (Some (mkAssoc ua true true true), out)
  | (None, out) => (None, out)
  end.

(** [AClient]: the read of the client's connection returns, with a byte, the end or an error. [AReadFails]: so
    does the read of a datagram, after which the loop returns and closes what it has; the server then
    closes the client's connection. *)
Inductive assoc_event :=
| AClient
| ADatagram (fuel : nat) (route_order : list (string * list Route)) (session_order : list (Z * (UDPAddr * UDPAddr)))
    (clock : nat → Z) (clientAddr : UDPAddr) (data : Slice)
| AReadFails.

(** [None]: the event is not possible now, or the search for a session number goes on. *)
Definition assoc_step (s : Server) (a : Assoc) (e : assoc_event) : option (res dgram_error (Assoc * list seffect)) :=
  match e with
  | AClient =>
      if as_watch a then Some (Ok (mkAssoc (as_ua a) false (as_loop a) false, [])) else None
  | ADatagram fuel ro so clock clientAddr data =>
      if as_open a && as_loop a then
        match associate_datagram LookupIP fuel s (as_ua a) ro so clock clientAddr data with
        | Ok (Some (ua, out)) => Some (Ok (mkAssoc ua true true (as_watch a), out))
        | Ok None => None
        | Err _ => Some (Ok (mkAssoc (mkUdpAssociate (Some clientAddr) (ua_sessions (as_ua a))) true true (as_watch a), []))
        | Panic => Some Panic
        end
      else None
  | AReadFails =>
      if as_loop a then Some (Ok (mkAssoc (as_ua a) false false (as_watch a), [])) else None
  end.

(** ** The callbacks of the node *)

Inductive socket_step := DDial (target : UDPAddr) | DWrite (payload : list byte) | DClose.

(** [SetUDPDirect]: a socket for one datagram. *)
Definition udp_direct (dial_ok : bool) (targetAddr : UDPAddr) (payload : list byte) : list socket_step :=
  if dial_ok then [DDial targetAddr; DWrite payload; DClose] else [DDial targetAddr].

(** [DeliverUDP]. *)
Definition DeliverUDP (sessionID : Z) (payload : list byte) : list seffect := [].

(** ** Lemmas: the life of an association *)

(** Nothing makes the association panic: a datagram is handled, dropped, or its number is searched for. *)
Lemma assoc_no_panic s a e : assoc_step s a e ≠ Some Panic.
Proof.
  destruct e as [|fuel ro so clock client data|]; cbn; [by destruct (as_watch a)| |by destruct (as_loop a)].
  destruct (as_open a && as_loop a); [|done]. unfold associate_datagram, handleUDPDatagram.
  destruct (datagram_exact data "" 0 []) as [_ Hp]. destruct (parse_datagram data) as [[[h port] payload]|e|]; [|done..].
  cbn [mbind res_bind]. destruct (resolve_ip LookupIP h) as [ip|]; [|done]. destruct (Lookup _ ro ip) as [rt|]; [|done].
  destruct (IsZero (NextHop rt)); [by destruct (udpDirectFunc s)|]. destruct (udpForwardFunc s); [|done].
  by destruct (getSessionID _ _ _ _ _ _) as [[ua id]|].
Qed.

(** Once the client has said anything at all, or a read has failed, no datagram is handled any more; the two
    goroutines then end, whatever comes first. *)
Lemma assoc_over s a e a' out :
  as_open a = false → assoc_step s a e = Some (Ok (a', out)) → as_open a' = false ∧ out = [] ∧
  (if as_loop a' then 1 else 0) + (if as_watch a' then 1 else 0) < (if as_loop a then 1 else 0) + (if as_watch a then 1 else 0).
Proof.
  intros Ho. destruct a as [ua op lp wt]. cbn in Ho. subst op. destruct e as [|fuel ro so clock client data|]; cbn; [| done |].
  - destruct wt; [|done]. intros [= <- <-]. cbn. split_and!; [done|done|]. destruct lp; lia.
  - destruct lp; [|done]. intros [= <- <-]. cbn. split_and!; [done|done|]. destruct wt; lia.
Qed.

Lemma assoc_can_end s a : as_loop a || as_watch a = true → ∃ e a', assoc_step s a e = Some (Ok (a', [])) ∧ as_open a' = false.
Proof.
  destruct (as_loop a) eqn:El.
  - intros _. exists AReadFails. eexists. cbn. by rewrite El.
  - intros Hw. exists AClient. eexists. cbn in *. by rewrite Hw.
Qed.

(** A datagram for one of the node's own networks goes out on a socket that is closed before an answer can
    come: whatever the dial says, nothing is ever read. *)
Lemma udp_direct_deaf s a fuel ro so clock client t port payload sp ip rt dial_ok :
  target_ok t → fits 16 port → (10 ≤ length (datagram t port payload))%nat →
  resolve_ip LookupIP (target_host t) = Some ip → Lookup (srv_routes s) ro ip = Some rt → NextHop rt = zeroID →
  udpDirectFunc s = true → as_open a = true → as_loop a = true →
  ∃ a', assoc_step s a (ADatagram fuel ro so clock client (mkSlice (datagram t port payload) sp)) =
      Some (Ok (a', [SUDPDirect (mkUDPAddr ip port) payload])) ∧ ua_sessions (as_ua a') = ua_sessions (as_ua a) ∧
    (udp_direct dial_ok (mkUDPAddr ip port) payload = [DDial (mkUDPAddr ip port)] ∨
     last (udp_direct dial_ok (mkUDPAddr ip port) payload) = Some DClose).
Proof.
  intros Ht Hp H10 Hres Hl Hz Hd Ho Hlp.
  exists (mkAssoc (mkUdpAssociate (Some client) (ua_sessions (as_ua a))) true true (as_watch a)).
  split_and!; [|done|destruct dial_ok; cbn; auto].
  unfold assoc_step. rewrite Ho, Hlp. cbn [andb]. unfold associate_datagram, handleUDPDatagram.
  rewrite parse_datagram_runs by done. cbn [mbind res_bind]. rewrite Hres, Hl.
  unfold IsZero. by rewrite bool_decide_true, Hd by done.
Qed.

(** A datagram for a network behind a peer is forwarded under the number of its flow. *)
Lemma assoc_forwards s a fuel ro so clock client t port payload sp ip rt :
  target_ok t → fits 16 port → (10 ≤ length (datagram t port payload))%nat →
  resolve_ip LookupIP (target_host t) = Some ip → Lookup (srv_routes s) ro ip = Some rt → NextHop rt ≠ zeroID →
  udpForwardFunc s = true → as_open a = true → as_loop a = true →
  assoc_ok (as_ua a) → so ≡ₚ map_to_list (ua_sessions (as_ua a)) → enough_readings fuel (ua_sessions (as_ua a)) clock →
  ∃ ua id, assoc_step s a (ADatagram fuel ro so clock client (mkSlice (datagram t port payload) sp)) =
      Some (Ok (mkAssoc ua true true (as_watch a), [SUDPForward (NextHop rt) id (mkUDPAddr ip port) payload])) ∧
    assoc_ok ua ∧ ua_sessions (as_ua a) ⊆ ua_sessions ua ∧
    ∃ fl, ua_sessions ua !! id = Some fl ∧ flow_of fl = flow_of (client, mkUDPAddr ip port).
Proof.
  intros Ht Hp H10 Hres Hl Hz Hfw Ho Hlp Hok Hso Hfuel. set (ua0 := mkUdpAssociate (Some client) (ua_sessions (as_ua a))).
  destruct (getSessionID_spec fuel ua0 so client (mkUDPAddr ip port) clock) as (ua & id & Hg & Hok' & Hfl & Hsub); [done..|].
  exists ua, id. split_and!; [|done|done|done]. unfold assoc_step. rewrite Ho, Hlp. cbn [andb].
  unfold associate_datagram, handleUDPDatagram. rewrite parse_datagram_runs by done. cbn [mbind res_bind]. rewrite Hres, Hl.
  unfold IsZero. rewrite bool_decide_false, Hfw by done. cbn [ua_client ua_sessions from_option].
  change (Datatypes.id client) with client. fold ua0. by rewrite Hg.
Qed.
End associate.

(** ** Lemmas: the two nodes *)

(** The callback makes a session and sends one datagram to the next hop. *)
Lemma forward_sends n env hop target payload addr :
  peerUDPAddrs n !! NodeID_String hop = Some addr → udpLn n = true → sendUDP (udpRelay n) = true →
  let r := socks_udp_forward n env hop target payload in
  snd r = [NUDP addr (EncodeUDPForward (nextID (ur_sessions (udpRelay n))) payload)] ∧
  us_NextHop <$> GetSession (udpRelay (fst r)) (nextID (ur_sessions (udpRelay n))) = Some hop.
Proof.
  intros Ha Hln Hs. unfold socks_udp_forward, CreateSession, Create, after_relay, ForwardToPeer. cbn.
  rewrite Hs. cbn. rewrite Ha, Hln. split; [done|]. unfold GetSession, Session_Lookup. cbn. by rewrite lookup_insert_eq.
Qed.

(** What the next hop does with the datagram of a session that it does not know: it makes a session, and says
    nothing to anybody. *)
Lemma unknown_dropped n from sid payload sp clk :
  clientless (udpRelay n) → fits 32 sid → GetSession (udpRelay n) sid = None →
  ∃ r, HandleIncoming (udpRelay n) from (mkSlice (EncodeUDPForward sid payload) sp) clk = Ok r ∧
    snd (after_relay n r) = [] ∧
    option_map (λ s, (TargetAddr s, us_NextHop s)) (GetSession (fst r) sid) = Some (None, from).
Proof.
  intros Hc Hf Hn. unfold HandleIncoming. rewrite decode_encode_udp by done. cbn [uf_SessionID]. unfold relay_session.
  unfold GetSession in Hn. rewrite Hn. eexists. split; [reflexivity|]. cbn. split.
  - unfold NodeID_Equal. rewrite bool_decide_true by done. by destruct (deliverLocal (udpRelay n)).
  - unfold GetSession, Session_Lookup. cbn. by rewrite lookup_alter_eq, lookup_insert_eq.
Qed.

(** The datagram that a client sends to a network behind a peer gets exactly as far as that peer: the number
    of the session is all that goes with it, and at the next hop that number has no target. *)
Lemma datagram_dead_end LookupIP conn_host s a fuel ro so clock client t port payload sp ip rt n env addr n2 n2' env2 remote from sp2 :
  target_ok t → fits 16 port → (10 ≤ length (datagram t port payload))%nat →
  resolve_ip LookupIP (target_host t) = Some ip → Lookup (srv_routes s) ro ip = Some rt → NextHop rt ≠ zeroID →
  udpForwardFunc s = true → as_open a = true → as_loop a = true →
  assoc_ok (as_ua a) → so ≡ₚ map_to_list (ua_sessions (as_ua a)) → enough_readings fuel (ua_sessions (as_ua a)) clock →
  peerUDPAddrs n !! NodeID_String (NextHop rt) = Some addr → udpLn n = true → sendUDP (udpRelay n) = true →
  let number := nextID (ur_sessions (udpRelay n)) in
  fits 32 number →
  udp_sender conn_host n2 env2 remote = Some (n2', from) → clientless (udpRelay n2') → GetSession (udpRelay n2') number = None →
  ∃ a' id data n2'',
    assoc_step LookupIP s a (ADatagram fuel ro so clock client (mkSlice (datagram t port payload) sp)) =
      Some (Ok (a', [SUDPForward (NextHop rt) id (mkUDPAddr ip port) payload])) ∧
    snd (socks_udp_forward n env (NextHop rt) (mkUDPAddr ip port) payload) = [NUDP addr data] ∧
    udp_datagram conn_host n2 env2 remote (mkSlice data sp2) = Ok (n2'', []) ∧
    option_map TargetAddr (GetSession (udpRelay n2'') number) = Some None.
Proof.
  intros Ht Hp H10 Hres Hl Hz Hfw Ho Hlp Hok Hso Hfuel Ha Hln Hs number Hf Hu Hc Hg.
  destruct (assoc_forwards LookupIP s a fuel ro so clock client t port payload sp ip rt)
    as (ua & id & Hst & _); [done..|].
  destruct (forward_sends n env (NextHop rt) (mkUDPAddr ip port) payload addr) as [Hout _]; [done..|].
  destruct (unknown_dropped n2' from number payload sp2 (Node.clock env2)) as (r & Hi & Hno & Hses); [done..|].
  eexists _, id, _, _. split_and!; [exact Hst|exact Hout| |].
  - unfold udp_datagram. rewrite Hu. fold number. rewrite Hi. cbn [mbind res_bind].
    rewrite (surjective_pairing (after_relay n2' r)), Hno. reflexivity.
  - cbn. destruct (GetSession (fst r) number); [|done]. cbn in *. congruence.
Qed.

(** A datagram from the client to 10.1.2.3:53, at the node that has a route to 10.1.0.0/16 by a peer. *)
Definition assoc_server : Server := SetUDPForward (NewServer "127.0.0.1:1080" example_table RouteTable.node_a).
Definition fresh_assoc : Assoc := mkAssoc (mkUdpAssociate None ∅) true true true.
Definition entry_node (hop : NodeID) : Node :=
  let n := set_peerUDPAddrs example_node {[ NodeID_String hop := loopback 9 ]} in
  mkNode (n_identity n) (gossipEng n) (propagator n) (udpRelay n) (peerConns n) (peerUDPAddrs n) true.
Definition hop_env : Env := mkEnv [] [] [] [] [(NodeID_String RouteTable.node_a, loopback 8)] [] Z.of_nat (λ _, false).

Example datagram_dead_end_witness :
  ∃ rt a' id data n2'',
    assoc_step (λ _, []) assoc_server fresh_assoc
      (ADatagram 3 (map_to_list (routes example_table)) [] (λ i, 7 + Z.of_nat i) (loopback 1)
        (mkSlice (datagram (ip_target [x0a; x01; x02; x03]) 53 [x71]) [])) =
      Some (Ok (a', [SUDPForward (NextHop rt) id (mkUDPAddr (IPv4 [x0a; x01; x02; x03]) 53) [x71]])) ∧
    snd (socks_udp_forward (entry_node (NextHop rt)) example_env (NextHop rt)
      (mkUDPAddr (IPv4 [x0a; x01; x02; x03]) 53) [x71]) = [NUDP (loopback 9) data] ∧
    udp_datagram (λ _, ""%string) example_node hop_env (loopback 8) (mkSlice data []) = Ok (n2'', []) ∧
    option_map TargetAddr (GetSession (udpRelay n2'') 1) = Some None.
Proof.
  eexists. eapply (datagram_dead_end (λ _, []) (λ _, ""%string) assoc_server fresh_assoc 3
    (map_to_list (routes example_table)) [] (λ i, 7 + Z.of_nat i) (loopback 1) (ip_target [x0a; x01; x02; x03]) 53
    [x71] [] (IPv4 [x0a; x01; x02; x03]) _ (entry_node _) example_env (loopback 9) example_node example_node hop_env
    (loopback 8) (parse_or_zero (NodeID_String RouteTable.node_a)) []).
  - reflexivity.
  - unfold fits. lia.
  - vm_compute. lia.
  - reflexivity.
  - reflexivity.
  - intros Hz. apply (f_equal bytes_of) in Hz. vm_compute in Hz. congruence.
  - reflexivity.
  - reflexivity.
  - reflexivity.
  - by split; [apply map_Forall_empty|]; intros i j s s' Hi; cbn in Hi; simplify_map_eq.
  - done.
  - unfold enough_readings. vm_compute. lia.
  - apply lookup_singleton_eq.
  - reflexivity.
  - reflexivity.
  - unfold fits. vm_compute. split; congruence.
  - reflexivity.
  - apply map_Forall_empty.
  - reflexivity.
Qed.
