(* ===== verification/Dialer.v ===== *)
(** * Dialling ([connectToPeer], [reconnectPeer] and [bootstrapPeer] in [node/node.go])

    The goroutines that dial are tasks: each is at one of the places where it can wait. The
    node, the set of addresses being dialled and the tasks are stepped by events: what a
    dial, a timer or a read has given. Any interleaving of the tasks is a list of events. A task registers
    a connection at once; the steps that follow ([Node.conn_step]) are part of its result, to be run with other
    goroutines in between ([Hosts]). Releasing the mark and registering, which follow each other, are one step. *)

From S2P Require Import Prelude Bytes Crypto Net Identity Wire WireGossip RoutePath RouteTable Propagation.
From S2P Require Import Peers Gossip Session Node.
From stdpp Require Import options.

(** ** Delays *)

Definition minBackoff : Z := 1 * Second.

(** [rand.Int63n(half + 1)] is [draw] modulo [half + 1]. *)
Definition jitterDuration (base draw : Z) : Z :=
  if base <=? 0 then 0
  else let half := base `div` 2 in
       if half <=? 0 then base else half + draw `mod` (half + 1).

(** [backoff *= 2], up to the limit. *)
Definition double_backoff (maxBackoff backoff : Z) : Z :=
  let backoff := backoff * 2 in if maxBackoff <? backoff then maxBackoff else backoff.

(** [None]: it has not returned yet. [fired] tells whether the timer has fired, [done] whether
    the node is stopping. *)
Definition sleepWithContext (delay : Z) (fired done : bool) : option bool :=
  if delay <=? 0 then Some (negb done)
  else if fired then Some true
  else if done then Some false
  else None.

Record Retry := mkRetry { r_backoff : Z; r_attempt : nat }.

Definition first_try : Retry := mkRetry minBackoff 0.

(** ** Marks *)

Definition tryMarkDialing (m : gset (list byte)) (addr : list byte) : gset (list byte) * bool :=
  if decide (addr ∈ m) then (m, false) else ({[addr]} ∪ m, true).

Definition unmarkDialing (m : gset (list byte)) (addr : list byte) : gset (list byte) := m ∖ {[addr]}.

(** ** Dialling ([Dial] in [transport/conn.go])

    [raw]: the fingerprints of the certificates of the peer, once the TLS handshake is done.
    Without a pin store they are not looked at, and the node never gives one. *)
Inductive dial_error := ErrDial | ErrNoCertificate | ErrPinCheck (e : pin_error) | ErrPin.

Definition Dial (raw : option (list string)) (pinStore : option PinStore) (addr : string) (save_ok : bool)
    : option PinStore * res dial_error () :=
  match raw, pinStore with
  | None, _ => (pinStore, Err ErrDial)
  | Some _, None => (None, Ok ())
  | Some [], Some _ => (pinStore, Err ErrNoCertificate)
  | Some (fp :: _), Some ps =>
      let '(ps, r) := Check_pin ps addr fp save_ok in
      (Some ps, match r with
                | Ok true => Ok ()
                | Ok false => Err ErrPin
                | Err e => Err (ErrPinCheck e)
                | Panic => Panic
                end)
  end.

(** A dial that succeeded pins the certificate: from then on no other one is accepted for the
    address. *)
Lemma Dial_pins ps addr fp certs save_ok ps' fp' certs' save_ok' :
  Dial (Some (fp :: certs)) (Some ps) addr save_ok = (Some ps', Ok ()) →
  snd (Dial (Some (fp' :: certs')) (Some ps') addr save_ok') = Ok () → fp' = fp.
Proof.
  unfold Dial. pose proof (Check_pin_trusted ps addr fp save_ok) as Ht.
  destruct (Check_pin ps addr fp save_ok) as [ps1 [[]| |]]; try done. intros [= <-].
  specialize (Ht eq_refl). cbn in Ht.
  pose proof (Check_pin_trusted ps1 addr fp' save_ok') as Ht'.
  pose proof (Check_pin_keeps ps1 addr fp' save_ok' addr fp Ht) as Hk.
  destruct (Check_pin ps1 addr fp' save_ok') as [ps2 [[]| |]]; try done. intros _.
  specialize (Ht' eq_refl). cbn in Ht', Hk. congruence.
Qed.

(** ** Tasks *)

Inductive phase :=
| Checking
| Dialling (addr : list byte)
| Sleeping (delay : Z)
| Serving (conn : ConnRef).

(** A bootstrap reads the first message of its peer. *)
Inductive task :=
| Connecting (peerID : NodeID) (addr : list byte)
| Reconnecting (peerID : NodeID) (mark : list byte) (r : Retry) (ph : phase)
| Bootstrapping (addr : list byte) (r : Retry) (ph : phase).

Definition reconnectMax : Z := 60 * Second.
Definition bootstrapMax : Z := 30 * Second.

Section dialer.

Record DNode := mkDNode {
  d_node : Node;
  reconnecting : gset (list byte);
  tasks : gmap nat task;
  next_task : nat;
  d_done : bool }.

Definition with_node (d : DNode) (n : Node) : DNode :=
  mkDNode n (reconnecting d) (tasks d) (next_task d) (d_done d).
Definition set_task (d : DNode) (t : nat) (k : task) : DNode :=
  mkDNode (d_node d) (reconnecting d) (<[t := k]> (tasks d)) (next_task d) (d_done d).
(** A task ends, and releases its mark if it holds one. *)
Definition end_task (d : DNode) (t : nat) (mark : option (list byte)) : DNode :=
  mkDNode (d_node d) (match mark with Some a => unmarkDialing (reconnecting d) a | None => reconnecting d end)
    (delete t (tasks d)) (next_task d) (d_done d).
(** A task starts, with the mark it has taken. *)
Definition start_task (d : DNode) (m : gset (list byte)) (k : task) : DNode :=
  mkDNode (d_node d) m (<[next_task d := k]> (tasks d)) (S (next_task d)) (d_done d).

(** The start of [connectToPeer]. *)
Definition connect_start (d : DNode) (peerID : NodeID) (addr : list byte) : DNode :=
  match getPeerConn (d_node d) peerID with
  | Some _ => d
  | None =>
      let '(m, ok) := tryMarkDialing (reconnecting d) addr in
      if ok then start_task d m (Connecting peerID addr) else d
  end.

(** The address gossip has for a peer, if it has one. *)
Definition known_addr (d : DNode) (peerID : NodeID) : option (list byte) :=
  match Get (e_peers (gossipEng (d_node d))) peerID with
  | Some p => if decide (Addr p = []) then None else Some (Addr p)
  | None => None
  end.

(** The start of [reconnectPeer]. *)
Definition reconnect_start (d : DNode) (peerID : NodeID) : DNode :=
  match known_addr d peerID with
  | None => d
  | Some addr =>
      let '(m, ok) := tryMarkDialing (reconnecting d) addr in
      if ok then start_task d m (Reconnecting peerID addr first_try Checking) else d
  end.

Definition bootstrap_start (d : DNode) (addr : list byte) : DNode :=
  start_task d (reconnecting d) (Bootstrapping addr first_try Checking).

(** [bootstrap]: one task for each configured peer. *)
Definition bootstrap (d : DNode) (peers : list (list byte)) : DNode := foldl bootstrap_start d peers.

(** The top of the loop of [reconnectPeer], up to the dial. *)
Definition reconnect_turn (d : DNode) (live : ConnRef → bool) (t : nat) (id : NodeID) (mark : list byte)
    (r : Retry) : DNode :=
  if d_done d then end_task d t (Some mark)
  else match known_addr d id with
  | None => end_task d t (Some mark)
  | Some addr =>
      match getPeerConn (d_node d) id with
      | Some conn => if live conn then end_task d t (Some mark)
                     else set_task d t (Reconnecting id mark r (Dialling addr))
      | None => set_task d t (Reconnecting id mark r (Dialling addr))
      end
  end.

(** The top of the loop of [bootstrapPeer]. *)
Definition bootstrap_turn (d : DNode) (t : nat) (addr : list byte) (r : Retry) : DNode :=
  if d_done d then end_task d t None else set_task d t (Bootstrapping addr r (Dialling addr)).

Definition turn (d : DNode) (live : ConnRef → bool) (t : nat) : option DNode :=
  match tasks d !! t with
  | Some (Reconnecting id mark r Checking) => Some (reconnect_turn d live t id mark r)
  | Some (Bootstrapping addr r Checking) => Some (bootstrap_turn d t addr r)
  | _ => None
  end.

(** After a failure: the delay of the next attempt. *)
Definition go_to_sleep (r : Retry) (draw : Z) : Retry * phase :=
  (mkRetry (r_backoff r) (S (r_attempt r)), Sleeping (jitterDuration (r_backoff r) draw)).

(** The dial of [connectToPeer] has given [conn], or nothing. *)
Definition connect_dialled (d : DNode) (t : nat) (id : NodeID) (addr : list byte)
    (conn : option ConnRef) (resolved : option UDPAddr) : DNode * list neffect * list conn_step :=
  let d := end_task d t (Some addr) in
  match conn with
  | None => (d, [NReconnect id], [])
  | Some conn =>
      match claim (d_node d) (λ _, true) id conn with
      | Some n => (with_node d n, [], dialled_steps id conn resolved)
      | None => (d, [NClose conn], [])
      end
  end.

(** That of [reconnectPeer]. [live]: whether a registered connection is not closed. *)
Definition reconnect_dialled (d : DNode) (live : ConnRef → bool) (t : nat) (id : NodeID)
    (mark : list byte) (r : Retry) (conn : option ConnRef) (resolved : option UDPAddr) (draw : Z)
    : DNode * list neffect * list conn_step :=
  match conn with
  | None => let '(r, ph) := go_to_sleep r draw in (set_task d t (Reconnecting id mark r ph), [], [])
  | Some conn =>
      match claim (d_node d) live id conn with
      | Some n =>
          (set_task (with_node d n) t (Reconnecting id mark r (Serving conn)), [], dialled_steps id conn resolved)
      | None => (end_task d t (Some mark), [NClose conn], [])
      end
  end.

(** That of [bootstrapPeer], which then tells the peer who we are. *)
Definition bootstrap_dialled (d : DNode) (t : nat) (addr : list byte) (r : Retry)
    (conn : option ConnRef) (draw : Z) : DNode * list neffect * list conn_step :=
  match conn with
  | None => let '(r, ph) := go_to_sleep r draw in (set_task d t (Bootstrapping addr r ph), [], [])
  | Some conn => (set_task d t (Bootstrapping addr r (Serving conn)), [], hello_steps conn)
  end.

Definition dialled (d : DNode) (live : ConnRef → bool) (t : nat) (conn : option ConnRef)
    (resolved : option UDPAddr) (draw : Z) : option (DNode * list neffect * list conn_step) :=
  match tasks d !! t with
  | Some (Connecting id addr) => Some (connect_dialled d t id addr conn resolved)
  | Some (Reconnecting id mark r (Dialling _)) =>
      Some (reconnect_dialled d live t id mark r conn resolved draw)
  | Some (Bootstrapping addr r (Dialling _)) => Some (bootstrap_dialled d t addr r conn draw)
  | _ => None
  end.

(** The sleep of a task is over. *)
Definition woke (d : DNode) (t : nat) (fired : bool) : option DNode :=
  match tasks d !! t with
  | Some (Reconnecting id mark r (Sleeping delay)) =>
      slept ← sleepWithContext delay fired (d_done d);
      Some (if slept : bool
            then set_task d t (Reconnecting id mark (mkRetry (double_backoff reconnectMax (r_backoff r)) (r_attempt r)) Checking)
            else end_task d t (Some mark))
  | Some (Bootstrapping addr r (Sleeping delay)) =>
      slept ← sleepWithContext delay fired (d_done d);
      Some (if slept : bool
            then set_task d t (Bootstrapping addr (mkRetry (double_backoff bootstrapMax (r_backoff r)) (r_attempt r)) Checking)
            else end_task d t None)
  | _ => None
  end.

(** The read of [handleControlMessages] in a reconnecting task has failed: the task takes the steps of a loss and goes
    on. Whether the read ever fails is for the connection to say: one that was closed at this end wakes no reader
    ([Conn.teardown_wakes]). *)
Definition served (d : DNode) (t : nat) : option (DNode * list conn_step) :=
  match tasks d !! t with
  | Some (Reconnecting id mark r (Serving conn)) =>
      Some (set_task d t (Reconnecting id mark first_try Checking), lost_steps id conn)
  | _ => None
  end.

(** The first message of a bootstrap peer, or the failure to read one. *)
Definition first_message (d : DNode) (live : ConnRef → bool) (t : nat) (data : option Slice)
    (resolved : option UDPAddr) (draw : Z) : option (DNode * list neffect * list conn_step) :=
  match tasks d !! t with
  | Some (Bootstrapping addr r (Serving conn)) =>
      let retry := let '(r, ph) := go_to_sleep r draw in
                   Some (set_task d t (Bootstrapping addr r ph), [NClose conn], []) in
      match data with
      | None => retry
      | Some data =>
          match identify data with
          | Ok (Some id) =>
              Some (match claim (d_node d) live id conn with
                    | Some n => (end_task (with_node d n) t None, [], bootstrapped_steps id conn resolved)
                    | None => (end_task d t None, [NClose conn], [])
                    end)
          | _ => retry
          end
      end
  | _ => None
  end.

Inductive event :=
| EConnect (peerID : NodeID) (addr : list byte)
| EReconnect (peerID : NodeID)
| EBootstrap (addrs : list (list byte))
| ETurn (t : nat) (live : ConnRef → bool)
| EDialled (t : nat) (live : ConnRef → bool) (conn : option ConnRef) (resolved : option UDPAddr) (draw : Z)
| EWoke (t : nat) (fired : bool)
| EServed (t : nat)
| EFirst (t : nat) (live : ConnRef → bool) (data : option Slice) (resolved : option UDPAddr) (draw : Z)
| EOther (n : Node)
| ECancel.

(** The task that takes the event as its step. *)
Definition event_task (e : event) : option nat :=
  match e with
  | ETurn t _ | EDialled t _ _ _ _ | EWoke t _ | EServed t | EFirst t _ _ _ _ => Some t
  | _ => None
  end.

(** [EOther]: another operation of the node has changed it, or a step that follows a registration. An event that is
    not possible changes nothing. *)
Definition dstep (d : DNode) (e : event) : DNode :=
  match e with
  | EConnect id addr => connect_start d id addr
  | EReconnect id => reconnect_start d id
  | EBootstrap addrs => bootstrap d addrs
  | ETurn t live => default d (turn d live t)
  | EDialled t live conn a draw => default d (fst ∘ fst <$> dialled d live t conn a draw)
  | EWoke t fired => default d (woke d t fired)
  | EServed t => default d (fst <$> served d t)
  | EFirst t live data a draw => default d (fst ∘ fst <$> first_message d live t data a draw)
  | EOther n => with_node d n
  | ECancel => mkDNode (d_node d) (reconnecting d) (tasks d) (next_task d) true
  end.

Definition drun (d : DNode) (es : list event) : DNode := foldl dstep d es.

Definition dialer_start (n : Node) : DNode := mkDNode n ∅ ∅ 0 false.

(** ** Invariants *)

Definition mark_of (k : task) : option (list byte) :=
  match k with
  | Connecting _ addr => Some addr
  | Reconnecting _ mark _ _ => Some mark
  | Bootstrapping _ _ _ => None
  end.

(** The marks are those the tasks hold, and no two tasks hold the same. *)
Record marks_ok (d : DNode) : Prop := {
  mk_next : ∀ t, is_Some (tasks d !! t) → (t < next_task d)%nat;
  mk_held : ∀ a, a ∈ reconnecting d ↔ ∃ t k, tasks d !! t = Some k ∧ mark_of k = Some a;
  mk_one : ∀ t t' k k' a, tasks d !! t = Some k → tasks d !! t' = Some k' →
    mark_of k = Some a → mark_of k' = Some a → t = t' }.

(** The backoff after [n] failures. *)
Definition backoff_after (maxBackoff : Z) (n : nat) : Z := Z.min (2 ^ Z.of_nat n * Second) maxBackoff.

(** While it sleeps, the delay is between half the backoff and all of it, and one failure
    more has been counted. *)
Definition retry_ok (maxBackoff : Z) (r : Retry) (ph : phase) : Prop :=
  match ph with
  | Sleeping delay =>
      ∃ n, r_attempt r = S n ∧ r_backoff r = backoff_after maxBackoff n ∧
        r_backoff r `div` 2 <= delay <= r_backoff r
  | _ => r_backoff r = backoff_after maxBackoff (r_attempt r)
  end.

Definition task_ok (k : task) : Prop :=
  match k with
  | Connecting _ _ => True
  | Reconnecting _ _ r ph => retry_ok reconnectMax r ph
  | Bootstrapping _ r ph => retry_ok bootstrapMax r ph
  end.

Definition tasks_ok (d : DNode) : Prop := map_Forall (λ _, task_ok) (tasks d).

(** ** Lemmas *)

Lemma jitter_bounds base draw : 2 <= base → base `div` 2 <= jitterDuration base draw <= base.
Proof.
  intros Hb. unfold jitterDuration. rewrite (proj2 (Z.leb_gt base 0)) by lia.
  pose proof (Z.div_mod base 2 ltac:(lia)). pose proof (Z.mod_pos_bound base 2 ltac:(lia)).
  rewrite (proj2 (Z.leb_gt _ 0)) by lia.
  pose proof (Z.mod_pos_bound draw (base `div` 2 + 1) ltac:(lia)). lia.
Qed.

Lemma backoff_after_pos maxBackoff n : Second <= maxBackoff → Second <= backoff_after maxBackoff n.
Proof.
  intros Hm. unfold backoff_after. pose proof (Z.pow_pos_nonneg 2 (Z.of_nat n) ltac:(lia) ltac:(lia)).
  unfold Second in *. lia.
Qed.

Lemma double_backoff_after maxBackoff n :
  Second <= maxBackoff → double_backoff maxBackoff (backoff_after maxBackoff n) = backoff_after maxBackoff (S n).
Proof.
  intros Hm. unfold double_backoff, backoff_after. rewrite Nat2Z.inj_succ, Z.pow_succ_r by lia.
  pose proof (Z.pow_pos_nonneg 2 (Z.of_nat n) ltac:(lia) ltac:(lia)). unfold Second in *.
  destruct (Z.ltb_spec maxBackoff (Z.min (2 ^ Z.of_nat n * 1000000000) maxBackoff * 2)); lia.
Qed.

Lemma backoff_after_min m n : backoff_after (m * Second) n = Z.min (2 ^ Z.of_nat n) m * Second.
Proof. unfold backoff_after, Second. lia. Qed.

Lemma backoff_after_half m n :
  backoff_after (m * Second) n `div` 2 = Z.min (2 ^ Z.of_nat n) m * 500000000.
Proof.
  rewrite backoff_after_min. unfold Second.
  replace (Z.min (2 ^ Z.of_nat n) m * 1000000000) with (Z.min (2 ^ Z.of_nat n) m * 500000000 * 2) by lia.
  by apply Z.div_mul.
Qed.

Lemma sleep_ok maxBackoff r draw :
  Second <= maxBackoff → r_backoff r = backoff_after maxBackoff (r_attempt r) →
  retry_ok maxBackoff (fst (go_to_sleep r draw)) (snd (go_to_sleep r draw)).
Proof.
  intros Hm E. exists (r_attempt r). split_and!; [done|done|..]; cbn; apply jitter_bounds;
    rewrite E; pose proof (backoff_after_pos maxBackoff (r_attempt r) Hm); unfold Second in *; lia.
Qed.

Lemma woke_ok maxBackoff r delay :
  Second <= maxBackoff → retry_ok maxBackoff r (Sleeping delay) →
  retry_ok maxBackoff (mkRetry (double_backoff maxBackoff (r_backoff r)) (r_attempt r)) Checking.
Proof.
  intros Hm (n & En & Eb & _). cbn. by rewrite Eb, double_backoff_after, En.
Qed.

Lemma max_ok : Second <= reconnectMax ∧ Second <= bootstrapMax.
Proof. unfold reconnectMax, bootstrapMax, Second. lia. Qed.

Lemma with_node_ok d n : marks_ok d ∧ tasks_ok d → marks_ok (with_node d n) ∧ tasks_ok (with_node d n).
Proof. intros [[H1 H2 H3] H4]. split; [by split|done]. Qed.

(** Replacing a task by one that holds the same mark. *)
Lemma set_task_ok d t k k' :
  marks_ok d ∧ tasks_ok d → tasks d !! t = Some k → mark_of k' = mark_of k → task_ok k' →
  marks_ok (set_task d t k') ∧ tasks_ok (set_task d t k').
Proof.
  intros [[H1 H2 H3] H4] Ht Hm Hk.
  assert (∀ u j, <[t:=k']> (tasks d) !! u = Some j → ∃ j', tasks d !! u = Some j' ∧ mark_of j = mark_of j') as Hold.
  { intros u j Hu. apply lookup_insert_Some in Hu as [[<- <-]|[_ Hu]]; eauto. }
  split; [split|by apply map_Forall_insert_2]; cbn.
  - intros u [j Hu]. destruct (Hold _ _ Hu) as (j' & Hu' & _). apply H1. eauto.
  - intros a. rewrite H2. split.
    + intros (u & j & Hu & Hj). destruct (decide (t = u)) as [<-|Hne].
      * exists t, k'. rewrite lookup_insert_eq. split; [done|]. rewrite Ht in Hu. injection Hu as ->. by rewrite Hm.
      * exists u, j. by rewrite lookup_insert_ne.
    + intros (u & j & Hu & Hj). destruct (Hold _ _ Hu) as (j' & Hu' & E). exists u, j'. by rewrite <- E.
  - intros u u' j j' a Hu Hu' Hj Hj'. destruct (Hold _ _ Hu) as (i & Hi & E), (Hold _ _ Hu') as (i' & Hi' & E').
    rewrite E in Hj. rewrite E' in Hj'. by eapply H3.
Qed.

(** A task ends with the mark it held. *)
Lemma end_task_ok d t k :
  marks_ok d ∧ tasks_ok d → tasks d !! t = Some k →
  marks_ok (end_task d t (mark_of k)) ∧ tasks_ok (end_task d t (mark_of k)).
Proof.
  intros [[H1 H2 H3] H4] Ht. split; [split|by apply map_Forall_delete]; cbn.
  - intros u [j Hu]. apply lookup_delete_Some in Hu as [_ Hu]. apply H1. eauto.
  - intros a. transitivity (a ∈ reconnecting d ∧ mark_of k ≠ Some a).
    { destruct (mark_of k) as [b|]; unfold unmarkDialing;
        [|split; [by intros|by intros [? _]]].
      rewrite elem_of_difference, elem_of_singleton. split; intros [? Hne]; (split; [done|]); congruence. }
    rewrite H2. split.
    + intros [(u & j & Hu & Hj) Hne]. exists u, j. split; [|done]. apply lookup_delete_Some.
      split; [|done]. intros ->. congruence.
    + intros (u & j & Hu & Hj). apply lookup_delete_Some in Hu as [Hne Hu]. split; [eauto|].
      intros Hk. apply Hne. by eapply H3.
  - intros u u' j j' a Hu Hu'. apply lookup_delete_Some in Hu as [_ Hu], Hu' as [_ Hu']. by eapply H3.
Qed.

(** A task starts: with a mark nobody holds, or with none. *)
Lemma start_task_ok d m k :
  marks_ok d ∧ tasks_ok d → task_ok k →
  match mark_of k with
  | Some a => (a ∉ reconnecting d) ∧ m = ({[a]} ∪ reconnecting d)
  | None => (m = reconnecting d)
  end →
  marks_ok (start_task d m k) ∧ tasks_ok (start_task d m k).
Proof.
  intros [[H1 H2 H3] H4] Hk Hm.
  assert (tasks d !! next_task d = None) as Hfr.
  { apply eq_None_not_Some. intros H. apply H1 in H. lia. }
  assert (∀ a t j, mark_of k = Some a → tasks d !! t = Some j → mark_of j ≠ Some a) as Hnew.
  { intros a t j Ha Ht Hj. rewrite Ha in Hm. destruct Hm as [Hm _]. apply Hm, H2. eauto. }
  split; [split|by apply map_Forall_insert_2]; cbn.
  - intros u [j Hu]. apply lookup_insert_Some in Hu as [[<- _]|[_ Hu]]; [lia|].
    assert (u < next_task d)%nat; [|lia]. apply H1. eauto.
  - intros a. transitivity (mark_of k = Some a ∨ a ∈ reconnecting d).
    { destruct (mark_of k) as [b|]; [destruct Hm as [_ ->]|subst m].
      - rewrite elem_of_union, elem_of_singleton. split; (intros [E|E]; [left; congruence|by right]).
      - split; [by right|by intros [|]]. }
    rewrite H2. split.
    + intros [Ha|(u & j & Hu & Hj)].
      * exists (next_task d), k. by rewrite lookup_insert_eq.
      * exists u, j. split; [|done]. rewrite lookup_insert_ne; [done|]. intros <-. congruence.
    + intros (u & j & Hu & Hj). apply lookup_insert_Some in Hu as [[_ <-]|[_ Hu]]; eauto.
  - intros u u' j j' a Hu Hu' Hj Hj'.
    apply lookup_insert_Some in Hu as [[<- <-]|[_ Hu]], Hu' as [[<- <-]|[_ Hu']]; [done| | |by eapply H3].
    + by destruct (Hnew a u' j').
    + by destruct (Hnew a u j).
Qed.

Lemma mark_start_ok d a k :
  marks_ok d ∧ tasks_ok d → task_ok k → mark_of k = Some a →
  let '(m, ok) := tryMarkDialing (reconnecting d) a in
  ok = true → marks_ok (start_task d m k) ∧ tasks_ok (start_task d m k).
Proof.
  intros Hok Hk Hm. unfold tryMarkDialing. case_decide as Ha; [done|]. intros _.
  apply start_task_ok; [done|done|]. by rewrite Hm.
Qed.

Lemma reconnect_start_ok d id : marks_ok d ∧ tasks_ok d → marks_ok (reconnect_start d id) ∧ tasks_ok (reconnect_start d id).
Proof.
  intros Hok. unfold reconnect_start. destruct (known_addr d id) as [a|]; [|done].
  pose proof (mark_start_ok d a (Reconnecting id a first_try Checking) Hok) as H.
  destruct (tryMarkDialing (reconnecting d) a) as [m []]; [|done]. by apply H.
Qed.

Lemma bootstrap_ok d peers : marks_ok d ∧ tasks_ok d → marks_ok (bootstrap d peers) ∧ tasks_ok (bootstrap d peers).
Proof.
  unfold bootstrap. revert d. induction peers as [|a peers IH]; intros d Hok; [done|]. cbn. apply IH.
  by apply start_task_ok.
Qed.

Lemma turn_ok d live t d' : marks_ok d ∧ tasks_ok d → turn d live t = Some d' → marks_ok d' ∧ tasks_ok d'.
Proof.
  intros Hok. unfold turn, reconnect_turn, bootstrap_turn. destruct (tasks d !! t) as [k|] eqn:Ht; [|done].
  pose proof (proj2 Hok _ _ Ht) as Hk.
  destruct k as [|id mark r []|addr r []]; try done.
  - pose proof (end_task_ok d t _ Hok Ht) as He. cbn [mark_of] in He.
    assert (∀ a, marks_ok (set_task d t (Reconnecting id mark r (Dialling a))) ∧
      tasks_ok (set_task d t (Reconnecting id mark r (Dialling a)))) as Hs by (intros a; by eapply set_task_ok).
    destruct (d_done d); [by intros [= <-]|]. destruct (known_addr d id) as [a|]; [|by intros [= <-]].
    destruct (getPeerConn _ id) as [conn|]; [destruct (live conn)|]; by intros [= <-].
  - pose proof (end_task_ok d t _ Hok Ht) as He. cbn [mark_of] in He.
    destruct (d_done d); intros [= <-]; [done|by eapply set_task_ok].
Qed.

Lemma dialled_ok d live t conn a draw r :
  marks_ok d ∧ tasks_ok d → dialled d live t conn a draw = Some r → marks_ok (fst (fst r)) ∧ tasks_ok (fst (fst r)).
Proof.
  intros Hok. unfold dialled, connect_dialled, reconnect_dialled, bootstrap_dialled.
  destruct (tasks d !! t) as [k|] eqn:Ht; [|done].
  pose proof (proj2 Hok _ _ Ht) as Hk. pose proof (end_task_ok d t _ Hok Ht) as He.
  destruct k as [id addr|id mark r' []|addr r' []], conn as [conn|]; cbn [mark_of] in He; try done.
  - destruct (claim _ _ _ _) as [n|]; intros [= <-]; [by apply with_node_ok|done].
  - by intros [= <-].
  - destruct (claim _ _ _ _) as [n|]; intros [= <-]; [|done].
    eapply set_task_ok; [by apply with_node_ok|exact Ht|done|exact Hk].
  - intros [= <-]. eapply set_task_ok; [done|exact Ht|done|]. apply (sleep_ok _ r' draw); [apply max_ok|exact Hk].
  - intros [= <-]. by eapply set_task_ok.
  - intros [= <-]. eapply set_task_ok; [done|exact Ht|done|]. apply (sleep_ok _ r' draw); [apply max_ok|exact Hk].
Qed.

Lemma woke_task_ok d t fired d' : marks_ok d ∧ tasks_ok d → woke d t fired = Some d' → marks_ok d' ∧ tasks_ok d'.
Proof.
  intros Hok. unfold woke. destruct (tasks d !! t) as [k|] eqn:Ht; [|done].
  pose proof (proj2 Hok _ _ Ht) as Hk. pose proof (end_task_ok d t _ Hok Ht) as He.
  destruct k as [|id mark r []|addr r []]; cbn [mark_of] in He; try done;
    intros ([] & _ & [= <-])%bind_Some; try done;
    (eapply set_task_ok; [done|exact Ht|done|]); (eapply woke_ok; [apply max_ok|exact Hk]).
Qed.

Lemma first_message_ok d live t data a draw r :
  marks_ok d ∧ tasks_ok d → first_message d live t data a draw = Some r → marks_ok (fst (fst r)) ∧ tasks_ok (fst (fst r)).
Proof.
  intros Hok. unfold first_message. destruct (tasks d !! t) as [k|] eqn:Ht; [|done].
  pose proof (proj2 Hok _ _ Ht) as Hk. destruct k as [|id mark r' []|addr r' []]; try done.
  assert (marks_ok (set_task d t (Bootstrapping addr (fst (go_to_sleep r' draw)) (snd (go_to_sleep r' draw)))) ∧
    tasks_ok (set_task d t (Bootstrapping addr (fst (go_to_sleep r' draw)) (snd (go_to_sleep r' draw))))) as Hs.
  { eapply set_task_ok; [done|exact Ht|done|]. apply (sleep_ok _ r' draw); [apply max_ok|exact Hk]. }
  destruct data as [data|]; [|by intros [= <-]].
  destruct (identify data) as [[id|]|e|]; [|by intros [= <-]..].
  destruct (claim _ _ _ _) as [n|]; intros [= <-].
  - apply (end_task_ok (with_node d n) t (Bootstrapping addr r' (Serving conn))); [by apply with_node_ok|done].
  - by apply (end_task_ok d t (Bootstrapping addr r' (Serving conn))).
Qed.

Lemma served_ok d t r : marks_ok d ∧ tasks_ok d → served d t = Some r → marks_ok (fst r) ∧ tasks_ok (fst r).
Proof.
  intros Hok. unfold served. destruct (tasks d !! t) as [[|id mark r' []|]|] eqn:Ht; try done. intros [= <-].
  eapply set_task_ok; [done|exact Ht|done|]. cbn. unfold backoff_after, minBackoff, reconnectMax, Second. simpl. lia.
Qed.

Lemma dstep_ok d e : marks_ok d ∧ tasks_ok d → marks_ok (dstep d e) ∧ tasks_ok (dstep d e).
Proof.
  intros Hok.
  destruct e as [id addr|id|addrs|t live|t live conn a draw|t fired|t|t live data a draw|n|]; cbn [dstep].
  - unfold connect_start. destruct (getPeerConn _ id); [done|].
    pose proof (mark_start_ok d addr (Connecting id addr) Hok I) as H.
    destruct (tryMarkDialing (reconnecting d) addr) as [m []]; [|done]. by apply H.
  - by apply reconnect_start_ok.
  - by apply bootstrap_ok.
  - destruct (turn d live t) as [d'|] eqn:E; [|done]. by eapply turn_ok.
  - destruct (dialled d live t conn a draw) as [r|] eqn:E; [|done]. by eapply dialled_ok.
  - destruct (woke d t fired) as [d'|] eqn:E; [|done]. by eapply woke_task_ok.
  - destruct (served d t) as [r|] eqn:E; [|done]. by eapply served_ok.
  - destruct (first_message d live t data a draw) as [r|] eqn:E; [|done]. by eapply first_message_ok.
  - by apply with_node_ok.
  - destruct Hok as [[H1 H2 H3] H4]. split; [by split|done].
Qed.

Lemma drun_ok d es : marks_ok d ∧ tasks_ok d → marks_ok (drun d es) ∧ tasks_ok (drun d es).
Proof.
  unfold drun. revert d. induction es as [|e es IH]; intros d Hok; [done|]. cbn. apply IH. by apply dstep_ok.
Qed.

Lemma dialer_start_ok n : marks_ok (dialer_start n) ∧ tasks_ok (dialer_start n).
Proof.
  split; [|by apply map_Forall_empty]. split; cbn.
  - intros t [k Hk]. by rewrite lookup_empty in Hk.
  - intros a. rewrite elem_of_empty. split; [done|]. intros (t & k & Hk & _). by rewrite lookup_empty in Hk.
  - intros t t' k k' a Hk. by rewrite lookup_empty in Hk.
Qed.

(** ** Shutdown

    [own_step]: an event that is a step of one of the tasks, when that step is possible. *)
Definition own_step (d : DNode) (e : event) : option DNode :=
  match e with
  | ETurn t live => turn d live t
  | EDialled t live conn a draw => fst ∘ fst <$> dialled d live t conn a draw
  | EWoke t fired => woke d t fired
  | EServed t => fst <$> served d t
  | EFirst t live data a draw => fst ∘ fst <$> first_message d live t data a draw
  | _ => None
  end.

Fixpoint own_run (d : DNode) (es : list event) : option DNode :=
  match es with
  | [] => Some d
  | e :: es => d' ← own_step d e; own_run d' es
  end.

(** How many steps a task has left at most, once the node is stopping. *)
Definition phase_weight (ph : phase) : nat :=
  match ph with Checking => 1 | Sleeping _ => 2 | Serving _ => 3 | Dialling _ => 4 end.

Definition task_weight (k : task) : nat :=
  match k with
  | Connecting _ _ => 1
  | Reconnecting _ _ _ ph | Bootstrapping _ _ ph => phase_weight ph
  end.

Definition weight (d : DNode) : nat := map_fold (λ _ k w, (task_weight k + w)%nat) 0%nat (tasks d).

Definition rest_weight (d : DNode) (t : nat) : nat :=
  map_fold (λ _ k w, (task_weight k + w)%nat) 0%nat (delete t (tasks d)).

Lemma weight_split d t k : tasks d !! t = Some k → weight d = (task_weight k + rest_weight d t)%nat.
Proof.
  intros Ht. unfold weight, rest_weight.
  apply (map_fold_delete_L (λ (_ : nat) k w, (task_weight k + w)%nat)); [|done]. intros. lia.
Qed.

Lemma weight_set d t k : weight (set_task d t k) = (task_weight k + rest_weight d t)%nat.
Proof.
  rewrite (weight_split _ t k) by apply lookup_insert_eq. unfold rest_weight. cbn.
  by rewrite delete_insert_eq.
Qed.

Lemma weight_end d t mark : weight (end_task d t mark) = rest_weight d t.
Proof. done. Qed.

Lemma rest_with_node d n t : rest_weight (with_node d n) t = rest_weight d t.
Proof. done. Qed.

Lemma task_weight_pos k : (0 < task_weight k)%nat.
Proof. destruct k as [|? ? ? []|? ? []]; cbn; lia. Qed.

Ltac weigh Ht :=
  rewrite (weight_split _ _ _ Ht), ?weight_set, ?weight_end, ?rest_with_node; cbn -[rest_weight]; lia.

Lemma turn_lighter d live t d' :
  d_done d = true → turn d live t = Some d' → (weight d' < weight d)%nat ∧ d_done d' = true.
Proof.
  intros Hd. unfold turn, reconnect_turn, bootstrap_turn. destruct (tasks d !! t) as [k|] eqn:Ht; [|done].
  rewrite Hd. destruct k as [|id mark r []|addr r []]; try done; intros [= <-]; (split; [weigh Ht|done]).
Qed.

Lemma dialled_lighter d live t conn a draw r :
  d_done d = true → dialled d live t conn a draw = Some r →
  (weight (fst (fst r)) < weight d)%nat ∧ d_done (fst (fst r)) = true.
Proof.
  intros Hd. unfold dialled, connect_dialled, reconnect_dialled, bootstrap_dialled.
  destruct (tasks d !! t) as [k|] eqn:Ht; [|done].
  destruct k as [id addr|id mark r' []|addr r' []], conn as [conn|]; cbn [go_to_sleep]; try done.
  - destruct (claim _ _ _ _) as [n|]; intros [= <-]; cbn [fst]; (split; [|done]).
    + change (weight (with_node (end_task d t (Some addr)) n)) with (rest_weight d t). weigh Ht.
    + weigh Ht.
  - intros [= <-]. cbn [fst]. split; [weigh Ht|done].
  - destruct (claim _ _ _ _) as [n|]; intros [= <-]; cbn [fst]; (split; [weigh Ht|done]).
  - intros [= <-]. cbn [fst]. split; [weigh Ht|done].
  - intros [= <-]. cbn [fst]. split; [weigh Ht|done].
  - intros [= <-]. cbn [fst]. split; [weigh Ht|done].
Qed.

Lemma woke_lighter d t fired d' :
  woke d t fired = Some d' → (weight d' < weight d)%nat ∧ d_done d' = d_done d.
Proof.
  unfold woke. destruct (tasks d !! t) as [k|] eqn:Ht; [|done].
  destruct k as [|id mark r []|addr r []]; try done;
    intros ([] & _ & [= <-])%bind_Some; (split; [weigh Ht|done]).
Qed.

Lemma served_lighter d t r :
  served d t = Some r → (weight (fst r) < weight d)%nat ∧ d_done (fst r) = d_done d.
Proof.
  unfold served. destruct (tasks d !! t) as [k|] eqn:Ht; [|done].
  destruct k as [|id mark r' []|]; try done. intros [= <-]. split; [cbn [fst]; weigh Ht|done].
Qed.

Lemma first_message_lighter d live t data a draw r :
  first_message d live t data a draw = Some r →
  (weight (fst (fst r)) < weight d)%nat ∧ d_done (fst (fst r)) = d_done d.
Proof.
  unfold first_message. destruct (tasks d !! t) as [k|] eqn:Ht; [|done].
  destruct k as [|id mark r' []|addr r' []]; try done. cbn [go_to_sleep].
  destruct data as [data|]; [|intros [= <-]; split; [cbn [fst]; weigh Ht|done]].
  destruct (identify data) as [[id|]|e|]; [|intros [= <-]; split; [cbn [fst]; weigh Ht|done]..].
  destruct (claim _ _ _ _) as [n|]; intros [= <-]; cbn [fst]; (split; [weigh Ht|done]).
Qed.

Lemma own_step_lighter d e d' :
  d_done d = true → own_step d e = Some d' → (weight d' < weight d)%nat ∧ d_done d' = true.
Proof.
  intros Hd. destruct e as [| | |t live|t live conn a draw|t fired|t|t live data a draw| |];
    cbn [own_step]; try done.
  - by apply turn_lighter.
  - intros (x & Hx & ->)%fmap_Some. by eapply dialled_lighter.
  - rewrite <- Hd. apply woke_lighter.
  - rewrite <- Hd. intros (x & Hx & ->)%fmap_Some. by eapply served_lighter.
  - rewrite <- Hd. intros (x & Hx & ->)%fmap_Some. by eapply first_message_lighter.
Qed.

Lemma own_run_lighter es d d' :
  d_done d = true → own_run d es = Some d' → (length es + weight d' ≤ weight d)%nat.
Proof.
  revert d. induction es as [|e es IH]; intros d Hd; cbn [own_run]; [by intros [= ->]|].
  intros (x & Hx & Hr)%bind_Some. destruct (own_step_lighter _ _ _ Hd Hx) as [Hw Hx'].
  specialize (IH _ Hx' Hr). cbn [length]. lia.
Qed.

Lemma weight_bound d : (weight d ≤ 4 * size (tasks d))%nat.
Proof.
  unfold weight. induction (tasks d) as [|t k m Hm IH] using map_ind; [done|].
  rewrite (map_fold_insert_L (λ (_ : nat) k w, (task_weight k + w)%nat)) by (done || intros; lia).
  rewrite map_size_insert_None by done.
  assert (task_weight k ≤ 4)%nat; [|lia]. destruct k as [|? ? ? []|? ? []]; cbn; lia.
Qed.

(** A task in a call into the network: a dial, or a read from a connection. *)
Definition in_network (k : task) : bool :=
  match k with
  | Connecting _ _ => true
  | Reconnecting _ _ _ ph | Bootstrapping _ _ ph => match ph with Dialling _ | Serving _ => true | _ => false end
  end.

(** Such a call returns. *)
Definition from_network (e : event) : bool :=
  match e with EDialled _ _ _ _ _ | EServed _ | EFirst _ _ _ _ _ => true | _ => false end.

(** A task that is not in such a call can go on by itself, and one that is in one as soon as the call has returned. *)
Lemma own_step_possible d t k :
  d_done d = true → tasks d !! t = Some k → ∃ e, is_Some (own_step d e) ∧ from_network e = in_network k.
Proof.
  intros Hd Ht. destruct k as [id addr|id mark r [|a|delay|c]|addr r [|a|delay|c]].
  - exists (EDialled t (λ _, true) None None 0). cbn. unfold dialled. rewrite Ht. by split; [eexists|].
  - exists (ETurn t (λ _, true)). cbn. unfold turn. rewrite Ht. by split; [eexists|].
  - exists (EDialled t (λ _, true) None None 0). cbn. unfold dialled. rewrite Ht. by split; [eexists|].
  - exists (EWoke t false). cbn. unfold woke. rewrite Ht, Hd. unfold sleepWithContext.
    destruct (delay <=? 0); by split; [eexists|].
  - exists (EServed t). cbn. unfold served. rewrite Ht. by split; [eexists|].
  - exists (ETurn t (λ _, true)). cbn. unfold turn. rewrite Ht. by split; [eexists|].
  - exists (EDialled t (λ _, true) None None 0). cbn. unfold dialled. rewrite Ht. by split; [eexists|].
  - exists (EWoke t false). cbn. unfold woke. rewrite Ht, Hd. unfold sleepWithContext.
    destruct (delay <=? 0); by split; [eexists|].
  - exists (EFirst t (λ _, true) None None 0). cbn. unfold first_message. rewrite Ht. by split; [eexists|].
Qed.

Lemma own_run_done es d d' : d_done d = true → own_run d es = Some d' → d_done d' = true.
Proof.
  revert d. induction es as [|e es IH]; intros d Hd; cbn [own_run]; [by intros [= <-]|].
  intros (x & Hx & Hr)%bind_Some. destruct (own_step_lighter _ _ _ Hd Hx) as [_ Hx']. by apply (IH x).
Qed.

(** When the calls into the network return, all the tasks end. *)
Lemma own_run_ends d : d_done d = true → ∃ es d', own_run d es = Some d' ∧ tasks d' = ∅.
Proof.
  remember (weight d) as w eqn:Ew. revert d Ew. induction w as [w IH] using lt_wf_ind. intros d Ew Hd.
  destruct (map_choose_or_empty (tasks d)) as [(t & k & Ht)|E]; [|by exists [], d].
  destruct (own_step_possible d t k Hd Ht) as (e & [d1 H1] & _). destruct (own_step_lighter _ _ _ Hd H1) as [Hw Hd1].
  destruct (IH (weight d1)) with (d := d1) as (es & d2 & Hr & E2); [lia|done|done|].
  exists (e :: es), d2. split; [|done]. cbn [own_run]. by rewrite H1.
Qed.
End dialer.

(** ** Properties *)

(** C24: the marks are kept exactly. Whatever the interleaving of the dialling goroutines, an
    address is marked as being dialled exactly when a goroutine holds the mark, no two hold the
    same one, and when the last goroutine has ended no mark is left. *)
Theorem dial_marks n es :
  let d := drun (dialer_start n) es in
  (∀ a, a ∈ reconnecting d ↔ ∃ t k, tasks d !! t = Some k ∧ mark_of k = Some a) ∧
  (∀ a t t', (∃ k, tasks d !! t = Some k ∧ mark_of k = Some a) →
     (∃ k, tasks d !! t' = Some k ∧ mark_of k = Some a) → t = t') ∧
  (tasks d = ∅ → reconnecting d = ∅).
Proof.
  intros d. destruct (proj1 (drun_ok _ es (dialer_start_ok n))) as [_ H2 H3]. split_and!; [exact H2|..].
  - intros a t t' (k & Hk & Ha) (k' & Hk' & Ha'). by eapply H3.
  - intros E. apply set_eq. intros a. split; [|set_solver]. intros (t & k & Hk & _)%H2.
    fold d in Hk. by rewrite E, lookup_empty in Hk.
Qed.

(** C31: how long a failed dial waits. In any interleaving, a goroutine that sleeps after its
    (n+1)-th failure in a row sleeps between half and all of 2^n seconds, cut off at 60 seconds for a
    known peer and at 30 for a bootstrap peer, whatever the random numbers are. *)
Theorem backoff_schedule n es t :
  match tasks (drun (dialer_start n) es) !! t with
  | Some (Reconnecting _ _ r (Sleeping delay)) =>
      ∃ k, r_attempt r = S k ∧ Z.min (2 ^ Z.of_nat k) 60 * Second ≤ 2 * delay ∧
        delay ≤ Z.min (2 ^ Z.of_nat k) 60 * Second
  | Some (Bootstrapping _ r (Sleeping delay)) =>
      ∃ k, r_attempt r = S k ∧ Z.min (2 ^ Z.of_nat k) 30 * Second ≤ 2 * delay ∧
        delay ≤ Z.min (2 ^ Z.of_nat k) 30 * Second
  | _ => True
  end.
Proof.
  destruct (tasks _ !! t) as [k|] eqn:Ht; [|done].
  pose proof (proj2 (drun_ok _ es (dialer_start_ok n)) _ _ Ht) as Hk.
  destruct k as [|id mark r []|addr r []]; try done; destruct Hk as (k & Ek & Eb & H);
    exists k; (split; [done|]); unfold reconnectMax, bootstrapMax in Eb;
    rewrite Eb, backoff_after_half, backoff_after_min in H; unfold Second in *; lia.
Qed.

(** C25: what the dialling goroutines do when the node stops. Once it is stopping they take at most four more steps
    each (the calls that follow a registration or a loss aside), whatever the dials, the reads and the timers give. When
    no more step is possible but the return of a call into the network, each goroutine that is left is in such a call: it
    dials, or reads from its connection. If these calls return, all the goroutines end; that they do is not promised: a
    dial has no timeout, and a reader whose connection was closed at this end is not woken. *)
Theorem dialers_stop d es d' :
  d_done d = true → own_run d es = Some d' →
  (length es ≤ 4 * size (tasks d))%nat ∧
  ((∀ e, from_network e = false → own_step d' e = None) → map_Forall (λ _ k, in_network k = true) (tasks d')) ∧
  ∃ es' d'', own_run d' es' = Some d'' ∧ tasks d'' = ∅.
Proof.
  intros Hd Hr. pose proof (own_run_done _ _ _ Hd Hr) as Hd'. split_and!.
  - pose proof (own_run_lighter _ _ _ Hd Hr). pose proof (weight_bound d). lia.
  - intros Hn t k Hk. destruct (own_step_possible d' t k Hd' Hk) as (e & [x He] & Hf).
    destruct (in_network k); [done|]. by rewrite (Hn e Hf) in He.
  - by apply own_run_ends.
Qed.

(** Two bootstrap peers, one of them asleep, when the node is stopped. *)
Definition stopping : DNode :=
  drun (dialer_start example_node)
    [EBootstrap [[x61]; [x62]]; ETurn 0 (λ _, true); EDialled 0 (λ _, true) None None 7; ECancel].

Lemma dialers_stop_witness :
  let es := [EWoke 0 false; ETurn 1 (λ _, true)] in
  let d' := mkDNode (d_node stopping) ∅ ∅ 2 true in
  (length es ≤ 4 * size (tasks stopping))%nat ∧
  ((∀ e, from_network e = false → own_step d' e = None) →
   map_Forall (λ _ k, in_network k = true) (tasks d')) ∧
  ∃ es' d'', own_run d' es' = Some d'' ∧ tasks d'' = ∅.
Proof.
  intros es d'. apply (dialers_stop stopping es d'); [reflexivity|].
  vm_compute. reflexivity.
Defined.

(** The mark is not always that of the address dialled: [reconnectPeer] takes the address anew
    before each dial and keeps its first mark. Here gossip has moved the peer to address [b],
    and two goroutines dial [b] at the same time, one of them with the mark of [a]. *)
Definition moved_node : Node :=
  set_gossip example_node (set_peers (gossipEng example_node)
    (fst (AddOrUpdate (e_peers (gossipEng example_node))
       (mkPeer RouteTable.node_b (replicate 32 x09) [x62] PeerAlive 4 0 []) 6))).

Lemma stale_mark :
  let d := drun (dialer_start example_node)
    [EReconnect RouteTable.node_b; EOther moved_node; ETurn 0 (λ _, true); EConnect RouteTable.node_c [x62]] in
  tasks d !! 0%nat = Some (Reconnecting RouteTable.node_b [x61] first_try (Dialling [x62])) ∧
  tasks d !! 1%nat = Some (Connecting RouteTable.node_c [x62]).
Proof. vm_compute. done. Qed.
