(* ===== verification/Tls.v ===== *)
(** * TLS configuration and UDP sockets ([transport/tls.go], [transport/udp.go])

    The certificate of a node, made anew at each start by calls of Go's library, and what that means
    for the pins of [Identity]. The library is an interface: a record of its functions, with the
    laws that its documentation states and an instance that has them. The wrapper of a UDP socket
    is shown to be transparent. *)

From S2P Require Import Prelude Bytes Crypto Identity Dialer.
From stdpp Require Import options.

(** ** The certificate *)

Inductive ext_key_usage := ExtKeyUsageClientAuth | ExtKeyUsageServerAuth.

(** The fields of [x509.Certificate] that the program sets; times are in nanoseconds. *)
Record Template := mkTemplate {
  SerialNumber : Z; NotBefore : Z; NotAfter : Z; KeyUsageDigitalSignature : bool; ExtKeyUsage : list ext_key_usage }.

(** The functions of crypto/ecdsa, crypto/x509, encoding/pem and crypto/tls that are called. [Rand] is what
    is drawn from the random source, [Encoded] the texts in DER and PEM form, which the program passes on
    without looking at them. *)
Record TLSLib := mkTLSLib {
  Rand : Type;
  Key : Type;
  PublicKey : Type;
  Certificate : Type;
  Encoded : Type;
  ecdsa_GenerateKey : Rand → option Key;
  Key_PublicKey : Key → PublicKey;
  x509_CreateCertificate : Rand → Template → Template → PublicKey → Key → option Encoded;
  pem_EncodeToMemory : string → Encoded → Encoded;
  x509_MarshalPKCS8PrivateKey : Key → option Encoded;
  tls_X509KeyPair : Encoded → Encoded → option Certificate;
  x509_MarshalPKIXPublicKey : PublicKey → list byte;
  cert_PublicKey : Certificate → PublicKey;
  cert_Template : Certificate → Template }.

(** A self-signed certificate and its key, in PEM form, are a key pair, with the fields of the
    template and the public key. *)
Class TLSLaws (L : TLSLib) := {
  keypair_loads rnd t key der kb :
    x509_CreateCertificate L rnd t t (Key_PublicKey L key) key = Some der →
    x509_MarshalPKCS8PrivateKey L key = Some kb →
    ∃ c, tls_X509KeyPair L (pem_EncodeToMemory L "CERTIFICATE" der) (pem_EncodeToMemory L "PRIVATE KEY" kb) = Some c ∧
      cert_PublicKey L c = Key_PublicKey L key ∧ cert_Template L c = t }.

Inductive tls_error := ErrGenerateKey | ErrCreateCertificate | ErrMarshalKey | ErrLoadKeypair.

#[export] Instance tls_error_eq_dec : EqDecision tls_error.
Proof. solve_decision. Defined.

Definition Hour : Z := 3600 * Second.
Definition VersionTLS13 : Z := 0x0304.

Section tls.
Context (L : TLSLib).

Record TLSConfig := mkTLSConfig {
  Certificates : list (Certificate L);
  InsecureSkipVerify : bool;
  NextProtos : list string;
  MinVersion : Z }.

Definition or_err {A} (e : tls_error) (o : option A) : res tls_error A :=
  match o with Some a => Ok a | None => Err e end.

(** [now] and [now'] are the two readings of the clock, [rnd] and [rnd'] the two draws. *)
Definition tls_template (now now' : Z) : Template :=
  mkTemplate 1 (now - Hour) (now' + 365 * 24 * Hour) true [ExtKeyUsageClientAuth; ExtKeyUsageServerAuth].

Definition GenerateTLSConfig (rnd rnd' : Rand L) (now now' : Z) : res tls_error TLSConfig :=
  key ← or_err ErrGenerateKey (ecdsa_GenerateKey L rnd);
  let template := tls_template now now' in
  certDER ← or_err ErrCreateCertificate (x509_CreateCertificate L rnd' template template (Key_PublicKey L key) key);
  let certPEM := pem_EncodeToMemory L "CERTIFICATE" certDER in
  keyBytes ← or_err ErrMarshalKey (x509_MarshalPKCS8PrivateKey L key);
  let keyPEM := pem_EncodeToMemory L "PRIVATE KEY" keyBytes in
  cert ← or_err ErrLoadKeypair (tls_X509KeyPair L certPEM keyPEM);
  Ok (mkTLSConfig [cert] true ["magictun"%string] VersionTLS13).

(** What a client sees of a server with this configuration: the fingerprints of its certificates. *)
Definition presented `{Ed25519} (cfg : TLSConfig) : list string :=
  map (λ c, certSPKIHash (x509_MarshalPKIXPublicKey L (cert_PublicKey L c))) (Certificates cfg).

(** ** Properties *)

(** A configuration is made exactly when the key can be drawn, encoded and certified; it holds one
    certificate, of that key, valid from an hour before to a year after. *)
Lemma GenerateTLSConfig_spec `{!TLSLaws L} rnd rnd' now now' :
  match GenerateTLSConfig rnd rnd' now now' with
  | Ok cfg =>
      ∃ key c, ecdsa_GenerateKey L rnd = Some key ∧ Certificates cfg = [c] ∧ cert_PublicKey L c = Key_PublicKey L key ∧
        cert_Template L c = tls_template now now' ∧ InsecureSkipVerify cfg = true ∧ MinVersion cfg = VersionTLS13 ∧
        ∀ t, now <= t <= now' + 365 * 24 * Hour → NotBefore (cert_Template L c) <= t <= NotAfter (cert_Template L c)
  | Err ErrGenerateKey => ecdsa_GenerateKey L rnd = None
  | Err ErrCreateCertificate => ∃ key, ecdsa_GenerateKey L rnd = Some key ∧
      x509_CreateCertificate L rnd' (tls_template now now') (tls_template now now') (Key_PublicKey L key) key = None
  | Err ErrMarshalKey => ∃ key, ecdsa_GenerateKey L rnd = Some key ∧ x509_MarshalPKCS8PrivateKey L key = None
  | Err ErrLoadKeypair | Panic => False
  end.
Proof.
  unfold GenerateTLSConfig. destruct (ecdsa_GenerateKey L rnd) as [key|] eqn:Ek; [|done]. cbn [or_err mbind res_bind].
  destruct (x509_CreateCertificate _ _ _ _ _ _) as [der|] eqn:Ec; [|by exists key]. cbn [or_err mbind res_bind].
  destruct (x509_MarshalPKCS8PrivateKey L key) as [kb|] eqn:Em; [|by exists key]. cbn [or_err mbind res_bind].
  destruct (keypair_loads _ _ _ _ _ Ec Em) as (c & Hc & Hp & Ht). rewrite Hc. cbn [or_err mbind res_bind].
  exists key, c. split_and!; try done. intros t. rewrite Ht. cbn [NotBefore NotAfter tls_template]. unfold Hour, Second. lia.
Qed.
End tls.

(** Certificates do not survive a restart. A client that trusts a node by the pin of its
    certificate refuses it once the node has started again with a new key, whatever it checks
    in between; the node dials without a pin store, and so trusts every certificate. *)
Lemma restart_breaks_pin `{Ed25519} (L : TLSLib) `{!TLSLaws L} rnd1 rnd1' now1 now1' cfg1 rnd2 rnd2' now2 now2' cfg2
    key1 key2 ps addr save_ok ps' checks save_ok' :
  GenerateTLSConfig L rnd1 rnd1' now1 now1' = Ok cfg1 → GenerateTLSConfig L rnd2 rnd2' now2 now2' = Ok cfg2 →
  ecdsa_GenerateKey L rnd1 = Some key1 → ecdsa_GenerateKey L rnd2 = Some key2 →
  Sum256 (x509_MarshalPKIXPublicKey L (Key_PublicKey L key1)) ≠ Sum256 (x509_MarshalPKIXPublicKey L (Key_PublicKey L key2)) →
  Dial (Some (presented L cfg1)) (Some ps) addr save_ok = (Some ps', Ok ()) →
  (∃ e, snd (Dial (Some (presented L cfg2)) (Some (check_all ps' checks)) addr save_ok') = Err (ErrPinCheck e)) ∧
  Dial (Some (presented L cfg2)) None addr save_ok' = (None, Ok ()).
Proof.
  intros H1 H2 K1 K2 Hne Hd. pose proof (GenerateTLSConfig_spec L rnd1 rnd1' now1 now1') as S1.
  pose proof (GenerateTLSConfig_spec L rnd2 rnd2' now2 now2') as S2. rewrite H1 in S1. rewrite H2 in S2.
  destruct S1 as (k1 & c1 & E1 & Ec1 & Ep1 & _), S2 as (k2 & c2 & E2 & Ec2 & Ep2 & _). unfold presented in *.
  rewrite Ec1 in Hd. rewrite Ec2. cbn [map] in *. rewrite Ep1 in Hd. rewrite Ep2.
  assert (k1 = key1) as -> by congruence. assert (k2 = key2) as -> by congruence.
  set (fp1 := certSPKIHash _) in *. set (fp2 := certSPKIHash _).
  assert (fp1 ≠ fp2) as Hfp.
  { unfold fp1, fp2, certSPKIHash. intros E%(inj hex_EncodeToString). by apply Hne, array_eq. }
  assert (∀ s, Sum256 s = Sum256 s → 16 ≤ String.length (certSPKIHash s))%nat as Hlen.
  { intros s _. unfold certSPKIHash. rewrite length_hex_encode, length_array. lia. }
  assert (pins ps' !! addr = Some fp1) as Hpin.
  { unfold Dial in Hd. pose proof (Check_pin_trusted ps addr fp1 save_ok) as Ht.
    destruct (Check_pin ps addr fp1 save_ok) as [ps1 [[]| |]]; try done. injection Hd as <-. by apply Ht. }
  split; [|done]. apply (check_all_keeps checks) in Hpin. unfold Dial, Check_pin. rewrite Hpin, decide_True by done.
  unfold prefix16, fp1, fp2. rewrite !decide_True by by apply Hlen. cbn. by eexists.
Qed.

(** A library with these laws: a certificate is its template and its key, and encoding changes nothing. *)
Definition toy_tls : TLSLib := {|
  Rand := byte; Key := byte; PublicKey := byte; Certificate := Template * byte;
  Encoded := (Template * byte) + byte;
  ecdsa_GenerateKey := Some;
  Key_PublicKey k := k;
  x509_CreateCertificate _ t _ k _ := Some (inl (t, k));
  pem_EncodeToMemory _ b := b;
  x509_MarshalPKCS8PrivateKey k := Some (inr k);
  tls_X509KeyPair c k := match c, k with
                         | inl (t, k), inr k' => if decide (k = k') then Some (t, k) else None
                         | _, _ => None end;
  x509_MarshalPKIXPublicKey k := [k];
  cert_PublicKey := snd;
  cert_Template := fst |}.

#[export] Instance toy_tls_laws : TLSLaws toy_tls.
Proof.
  split. cbn. intros _ t k der kb [= <-] [= <-]. exists (t, k). by rewrite decide_True.
Qed.

Lemma restart_breaks_pin_witness :
  let cfg1 := mkTLSConfig toy_tls [(tls_template 5 6, x01)] true ["magictun"%string] VersionTLS13 in
  let cfg2 := mkTLSConfig toy_tls [(tls_template 8 9, x02)] true ["magictun"%string] VersionTLS13 in
  let fp1 := certSPKIHash (H := toy_ed25519) [x01] in
  (∃ e, snd (Dial (Some (presented (H := toy_ed25519) toy_tls cfg2))
         (Some (check_all (mkPinStore {["h:1" := fp1]}) [("h:2", "aa", true)])) "h:1" true) = Err (ErrPinCheck e)) ∧
  Dial (Some (presented (H := toy_ed25519) toy_tls cfg2)) None "h:1" true = (None, Ok ()).
Proof.
  intros cfg1 cfg2 fp1.
  apply (restart_breaks_pin (H := toy_ed25519) toy_tls x01 x00 5 6 cfg1 x02 x00 8 9 cfg2 x01 x02 (mkPinStore ∅) "h:1" true).
  - reflexivity.
  - reflexivity.
  - reflexivity.
  - reflexivity.
  - vm_compute. discriminate.
  - vm_compute. reflexivity.
Defined.

(** ** The wrapper of a UDP socket *)

Inductive udp_error := ErrResolveUDPAddr | ErrOpenUDP.

(** The methods of [net.UDPConn] that are called, each giving the socket as it is afterwards, and the
    functions that open sockets. *)
Record SockLib := mkSockLib {
  Sock : Type;
  NetAddr : Type;
  SockErr : Type;
  net_ResolveUDPAddr : string → option NetAddr;
  net_ListenUDP : NetAddr → option Sock;
  net_DialUDP : NetAddr → option Sock;
  sock_ReadFrom : Sock → nat → Sock * res SockErr (list byte * NetAddr);
  sock_WriteTo : Sock → list byte → NetAddr → Sock * res SockErr nat;
  sock_Write : Sock → list byte → Sock * res SockErr nat;
  sock_Read : Sock → nat → Sock * res SockErr (list byte);
  sock_Close : Sock → Sock * res SockErr ();
  sock_LocalAddr : Sock → NetAddr;
  sock_RemoteAddr : Sock → option NetAddr }.

Section udp.
Context (K : SockLib).

Record UDPConn := mkUDPConn { u_conn : Sock K }.

Definition ListenUDP (addr : string) : res udp_error UDPConn :=
  match net_ResolveUDPAddr K addr with
  | None => Err ErrResolveUDPAddr
  | Some udpAddr => match net_ListenUDP K udpAddr with None => Err ErrOpenUDP | Some conn => Ok (mkUDPConn conn) end
  end.

Definition DialUDP (addr : string) : res udp_error UDPConn :=
  match net_ResolveUDPAddr K addr with
  | None => Err ErrResolveUDPAddr
  | Some udpAddr => match net_DialUDP K udpAddr with None => Err ErrOpenUDP | Some conn => Ok (mkUDPConn conn) end
  end.

Definition on_conn {A} (f : Sock K → Sock K * A) (u : UDPConn) : UDPConn * A :=
  let '(conn, a) := f (u_conn u) in (mkUDPConn conn, a).

Definition UDP_ReadFrom (u : UDPConn) (n : nat) := on_conn (λ c, sock_ReadFrom K c n) u.
Definition UDP_WriteTo (u : UDPConn) (b : list byte) (addr : NetAddr K) := on_conn (λ c, sock_WriteTo K c b addr) u.
Definition UDP_Write (u : UDPConn) (b : list byte) := on_conn (λ c, sock_Write K c b) u.
Definition UDP_Read (u : UDPConn) (n : nat) := on_conn (λ c, sock_Read K c n) u.
Definition UDP_Close (u : UDPConn) := on_conn (sock_Close K) u.
Definition UDP_LocalAddr (u : UDPConn) : NetAddr K := sock_LocalAddr K (u_conn u).
Definition UDP_RemoteAddr (u : UDPConn) : option (NetAddr K) := sock_RemoteAddr K (u_conn u).

(** A call of a method and what it gives. *)
Inductive udp_call := UReadFrom (n : nat) | UWriteTo (b : list byte) (addr : NetAddr K) | UWrite (b : list byte) | URead (n : nat)
  | UClose | ULocalAddr | URemoteAddr.

Inductive udp_answer :=
| AFrom (r : res (SockErr K) (list byte * NetAddr K)) | ALen (r : res (SockErr K) nat) | ARead (r : res (SockErr K) (list byte))
| AClosed (r : res (SockErr K) ()) | AAddr (a : option (NetAddr K)).

Definition wrapper_call (u : UDPConn) (c : udp_call) : UDPConn * udp_answer :=
  match c with
  | UReadFrom n => let '(u, r) := UDP_ReadFrom u n in (u, AFrom r)
  | UWriteTo b a => let '(u, r) := UDP_WriteTo u b a in (u, ALen r)
  | UWrite b => let '(u, r) := UDP_Write u b in (u, ALen r)
  | URead n => let '(u, r) := UDP_Read u n in (u, ARead r)
  | UClose => let '(u, r) := UDP_Close u in (u, AClosed r)
  | ULocalAddr => (u, AAddr (Some (UDP_LocalAddr u)))
  | URemoteAddr => (u, AAddr (UDP_RemoteAddr u))
  end.

Definition socket_call (s : Sock K) (c : udp_call) : Sock K * udp_answer :=
  match c with
  | UReadFrom n => let '(s, r) := sock_ReadFrom K s n in (s, AFrom r)
  | UWriteTo b a => let '(s, r) := sock_WriteTo K s b a in (s, ALen r)
  | UWrite b => let '(s, r) := sock_Write K s b in (s, ALen r)
  | URead n => let '(s, r) := sock_Read K s n in (s, ARead r)
  | UClose => let '(s, r) := sock_Close K s in (s, AClosed r)
  | ULocalAddr => (s, AAddr (Some (sock_LocalAddr K s)))
  | URemoteAddr => (s, AAddr (sock_RemoteAddr K s))
  end.

Fixpoint calls {A} (f : A → udp_call → A * udp_answer) (a : A) (cs : list udp_call) : list udp_answer :=
  match cs with [] => [] | c :: cs => let '(a, r) := f a c in r :: calls f a cs end.

(** The wrapper answers any sequence of calls as the socket does that was opened. *)
Lemma wrapper_transparent addr u cs :
  ListenUDP addr = Ok u ∨ DialUDP addr = Ok u →
  ∃ a s, net_ResolveUDPAddr K addr = Some a ∧ (net_ListenUDP K a = Some s ∨ net_DialUDP K a = Some s) ∧
    calls wrapper_call u cs = calls socket_call s cs.
Proof.
  intros H. assert (calls wrapper_call u cs = calls socket_call (u_conn u) cs) as E.
  { clear H. revert u. induction cs as [|c cs IH]; intros u; [done|]. cbn [calls].
    destruct c; cbn; unfold UDP_ReadFrom, UDP_WriteTo, UDP_Write, UDP_Read, UDP_Close, on_conn;
      try (destruct (_ : Sock K * _)); by rewrite IH. }
  unfold ListenUDP, DialUDP in H. destruct (net_ResolveUDPAddr K addr) as [a|]; [|by destruct H]. exists a.
  destruct H as [H|H]; [destruct (net_ListenUDP K a) as [s|]|destruct (net_DialUDP K a) as [s|]]; try done;
    injection H as <-; exists s; auto.
Qed.
End udp.
