(* ===== verification/Lifecycle.v ===== *)
(** * The life of a node ([Start] and [Stop] in [node/node.go])

    What [Start] opens and starts, each step of which can fail, what [Stop] closes, and the
    goroutines in between: the loops of the components, the accept loop ([Acceptor]) and the
    tasks that dial ([Dialer]). They are interleaved by events. The intervals of the tickers
    are positive ([Config.start_panics_iff] says what happens otherwise). *)

From S2P Require Import Prelude Bytes Crypto Net Identity Wire RoutePath RouteTable Propagation.
From S2P Require Import Peers Gossip Session RateLimit Node Dialer Acceptor.
From stdpp Require Import options.

(** ** State *)

Inductive sock := Unopened | Opened | Closed.

#[export] Instance sock_eq_dec : EqDecision sock.
Proof. solve_decision. Defined.

(** The goroutines that [Start] starts, next to [acceptLoop]. *)
Inductive loop :=
| UDPRead | GossipPush | GossipProbe | Advertise | SocksAccept | SessionGC | RouteGC | HealthServe
| StatsUpdate | Bootstrap.

#[export] Instance loop_eq_dec : EqDecision loop.
Proof. solve_decision. Defined.

Definition loop_nat (g : loop) : nat :=
  match g with
  | UDPRead => 0 | GossipPush => 1 | GossipProbe => 2 | Advertise => 3 | SocksAccept => 4 | SessionGC => 5
  | RouteGC => 6 | HealthServe => 7 | StatsUpdate => 8 | Bootstrap => 9
  end.

#[export] Instance loop_countable : Countable loop.
Proof.
  refine (inj_countable' loop_nat (λ n, match n with
    | 0 => UDPRead | 1 => GossipPush | 2 => GossipProbe | 3 => Advertise | 4 => SocksAccept | 5 => SessionGC
    | 6 => RouteGC | 7 => HealthServe | 8 => StatsUpdate | _ => Bootstrap
    end)%nat _).
  by intros [].
Defined.

(** Those that the node waits for when it stops. *)
Definition counted : gset loop := {[ UDPRead; SessionGC; RouteGC; StatsUpdate; Bootstrap ]}.

Section lifecycle.
Context `{C : Ed25519}.

(** [dials]: the node with its dialling tasks, and whether its context is done; [acceptor]: the
    listener and [acceptLoop]. [engineDone] and [serverDone]: the contexts of the gossip engine
    and of the SOCKS5 server; [stopCh]: whether the propagator's channel is closed. *)
Record Life := mkLife {
  dials : DNode; acceptor : Acceptor;
  transportLn : sock; udpSock : sock; socksLn : sock; healthLn : sock;
  loops : gset loop; engineDone : bool; serverDone : bool; stopCh : bool;
  wg : Z }.

Definition set_dials (l : Life) (d : DNode) : Life :=
  mkLife d (acceptor l) (transportLn l) (udpSock l) (socksLn l) (healthLn l) (loops l)
    (engineDone l) (serverDone l) (stopCh l) (wg l).
Definition set_acceptor (l : Life) (a : Acceptor) : Life :=
  mkLife (dials l) a (transportLn l) (udpSock l) (socksLn l) (healthLn l) (loops l)
    (engineDone l) (serverDone l) (stopCh l) (wg l).
Definition set_socks (l : Life) (t u s h : sock) : Life :=
  mkLife (dials l) (acceptor l) t u s h (loops l) (engineDone l) (serverDone l) (stopCh l) (wg l).
Definition set_loops (l : Life) (g : gset loop) : Life :=
  mkLife (dials l) (acceptor l) (transportLn l) (udpSock l) (socksLn l) (healthLn l) g
    (engineDone l) (serverDone l) (stopCh l) (wg l).
Definition set_done (l : Life) (engine server stop : bool) : Life :=
  mkLife (dials l) (acceptor l) (transportLn l) (udpSock l) (socksLn l) (healthLn l) (loops l)
    engine server stop (wg l).

(** [n.wg.Add(k)]; [n.wg.Done()] is [Add(-1)]. *)
Definition wg_add (l : Life) (k : Z) : Life :=
  mkLife (dials l) (acceptor l) (transportLn l) (udpSock l) (socksLn l) (healthLn l) (loops l)
    (engineDone l) (serverDone l) (stopCh l) (wg l + k).

(** A node that has been made and not started; nothing runs. *)
Definition new_life (n : Node) (now : Z) : Life :=
  mkLife (dialer_start n) (mkAcceptor Listen (acceptLimiter now) false false [])
    Unopened Unopened Unopened Unopened ∅ false false false 0.

(** ** [Start] *)

(** Which of the calls into the system succeed. *)
Record Outcomes := mkOutcomes {
  tls_ok : bool; listen_ok : bool; resolve_ok : bool; udp_ok : bool; socks_ok : bool; health_ok : bool }.

Inductive start_error := ErrTLSConfig | ErrTransportListen | ErrUDPResolve | ErrUDPListen | ErrSocks5Start | ErrHealthStart.

(** [go g()], and [n.wg.Add(1); go func() { defer n.wg.Done(); g() }()]. *)
Definition go (g : loop) (l : Life) : Life := set_loops l ({[g]} ∪ loops l).
Definition go_wg (g : loop) (l : Life) : Life := go g (wg_add l 1).

Definition open_transport (l : Life) : Life := set_socks l Opened (udpSock l) (socksLn l) (healthLn l).

Definition open_udp (l : Life) : Life :=
  let n := d_node (dials l) in
  let n := mkNode (n_identity n) (gossipEng n) (propagator n) (udpRelay n) (peerConns n) (peerUDPAddrs n) true in
  set_dials (set_socks l (transportLn l) Opened (socksLn l) (healthLn l)) (with_node (dials l) n).

Definition Engine_Start (l : Life) : Life := go GossipProbe (go GossipPush l).
Definition Propagator_Start (l : Life) : Life := go Advertise l.

Definition Server_Start (ok : bool) (l : Life) : Life * bool :=
  if negb ok then (l, false)
  else (go SocksAccept (set_socks l (transportLn l) (udpSock l) Opened (healthLn l)), true).

Definition HealthServer_Start (ok : bool) (l : Life) : Life * bool :=
  if negb ok then (l, false)
  else (go HealthServe (set_socks l (transportLn l) (udpSock l) (socksLn l) Opened), true).

Definition go_accept (l : Life) : Life :=
  let a := acceptor l in
  wg_add (set_acceptor l (mkAcceptor (listener a) (limiter a) true (stopping a) (handled a))) 1.

(** [health]: whether the configuration has an address for the health server. *)
Definition Start (health : bool) (o : Outcomes) (l : Life) : Life * res start_error () :=
  if negb (tls_ok o) then (l, Err ErrTLSConfig) else
  if negb (listen_ok o) then (l, Err ErrTransportListen) else
  let l := open_transport l in
  if negb (resolve_ok o) then (l, Err ErrUDPResolve) else
  if negb (udp_ok o) then (l, Err ErrUDPListen) else
  let l := go_wg UDPRead (open_udp l) in
  let l := Engine_Start l in
  let l := Propagator_Start l in
  let '(l, ok) := Server_Start (socks_ok o) l in
  if negb ok then (l, Err ErrSocks5Start) else
  let l := go_wg SessionGC l in
  let l := go_wg RouteGC l in
  let l := go_accept l in
  let '(l, ok) := if health then HealthServer_Start (health_ok o) l else (l, true) in
  if negb ok then (l, Err ErrHealthStart) else
  (go_wg Bootstrap (go_wg StatsUpdate l), Ok ()).

(** ** [Stop] *)

(** Closing what is not open, or closing it again, changes nothing. *)
Definition close_sock (s : sock) : sock := match s with Unopened => Unopened | _ => Closed end.

(** [n.cancel()]: the dialling tasks and the loops of the node share its context. *)
Definition cancel (l : Life) : Life :=
  set_acceptor (set_dials l (dstep (dials l) ECancel)) (astep (acceptor l) ACancel).

Definition Server_Stop (l : Life) : Life :=
  set_done (set_socks l (transportLn l) (udpSock l) (close_sock (socksLn l)) (healthLn l))
    (engineDone l) true (stopCh l).

(** Closing a closed channel panics. *)
Definition Propagator_Stop (l : Life) : res () Life :=
  if stopCh l then Panic else Ok (set_done l (engineDone l) (serverDone l) true).

Definition Engine_Stop (l : Life) : Life := set_done l true (serverDone l) (stopCh l).

(** Up to the wait for the goroutines. [order] enumerates the connections to the peers. *)
Definition Stop (health : bool) (order : list (string * ConnRef)) (l : Life) : res () (Life * list neffect) :=
  let l := cancel l in
  let l := set_socks l (close_sock (transportLn l)) (close_sock (udpSock l)) (socksLn l) (healthLn l) in
  let l := if health then set_socks l (transportLn l) (udpSock l) (socksLn l) (close_sock (healthLn l)) else l in
  let l := Server_Stop l in
  l ← Propagator_Stop l;
  let l := Engine_Stop l in
  Ok (l, map (λ '(_, conn), NClose conn) order).

(** The wait that follows: for the goroutines, and for five seconds at most. [fired]: they have
    passed; [pick]: the case taken when both are over. [None]: it goes on; otherwise, whether the
    shutdown is complete. *)
Definition stop_wait (l : Life) (fired pick : bool) : option bool :=
  if wg l =? 0 then Some (negb fired || pick) else if fired then Some false else None.

(** ** What goes on in between *)

(** [LDial]: an event of the dialling tasks or of the node. [LAccept]: one of the accept loop.
    [LBoot]: the goroutine [bootstrap] starts a task for each peer and ends. [LEnd]: another
    goroutine sees that it has to end. [LStop]: somebody calls [Stop]. *)
Inductive levent :=
| LDial (e : event) | LAccept (e : aevent) | LBoot | LEnd (g : loop) | LStop (order : list (string * ConnRef)).

(** The loops that wait in a read or an accept end at an error when their context is done;
    the others when it is done. *)
Definition udpReadLoop_ends (l : Life) : bool := bool_decide (udpSock l = Closed) && d_done (dials l).
Definition socks_accept_ends (l : Life) : bool := bool_decide (socksLn l = Closed) && serverDone l.

Definition loop_ends (l : Life) (g : loop) : bool :=
  let done := d_done (dials l) in
  match g with
  | UDPRead => udpReadLoop_ends l
  | GossipPush | GossipProbe => engineDone l
  | Advertise => stopCh l
  | SocksAccept => socks_accept_ends l
  | HealthServe => bool_decide (healthLn l = Closed)
  | SessionGC | RouteGC | StatsUpdate => done
  | Bootstrap => false
  end.

Definition is_boot (k : task) : bool := match k with Bootstrapping _ _ _ => true | _ => false end.

Definition boot_runs (d : DNode) (t : nat) : bool := match tasks d !! t with Some k => is_boot k | None => false end.

(** The deferred [Done] of a task of [bootstrap] runs when the task ends. *)
Definition dial_step (l : Life) (e : event) : Life :=
  let d := dials l in
  let d' := dstep d e in
  let l := set_dials l d' in
  match event_task e with
  | Some t => if boot_runs d t && negb (boot_runs d' t) then wg_add l (-1) else l
  | None => l
  end.

(** That of [acceptLoop]. A listener that is not open gives no connection, and one that was never
    opened no error either. *)
Definition accept_step (l : Life) (e : aevent) : Life :=
  let possible := match e with
                  | ASocket (Some _) => bool_decide (transportLn l = Opened)
                  | ASocket None => bool_decide (transportLn l ≠ Unopened)
                  | ACancel => false
                  | _ => true
                  end in
  if negb possible then l else
  let a := acceptor l in
  let a' := astep a e in
  let l := set_acceptor l a' in
  if running a && negb (running a') then wg_add l (-1) else l.

Definition end_loop (l : Life) (g : loop) : Life :=
  let l := set_loops l (loops l ∖ {[g]}) in
  if decide (g ∈ counted) then wg_add l (-1) else l.

(** [peers]: the bootstrap peers of the configuration. *)
Definition lstep (health : bool) (peers : list (list byte)) (l : Life) (e : levent) : Life :=
  match e with
  | LDial (EBootstrap _) | LDial ECancel => l
  | LDial e => dial_step l e
  | LAccept e => accept_step l e
  | LBoot =>
      if decide (Bootstrap ∈ loops l)
      then end_loop (set_dials (wg_add l (Z.of_nat (length peers))) (bootstrap (dials l) peers)) Bootstrap
      else l
  | LEnd g => if decide (g ∈ loops l) then if loop_ends l g then end_loop l g else l else l
  | LStop order => match Stop health order l with Ok (l, _) => l | _ => l end
  end.

Definition lrun (health : bool) (peers : list (list byte)) (l : Life) (es : list levent) : Life :=
  foldl (lstep health peers) l es.

(** ** The goroutines that the node waits for *)

Definition boots (d : DNode) : nat := size (filter (λ '(_, k), is_boot k = true) (tasks d)).

Definition alive (l : Life) : Z :=
  Z.of_nat (size (loops l ∩ counted)) + (if running (acceptor l) then 1 else 0) + Z.of_nat (boots (dials l)).

(** The accept loop waits for ever: the listener has ended, and its error has been taken. *)
Definition listener_dead (a : Acceptor) : bool :=
  running a && match l_loop (listener a) with LEnded => negb (errCh (listener a)) | _ => false end.

(** ** Lemmas: the tasks of [bootstrap] *)

Definition boots_in (m : gmap nat task) : nat := size (filter (λ '(_, k), is_boot k = true) m).

Definition boot_one (k : task) : nat := if is_boot k then 1 else 0.

Lemma boots_in_insert m t k : m !! t = None → boots_in (<[t := k]> m) = (boot_one k + boots_in m)%nat.
Proof.
  intros Hm. unfold boots_in, boot_one. destruct (is_boot k) eqn:E.
  - rewrite map_filter_insert_True by done. rewrite map_size_insert_None; [done|]. by apply map_lookup_filter_None; left.
  - rewrite map_filter_insert_False by congruence. by rewrite delete_id.
Qed.

Lemma boots_in_split m t k : m !! t = Some k → boots_in m = (boot_one k + boots_in (delete t m))%nat.
Proof.
  intros Hm. rewrite <- boots_in_insert with (t := t) by apply lookup_delete_eq. by rewrite insert_delete_id.
Qed.

(** What an event of task [t] does to the tasks. *)
Definition task_change (m m' : gmap nat task) (t : nat) : Prop :=
  m' = m ∨ ∃ k, m !! t = Some k ∧ ((∃ k', m' = <[t := k']> m ∧ is_boot k' = is_boot k) ∨ m' = delete t m).

Lemma task_change_boots m m' t :
  task_change m m' t →
  Z.of_nat (boots_in m') = Z.of_nat (boots_in m) -
    (if (match m !! t with Some k => is_boot k | None => false end) &&
        negb (match m' !! t with Some k => is_boot k | None => false end) then 1 else 0).
Proof.
  intros [->|(k & Hk & [(k' & -> & E)| ->])].
  - destruct (match m !! t with Some k => is_boot k | None => false end); cbn; lia.
  - rewrite Hk, lookup_insert_eq, E, (boots_in_split _ _ _ Hk), <- insert_delete_eq.
    rewrite boots_in_insert by apply lookup_delete_eq. unfold boot_one. rewrite E. destruct (is_boot k); cbn; lia.
  - rewrite Hk, lookup_delete_eq, (boots_in_split _ _ _ Hk). unfold boot_one. destruct (is_boot k); cbn; lia.
Qed.

Ltac keeps_task Ht := split; [right; eexists; split; [exact Ht|left; eexists; split; [reflexivity|done]]|done || assumption].
Ltac ends_task Ht := split; [right; eexists; split; [exact Ht|by right]|done || assumption].

Lemma own_event_change d e t :
  event_task e = Some t → task_change (tasks d) (tasks (dstep d e)) t ∧ d_done (dstep d e) = d_done d.
Proof.
  destruct e as [| | |t' live|t' live conn a draw|t' fired|t'|t' live data a draw| |]; cbn [event_task dstep];
    try done; intros [= ->]; unfold turn, dialled, woke, served, first_message;
    (destruct (tasks d !! t) as [k|] eqn:Ht; [|split; [left; reflexivity|reflexivity]]);
    destruct k as [id addr|id mark r [|a'|delay|c]|addr r [|a'|delay|c]]; try (by (split; [left|])).
  - cbn. unfold reconnect_turn. destruct (d_done d) eqn:Hd; [ends_task Ht|]. destruct (known_addr d id); [|ends_task Ht].
    destruct (getPeerConn _ _); [destruct (live _)|]; (ends_task Ht || keeps_task Ht).
  - cbn. unfold bootstrap_turn. destruct (d_done d) eqn:Hd; [ends_task Ht|keeps_task Ht].
  - cbn. unfold connect_dialled. destruct conn; [destruct (claim _ _ _ _)|]; ends_task Ht.
  - cbn. unfold reconnect_dialled. destruct conn; [destruct (claim _ _ _ _)|]; cbn; (ends_task Ht || keeps_task Ht).
  - cbn. unfold bootstrap_dialled. destruct conn; keeps_task Ht.
  - cbn. destruct (sleepWithContext _ _ _) as [[]|]; cbn; [keeps_task Ht|ends_task Ht|by (split; [left|])].
  - cbn. destruct (sleepWithContext _ _ _) as [[]|]; cbn; [keeps_task Ht|ends_task Ht|by (split; [left|])].
  - cbn. keeps_task Ht.
  - cbn. destruct data as [data|]; [|keeps_task Ht]. destruct (identify data) as [[id|]|e|]; [|keeps_task Ht..].
    destruct (claim _ _ _ _); ends_task Ht.
Qed.

(** A task that starts with a mark is not one of [bootstrap]. *)
Lemma other_event_boots d e :
  marks_ok d → event_task e = None → (∀ addrs, e ≠ EBootstrap addrs) → e ≠ ECancel →
  boots (dstep d e) = boots d ∧ d_done (dstep d e) = d_done d.
Proof.
  intros Hok He Hb Hc.
  assert (tasks d !! next_task d = None) as Hn.
  { apply eq_None_not_Some. intros H. apply (mk_next d Hok) in H. lia. }
  destruct e; cbn [event_task dstep] in *; try done; [| |by destruct (Hb addrs)].
  - unfold connect_start. destruct (getPeerConn _ _); [done|].
    destruct (tryMarkDialing _ _) as [m []]; [|done]. split; [by apply boots_in_insert|done].
  - unfold reconnect_start. destruct (known_addr _ _); [|done].
    destruct (tryMarkDialing _ _) as [m []]; [|done]. split; [by apply boots_in_insert|done].
Qed.

Lemma bootstrap_boots d peers :
  marks_ok d ∧ tasks_ok d → boots (bootstrap d peers) = (length peers + boots d)%nat ∧ d_done (bootstrap d peers) = d_done d.
Proof.
  unfold bootstrap. revert d. induction peers as [|a peers IH]; intros d Hok; [done|]. cbn [foldl length].
  destruct (IH (bootstrap_start d a)) as [-> ->]; [by apply start_task_ok|]. split; [|done].
  assert (tasks d !! next_task d = None) as Hn.
  { apply eq_None_not_Some. intros H. apply (mk_next d (proj1 Hok)) in H. lia. }
  pose proof (boots_in_insert _ _ (Bootstrapping a first_try Checking) Hn) as E.
  change (boots (bootstrap_start d a)) with (boots_in (<[next_task d := Bootstrapping a first_try Checking]> (tasks d))).
  rewrite E. change (boots_in (tasks d)) with (boots d). cbn. lia.
Qed.

(** ** The invariant

    [health]: whether a health server is configured. *)

Context (health : bool).

(** None of the four sockets that the node listens on is open. *)
Definition none_listens (l : Life) : Prop :=
  transportLn l ≠ Opened ∧ udpSock l ≠ Opened ∧ socksLn l ≠ Opened ∧ healthLn l ≠ Opened.

Definition stopped (l : Life) : Prop :=
  d_done (dials l) = true ∧ stopping (acceptor l) = true ∧ none_listens l.

Record life_ok (l : Life) : Prop := {
  lf_dials : marks_ok (dials l) ∧ tasks_ok (dials l);
  lf_listener : listener_ok (listener (acceptor l));
  lf_wg : wg l = alive l;
  lf_udp : UDPRead ∈ loops l → udpSock l ≠ Unopened;
  lf_transport : running (acceptor l) = true → transportLn l ≠ Unopened;
  lf_health : health = false → healthLn l = Unopened;
  lf_stop : stopCh l = true → stopped l }.

Lemma new_life_ok n now : life_ok (new_life n now).
Proof.
  split; cbn; try done; [by apply dialer_start_ok|by split; cbn; [lia|]].
Qed.

Lemma size_without (X D : gset loop) g :
  g ∈ X → Z.of_nat (size ((X ∖ {[g]}) ∩ D)) = Z.of_nat (size (X ∩ D)) - (if decide (g ∈ D) then 1 else 0).
Proof.
  intros Hg. destruct (decide (g ∈ D)) as [Hc|Hc].
  - replace ((X ∖ {[g]}) ∩ D) with ((X ∩ D) ∖ {[g]})
      by (apply set_eq; intros x; rewrite !elem_of_intersection, !elem_of_difference, elem_of_intersection; tauto).
    rewrite (size_difference (X ∩ D)) by set_solver. rewrite size_singleton.
    assert (size (X ∩ D) ≠ 0%nat); [|lia]. intros E%size_empty_inv. set_solver.
  - replace ((X ∖ {[g]}) ∩ D) with (X ∩ D); [lia|]. apply set_eq. intros x.
    rewrite !elem_of_intersection, !elem_of_difference, elem_of_singleton. split; [|tauto].
    intros [Hx Hd]. split_and!; [done| |done]. by intros ->.
Qed.

Lemma alive_end l g :
  g ∈ loops l → alive (set_loops l (loops l ∖ {[g]})) = alive l - (if decide (g ∈ counted) then 1 else 0).
Proof.
  intros Hg. unfold alive. cbn [loops set_loops acceptor dials]. rewrite size_without by done. lia.
Qed.

Lemma Start_ok o n now : life_ok (fst (Start health o (new_life n now))).
Proof.
  pose proof (dialer_start_ok n) as Hd. pose proof (lf_listener _ (new_life_ok n now)) as Hl.
  unfold Start. destruct o as [[] [] [] [] [] []], health eqn:Eh; cbn [negb tls_ok listen_ok resolve_ok udp_ok socks_ok health_ok fst];
    (split; [by try apply with_node_ok|exact Hl|reflexivity|(done || congruence)..]).
Qed.

Lemma astep_flags a e :
  (running (astep a e) = true → running a = true) ∧
  stopping (astep a e) = (match e with ACancel => true | _ => stopping a end).
Proof.
  destruct a as [ln rl run stop h], e as [raw|now| |]; cbn; try done.
  - destruct run; [|done]. cbn. destruct (take_conn ln) as [[conn l]|]; [|done]. by destruct (allow rl now).
  - destruct run; [|done]. cbn. destruct (take_err ln); [|done]. by destruct stop.
Qed.

Lemma dial_step_ok l e :
  life_ok l → (∀ addrs, e ≠ EBootstrap addrs) → e ≠ ECancel → life_ok (dial_step l e).
Proof.
  intros [H1 H2 H3 H4 H5 H7 H6] Hb Hc. pose proof (dstep_ok (dials l) e H1) as Hd.
  assert (d_done (dstep (dials l) e) = d_done (dials l) ∧
    wg (dial_step l e) = alive (set_dials l (dstep (dials l) e))) as [Ed Ew].
  { unfold dial_step. destruct (event_task e) as [t|] eqn:Et.
    - destruct (own_event_change (dials l) _ _ Et) as [Ht ->]. split; [done|]. apply task_change_boots in Ht.
      unfold alive, boot_runs, boots in *. unfold boots_in in Ht. cbn [set_dials dials loops acceptor].
      destruct (_ && _); cbn; lia.
    - destruct (other_event_boots _ _ (proj1 H1) Et Hb Hc) as [Eb ->]. split; [done|].
      unfold alive in *. cbn. rewrite Eb. lia. }
  assert (∃ k, dial_step l e = wg_add (set_dials l (dstep (dials l) e)) k) as [k Ek].
  { unfold dial_step. destruct (event_task e); [destruct (_ && _); [by eexists|]|]; exists 0; by destruct l;
      unfold wg_add, set_dials; cbn; rewrite Z.add_0_r. }
  split; rewrite ?Ew; rewrite Ek; try done. cbn. intros Hs. destruct (H6 Hs) as (D1 & D2 & D3).
  split_and!; [by rewrite <- Ed in D1|done|done].
Qed.

Lemma accept_step_ok l e : life_ok l → life_ok (accept_step l e).
Proof.
  intros Hl. pose proof Hl as [H1 H2 H3 H4 H5 Hh H6]. unfold accept_step.
  destruct (match e with ASocket (Some _) => _ | ASocket None => _ | ACancel => false | _ => true end) eqn:Ep; [|done].
  cbn [negb]. destruct (astep_flags (acceptor l) e) as [Hr Hs]. destruct (astep_spec (acceptor l) e H2) as [H2' _].
  assert (stopping (astep (acceptor l) e) = stopping (acceptor l)) as Es by (by destruct e).
  assert (∀ k, k = alive (set_acceptor l (astep (acceptor l) e)) - wg l →
    life_ok (wg_add (set_acceptor l (astep (acceptor l) e)) k)) as Hk.
  { intros k ->. split; cbn; try done; [|by intros ?%Hr%H5|].
    - unfold alive. cbn. lia.
    - intros Hst. destruct (H6 Hst) as (D1 & D2 & D3). unfold stopped. cbn. by rewrite Es. }
  destruct (running (acceptor l)) eqn:Er, (running (astep (acceptor l) e)) eqn:Er'; cbn [andb negb].
  2: { apply Hk. rewrite H3. unfold alive. cbn. rewrite Er, Er'. lia. }
  2: { by specialize (Hr eq_refl). }
  all: assert (set_acceptor l (astep (acceptor l) e) = wg_add (set_acceptor l (astep (acceptor l) e)) 0) as ->
      by (unfold wg_add; cbn; by rewrite Z.add_0_r);
    apply Hk; rewrite H3; unfold alive; cbn; rewrite Er, Er'; lia.
Qed.

Lemma end_loop_ok l g : life_ok l → g ∈ loops l → life_ok (end_loop l g).
Proof.
  intros [H1 H2 H3 H4 H5 Hh H6] Hg. pose proof (alive_end l g Hg) as Ha. unfold end_loop.
  destruct (decide (g ∈ counted)); (split; cbn; try done; [|by intros [Hu%H4 _]%elem_of_difference]).
  - change (alive (wg_add ?l ?k)) with (alive l) in *. unfold alive in *. cbn in *. lia.
  - unfold alive in *. cbn in *. lia.
Qed.

Lemma Stop_spec order l :
  life_ok l → stopCh l = false →
  ∃ l', Stop health order l = Ok (l', map (λ '(_, conn), NClose conn) order) ∧ stopCh l' = true ∧
    loops l' = loops l ∧ acceptor l' = astep (acceptor l) ACancel ∧ dials l' = dstep (dials l) ECancel ∧
    wg l' = wg l ∧ engineDone l' = true ∧ serverDone l' = true ∧
    transportLn l' = close_sock (transportLn l) ∧ udpSock l' = close_sock (udpSock l) ∧
    socksLn l' = close_sock (socksLn l) ∧
    healthLn l' = (if health then close_sock (healthLn l) else healthLn l).
Proof.
  intros Hok Hs. unfold Stop, Propagator_Stop, Server_Stop, Engine_Stop.
  destruct health eqn:Eh; cbn; rewrite Hs; eexists; (split; [reflexivity|]); by split_and!.
Qed.

Lemma close_sock_shut s : close_sock s ≠ Opened ∧ (s ≠ Unopened → close_sock s = Closed).
Proof. by destruct s. Qed.

Lemma Stop_ok order l l' out :
  life_ok l → Stop health order l = Ok (l', out) → life_ok l'.
Proof.
  intros Hok H. pose proof Hok as [H1 H2 H3 H4 H5 H7 H6].
  assert (stopCh l = false) as Hs by (revert H; unfold Stop, Propagator_Stop; destruct health; cbn; by destruct (stopCh l)).
  destruct (Stop_spec order l Hok Hs) as (l1 & E & S1 & S2 & S3 & S4 & S5 & S6 & S7 & S8 & S9 & S10 & S11).
  rewrite E in H. injection H as <- <-.
  split; rewrite ?S1, ?S2, ?S3, ?S4, ?S5, ?S8, ?S9, ?S11.
  - by apply (dstep_ok (dials l) ECancel).
  - by apply (astep_spec (acceptor l) ACancel).
  - rewrite H3. unfold alive. rewrite S2, S3, S4. by destruct (acceptor l).
  - intros Hu%H4. by rewrite (proj2 (close_sock_shut _) Hu).
  - intros Hr. destruct (astep_flags (acceptor l) ACancel) as [Hr' _].
    by rewrite (proj2 (close_sock_shut _) (H5 (Hr' Hr))).
  - intros Hh. rewrite Hh. auto.
  - intros _. unfold stopped, none_listens. rewrite S3, S4, S8, S9, S10, S11. split; [done|].
    split; [by destruct (acceptor l)|]. split_and!; try apply close_sock_shut.
    destruct health eqn:Eh; [apply close_sock_shut|]. by rewrite H7.
Qed.

Lemma lstep_ok peers l e : life_ok l → life_ok (lstep health peers l e).
Proof.
  intros Hok. pose proof Hok as [H1 H2 H3 H4 H5 H7 H6]. destruct e as [e|e| |g|order]; cbn [lstep].
  - destruct e; try done; by apply dial_step_ok.
  - by apply accept_step_ok.
  - destruct (decide _) as [Hb|]; [|done]. apply end_loop_ok; [|done].
    destruct (bootstrap_boots (dials l) peers H1) as [Eb Ed].
    split; cbn; try done; [by apply bootstrap_ok| |].
    + rewrite H3. unfold alive. cbn. rewrite Eb. lia.
    + intros Hs. destruct (H6 Hs) as (D1 & D2 & D3). unfold stopped. cbn. by rewrite Ed.
  - destruct (decide _) as [Hb|]; [|done]. destruct (loop_ends l g); [|done]. by apply end_loop_ok.
  - destruct (Stop health order l) as [[l' out]| |] eqn:E; [|done..]. by eapply Stop_ok.
Qed.

Lemma lrun_ok peers es l : life_ok l → life_ok (lrun health peers l es).
Proof.
  unfold lrun. revert l. induction es as [|e es IH]; intros l Hok; [done|]. cbn. apply IH. by apply lstep_ok.
Qed.

Lemma lrun_app peers l es es' : lrun health peers l (es ++ es') = lrun health peers (lrun health peers l es) es'.
Proof. apply foldl_app. Qed.

Lemma lstep_stopCh peers l e : stopCh l = true → lstep health peers l e = l ∨ stopCh (lstep health peers l e) = true.
Proof.
  intros Hs. destruct e as [e|e| |g|order]; cbn [lstep].
  - assert (stopCh (dial_step l e) = true) as H.
    { unfold dial_step. by destruct (event_task e); [destruct (_ && _)|]. }
    destruct e; auto.
  - right. unfold accept_step. destruct (negb _); [done|]. by destruct (_ && _).
  - right. unfold end_loop. destruct (decide _); [|done]. by destruct (decide _).
  - right. unfold end_loop. destruct (decide _); [|done]. destruct (loop_ends l g); [|done]. by destruct (decide _).
  - left. unfold Stop, Propagator_Stop. destruct health; cbn; by rewrite Hs.
Qed.

Lemma lrun_stopCh peers es l : stopCh l = true → stopCh (lrun health peers l es) = true.
Proof.
  unfold lrun. revert l. induction es as [|e es IH]; intros l Hs; [done|]. cbn. apply IH.
  by destruct (lstep_stopCh peers l e Hs) as [->|?].
Qed.

(** ** Lemmas: what keeps the node waiting *)

(** A task of [bootstrap] is in a call into the network: it dials, or reads the first message of its peer. *)
Definition boot_waits (d : DNode) : Prop :=
  ∃ t addr r ph, tasks d !! t = Some (Bootstrapping addr r ph) ∧ in_network (Bootstrapping addr r ph) = true.

(** The events without the return of a dial or of such a read, be it with a message or because the peer has gone;
    with it when [net] says that these calls return. *)
Definition allowed (net : bool) (e : levent) : bool :=
  net || match e with LDial e => negb (from_network e) | _ => true end.

Lemma start_task_keeps d m k t k' : marks_ok d → tasks d !! t = Some k' → tasks (start_task d m k) !! t = Some k'.
Proof.
  intros Hok Ht. cbn. rewrite lookup_insert_ne; [done|]. intros E.
  assert (t < next_task d)%nat by (apply (mk_next d Hok); eauto). lia.
Qed.

Lemma bootstrap_keeps d peers t k :
  marks_ok d ∧ tasks_ok d → tasks d !! t = Some k → tasks (bootstrap d peers) !! t = Some k.
Proof.
  unfold bootstrap. revert d. induction peers as [|a peers IH]; intros d Hok Ht; [done|]. cbn [foldl].
  apply IH; [by apply start_task_ok|]. apply start_task_keeps; [apply Hok|done].
Qed.

(** Only its own events change a task, and only the return of its call takes it out of this wait. *)
Lemma dstep_keeps_wait d e t addr r ph :
  marks_ok d ∧ tasks_ok d → allowed false (LDial e) = true →
  tasks d !! t = Some (Bootstrapping addr r ph) → in_network (Bootstrapping addr r ph) = true →
  tasks (dstep d e) !! t = Some (Bootstrapping addr r ph).
Proof.
  intros Hok He Ht Hph. destruct (event_task e) as [u|] eqn:Eu.
  - destruct (decide (u = t)) as [->|Hne].
    + assert (dstep d e = d) as ->; [|done].
      destruct e; cbn in Eu, He; try done; injection Eu as ->; cbn [dstep];
        unfold turn, woke; rewrite Ht; by destruct ph.
    + destruct (own_event_change d e u Eu) as [[E|(k & _ & [(k' & E & _)|E])] _]; rewrite E;
        [done|by rewrite lookup_insert_ne|by rewrite lookup_delete_ne].
  - destruct e; cbn in Eu; try done; cbn [dstep].
    + unfold connect_start. destruct (getPeerConn _ _); [done|].
      destruct (tryMarkDialing _ _) as [m []]; [|done]. apply start_task_keeps; [apply Hok|done].
    + unfold reconnect_start. destruct (known_addr _ _); [|done].
      destruct (tryMarkDialing _ _) as [m []]; [|done]. apply start_task_keeps; [apply Hok|done].
    + by apply bootstrap_keeps.
Qed.

Lemma dead_astep a e : listener_dead a = true → listener_dead (astep a e) = true.
Proof.
  destruct a as [[ch err lo] rl run stop h]. unfold listener_dead. cbn.
  destruct run; [|done]. destruct lo; try done. destruct err; [done|]. intros _.
  destruct e as [raw|now| |]; cbn; try done. unfold take_conn. cbn. destruct ch as [|conn ch]; [done|].
  by destruct (allow rl now).
Qed.

Definition held_up (net : bool) (l : Life) : Prop :=
  listener_dead (acceptor l) = true ∨ (net = false ∧ boot_waits (dials l)).

Lemma held_up_step net peers l e :
  life_ok l → allowed net e = true → held_up net l → held_up net (lstep health peers l e).
Proof.
  intros Hok He Hl. pose proof (lf_dials l Hok) as Hd.
  assert (∀ l', acceptor l' = acceptor l → dials l' = dials l → held_up net l') as Hsame.
  { intros l' E1 E2. unfold held_up. by rewrite E1, E2. }
  assert (∀ e', allowed net (LDial e') = true → net = false ∧ boot_waits (dials l) →
    net = false ∧ boot_waits (dstep (dials l) e')) as Hwait.
  { intros e' He' [-> (t & addr & r & ph & Ht & Hph)]. split; [done|]. exists t, addr, r, ph.
    split; [by apply dstep_keeps_wait|done]. }
  assert (∀ l' e', allowed net (LDial e') = true → acceptor l' = acceptor l → dials l' = dstep (dials l) e' → held_up net l') as Hdial.
  { intros l' e' He' E1 E2. unfold held_up. rewrite E1, E2. destruct Hl as [?|Hw]; [by left|right; by apply Hwait]. }
  assert (allowed net (LDial (EBootstrap peers)) = true ∧ allowed net (LDial ECancel) = true) as [Hab Hac] by by destruct net.
  destruct e as [e|e| |g|order]; cbn [lstep].
  - assert (held_up net (dial_step l e)) as H.
    { apply (Hdial _ e He); unfold dial_step; destruct (event_task e); try done; by destruct (_ && _). }
    by destruct e.
  - unfold accept_step. destruct (negb _); [done|].
    destruct Hl as [Hdead|Hb]; [left|right]; destruct (_ && _); try done; by apply dead_astep.
  - destruct (decide _); [|done]. unfold end_loop. destruct (decide _);
      (apply (Hdial _ (EBootstrap peers)); done).
  - destruct (decide _); [|done]. destruct (loop_ends l g); [|done]. unfold end_loop. by destruct (decide _); apply Hsame.
  - destruct (Stop health order l) as [[l' out]| |] eqn:E; [|done..].
    assert (stopCh l = false) as Hs by (revert E; unfold Stop, Propagator_Stop; destruct health; cbn; by destruct (stopCh l)).
    destruct (Stop_spec order l Hok Hs) as (l1 & E1 & _ & _ & S3 & S4 & _). rewrite E1 in E. injection E as <- _.
    unfold held_up. rewrite S3, S4. destruct Hl as [?|Hw]; [left; by apply dead_astep|right; by apply Hwait].
Qed.

Lemma held_up_run net peers es l :
  life_ok l → Forall (λ e, allowed net e = true) es → held_up net l → held_up net (lrun health peers l es).
Proof.
  intros Hok Hes. unfold lrun. revert l Hok. induction Hes as [|e es He Hes IH]; intros l Hok Hl; [done|]. cbn.
  apply IH; [by apply lstep_ok|by apply held_up_step].
Qed.

Lemma held_up_alive net l : held_up net l → 0 < alive l.
Proof.
  unfold alive. intros [Hd|[_ (t & addr & r & ph & Ht & _)]].
  - unfold listener_dead in Hd. destruct (running (acceptor l)); [|done]. lia.
  - unfold boots. change (size _) with (boots_in (tasks (dials l))) at 2. rewrite (boots_in_split _ _ _ Ht). cbn.
    destruct (running (acceptor l)); lia.
Qed.

(** ** Lemmas: a stopped node can end *)

(** The last steps of a task of [bootstrap]; the first of them is the return of its call, if it is in one. *)
Lemma boot_finish net d t addr r ph :
  d_done d = true → tasks d !! t = Some (Bootstrapping addr r ph) → (net = false → in_network (Bootstrapping addr r ph) = false) →
  ∃ es, Forall (λ e, allowed net (LDial e) = true ∧ event_task e = Some t) es ∧
    tasks (drun d es) = delete t (tasks d).
Proof.
  intros Hd Ht Hph.
  assert (∀ r' delay d', d_done d' = true → tasks d' !! t = Some (Bootstrapping addr r' (Sleeping delay)) →
    dstep d' (EWoke t false) = end_task d' t None) as Hw.
  { intros r' delay d' Hd' Ht'. cbn [dstep]. unfold woke. rewrite Ht', Hd'. unfold sleepWithContext.
    by destruct (delay <=? 0). }
  assert (∀ e, from_network e = false → allowed net (LDial e) = true) as Hlocal.
  { intros e He. unfold allowed. rewrite He. apply orb_true_r. }
  assert (∀ e d', dstep d e = set_task d' t (Bootstrapping addr (fst (go_to_sleep r 0)) (snd (go_to_sleep r 0))) →
    d_done d' = true → tasks d' = tasks d →
    tasks (drun d [e; EWoke t false]) = delete t (tasks d)) as Hsleep.
  { intros e d' E Hd' Et. unfold drun. cbn [foldl]. rewrite E. erewrite Hw; [|done|apply lookup_insert_eq].
    cbn. by rewrite delete_insert_eq, Et. }
  destruct ph as [|a|delay|conn].
  - exists [ETurn t (λ _, true)]. split; [by repeat constructor; apply Hlocal|]. cbn. unfold turn, bootstrap_turn. by rewrite Ht, Hd.
  - destruct net; [|by discriminate Hph]. exists [EDialled t (λ _, true) None None 0; EWoke t false].
    split; [by repeat constructor|]. apply (Hsleep _ d); [|done|done]. cbn [dstep]. unfold dialled. by rewrite Ht.
  - exists [EWoke t false]. split; [by repeat constructor; apply Hlocal|]. unfold drun. cbn [foldl]. by rewrite (Hw r delay).
  - destruct net; [|by discriminate Hph]. exists [EFirst t (λ _, true) None None 0; EWoke t false].
    split; [by repeat constructor|]. apply (Hsleep _ d); [|done|done]. cbn [dstep]. unfold first_message. by rewrite Ht.
Qed.

(** The last steps of the accept loop, if it is not dead. *)
Lemma accept_finish a :
  listener_ok (listener a) → running a = true → stopping a = true → listener_dead a = false →
  ∃ es, Forall (λ e, e = ASocket None ∨ e = AConn 0 ∨ e = AErr) es ∧ running (arun a es) = false ∧
    listener_dead (arun a es) = false.
Proof.
  destruct a as [[ch err lo] rl run stop h]. cbn. intros [H1 H2] -> ->. unfold listener_dead. cbn.
  destruct lo as [|next|]; cbn; intros Hd.
  - exists [ASocket None; AErr]. split; [by repeat constructor; auto|]. done.
  - cbn in H2. destruct ch as [|conn ch]; [done|]. exists [AConn 0; ASocket None; AErr].
    split; [by repeat constructor; auto|]. cbn. by destruct (allow rl 0).
  - destruct err; [|done]. exists [AErr]. split; [by repeat constructor; auto|]. done.
Qed.

Lemma accept_run peers es l :
  transportLn l ≠ Unopened → Forall (λ e, e = ASocket None ∨ e = AConn 0 ∨ e = AErr) es →
  let l' := lrun health peers l (map LAccept es) in
  acceptor l' = arun (acceptor l) es ∧ dials l' = dials l ∧ loops l' = loops l ∧ stopCh l' = stopCh l.
Proof.
  intros Ht Hes. unfold lrun. revert l Ht. induction Hes as [|e es He Hes IH]; intros l Ht; [done|]. cbn.
  assert (acceptor (accept_step l e) = astep (acceptor l) e ∧ dials (accept_step l e) = dials l ∧
    loops (accept_step l e) = loops l ∧ stopCh (accept_step l e) = stopCh l ∧
    transportLn (accept_step l e) = transportLn l) as (E1 & E2 & E3 & E4 & E5).
  { unfold accept_step.
    destruct He as [-> |[-> | ->]]; rewrite ?bool_decide_true by done; cbn [negb]; by destruct (_ && _). }
  rewrite <- E5 in Ht. destruct (IH _ Ht) as (H1 & H2 & H3 & H4). rewrite H1, H2, H3, H4, E1, E2, E3, E4. done.
Qed.

Lemma dial_run net peers es l t :
  Forall (λ e, allowed net (LDial e) = true ∧ event_task e = Some t) es →
  let l' := lrun health peers l (map LDial es) in
  dials l' = drun (dials l) es ∧ acceptor l' = acceptor l ∧ loops l' = loops l ∧ stopCh l' = stopCh l.
Proof.
  intros Hes. unfold lrun. revert l. induction Hes as [|e es [_ He] Hes IH]; intros l; [done|]. cbn [map foldl].
  assert (lstep health peers l (LDial e) = dial_step l e) as -> by by destruct e.
  assert (dials (dial_step l e) = dstep (dials l) e ∧ acceptor (dial_step l e) = acceptor l ∧
    loops (dial_step l e) = loops l ∧ stopCh (dial_step l e) = stopCh l) as (E1 & E2 & E3 & E4).
  { unfold dial_step. rewrite He. by destruct (_ && _). }
  destruct (IH (dial_step l e)) as (H1 & H2 & H3 & H4). rewrite H1, H2, H3, H4, E1, E2, E3, E4. done.
Qed.

(** A node that has been stopped and is not held up, after [bootstrap] has ended. *)
Record ending (net : bool) (l : Life) : Prop := {
  en_ok : life_ok l; en_stop : stopCh l = true; en_free : ¬ held_up net l; en_boot : Bootstrap ∉ loops l }.

Lemma ending_dead net l : ending net l → listener_dead (acceptor l) = false.
Proof. intros [_ _ H _]. destruct (listener_dead (acceptor l)) eqn:E; [|done]. destruct H. by left. Qed.

(** A loop that the node waits for sees that the node is stopping. *)
Lemma end_one_loop net peers l g :
  ending net l → g ∈ loops l → g ∈ counted →
  ending net (lstep health peers l (LEnd g)) ∧ wg (lstep health peers l (LEnd g)) < wg l.
Proof.
  intros [Hok Hs Hf Hb] Hg Hc. destruct (lf_stop _ Hok Hs) as (D1 & D2 & D3).
  assert (loop_ends l g = true) as He.
  { apply (bool_decide_pack _) in Hc. destruct g; cbn; try done.
    unfold udpReadLoop_ends. rewrite D1, bool_decide_true; [done|]. destruct D3 as (_ & D3 & _). pose proof (lf_udp _ Hok Hg).
    by destruct (udpSock l). }
  pose proof (lstep_ok peers l (LEnd g) Hok) as Hok'. cbn [lstep] in *. rewrite decide_True, He in * by done.
  unfold end_loop in *. rewrite decide_True in * by done. split; [split|cbn; lia].
  - done.
  - done.
  - intros [?|?]; apply Hf; [by left|by right].
  - cbn. intros [? _]%elem_of_difference. done.
Qed.

Lemma end_accept net peers l :
  ending net l → running (acceptor l) = true →
  ∃ es, Forall (λ e, allowed net e = true) es ∧ ending net (lrun health peers l es) ∧ wg (lrun health peers l es) < wg l.
Proof.
  intros He Hr. pose proof (ending_dead net l He) as Hd. destruct He as [Hok Hs Hf Hb].
  destruct (lf_stop _ Hok Hs) as (_ & D2 & _).
  destruct (accept_finish (acceptor l) (lf_listener _ Hok) Hr D2 Hd) as (es & Hes & Hr' & Hd').
  destruct (accept_run peers es l (lf_transport _ Hok Hr) Hes) as (E1 & E2 & E3 & E4).
  pose proof (lrun_ok peers (map LAccept es) l Hok) as Hok'.
  exists (map LAccept es). split; [apply Forall_map, Forall_true; intros; apply orb_true_r|]. split; [split; [done|congruence| |congruence]|].
  - rewrite <- E1 in Hd'. intros [?|Hw]; [congruence|]. rewrite E2 in Hw. apply Hf. by right.
  - rewrite (lf_wg _ Hok), (lf_wg _ Hok'). unfold alive. rewrite E1, E2, E3, Hr, Hr'. lia.
Qed.

Lemma boots_choose d : (0 < boots d)%nat → ∃ t addr r ph, tasks d !! t = Some (Bootstrapping addr r ph).
Proof.
  unfold boots. intros H.
  destruct (map_choose (filter (λ '(_, k), is_boot k = true) (tasks d))) as (t & k & Ht).
  { intros E. rewrite E, map_size_empty in H. lia. }
  apply map_lookup_filter_Some in Ht as [Ht Hk]. destruct k as [| |addr r ph]; try done. by exists t, addr, r, ph.
Qed.

Lemma end_boot net peers l :
  ending net l → (0 < boots (dials l))%nat →
  ∃ es, Forall (λ e, allowed net e = true) es ∧ ending net (lrun health peers l es) ∧ wg (lrun health peers l es) < wg l.
Proof.
  intros [Hok Hs Hf Hb] Hp. destruct (lf_stop _ Hok Hs) as (D1 & _).
  destruct (boots_choose _ Hp) as (t & addr & r & ph & Ht).
  destruct (boot_finish net _ _ _ _ _ D1 Ht) as (es & Hes & Et).
  { intros ->. apply not_true_iff_false. intros Hph. apply Hf. right. split; [done|]. by exists t, addr, r, ph. }
  destruct (dial_run net peers es l t Hes) as (E1 & E2 & E3 & E4).
  pose proof (lrun_ok peers (map LDial es) l Hok) as Hok'.
  exists (map LDial es). split; [apply Forall_map; by eapply Forall_impl; [exact Hes|intros e [? _]]|].
  split; [split; [done|congruence| |congruence]|].
  - unfold held_up. rewrite E1, E2. intros [?|(Hn & u & a & r' & ph' & Hu & Hph)]; apply Hf; [by left|right; split; [done|]].
    rewrite Et in Hu. apply lookup_delete_Some in Hu as [_ Hu]. by exists u, a, r', ph'.
  - rewrite (lf_wg _ Hok), (lf_wg _ Hok'). unfold alive. rewrite E1, E2, E3. unfold boots.
    change (size (filter _ (tasks (drun (dials l) es)))) with (boots_in (tasks (drun (dials l) es))).
    change (size (filter _ (tasks (dials l)))) with (boots_in (tasks (dials l))).
    rewrite Et, (boots_in_split _ _ _ Ht). cbn. lia.
Qed.

Lemma ending_ends net peers l :
  ending net l → ∃ es, Forall (λ e, allowed net e = true) es ∧ wg (lrun health peers l es) = 0.
Proof.
  remember (Z.to_nat (wg l)) as m eqn:Em. revert l Em. induction m as [m IH] using lt_wf_ind. intros l Em He.
  destruct (decide (wg l = 0)) as [Hz|Hz]; [by exists []|].
  pose proof (lf_wg _ (en_ok _ _ He)) as Hw.
  assert (∃ es, Forall (λ e, allowed net e = true) es ∧ ending net (lrun health peers l es) ∧
    wg (lrun health peers l es) < wg l) as (es & Hes & He' & Hlt).
  { destruct (decide (loops l ∩ counted = ∅)) as [E|E].
    - destruct (running (acceptor l)) eqn:Er; [by apply end_accept|]. apply end_boot; [done|].
      unfold alive in Hw. rewrite E, size_empty, Er in Hw. lia.
    - apply set_choose_L in E as [g Hg]. apply elem_of_intersection in Hg as [Hg Hc].
      destruct (end_one_loop net peers l g He Hg Hc). exists [LEnd g].
      split; [repeat constructor; apply orb_true_r|by split]. }
  pose proof (lf_wg _ (en_ok _ _ He')) as Hw'.
  destruct (IH (Z.to_nat (wg (lrun health peers l es)))) with (l := lrun health peers l es) as (es' & Hes' & E); [|done|done|].
  { unfold alive in *. destruct (running (acceptor l)), (running (acceptor (lrun health peers l es))); lia. }
  exists (es ++ es'). rewrite lrun_app. split; [by apply Forall_app|done].
Qed.

Lemma bootstrap_new d peers t k :
  tasks (bootstrap d peers) !! t = Some k → tasks d !! t = Some k ∨ ∃ a, k = Bootstrapping a first_try Checking.
Proof.
  unfold bootstrap. revert d. induction peers as [|a peers IH]; intros d Ht; [by left|]. cbn [foldl] in Ht.
  destruct (IH _ Ht) as [Hk|?]; [|by right]. cbn in Hk. apply lookup_insert_Some in Hk as [[_ <-]|[_ ?]]; eauto.
Qed.

(** Stopped, whether or not the goroutine [bootstrap] has run yet. *)
Lemma stopped_ends net peers l :
  life_ok l → stopCh l = true → ¬ held_up net l →
  ∃ es, Forall (λ e, allowed net e = true) es ∧ wg (lrun health peers l es) = 0.
Proof.
  intros Hok Hs Hf. destruct (decide (Bootstrap ∈ loops l)) as [Hb|Hb]; [|by apply ending_ends].
  destruct (ending_ends net peers (lstep health peers l LBoot)) as (es & Hes & E).
  2: { exists (LBoot :: es). split; [|done]. constructor; [apply orb_true_r|done]. }
  destruct (lf_dials _ Hok) as [Hm _].
  split; [by apply lstep_ok|by destruct (lstep_stopCh peers l LBoot Hs) as [->|?]|..];
    cbn [lstep]; rewrite decide_True by done; unfold end_loop; rewrite decide_True by (by apply (bool_decide_unpack _)).
  - intros [?|(Hn & t & a & r & ph & Ht & Hph)]; apply Hf; [by left|right; split; [done|]]. cbn in Ht.
    apply bootstrap_new in Ht as [Ht|[a' [= -> -> ->]]]; [|done]. by exists t, a, r, ph.
  - cbn. intros [_ Hn]%elem_of_difference. by apply Hn, elem_of_singleton.
Qed.

(** [Start] in terms of the first call that fails. *)
Definition first_failure (o : Outcomes) : option start_error :=
  snd <$> head (filter (λ x, fst x = false)
    ([(tls_ok o, ErrTLSConfig); (listen_ok o, ErrTransportListen); (resolve_ok o, ErrUDPResolve); (udp_ok o, ErrUDPListen);
      (socks_ok o, ErrSocks5Start)] ++ if health then [(health_ok o, ErrHealthStart)] else [])).

Lemma Start_result o l :
  snd (Start health o l) = match first_failure o with Some e => Err e | None => Ok () end.
Proof. unfold Start, first_failure. destruct o as [[] [] [] [] [] []], health; reflexivity. Qed.
End lifecycle.

(** ** Properties *)

(** The wait group of the node is exact. In every run of a node, from a start that succeeds or
    fails at any step, through any interleaving of its goroutines and calls of [Stop], the counter is the number of
    goroutines that run and that the node will wait for: it is never negative, which would
    panic, and never zero while one of them runs. *)
Lemma wait_group_exact health o n now peers es :
  let l := lrun health peers (fst (Start health o (new_life n now))) es in
  wg l = Z.of_nat (size (loops l ∩ counted)) + (if running (acceptor l) then 1 else 0) + Z.of_nat (boots (dials l)).
Proof. intros l. apply (lf_wg health l). apply lrun_ok, Start_ok. Qed.

(** C33: [Stop] releases what [Start] took. Whichever step of the start failed, and
    whatever has happened since, the first call of [Stop] succeeds and closes exactly the connections to peers that
    are registered; from then on none of the four sockets that the node listens on is open, whatever still
    happens, and a second call of [Stop] panics. Connections that are not registered, because they wait for their
    first message or are still being dialled, are not closed. *)
Theorem stop_releases `{C : Ed25519} health o n now peers es order :
  let l := lrun health peers (fst (Start health o (new_life n now))) es in
  order ≡ₚ map_to_list (peerConns (d_node (dials l))) →
  snd (Start health o (new_life n now)) = match first_failure health o with Some e => Err e | None => Ok () end ∧
  if stopCh l then none_listens l ∧ Stop health order l = Panic
  else ∃ l' out, Stop health order l = Ok (l', out) ∧
    (∀ conn, NClose conn ∈ out ↔ ∃ k, peerConns (d_node (dials l)) !! k = Some conn) ∧
    ∀ es', let l2 := lrun health peers l' es' in none_listens l2 ∧ ∀ order', Stop health order' l2 = Panic.
Proof.
  intros l Hord. split; [apply Start_result|]. assert (life_ok health l) as Hok by (apply lrun_ok, Start_ok).
  assert (∀ l order, life_ok health l → stopCh l = true → none_listens l ∧ Stop health order l = Panic) as Hdone.
  { intros l1 o1 Hok1 Hs. split; [apply (lf_stop _ _ Hok1 Hs)|]. unfold Stop, Propagator_Stop. destruct health; cbn; by rewrite Hs. }
  destruct (stopCh l) eqn:Hs; [by apply Hdone|].
  destruct (Stop_spec health order l Hok Hs) as (l' & E & Hs' & _). eexists l', _. split; [done|]. split.
  - intros conn. rewrite list_elem_of_fmap. split.
    + intros ([k c] & [= ->] & Hin). rewrite Hord in Hin. apply elem_of_map_to_list in Hin. by exists k.
    + intros (k & Hk). exists (k, conn). split; [done|]. rewrite Hord. by apply elem_of_map_to_list.
  - intros es' l2. assert (life_ok health l2 ∧ stopCh l2 = true) as [Hok2 Hs2].
    { split; [eapply lrun_ok, Stop_ok; eauto|by apply lrun_stopCh]. }
    split; [by apply (Hdone l2 order)|]. intros order'. by apply Hdone.
Qed.

(** C34: when a stop completes. Once [Stop] has been called, the goroutines it waits for can all end if and only if the
    node is not held up, and when it is, the wait ends only by its five seconds, whatever happens. What holds it up is
    a listener that had failed before and, as long as the calls into the network that the bootstrap goroutines are in do not
    return ([net] is false), such a goroutine: one that dials, or that reads the first message of its peer. A read
    returns with a message or when the peer goes away. *)
Theorem stop_completes `{C : Ed25519} health o n now peers es net :
  let l := lrun health peers (fst (Start health o (new_life n now))) es in
  stopCh l = true →
  ((∃ es', Forall (λ e, allowed net e = true) es' ∧ wg (lrun health peers l es') = 0) ↔ ¬ held_up net l) ∧
  (held_up net l → ∀ es' fired pick, Forall (λ e, allowed net e = true) es' →
     stop_wait (lrun health peers l es') fired pick = if fired then Some false else None).
Proof.
  intros l Hs. assert (life_ok health l) as Hok by (apply lrun_ok, Start_ok).
  assert (held_up net l → ∀ es', Forall (λ e, allowed net e = true) es' → 0 < wg (lrun health peers l es')) as Hheld.
  { intros Hh es' Hes'. rewrite (lf_wg health _ (lrun_ok health peers es' l Hok)).
    by eapply held_up_alive, held_up_run. }
  split; [split|].
  - intros (es' & Hes' & Hz) Hh. pose proof (Hheld Hh es' Hes'). lia.
  - by apply stopped_ends.
  - intros Hh es' fired pick Hes'. unfold stop_wait. by rewrite (proj2 (Z.eqb_neq _ 0)) by (pose proof (Hheld Hh es' Hes'); lia).
Qed.

(** A start in full, with one bootstrap peer, and the outcome of one accept that failed before the
    stop. *)
Definition all_well : Outcomes := mkOutcomes true true true true true true.

Definition started : list levent :=
  [LBoot; LDial (ETurn 0 (λ _, true)); LAccept (ASocket (Some 7%nat)); LAccept (AConn 5)].

(** After [started] the bootstrap peer is being dialled: only the return of that dial lets the stop complete. *)
Definition stopped_life : Life :=
  lrun true [[x62]] (fst (Start true all_well (new_life example_node 0))) (started ++ [LStop []]).

Lemma stop_completes_witness :
  (held_up false stopped_life → ∀ es' fired pick, Forall (λ e, allowed false e = true) es' →
     stop_wait (lrun true [[x62]] stopped_life es') fired pick = if fired then Some false else None) ∧
  ((∃ es', Forall (λ e, allowed true e = true) es' ∧ wg (lrun true [[x62]] stopped_life es') = 0) ↔ ¬ held_up true stopped_life).
Proof.
  split.
  - apply (stop_completes (C := toy_ed25519) true all_well example_node 0 [[x62]] (started ++ [LStop []]) false).
    vm_compute. reflexivity.
  - apply (stop_completes (C := toy_ed25519) true all_well example_node 0 [[x62]] (started ++ [LStop []]) true).
    vm_compute. reflexivity.
Defined.

(** The start above, before its stop. *)
Definition started_life : Life := lrun true [[x62]] (fst (Start true all_well (new_life example_node 0))) started.

Lemma started_running :
  stopCh (lrun true [[x62]] (fst (Start true all_well (new_life example_node 0))) started) = false.
Proof. vm_compute. reflexivity. Qed.

Lemma started_closes :
  [] ≡ₚ map_to_list (peerConns (d_node (dials
    (lrun true [[x62]] (fst (Start true all_well (new_life example_node 0))) started)))).
Proof.
  replace (map_to_list _) with (@nil (string * ConnRef)); [reflexivity|]. vm_compute. reflexivity.
Qed.

Lemma stop_releases_witness :
  ∃ l' out, Stop true [] started_life = Ok (l', out) ∧ (∀ conn, NClose conn ∉ out) ∧
    ∀ es', none_listens (lrun true [[x62]] l' es').
Proof.
  destruct (stop_releases (C := toy_ed25519) true all_well example_node 0 [[x62]] started [] started_closes) as [_ H].
  cbv zeta in H. rewrite started_running in H. destruct H as (l' & out & E & Hc & H). exists l', out.
  split; [exact E|]. split; [|intros es'; exact (proj1 (H es'))].
  intros conn (k & Hk)%Hc. apply elem_of_map_to_list in Hk. rewrite <- started_closes in Hk. inversion Hk.
Defined.

(** One failed accept while the node runs, and its stop is held up. *)
Lemma dead_listener_held_up net :
  held_up net (lrun true [[x62]] (fst (Start true all_well (new_life example_node 0)))
    [LAccept (ASocket None); LAccept AErr; LStop []]).
Proof. left. vm_compute. reflexivity. Qed.
