(* ===== verification/Network.v ===== *)
(** * A network of nodes that exchange routes

    Each node runs the propagator of [Propagation]. The messages that were ever sent
    stay on the wire, so that they can be delivered late, in any order, repeatedly or
    never; a broadcast reaches any set of nodes; peers, losses and timers are arbitrary. *)

From S2P Require Import Prelude Bytes Net Identity Wire WireRoute RoutePath RouteTable RouteSelect.
From S2P Require Import Propagation.
From stdpp Require Import options.

Record Network := mkNetwork {
  nodes : gmap NodeID Propagator;
  wire : list (NodeID * NodeID * list byte) }.

(** The messages of a node's effects; a broadcast goes to the nodes of [dsts]. *)
Definition emitted (i : NodeID) (dsts : list NodeID) (e : effect) : list (NodeID * NodeID * list byte) :=
  match e with
  | Send peer m => [(i, peer, m)]
  | Broadcast m => map (λ d, (i, d, m)) dsts
  end.

(** The network after node [i] has become [p] and done [eff]. *)
Definition after (n : Network) (i : NodeID) (p : Propagator) (dsts : list NodeID) (eff : list effect) : Network :=
  mkNetwork (<[i := p]> (nodes n)) (wire n ++ concat (map (emitted i dsts) eff)).

(** A tick of the loop, the advertisement to a new neighbour, and a message, with bytes behind it that the
    receiver may have left there: a signature that it cannot check. *)
Inductive net_step (n : Network) : Network → Prop :=
| step_advertise i p clock order dsts :
    nodes n !! i = Some p → enumerates order (table (fst (AdvertiseDirectNetworks p clock))) →
    net_step n (after n i (fst (advertise_tick p clock order)) dsts (snd (advertise_tick p clock order)))
| step_direct i p clock dsts :
    nodes n !! i = Some p →
    net_step n (after n i (fst (AdvertiseDirectNetworks p clock)) dsts (snd (AdvertiseDirectNetworks p clock)))
| step_receive i j m tail sp now now' p p' eff :
    (i, j, m) ∈ wire n → nodes n !! j = Some p →
    HandleRouteUpdate p i (mkSlice (m ++ tail) sp) now now' = Ok (p', eff) →
    net_step n (after n j p' [] eff)
| step_lost i p order peer dsts :
    nodes n !! i = Some p → enumerates order (table p) →
    net_step n (after n i (fst (WithdrawAllFromPeer p order peer)) dsts
                  (snd (WithdrawAllFromPeer p order peer)))
| step_gc i p ttl now :
    nodes n !! i = Some p →
    net_step n (after n i (set_table p (fst (GC (table p) ttl now))) [] [])
| step_peers i p peers :
    nodes n !! i = Some p → net_step n (after n i (SetPeersFunc p peers) [] []).

(** A new node, attached to [nets]. *)
Definition new_node (i : NodeID) (nets : list IPNet) (ival : Z) : Propagator :=
  SetBroadcaster (SetSender (NewPropagator (SetDirectNetworks (NewRoutingTable i) nets) i ival)).

(** The network at the start: no routes, no messages; the callback for the peers is set or not. *)
Definition starts (n : Network) : Prop :=
  wire n = [] ∧
  ∀ i p, nodes n !! i = Some p →
    ∃ nets ival, (p = new_node i nets ival ∨ p = SetPeersFunc (new_node i nets ival) []) ∧ Forall prefix_ok nets.

(** ** Routes and messages that are right *)

(** A path from [first] to [last] without repetition. *)
Definition simple_path (path : list NodeID) (first_ last_ : NodeID) : Prop :=
  NoDup path ∧ head path = Some first_ ∧ last path = Some last_.

(** A route of node [i]: to its own network, or by a simple path from the next hop to the
    origin that does not contain [i]; the cost is the number of hops to the network. *)
Record route_right (i : NodeID) (r : Route) : Prop := {
  right_ok : route_ok r;
  right_len : (path_Len (r_ASPath r) < 32)%nat;
  right_cost : Cost r = Z.of_nat (path_Len (r_ASPath r)) + 1;
  right_self : i ∉ Hops (r_ASPath r);
  right_path :
    (Hops (r_ASPath r) = [] ∧ NextHop r = i ∧ Origin r = i) ∨
    simple_path (Hops (r_ASPath r)) (NextHop r) (Origin r) }.

(** A message on the wire, and whatever follows it: a withdrawal, or an advertisement by its sender of a simple
    path from the sender to the origin. *)
Definition message_right (i : NodeID) (m : list byte) : Prop :=
  ∃ msg tail, m = EncodeRouteMessage msg ++ tail ∧ route_msg_ok msg ∧
    (is_withdrawal msg = false →
       simple_path (rm_ASPath msg) i (rm_Origin msg) ∧ rm_Cost msg = Z.of_nat (length (rm_ASPath msg))).

Record node_right (i : NodeID) (p : Propagator) : Prop := {
  node_self : p_selfID p = i ∧ rt_selfID (table p) = i;
  node_table : table_ok (table p);
  node_nets : Forall prefix_ok (directNetworks (table p));
  node_routes : ∀ r, in_table (table p) r → route_right i r }.

Definition net_right (n : Network) : Prop :=
  (∀ i p, nodes n !! i = Some p → node_right i p) ∧
  (∀ i j m, (i, j, m) ∈ wire n → message_right i m).

(** ** Lemmas: the routes of a table after its operations *)

Lemma update_existing_routes existing r now l b r' :
  update_existing existing r now = Some (l, b) → r' ∈ l →
  r' = r ∨ ∃ er, er ∈ existing ∧ (r' = er ∨ r' = with_Timestamp er now).
Proof.
  revert l b. induction existing as [|er rest IH]; intros l b; simpl; [done|].
  destruct (same_slot er r).
  - destruct (negb _); intros [= <- <-] [->|Hin]%elem_of_cons; auto; right.
    + exists r'. split; [by right|auto].
    + exists er. split; [left|auto].
    + exists r'. split; [by right|auto].
  - destruct (update_existing rest r now) as [[l' b']|] eqn:E; simpl; [|done].
    intros [= <- <-] [->|Hin]%elem_of_cons; [right; exists er; split; [left|auto]|].
    destruct (IH _ _ eq_refl Hin) as [?|(er' & ? & ?)]; [auto|].
    right. exists er'. split; [by right|done].
Qed.

Lemma AddRoute_routes rt r now now' r' :
  in_table (fst (AddRoute rt r now now')) r' →
  in_table rt r' ∨ r' = with_Timestamp r now ∨
  ∃ er, in_table rt er ∧ r' = with_Timestamp er now'.
Proof.
  unfold AddRoute. destruct (path_Contains _ _); [auto|]. set (k := IPNet_String (Destination r)).
  intros (k' & rs & Hk & Hin).
  destruct (routes rt !! k) as [existing|] eqn:He.
  - destruct (update_existing existing _ now') as [[l b]|] eqn:Hu; simpl in Hk;
      apply lookup_insert_Some in Hk as [[<- <-]|[_ Hk]]; try (left; by exists k', rs).
    + destruct (update_existing_routes _ _ _ _ _ _ Hu Hin) as [->|(er & Her & [->| ->])];
        [auto|left; by exists k, existing|right; right; exists er; split; [by exists k, existing|done]].
    + apply elem_of_app in Hin as [Hin|Hin%list_elem_of_singleton]; [left; by exists k, existing|auto].
  - simpl in Hk. apply lookup_insert_Some in Hk as [[<- <-]|[_ Hk]]; [|left; by exists k', rs].
    apply list_elem_of_singleton in Hin. auto.
Qed.

Lemma sweep_routes keep rt r : in_table (sweep keep rt) r → in_table rt r.
Proof.
  intros (k & rs & Hk & Hin). unfold sweep in Hk. simpl in Hk. rewrite lookup_omap in Hk.
  destruct (routes rt !! k) as [rs0|] eqn:E; simpl in Hk; [|done]. exists k, rs0. split; [done|].
  unfold keep_some in Hk. destruct (filter _ rs0) as [|r0 l] eqn:Ef; [done|]. injection Hk as <-.
  rewrite <- Ef in Hin. by apply list_elem_of_filter in Hin as [_ ?].
Qed.

Lemma RemoveRoute_routes rt d o r : in_table (RemoveRoute rt d o) r → in_table rt r.
Proof.
  unfold RemoveRoute. destruct (routes rt !! IPNet_String d) as [existing|] eqn:E; [|done].
  destruct (keep_some _ existing) as [l|] eqn:Hk; intros (k & rs & Hl & Hin); simpl in Hl.
  - apply lookup_insert_Some in Hl as [[<- <-]|[_ Hl]]; [|by exists k, rs].
    exists (IPNet_String d), existing. split; [done|]. unfold keep_some in Hk.
    destruct (filter _ existing) as [|r0 l0] eqn:Ef; [done|]. injection Hk as <-.
    rewrite <- Ef in Hin. by apply list_elem_of_filter in Hin as [_ ?].
  - apply lookup_delete_Some in Hl as [_ Hl]. by exists k, rs.
Qed.

Lemma right_timestamp i r t : route_right i r → route_right i (with_Timestamp r t).
Proof. intros [[] ? ? ? ?]. split; [by split|done..]. Qed.

Lemma node_right_add i p r now now' :
  node_right i p → route_right i r → node_right i (set_table p (fst (AddRoute (table p) r now now'))).
Proof.
  intros [[Hs Hrs] Ht Hn Hr] Hnew. destruct (AddRoute_keeps (table p) r now now') as [E1 E2].
  split; simpl; rewrite ?E1, ?E2; auto with go.
  intros r' [Hin|[->|(er & Her & ->)]]%AddRoute_routes; auto using right_timestamp.
Qed.

Lemma node_right_set i p rt :
  node_right i p → rt_selfID rt = i → table_ok rt → directNetworks rt = directNetworks (table p) →
  (∀ r, in_table rt r → in_table (table p) r) → node_right i (set_table p rt).
Proof.
  intros [[Hs Hrs] Ht Hn Hr] H1 H2 H3 H4. split; simpl; rewrite ?H3; auto.
Qed.

(** ** Lemmas: the messages that are sent *)

Lemma withdrawal_right i r : route_ok r → message_right i (encodeWithdrawal r).
Proof.
  intros Hr. exists (withdrawal r), []. rewrite encodeWithdrawal_eq, app_nil_r. split; [done|].
  split; [by apply withdrawal_ok|done].
Qed.

(** The advertisement of a right route is right: this node is prepended to its path. *)
Lemma advert_right i p r :
  route_right i r → p_selfID p = i → message_right i (encodeRouteWithSelf p r).
Proof.
  intros [Hok Hlen Hcost Hself Hpath] <-. exists (advert (p_selfID p) r), [].
  rewrite encodeRouteWithSelf_advert, app_nil_r. split; [done|]. split; [by apply advert_ok|]. intros _.
  unfold advert. cbn [rm_ASPath rm_Origin rm_Cost length]. split.
  - destruct Hpath as [(E & _ & Ho)|(Hnd & _ & Hl)].
    + rewrite E, Ho. by repeat split; [apply NoDup_singleton|..].
    + split; [by apply NoDup_cons|]. split; [done|].
      destruct (Hops (r_ASPath r)) as [|h hs]; done.
  - rewrite Hcost. unfold path_Len. lia.
Qed.

Lemma simple_path_head i path o : simple_path path i o → ∃ rest, path = i :: rest.
Proof. intros (_ & Hh & _). destruct path as [|h rest]; [done|]. injection Hh as ->. eauto. Qed.

(** The route made from a right advertisement is right where it is stored. *)
Lemma received_right i j msg :
  route_msg_ok msg → simple_path (rm_ASPath msg) i (rm_Origin msg) →
  rm_Cost msg = Z.of_nat (length (rm_ASPath msg)) →
  j ∉ rm_ASPath msg → (length (rm_ASPath msg) < 32)%nat →
  route_right j (received_route i (route_norm msg)).
Proof.
  intros Hok Hsp Hcost Hj Hlen.
  pose proof (received_route_ok i _ (route_norm_ok _ Hok)) as Hrok.
  rewrite received_route_eq in *. split; try done.
  - simpl. rewrite Hcost. unfold path_Len. simpl. apply wrap_small. unfold fits. lia.
  - by right.
Qed.

(** What handling the bytes of an encoded message does, on every branch. *)
Lemma handle_encoded p from msg tail sp now now' p' eff :
  route_msg_ok msg →
  HandleRouteUpdate p from (mkSlice (EncodeRouteMessage msg ++ tail) sp) now now' = Ok (p', eff) →
  (is_withdrawal msg = true ∧
     p' = set_table p (RemoveRoute (table p) (prefix_norm (rm_Prefix msg)) (rm_Origin msg)) ∧
     eff = propagateExcept p' (EncodeRouteMessage msg ++ tail) from) ∨
  (p' = p ∧ eff = []) ∨
  (is_withdrawal msg = false ∧ (p_selfID p ∉ rm_ASPath msg) ∧ (length (rm_ASPath msg) < 32)%nat ∧
     let r := received_route from (route_norm msg) in
     p' = set_table p (fst (AddRoute (table p) r now now')) ∧
     (eff = [] ∨ eff = propagateExcept p' (encodeRouteWithSelf p' r) from)).
Proof.
  intros Hok. destruct (is_withdrawal msg) eqn:Hw.
  { rewrite handle_withdrawal_eq by done. intros [= <- <-]. auto. }
  destruct (decide (p_selfID p ∈ rm_ASPath msg ∨ (32 ≤ length (rm_ASPath msg))%nat)) as [Hd|Hd].
  - unfold HandleRouteUpdate. rewrite decode_encode_route by done. cbv zeta.
    change (is_withdrawal (route_norm msg)) with (is_withdrawal msg). rewrite Hw, ASPathFromWire_hops.
    change (rm_ASPath (route_norm msg)) with (rm_ASPath msg).
    change (path_Len (mkASPath (rm_ASPath msg))) with (length (rm_ASPath msg)).
    destruct (path_Contains _ _) eqn:Hc; [intros [= <- <-]; auto|].
    destruct (Nat.leb_spec 32 (length (rm_ASPath msg))); [intros [= <- <-]; auto|].
    apply path_Contains_false in Hc. simpl in Hc. exfalso. destruct Hd; [done|lia].
  - assert ((p_selfID p ∉ rm_ASPath msg) ∧ (length (rm_ASPath msg) < 32)%nat) as [Hs Hl] by (split; [tauto|lia]).
    pose proof (handle_update_eq p from msg tail sp now now' Hok Hw Hs Hl) as H. cbv zeta in H.
    destruct (AddRoute (table p) _ now now') as [rt changed] eqn:Ha.
    rewrite H. intros [= <- <-]. right. right. split_and!; try done. cbv zeta. split; [by rewrite Ha|].
    destruct changed; [right|by left]. by rewrite encodeRouteWithSelf_advert.
Qed.

(** The messages of effects that send only [P]. *)
Lemma emitted_right i dsts eff j k m :
  (j, k, m) ∈ concat (map (emitted i dsts) eff) → j = i ∧ ∃ e, e ∈ eff ∧ (e = Broadcast m ∨ e = Send k m).
Proof.
  rewrite list_elem_of_In, in_concat. intros (l & Hl & Hm). apply list_elem_of_In in Hl, Hm.
  apply list_elem_of_fmap in Hl as (e & -> & He). destruct e as [peer m'|m']; simpl in Hm.
  - apply list_elem_of_singleton in Hm as [= -> -> ->]. eauto.
  - apply list_elem_of_fmap in Hm as (d & [= -> -> ->] & _). eauto.
Qed.

(** A step by node [i] that keeps it right and sends right messages. *)
Lemma after_right n i p dsts eff :
  net_right n → node_right i p →
  (∀ e m, e ∈ eff → (e = Broadcast m ∨ ∃ k, e = Send k m) → message_right i m) →
  net_right (after n i p dsts eff).
Proof.
  intros [Hn Hw] Hp He. split.
  - intros j q. simpl. intros [[<- <-]|[_ Hq]]%lookup_insert_Some; auto.
  - intros j k m. simpl. intros [Hin|Hin]%elem_of_app; [by eapply Hw|].
    apply emitted_right in Hin as [-> (e & Hin & Hcase)]. eapply He; [done|].
    destruct Hcase; eauto.
Qed.

Lemma local_route_right i nw : prefix_ok nw → route_right i (local_route i nw).
Proof.
  intros Hnw. split; cbn; [|unfold path_Len; cbn; lia|done|apply not_elem_of_nil|by left].
  split; cbn; unfold fits, path_Len; cbn; try done; lia.
Qed.

Lemma advertise_nets_right i nets p clock k :
  node_right i p → Forall prefix_ok nets →
  node_right i (fst (advertise_nets p nets clock k)) ∧
  directNetworks (table (fst (advertise_nets p nets clock k))) = directNetworks (table p) ∧
  ∀ e m, e ∈ snd (advertise_nets p nets clock k) → (e = Broadcast m ∨ ∃ j, e = Send j m) →
    message_right i m.
Proof.
  intros Hp Hnets. revert p k Hp. induction Hnets as [|nw nets Hnw Hnets IH]; intros p k Hp; simpl.
  { split_and!; try done. by intros e m ?%not_elem_of_nil. }
  set (r := local_route (p_selfID p) nw).
  pose proof (node_self _ _ Hp) as [Hself _].
  assert (route_right i r) as Hr by (unfold r; rewrite Hself; by apply local_route_right).
  pose proof (node_right_add i p r (clock k) (clock (S k)) Hp Hr) as Hp'.
  set (p1 := set_table p _) in *. destruct (IH p1 (S (S k)) Hp') as (H1 & H2 & H3).
  destruct (advertise_nets p1 nets clock (S (S k))) as [p2 eff]. simpl in *.
  split; [done|]. split.
  { rewrite H2. unfold p1. simpl. apply AddRoute_keeps. }
  intros e m [Hin|Hin]%elem_of_app He; [|by eapply H3].
  unfold broadcast in Hin. destruct (broadcastFunc p1); [|by apply not_elem_of_nil in Hin].
  apply list_elem_of_singleton in Hin as ->. destruct He as [[= <-]|[j [=]]].
  by apply advert_right.
Qed.

Lemma step_right n n' : net_step n n' → net_right n → net_right n'.
Proof.
  intros Hstep Hnet. pose proof Hnet as [Hn Hw].
  destruct Hstep as [i p clock order dsts Hi Hord|i p clock dsts Hi|i j m tail sp now now' p p' eff Hm Hj Hh|
    i p order peer dsts Hi Hord|i p ttl now Hi|i p peers Hi].
  - specialize (Hn _ _ Hi).
    pose proof (advertise_nets_right i _ p clock 0 Hn (node_nets _ _ Hn)) as (H1 & _ & H3).
    unfold advertise_tick, AdvertiseDirectNetworks, GetDirectNetworks in *.
    destruct (advertise_nets p _ clock 0) as [p1 eff] eqn:E. cbn [fst snd] in *.
    apply after_right; [done|done|]. intros e m [Hin|Hin]%elem_of_app He; [by eapply H3|].
    apply list_elem_of_In, in_concat in Hin as (l & Hl & Hin). apply list_elem_of_In in Hl, Hin.
    apply list_elem_of_fmap in Hl as (r & -> & Hr). apply (elem_of_GetAllRoutes _ _ _ Hord) in Hr.
    unfold broadcast in Hin. destruct (broadcastFunc p1); [|by apply not_elem_of_nil in Hin].
    apply list_elem_of_singleton in Hin as ->. destruct He as [[= <-]|[j [=]]].
    apply advert_right; [|apply H1]. by apply (node_routes _ _ H1).
  - specialize (Hn _ _ Hi).
    pose proof (advertise_nets_right i _ p clock 0 Hn (node_nets _ _ Hn)) as (H1 & _ & H3). by apply after_right.
  - specialize (Hn _ _ Hj). destruct (Hw _ _ _ Hm) as (msg & tl & -> & Hok & Hadv). rewrite <- app_assoc in Hh.
    pose proof (node_self _ _ Hn) as [Hself Hrself]. pose proof (node_table _ _ Hn) as Ht.
    apply handle_encoded in Hh as [(Hwd & -> & ->)|[[-> ->]|(Hwd & Hs & Hl & -> & Heff)]]; [| | |done].
    + apply after_right; [done| |].
      * apply node_right_set; try done; [unfold RemoveRoute; by repeat case_match| |
          unfold RemoveRoute; by repeat case_match|apply RemoveRoute_routes]. auto with go.
      * intros e m' Hin He. apply propagateExcept_elem in Hin as (peer & -> & _).
        destruct He as [[=]|[k [= _ <-]]]. exists msg, (tl ++ tail). split; [done|]. split; [done|]. congruence.
    + apply after_right; [done|done|]. by intros e m' ?%not_elem_of_nil.
    + destruct (Hadv Hwd) as [Hsp Hcost]. rewrite Hself in Hs.
      pose proof (received_right i j msg Hok Hsp Hcost Hs Hl) as Hr.
      assert (node_right j (set_table p (fst (AddRoute (table p) (received_route i (route_norm msg)) now now'))))
        as Hp' by by apply node_right_add.
      apply after_right; [done|done|]. intros e m' Hin He.
      destruct Heff as [->| ->]; [by apply not_elem_of_nil in Hin|].
      apply propagateExcept_elem in Hin as (peer & -> & _). destruct He as [[=]|[k [= _ <-]]].
      by apply advert_right.
  - specialize (Hn _ _ Hi). unfold WithdrawAllFromPeer. cbn [fst snd]. apply after_right; [done| |].
    + pose proof (node_table _ _ Hn). apply node_right_set; try done; [apply Hn|by apply sweep_ok|apply sweep_routes].
    + intros e m Hin He. apply list_elem_of_In, in_concat in Hin as (l & Hl & Hin).
      apply list_elem_of_In in Hl, Hin. apply list_elem_of_fmap in Hl as (r & -> & Hr).
      apply list_elem_of_filter in Hr as [_ Hr]. apply (elem_of_GetAllRoutes _ _ _ Hord) in Hr.
      unfold broadcast in Hin. destruct (broadcastFunc _); [|by apply not_elem_of_nil in Hin].
      apply list_elem_of_singleton in Hin as ->. destruct He as [[= <-]|[j [=]]].
      apply withdrawal_right, (node_routes _ _ Hn), Hr.
  - specialize (Hn _ _ Hi). apply after_right; [done| |by intros e m ?%not_elem_of_nil].
    pose proof (node_table _ _ Hn). apply node_right_set; try done; [apply Hn|by apply sweep_ok|apply sweep_routes].
  - specialize (Hn _ _ Hi). apply after_right; [done| |by intros e m ?%not_elem_of_nil].
    destruct Hn as [? ? ? ?]. by split.
Qed.

Lemma starts_right n : starts n → net_right n.
Proof.
  intros [Hw Hs]. split; [|rewrite Hw; by intros i j m ?%not_elem_of_nil].
  intros i p Hi. destruct (Hs _ _ Hi) as (nets & ival & Hp & Hnets).
  destruct Hp as [->| ->]; split; simpl; try done; intros r (k & rs & Hk & _); simpl in Hk; by rewrite lookup_empty in Hk.
Qed.

Lemma reachable_right n0 n : starts n0 → rtc net_step n0 n → net_right n.
Proof.
  intros H0%starts_right Hr. revert H0. induction Hr as [n|n n1 n2 Hs _ IH]; intros H0; [done|].
  apply IH. exact (step_right _ _ Hs H0).
Qed.

(** ** Properties *)

(** C3: paths are free of loops in every run of a network. Whatever the topology, however
    messages are delayed, repeated, reordered or lost, and whenever nodes advertise, lose
    peers or collect garbage, every route in the table of a node is to its own network, or
    has a path without repetition from its next hop to its origin that avoids the node, of
    fewer than 32 hops, and a cost of one more than their number. *)
Theorem network_loop_free n0 n i p r :
  starts n0 → rtc net_step n0 n → nodes n !! i = Some p → in_table (table p) r →
  let path := Hops (r_ASPath r) in
  NoDup path ∧ (i ∉ path) ∧ (length path < 32)%nat ∧ Cost r = Z.of_nat (length path) + 1 ∧
  ((path = [] ∧ NextHop r = i ∧ Origin r = i) ∨
   (head path = Some (NextHop r) ∧ last path = Some (Origin r))).
Proof.
  intros H0 Hr Hi Hin. destruct (reachable_right _ _ H0 Hr) as [Hn _].
  destruct (node_routes _ _ (Hn _ _ Hi) _ Hin) as [_ Hlen Hcost Hself Hpath].
  cbv zeta. split.
  - destruct Hpath as [(-> & _)|(Hnd & _)]; [constructor|done].
  - split_and!; try done. destruct Hpath as [?|(_ & ? & ?)]; auto.
Qed.

(** Two nodes: [node_a] announces its network and [node_b] hears it. *)
Definition net_a : Propagator := new_node node_a [example_net] 30.
Definition net_b : Propagator := new_node node_b [] 30.
Definition net0 : Network := mkNetwork (<[node_a := net_a]> {[ node_b := net_b ]}) [].
Definition a_order : list (string * list Route) :=
  map_to_list (routes (table (fst (AdvertiseDirectNetworks net_a Z.of_nat)))).
Definition a_tick : Propagator * list effect := advertise_tick net_a Z.of_nat a_order.
Definition net1 : Network := after net0 node_a (fst a_tick) [node_b] (snd a_tick).
Definition a_message : list byte := encodeRouteWithSelf net_a (local_route node_a example_net).
Definition b_handled : Propagator * list effect :=
  match HandleRouteUpdate net_b node_a (mkSlice a_message []) 7 7 with
  | Ok r => r
  | _ => (net_b, [])
  end.
Definition net2 : Network := after net1 node_b (fst b_handled) [] (snd b_handled).
Definition b_route : Route :=
  mkRoute (prefix_norm example_net) node_a (mkASPath [node_a]) 2 node_a 100 7.

Lemma net0_starts : starts net0.
Proof.
  split; [done|]. intros i p Hi. unfold net0 in Hi. cbn [nodes] in Hi.
  apply lookup_insert_Some in Hi as [[<- <-]|[_ [<- <-]%lookup_singleton_Some]].
  - exists [example_net], 30. split; [by left|]. constructor; [|constructor].
    exists 16%nat. vm_compute. split; [lia|done].
  - exists [], 30. split; [by left|constructor].
Qed.

Lemma node_a_ne_b : node_a ≠ node_b.
Proof. intros H%(f_equal bytes_of). vm_compute in H. congruence. Qed.

Lemma net1_step : net_step net0 net1.
Proof.
  apply (step_advertise net0 node_a net_a Z.of_nat a_order [node_b]).
  - apply lookup_insert_eq.
  - unfold enumerates, a_order. reflexivity.
Qed.

Lemma net1_message : (node_a, node_b, a_message) ∈ wire net1.
Proof. apply (bool_decide_unpack _). vm_compute. exact I. Qed.

Lemma net1_b : nodes net1 !! node_b = Some net_b.
Proof.
  unfold net1, after, net0. simpl. rewrite !lookup_insert_ne by apply node_a_ne_b.
  apply lookup_singleton_eq.
Qed.

Lemma net2_step : net_step net1 net2.
Proof.
  apply (step_receive net1 node_a node_b a_message [] [] 7 7 net_b (fst b_handled) (snd b_handled)).
  - exact net1_message.
  - exact net1_b.
  - vm_compute. reflexivity.
Qed.

Lemma b_has_route : in_table (table (fst b_handled)) b_route.
Proof.
  exists "10.1.0.0/16", [b_route]. split; [|left]. apply (bool_decide_unpack _). vm_compute. exact I.
Qed.

Lemma network_loop_free_witness :
  in_table (table (fst b_handled)) b_route ∧
  NoDup [node_a] ∧ (node_b ∉ [node_a]) ∧ (1 < 32)%nat ∧ 2 = Z.of_nat 1 + 1 ∧
  (([node_a] = [] ∧ node_a = node_b ∧ node_a = node_b) ∨
   (head [node_a] = Some node_a ∧ last [node_a] = Some node_a)).
Proof.
  split; [exact b_has_route|].
  apply (network_loop_free net0 net2 node_b (fst b_handled) b_route).
  - exact net0_starts.
  - apply (rtc_l _ _ net1); [exact net1_step|]. apply rtc_once. exact net2_step.
  - apply lookup_insert_eq.
  - exact b_has_route.
Defined.

(** No node of such a network crashes on what the others send: every message on the wire
    is decoded by whoever receives it, whatever follows it in the message and in the receiver's
    buffer. *)
Lemma network_no_panic n0 n i j m tail p sp now now' :
  starts n0 → rtc net_step n0 n → (i, j, m) ∈ wire n → nodes n !! j = Some p →
  is_ok (HandleRouteUpdate p i (mkSlice (m ++ tail) sp) now now').
Proof.
  intros H0 Hr Hm Hj. destruct (reachable_right _ _ H0 Hr) as [_ Hw].
  destruct (Hw _ _ _ Hm) as (msg & tl & -> & Hok & _).
  unfold HandleRouteUpdate. rewrite <- app_assoc, decode_encode_route by done.
  cbv zeta. repeat case_match; by eexists.
Qed.

Lemma network_no_panic_witness :
  is_ok (HandleRouteUpdate net_b node_a (mkSlice (a_message ++ [x00]) [xff]) 8 8).
Proof.
  apply (network_no_panic net0 net1 node_a node_b).
  - exact net0_starts.
  - apply rtc_once. exact net1_step.
  - exact net1_message.
  - exact net1_b.
Defined.
