(* ===== verification/Spread.v ===== *)
(** * How far a route can spread

    On the networks of [Network]: from any state that is right, a schedule of ticks and deliveries that
    carries the route to a network from the node attached to it along a chain of nodes. *)

From S2P Require Import Prelude Bytes Net Identity Wire WireRoute RoutePath RouteTable RouteSelect.
From S2P Require Import Propagation Network.
From stdpp Require Import options.

(** ** What a node holds and what it sends *)

(** Node [x] broadcasts, and has [r] in its table. *)
Definition holds_route (n : Network) (x : NodeID) (r : Route) : Prop :=
  ∃ p, nodes n !! x = Some p ∧ broadcastFunc p = true ∧
    get_route (table p) (IPNet_String (Destination r)) (slot_of r) = Some r.

(** The nodes of the chain after [prev] exist, broadcast, and have no route to the network of key [k] from [o] by the
    node before them. *)
Fixpoint ready (n : Network) (k : string) (o prev : NodeID) (chain : list NodeID) : Prop :=
  match chain with
  | [] => True
  | y :: chain =>
      (∃ q, nodes n !! y = Some q ∧ broadcastFunc q = true ∧ get_route (table q) k (o, prev) = None) ∧ ready n k o y chain
  end.

Lemma ready_same n n' k o prev chain :
  (∀ y, y ∈ chain → nodes n' !! y = nodes n !! y) → ready n k o prev chain → ready n' k o prev chain.
Proof.
  revert prev. induction chain as [|y chain IH]; intros prev Hs; [done|]. intros [H1 H2]. split.
  - rewrite Hs by left. done.
  - apply IH; [|done]. intros z Hz. apply Hs. by right.
Qed.

Lemma holds_in_table n x r : holds_route n x r → ∃ p, nodes n !! x = Some p ∧ in_table (table p) r.
Proof.
  intros (p & Hp & _ & Hr). exists p. split; [done|]. unfold get_route in Hr.
  destruct (routes (table p) !! _) as [rs|] eqn:E; [|done]. cbn in Hr. apply find_slot_Some in Hr as [_ Hin].
  by exists (IPNet_String (Destination r)), rs.
Qed.

(** ** Ticks *)

(** Advertising the direct networks changes the slots of the node's own routes alone. *)
Lemma advertise_nets_keeps p nets clock i :
  let p' := fst (advertise_nets p nets clock i) in
  p_selfID p' = p_selfID p ∧ broadcastFunc p' = broadcastFunc p ∧
  ∀ key slot, slot ≠ (p_selfID p, p_selfID p) → get_route (table p') key slot = get_route (table p) key slot.
Proof.
  revert p i. induction nets as [|nw nets IH]; intros p i; [done|]. cbn [advertise_nets].
  set (p1 := set_table p _). specialize (IH p1 (S (S i))). destruct (advertise_nets p1 nets clock (S (S i))) as [p2 eff].
  cbn [fst] in *. destruct IH as (E1 & E2 & E3). split_and!; [done..|]. intros key slot Hs. rewrite E3 by done.
  unfold p1. cbn [table set_table].
  assert (rt_selfID (table p) ∉ Hops (r_ASPath (local_route (p_selfID p) nw))) as Hn by apply not_elem_of_nil.
  destruct (get_route_AddRoute (table p) (local_route (p_selfID p) nw) (clock i) (clock (S i)) Hn) as [Hg _].
  rewrite Hg. rewrite decide_False; [done|]. by intros [_ ->].
Qed.

Lemma advertise_nets_sends p nets clock i nw :
  broadcastFunc p = true → nw ∈ nets →
  Broadcast (encodeRouteWithSelf p (local_route (p_selfID p) nw)) ∈ snd (advertise_nets p nets clock i).
Proof.
  revert p i. induction nets as [|nw' nets IH]; intros p i Hb Hin; [by apply not_elem_of_nil in Hin|]. cbn [advertise_nets].
  set (p1 := set_table p _). specialize (IH p1 (S (S i)) Hb). destruct (advertise_nets p1 nets clock (S (S i))) as [p2 eff].
  cbn [snd] in *. unfold broadcast. change (broadcastFunc p1) with (broadcastFunc p). rewrite Hb. apply elem_of_app.
  apply elem_of_cons in Hin as [<-|Hin]; [left; by apply list_elem_of_singleton|right]. by apply IH.
Qed.

Lemma emitted_broadcast i y e eff m : Broadcast m ∈ eff → e = (i, y, m) → e ∈ concat (map (emitted i [y]) eff).
Proof.
  intros Hin ->. apply list_elem_of_In, in_concat. exists [(i, y, m)]. split; [|by left].
  apply in_map_iff. exists (Broadcast m). split; [done|]. by apply list_elem_of_In.
Qed.

(** The order in which the table is enumerated is given by the map. *)
Definition tick_of (p : Propagator) (clock : nat → Z) : Propagator * list effect :=
  advertise_tick p clock (map_to_list (routes (table (fst (AdvertiseDirectNetworks p clock))))).

Lemma tick_step n x p clock y :
  nodes n !! x = Some p → net_step n (after n x (fst (tick_of p clock)) [y] (snd (tick_of p clock))).
Proof. intros Hx. apply step_advertise; [done|]. unfold enumerates. done. Qed.

Lemma tick_keeps p clock :
  p_selfID (fst (tick_of p clock)) = p_selfID p ∧ broadcastFunc (fst (tick_of p clock)) = broadcastFunc p ∧
  ∀ key slot, slot ≠ (p_selfID p, p_selfID p) → get_route (table (fst (tick_of p clock))) key slot = get_route (table p) key slot.
Proof.
  pose proof (advertise_nets_keeps p (GetDirectNetworks (table p)) clock 0) as H.
  unfold tick_of, advertise_tick, AdvertiseDirectNetworks. by destruct (advertise_nets _ _ _ _).
Qed.

(** A tick of the origin announces its network. *)
Lemma tick_announces p clock nw :
  broadcastFunc p = true → nw ∈ directNetworks (table p) →
  Broadcast (encodeRouteWithSelf p (local_route (p_selfID p) nw)) ∈ snd (tick_of p clock).
Proof.
  intros Hb Hin. pose proof (advertise_nets_sends p _ clock 0 nw Hb Hin) as H.
  unfold tick_of, advertise_tick, AdvertiseDirectNetworks, GetDirectNetworks in *.
  destruct (advertise_nets _ _ _ _) as [p' eff]. cbn [snd] in *. apply elem_of_app. by left.
Qed.

(** A tick of another node announces each route of its table. *)
Lemma tick_relays p clock r :
  broadcastFunc p = true → Origin r ≠ p_selfID p →
  get_route (table p) (IPNet_String (Destination r)) (slot_of r) = Some r →
  Broadcast (encodeRouteWithSelf p r) ∈ snd (tick_of p clock).
Proof.
  intros Hb Ho Hr. pose proof (advertise_nets_keeps p (GetDirectNetworks (table p)) clock 0) as (E1 & E2 & E3).
  unfold tick_of, advertise_tick, AdvertiseDirectNetworks in *. destruct (advertise_nets _ _ _ _) as [p' eff].
  cbn [fst snd] in *. specialize (E3 (IPNet_String (Destination r)) (slot_of r)). rewrite Hr in E3.
  specialize (E3 ltac:(intros [= E _]; congruence)). apply elem_of_app. right.
  apply list_elem_of_In, in_concat. exists [Broadcast (encodeRouteWithSelf p r)]. split; [|by left].
  apply in_map_iff. exists r. split.
  - unfold broadcast. rewrite E2, Hb. by rewrite !encodeRouteWithSelf_advert, E1.
  - apply list_elem_of_In. unfold get_route in E3. destruct (routes (table p') !! _) as [rs|] eqn:El; [|done].
    cbn in E3. apply find_slot_Some in E3 as [_ Hin]. unfold GetAllRoutes. apply list_elem_of_In, in_concat. exists rs.
    split; [|by apply list_elem_of_In]. apply in_map_iff. exists (IPNet_String (Destination r), rs). split; [done|].
    by apply list_elem_of_In, elem_of_map_to_list.
Qed.

(** ** One hop *)

(** What is advertised by [x] is stored by [y], when the path does not contain [y] and the slot is free. *)
Lemma hop n x y p q r clock :
  net_right n → nodes n !! x = Some p → nodes n !! y = Some q → y ≠ x → broadcastFunc q = true → route_right x r →
  Broadcast (encodeRouteWithSelf p r) ∈ snd (tick_of p clock) → y ∉ Hops (r_ASPath r) → (length (Hops (r_ASPath r)) < 31)%nat →
  get_route (table q) (IPNet_String (Destination r)) (Origin r, x) = None →
  ∃ n' r', rtc net_step n n' ∧ net_right n' ∧ holds_route n' y r' ∧
    Destination r' = prefix_norm (Destination r) ∧ Origin r' = Origin r ∧ NextHop r' = x ∧
    Hops (r_ASPath r') = x :: Hops (r_ASPath r) ∧ LocalPref r' = LocalPref r ∧
    (∀ z, z ≠ x → z ≠ y → nodes n' !! z = nodes n !! z).
Proof.
  intros Hn Hx Hy Hne Hb Hr Hsend Hnot Hlen Hfree. pose proof (node_self _ _ (proj1 Hn _ _ Hx)) as [Hsx _].
  pose proof (node_self _ _ (proj1 Hn _ _ Hy)) as [Hsy Hty].
  set (n1 := after n x (fst (tick_of p clock)) [y] (snd (tick_of p clock))).
  assert (net_step n n1) as Hs1 by by apply tick_step. pose proof (step_right _ _ Hs1 Hn) as Hn1.
  set (msg := advert x r).
  assert (route_msg_ok msg) as Hok by (apply advert_ok; [by apply right_ok with x|unfold path_Len; lia]).
  assert ((x, y, EncodeRouteMessage msg) ∈ wire n1) as Hin.
  { unfold n1, after. cbn [wire]. apply elem_of_app. right. eapply emitted_broadcast; [exact Hsend|].
    by rewrite encodeRouteWithSelf_advert, Hsx. }
  assert (nodes n1 !! y = Some q) as Hy1 by (unfold n1, after; cbn; by rewrite lookup_insert_ne).
  assert (p_selfID q ∉ rm_ASPath msg) as Hnq by (rewrite Hsy; cbn; by rewrite not_elem_of_cons).
  pose proof (handle_update_eq q x msg [] [] 0 0 Hok eq_refl Hnq ltac:(cbn; lia)) as Hh. cbv zeta in Hh.
  set (r1 := received_route x (route_norm msg)) in *. 
  assert (r1 = mkRoute (prefix_norm (Destination r)) x (mkASPath (x :: Hops (r_ASPath r))) (Cost r +u32 1) (Origin r) (LocalPref r) 0)
    as Er by apply received_route_eq.
  assert (rt_selfID (table q) ∉ Hops (r_ASPath r1)) as Hn2 by (rewrite Er, Hty; cbn; by rewrite not_elem_of_cons).
  destruct (get_route_AddRoute (table q) r1 0 0 Hn2) as [Hg _]. 
  destruct (AddRoute (table q) r1 0 0) as [rt changed] eqn:Ha. cbn [fst] in Hg.
  eexists (after n1 y (set_table q rt) [] _), (with_Timestamp r1 0). split; [|split].
  - eapply rtc_l; [exact Hs1|]. apply rtc_once. eapply step_receive; [exact Hin|exact Hy1|]. cbn. exact Hh.
  - eapply step_right; [|exact Hn1]. eapply step_receive; [exact Hin|exact Hy1|exact Hh].
  - assert (prefix_ok (Destination r)) as Hpre by (apply route_prefix, (right_ok _ _ Hr)). split.
    + exists (set_table q rt). split; [cbn; by apply lookup_insert_eq|]. split; [done|]. cbn [table set_table].
      change (slot_of (with_Timestamp r1 0)) with (slot_of r1). rewrite Hg, decide_True by done.
      replace (get_route (table q) _ (slot_of r1)) with (@None Route); [done|].
      rewrite Er. unfold slot_of. cbn. by rewrite IPNet_String_norm.
    + rewrite Er. cbn. split_and!; try done. intros z Hzx Hzy. by rewrite !lookup_insert_ne by done.
Qed.

(** ** Chains *)

Lemma length_tail_list {A} (l : list A) : length (tail l) = (length l - 1)%nat.
Proof. destruct l; cbn; lia. Qed.

(** Node [x] has learnt [r]; it spreads along the chain of nodes after it. *)
Lemma spread_chain n x r chain :
  net_right n → holds_route n x r → prefix_norm (Destination r) = Destination r → Origin r ≠ x →
  NoDup (x :: chain) → (∀ y, y ∈ chain → y ∉ Hops (r_ASPath r)) →
  (length (Hops (r_ASPath r)) + length chain ≤ 31)%nat → ready n (IPNet_String (Destination r)) (Origin r) x chain →
  ∃ n' y r', rtc net_step n n' ∧ net_right n' ∧ last (x :: chain) = Some y ∧ holds_route n' y r' ∧
    Destination r' = Destination r ∧ Origin r' = Origin r ∧ LocalPref r' = LocalPref r ∧
    Hops (r_ASPath r') = tail (reverse (x :: chain)) ++ Hops (r_ASPath r).
Proof.
  revert n x r. induction chain as [|y chain IH]; intros n x r Hn Hh Hd Ho Hnd Hnot Hlen Hready.
  { exists n, x, r. by split_and!. }
  destruct Hready as [(q & Hq & Hb & Hfree) Hready]. pose proof Hh as (p & Hp & Hbp & Hr).
  apply NoDup_cons in Hnd as [Hxy Hnd]. apply not_elem_of_cons in Hxy as [Hne Hxc].
  pose proof (node_self _ _ (proj1 Hn _ _ Hp)) as [Hsx _].
  destruct (holds_in_table _ _ _ Hh) as (p' & Hp' & Hin). assert (p' = p) as -> by congruence.
  pose proof (node_routes _ _ (proj1 Hn _ _ Hp) _ Hin) as Hright.
  destruct (hop n x y p q r Z.of_nat) as (n1 & r1 & Hrun & Hn1 & Hh1 & D1 & O1 & N1 & P1 & L1 & Hsame); try done.
  - apply tick_relays; [done|by rewrite Hsx|done].
  - apply Hnot. left.
  - cbn in Hlen. lia.
  - destruct (IH n1 y r1) as (n2 & z & r2 & Hrun2 & Hn2 & Hz & Hh2 & D2 & O2 & L2 & P2); try done.
    + by rewrite D1, Hd.
    + rewrite O1. intros E. destruct (right_path _ _ Hright) as [(_ & _ & E')|(_ & _ & Hl)]; [congruence|].
      apply (Hnot y); [left|]. rewrite <- E. by apply last_Some_elem_of.
    + intros w Hw. rewrite P1, not_elem_of_cons. split; [intros ->; done|]. apply Hnot. by right.
    + rewrite P1. cbn in *. lia.
    + rewrite D1, O1, Hd. eapply ready_same; [|exact Hready]. intros w Hw. apply NoDup_cons in Hnd as [Hy _].
      apply Hsame; [intros ->; done|by intros ->].
    + exists n2, z, r2. split_and!; [by etrans|done|done|done|congruence|congruence|congruence|].
      rewrite P2, P1, !reverse_cons. rewrite <- !app_assoc. cbn.
      destruct (reverse chain) as [|w l]; cbn; [done|]. by rewrite <- !app_assoc.
Qed.

(** ** Properties *)

(** C7: a route reaches every node along a chain of neighbours. From any state of a network that is
    right, take a node that is attached to a network and a chain of at most 31 other nodes, each once, none
    of which has yet heard of this network through the node before it. There is a schedule of ticks and
    deliveries after which the last node has a route to exactly this network, by exactly the chain
    backwards; its cost is one more than the number of hops. *)
Theorem route_spreads n o p nw chain :
  net_right n → nodes n !! o = Some p → broadcastFunc p = true → nw ∈ directNetworks (table p) →
  chain ≠ [] → NoDup (o :: chain) → (length chain ≤ 31)%nat → ready n (IPNet_String nw) o o chain →
  ∃ n' y q r, rtc net_step n n' ∧ last chain = Some y ∧ nodes n' !! y = Some q ∧ in_table (table q) r ∧
    Destination r = prefix_norm nw ∧ Origin r = o ∧ LocalPref r = 100 ∧
    Hops (r_ASPath r) = tail (reverse (o :: chain)) ∧ Cost r = Z.of_nat (length chain) + 1 ∧
    head (Hops (r_ASPath r)) = Some (NextHop r).
Proof.
  intros Hn Ho Hb Hnw Hne Hnd Hlen Hready. destruct chain as [|y chain]; [done|].
  pose proof (node_nets _ _ (proj1 Hn _ _ Ho)) as Hnets. rewrite Forall_forall in Hnets. specialize (Hnets _ Hnw).
  pose proof (node_self _ _ (proj1 Hn _ _ Ho)) as [Hso _].
  destruct Hready as [(q & Hq & Hbq & Hfree) Hready]. apply NoDup_cons in Hnd as [Hoy Hnd].
  pose proof Hoy as Hoy'. apply not_elem_of_cons in Hoy' as [Hney Hoc].
  destruct (hop n o y p q (local_route o nw) Z.of_nat) as (n1 & r1 & Hrun & Hn1 & Hh1 & D1 & O1 & _ & P1 & L1 & Hsame); try done.
  - by apply local_route_right.
  - rewrite <- Hso at 1. by apply tick_announces.
  - apply not_elem_of_nil.
  - cbn. lia.
  - cbn in D1, O1, P1, L1.
    destruct (spread_chain n1 y r1 chain) as (n2 & z & r2 & Hrun2 & Hn2 & Hz & Hh2 & D2 & O2 & L2 & P2); try done.
    + by rewrite D1, prefix_norm_idem.
    + by rewrite O1.
    + intros w Hw. rewrite P1. intros ->%list_elem_of_singleton. done.
    + rewrite P1. cbn in *. lia.
    + rewrite D1, O1, IPNet_String_norm by done. eapply ready_same; [|exact Hready]. intros w Hw.
      apply NoDup_cons in Hnd as [Hy _]. apply Hsame; by intros ->.
    + destruct (holds_in_table _ _ _ Hh2) as (q2 & Hq2 & Hin).
      assert (Hops (r_ASPath r2) = tail (reverse (o :: y :: chain))) as EP.
      { rewrite P2, P1, (reverse_cons (y :: chain)), !reverse_cons. destruct (reverse chain); [done|]. cbn. by rewrite <- app_assoc. }
      pose proof (node_routes _ _ (proj1 Hn2 _ _ Hq2) _ Hin) as Hright.
      exists n2, z, q2, r2. split_and!; [by etrans|done|done|done|congruence|congruence|congruence|done|..].
      * rewrite (right_cost _ _ Hright). unfold path_Len. rewrite EP. f_equal. f_equal. rewrite length_tail_list, length_reverse. cbn. lia.
      * destruct (right_path _ _ Hright) as [(E & _)|(_ & H & _)]; [|done]. exfalso. rewrite E in EP.
        apply (f_equal length) in EP. rewrite length_tail_list, length_reverse in EP. cbn in EP. lia.
Qed.

(** Three nodes in a row, of which the first is attached to a network. *)
Definition spread_net : Network :=
  mkNetwork (<[node_a := new_node node_a [example_net] 30]>
    (<[node_b := new_node node_b [] 30]> {[ node_c := new_node node_c [] 30 ]})) [].

Lemma spread_net_right : net_right spread_net.
Proof.
  apply starts_right. split; [done|]. intros i p Hi. cbn [nodes spread_net] in Hi.
  apply lookup_insert_Some in Hi as [[<- <-]|[_ Hi]].
  - exists [example_net], 30. split; [by left|]. constructor; [|constructor]. exists 16%nat. vm_compute. split; [lia|done].
  - apply lookup_insert_Some in Hi as [[<- <-]|[_ [<- <-]%lookup_singleton_Some]]; exists [], 30; (split; [by left|constructor]).
Qed.

Lemma route_spreads_witness :
  ∃ n' y q r, rtc net_step spread_net n' ∧ last [node_b; node_c] = Some y ∧ nodes n' !! y = Some q ∧ in_table (table q) r ∧
    Destination r = prefix_norm example_net ∧ Origin r = node_a ∧ LocalPref r = 100 ∧
    Hops (r_ASPath r) = tail (reverse (node_a :: [node_b; node_c])) ∧ Cost r = Z.of_nat (length [node_b; node_c]) + 1 ∧
    head (Hops (r_ASPath r)) = Some (NextHop r).
Proof.
  apply (route_spreads spread_net node_a (new_node node_a [example_net] 30) example_net [node_b; node_c]).
  - exact spread_net_right.
  - vm_compute. reflexivity.
  - reflexivity.
  - left.
  - discriminate.
  - apply (bool_decide_unpack _). vm_compute. exact I.
  - cbn. lia.
  - split; [exists (new_node node_b [] 30); split; [vm_compute; reflexivity|by split]|].
    split; [exists (new_node node_c [] 30); split; [vm_compute; reflexivity|by split]|done].
Defined.
