(* ===== verification/NodeRun.v ===== *)
(** * Runs of a node

    What holds of a node ([Node]) in every run, whatever its peers, its clients and the network do and however the
    steps of its goroutines interleave: its parts agree on who it is, its tables are well formed, and what it
    sends is signed. Its propagator and its gossip engine move as the nodes of [Network] and
    [GossipNet] do, so that the theorems about networks are about nodes. *)

From S2P Require Import Prelude Bytes Crypto Net Identity Wire WireRoute WireGossip WireForward.
From S2P Require Import RoutePath RouteTable Propagation Peers Gossip GossipNet Session Node Network.
From stdpp Require Import options.

Section run.
#[local] Set Default Proof Using "Type*".
Context `{Sig : Ed25519}.
Context (conn_host : ConnRef → string).
Context (id : Identity) (addr : list byte).

Abbreviation node_step := (node_step conn_host).

(** ** What is kept *)

Record engine_good (e : Engine) : Prop := {
  eg_self : e_selfID e = id_ID id ∧ pm_selfID (e_peers e) = id_ID id;
  eg_peers : pm_ok (e_peers e);
  eg_sign : signFunc e = Some (λ msg, SignMessage msg (id_PrivKey id));
  eg_addr : selfAddr e = addr }.

Record prop_good (p : Propagator) : Prop := {
  pg_self : p_selfID p = id_ID id ∧ rt_selfID (table p) = id_ID id;
  pg_table : table_ok (table p) }.

Record node_good (n : Node) : Prop := {
  ng_identity : n_identity n = id;
  ng_engine : engine_good (gossipEng n);
  ng_prop : prop_good (propagator n) }.

(** A control message is signed, but for the greeting that names this node to a peer it has dialled. *)
Definition signed (m : list byte) : Prop := ∃ body, m = SignMessage body (id_PrivKey id).

Definition greeting (m : list byte) : Prop :=
  ∃ en peers, m = EncodeGossipPush (mkGossipPush (en :: peers)) ∧ pe_ID en = id_ID id ∧ pe_State en = PeerAlive.

Definition out_good (e : neffect) : Prop := match e with NControl _ m => signed m ∨ greeting m | _ => True end.

(** What the engine says: it probes, answers a probe, or pushes its table, with this node first. *)
Definition engine_body (body : list byte) : Prop :=
  body = EncodePing ∨ body = EncodePong ∨ greeting body.

Definition writes_good (eff : list geffect) : Prop :=
  ∀ c m, ControlWrite c m ∈ eff → ∃ body, engine_body body ∧ m = SignMessage body (id_PrivKey id).

(** ** Lemmas: outputs *)

Lemma signMsg_eq e m : engine_good e → signMsg e m = SignMessage m (id_PrivKey id).
Proof. intros [_ _ Hs]. unfold signMsg. by rewrite Hs. Qed.

Lemma greeting_push e order : engine_good e → greeting (buildGossipPush e order).
Proof.
  intros [[Hs _] _ _]. unfold buildGossipPush. eexists _, _. split; [reflexivity|]. cbn. by rewrite array_copy_bytes_of.
Qed.

Lemma writes_good_one e c m : engine_good e → engine_body m → writes_good [ControlWrite c (signMsg e m)].
Proof. intros He Hm c' m' [= _ ->]%list_elem_of_singleton. exists m. by rewrite signMsg_eq. Qed.

Lemma SendTo_good e to m : engine_good e → engine_body m → writes_good (SendTo e to m).
Proof.
  intros He Hm. unfold SendTo. destruct (conns e !! _); [by apply writes_good_one|]. by intros c m' ?%not_elem_of_nil.
Qed.

Lemma Forall_concat_map {A B} (P : B → Prop) (f : A → list B) l : (∀ x, x ∈ l → Forall P (f x)) → Forall P (concat (map f l)).
Proof.
  intros H. induction l as [|x l IH]; cbn; [constructor|]. apply Forall_app. split; [apply H; left|apply IH].
  intros y Hy. apply H. by right.
Qed.

Lemma gossip_out eff : writes_good eff → Forall out_good (concat (map gossip_effect eff)).
Proof.
  intros Hw. apply Forall_concat_map. intros [c m|p] Hin; apply Forall_singleton; [|done].
  left. destruct (Hw _ _ Hin) as (body & _ & ->). by exists body.
Qed.

Lemma route_out n env e : n_identity n = id → engine_good (gossipEng n) → Forall out_good (route_effect n env e).
Proof.
  intros Hid He. destruct e as [peer m|m]; cbn [route_effect].
  - unfold sendControlMsg. destruct (getPeerConn n peer); [|constructor]. apply Forall_singleton. left. exists m. by rewrite Hid.
  - apply Forall_concat_map. intros x ([k c] & -> & _)%list_elem_of_fmap. apply Forall_singleton. left. exists m.
    by apply signMsg_eq.
Qed.

(** ** Lemmas: the engine *)

Lemma DecodeGossipPush_ok data m : DecodeGossipPush data = Ok m → gossip_push_ok m.
Proof.
  intros H. pose proof (gossip_decode_sound (contents data) (spare data)) as Hs.
  replace (mkSlice (contents data) (spare data)) with data in Hs by by destruct data. rewrite H in Hs. apply Hs.
Qed.

(** Operations of the table, one after another. *)
Lemma engine_good_peers e pm :
  engine_good e → pm_selfID pm = pm_selfID (e_peers e) → pm_ok pm → engine_good (set_peers e pm).
Proof. intros [[H1 H2] H3 H4] Hs Hok. split; try done. cbn. by rewrite Hs. Qed.

Lemma handlePush_good e m clock :
  engine_good e → gossip_push_ok m →
  engine_good (fst (handlePush e m clock)) ∧ conns (fst (handlePush e m clock)) = conns e ∧
  writes_good (snd (handlePush e m clock)).
Proof.
  intros He [Hm _]. unfold handlePush. destruct (push_entries_frame e (Peers m) clock 0) as (_ & F2 & _ & F4).
  split_and!; [|done|].
  - rewrite push_entries_set. apply engine_good_peers; [done|done|]. apply push_entries_ok; [apply He|].
    eapply Forall_impl; [exact Hm|]. by intros en [? _].
  - intros c b Hin. exfalso. pose proof (push_entries_writes e (Peers m) clock 0) as Hw.
    apply (not_elem_of_nil b). rewrite <- Hw. unfold written. apply list_elem_of_omap. by exists (ControlWrite c b).
Qed.

Lemma MarkAlive_good e from now : engine_good e → engine_good (set_peers e (MarkAlive (e_peers e) from now)).
Proof.
  intros He. apply engine_good_peers; [done|apply (run_peer_op_self _ (PAlive from now))|]. apply MarkAlive_ok, He.
Qed.

Lemma HandleMessage_good e from data clock order e' eff h :
  engine_good e → HandleMessage e from data clock order = Ok (e', eff, h) →
  engine_good e' ∧ conns e' = conns e ∧ writes_good eff.
Proof.
  intros He. unfold HandleMessage.
  assert (engine_good e ∧ conns e = conns e ∧ writes_good []) as Hsame by (split_and!; [done..|by intros c m ?%not_elem_of_nil]).
  destruct (contents data) as [|t l]; [by intros [= <- <- _]|].
  case_bool_decide.
  { destruct (DecodeGossipPush data) as [m|x|] eqn:Ed; [|by intros [= <- <- _]|done].
    pose proof (handlePush_good e m clock He (DecodeGossipPush_ok _ _ Ed)) as Hp.
    destruct (handlePush e m clock) as [e1 eff1]. intros [= <- <- _]. done. }
  case_bool_decide; [intros [= <- <- _]; split_and!; [done..|apply SendTo_good; [done|right; right; by apply greeting_push]]|].
  case_bool_decide; [intros [= <- <- _]; split_and!; [done..|apply SendTo_good; [done|right; by left]]|].
  case_bool_decide; intros [= <- <- _]; [|done].
  split_and!; [by apply MarkAlive_good|done|by intros c m ?%not_elem_of_nil].
Qed.

Lemma AddDirectConnection_good e peer conn now order :
  engine_good e →
  engine_good (fst (AddDirectConnection e peer conn now order)) ∧
  conns (fst (AddDirectConnection e peer conn now order)) = <[NodeID_String peer := conn]> (conns e) ∧
  writes_good (snd (AddDirectConnection e peer conn now order)).
Proof.
  intros He. unfold AddDirectConnection. cbn [fst snd].
  set (e1 := set_peers _ _).
  assert (engine_good e1) as He1.
  { apply engine_good_peers; [by destruct He|apply (run_peer_op_self _ (PAdd _ _))|].
    apply AddOrUpdate_ok; [apply He|]. unfold fits. cbn. lia. }
  split_and!; [done|done|]. apply writes_good_one; [done|]. right; right. by apply greeting_push.
Qed.

Lemma push_random_good e orders rng : engine_good e → writes_good (fst (pushToRandom e orders rng)).
Proof.
  intros He c m (k & to & Hin)%pushToRandom_writes. eapply SendTo_good; [done| |exact Hin]. right; right. by apply greeting_push.
Qed.

Lemma mark_good e op id0 :
  engine_good e → op = PSuspect id0 ∨ op = PDead id0 → engine_good (set_peers e (run_peer_op (e_peers e) op)).
Proof.
  intros He Hop. apply engine_good_peers; [done|apply run_peer_op_self|]. destruct He as [_ Hok _].
  destruct Hop as [-> | ->]; cbn; auto with go.
Qed.

Lemma probe_good e order rng ok :
  engine_good e → let r := fst (fst (probeRandomPeer e order rng ok)) in
  engine_good (fst r) ∧ conns (fst r) = conns e ∧ writes_good (snd r).
Proof.
  intros He. assert (writes_good []) as Hnil by by intros c m ?%not_elem_of_nil.
  unfold probeRandomPeer. case_decide; [done|]. destruct (GetAlive order !! _) as [t|]; [|done].
  destruct (conns e !! _) as [conn|]; [|done]. destruct ok; (split_and!; [|done|]); try done.
  - apply writes_good_one; [done|by left].
  - apply (mark_good e (PSuspect (ID t)) (ID t)); auto.
Qed.

Lemma probe_timeout_good e target now :
  engine_good e → engine_good (probe_timeout e target now) ∧ conns (probe_timeout e target now) = conns e.
Proof.
  intros He. unfold probe_timeout. destruct (Get _ _) as [p|]; [|done]. destruct (_ && _); [|done].
  split; [|done]. apply (mark_good e (PSuspect target) target); auto.
Qed.

(** ** Lemmas: the propagator *)

Lemma prop_good_table p rt :
  prop_good p → rt_selfID rt = rt_selfID (table p) → table_ok rt → prop_good (set_table p rt).
Proof. intros [[H1 H2] H3] Hs Hok. split; [|done]. cbn. by rewrite Hs. Qed.

Lemma RemoveRoute_self rt d o : rt_selfID (RemoveRoute rt d o) = rt_selfID rt.
Proof. unfold RemoveRoute. by repeat case_match. Qed.

Lemma HandleRouteUpdate_good p from data now now' p' eff :
  prop_good p → HandleRouteUpdate p from data now now' = Ok (p', eff) → prop_good p'.
Proof.
  intros Hp. unfold HandleRouteUpdate. destruct (DecodeRouteMessage data) as [m|x|]; [|by intros [= <- _]|done].
  destruct (is_withdrawal m).
  { intros [= <- _]. apply prop_good_table; [done|apply RemoveRoute_self|]. apply RemoveRoute_ok, Hp. }
  destruct (path_Contains _ _); [by intros [= <- _]|]. destruct (32 <=? _)%nat; [by intros [= <- _]|].
  pose proof (AddRoute_keeps (table p) (received_route from m) now now') as [E _].
  pose proof (AddRoute_ok (table p) (received_route from m) now now' (pg_table _ Hp)) as Hok.
  destruct (AddRoute _ _ _ _) as [rt changed]. destruct changed; intros [= <- _]; by apply prop_good_table.
Qed.

Lemma advertise_nets_good p nets clock i : prop_good p → prop_good (fst (advertise_nets p nets clock i)).
Proof.
  revert p i. induction nets as [|nw nets IH]; intros p i Hp; [done|]. cbn [advertise_nets].
  assert (prop_good (set_table p (fst (AddRoute (table p) (local_route (p_selfID p) nw) (clock i) (clock (S i)))))) as Hp1.
  { apply prop_good_table; [done|apply AddRoute_keeps|apply AddRoute_ok, Hp]. }
  specialize (IH _ (S (S i)) Hp1). by destruct (advertise_nets (set_table p _) nets clock (S (S i))).
Qed.

Lemma prop_good_peers p peers : prop_good p → prop_good (SetPeersFunc p peers).
Proof. intros [? ?]. by split. Qed.

(** ** Lemmas: the node *)

(** What an operation leaves: a good node and good outputs. *)
Definition good (r : Node * list neffect) : Prop := node_good (fst r) ∧ Forall out_good (snd r).

Lemma after_gossip_good n e eff :
  node_good n → engine_good e → writes_good eff → good (after_gossip n (e, eff)).
Proof. intros [H1 H2 H3] He Hw. split; [by split|]. by apply gossip_out. Qed.

Lemma after_propagator_good n env p eff : node_good n → prop_good p → good (after_propagator n env (p, eff)).
Proof.
  intros [H1 H2 H3] Hp. split; [by split|]. apply Forall_concat_map. intros x _. by apply route_out.
Qed.

Lemma after_relay_good n r : node_good n → good (after_relay n r).
Proof.
  intros [H1 H2 H3]. split; [by split|]. apply Forall_concat_map. intros [peer d|s d] _; cbn.
  - destruct (peerUDPAddrs n !! _); [|constructor]. destruct (udpLn n); [by apply Forall_singleton|constructor].
  - destruct (ClientAddr s); [by apply Forall_singleton|constructor].
Qed.

Lemma with_peers_good n env : node_good n → prop_good (with_peers n env).
Proof. intros [_ _ H]. by apply prop_good_peers. Qed.

Lemma handle_verified_good n env from data n' out :
  node_good n → handle_verified n env from data = Ok (n', out) → good (n', out).
Proof.
  intros Hn. unfold handle_verified. intros H. apply res_bind_Ok in H as ([[e eff] handled] & Hm & H).
  destruct (HandleMessage_good _ _ _ _ _ _ _ _ (ng_engine _ Hn) Hm) as (He & _ & Hw).
  pose proof (after_gossip_good n e eff Hn He Hw) as Hg.
  destruct (after_gossip n (e, eff)) as [n1 out1]. destruct handled; [by injection H as <- <-|].
  apply res_bind_Ok in H as (t & _ & H). destruct (decide (t = MsgRouteUpdate)).
  { apply res_bind_Ok in H as ([p effp] & Hp & H). apply HandleRouteUpdate_good in Hp; [|apply with_peers_good, Hg].
    pose proof (after_propagator_good n1 env p effp (proj1 Hg) Hp) as Hr. apply Ok_inj in H. by rewrite H in Hr. }
  destruct (decide (t = MsgUDPForward)).
  - apply res_bind_Ok in H as (r & _ & H). pose proof (after_relay_good n1 r (proj1 Hg)) as Hr.
    apply Ok_inj in H. by rewrite H in Hr.
  - injection H as <- <-. split; [apply Hg|constructor].
Qed.

Lemma dispatch_good n env from data n' out :
  node_good n → dispatchControlMsg n env from data = Ok (n', out) → good (n', out).
Proof.
  intros Hn. unfold dispatchControlMsg. case_decide; [intros [= <- <-]; by split|].
  destruct (authenticate n from data); [by apply handle_verified_good|]. intros [= <- <-]. by split.
Qed.

Lemma greeting_hello n env : node_good n → greeting (buildSelfGossipPush n env).
Proof.
  intros [H1 _ _]. unfold buildSelfGossipPush. eexists _, _. split; [reflexivity|]. cbn. by rewrite array_copy_bytes_of, H1.
Qed.

(** A node that differs in its connections and addresses only. *)
Lemma node_good_same n n' :
  n_identity n' = n_identity n → gossipEng n' = gossipEng n → propagator n' = propagator n → node_good n → node_good n'.
Proof. intros E1 E2 E3 [H1 H2 H3]. split; congruence. Qed.

Lemma claim_good n keep peer conn n' : claim n keep peer conn = Some n' → node_good n → node_good n'.
Proof.
  unfold claim. destruct (getPeerConn n peer); [destruct (keep _); [done|]|]; intros [= <-]; by apply (node_good_same n).
Qed.

Lemma conn_step_good n env s : node_good n → good (conn_step_do n env s).
Proof.
  intros Hn. destruct s as [peer a|conn|peer conn| |conn|peer conn|peer|peer|peer]; cbn [conn_step_do].
  - split; [|constructor]. cbn. unfold registerPeerUDPAddr. destruct a; [by apply (node_good_same n)|done].
  - split; [done|]. apply Forall_singleton. right. by apply greeting_hello.
  - destruct (AddDirectConnection_good _ peer conn (clock env 0%nat) (peer_order env) (ng_engine _ Hn)) as (He & _ & Hw).
    destruct (AddDirectConnection _ _ _ _ _) as [e eff]. by apply after_gossip_good.
  - pose proof (advertise_nets_good (propagator n) (GetDirectNetworks (table (propagator n))) (λ i, clock env (S i)) 0 (ng_prop _ Hn)) as Hp.
    unfold AdvertiseDirectNetworks. destruct (advertise_nets _ _ _ _) as [p eff]. by apply after_propagator_good.
  - split; [done|by apply Forall_singleton].
  - split; [by apply (node_good_same n)|by apply Forall_singleton].
  - split; [|constructor]. destruct Hn as [H1 H2 H3]. split; try done. by destruct H2.
  - split; [|constructor]. destruct Hn as [H1 H2 H3]. split; try done.
    apply engine_good_peers; [done|apply (run_peer_op_self _ (PDead peer))|]. apply MarkDead_ok, H2.
  - apply after_propagator_good; [done|]. apply prop_good_table; [apply Hn|done|]. apply sweep_ok, Hn.
Qed.

Lemma node_effects_good n o n' out : node_good n → node_effects conn_host n o = Ok (n', out) → good (n', out).
Proof.
  intros Hn. destruct o as [env from data|keep peer conn|env s|env hop t p|env remote data|now|now|env|env orders rng|env rng ok|
    target now]; cbn [node_effects].
  - by apply dispatch_good.
  - destruct (claim n keep peer conn) as [n1|] eqn:Ec; intros [= <- <-]; (split; [|by repeat constructor]); [|done].
    by eapply claim_good.
  - intros Hr%Ok_inj. rewrite <- Hr. by apply conn_step_good.
  - unfold socks_udp_forward. destruct (CreateSession _ _ _ _ _ _) as [r s]. intros Hr%Ok_inj. rewrite <- Hr. by apply after_relay_good.
  - unfold udp_datagram. destruct (udp_sender conn_host n env remote) as [[n1 peer]|] eqn:Es; [|intros [= <- <-]; by split].
    assert (node_good n1) as Hn1.
    { unfold udp_sender in Es. destruct (list_find _ (udp_order env)) as [[? [? ?]]|]; [by injection Es as <- _|].
      destruct (list_find _ (peerconn_order env)) as [[? [? ?]]|]; [|done]. injection Es as <- _. by destruct Hn. }
    intros Hr. apply res_bind_Ok in Hr as (r & _ & Hr). apply Ok_inj in Hr. rewrite <- Hr. by apply after_relay_good.
  - intros [= <- <-]. split; [by destruct Hn|constructor].
  - intros [= <- <-]. split; [|constructor]. destruct Hn as [H1 H2 H3]. split; try done. cbn.
    apply prop_good_table; [done|done|]. apply sweep_ok, H3.
  - unfold advertise, advertise_tick, AdvertiseDirectNetworks.
    pose proof (advertise_nets_good (propagator n) (GetDirectNetworks (table (propagator n))) (clock env) 0 (ng_prop _ Hn)) as Hp.
    destruct (advertise_nets _ _ _ _) as [p eff]. intros Hr%Ok_inj. rewrite <- Hr. by apply after_propagator_good.
  - intros Hr%Ok_inj. rewrite <- Hr. apply after_gossip_good; [done|apply Hn|]. by apply push_random_good, Hn.
  - intros Hr%Ok_inj. rewrite <- Hr. unfold gossip_probe.
    assert (∀ ok, good (after_gossip n (fst (fst (probeRandomPeer (gossipEng n) (peer_order env) rng ok))))) as Hp.
    { intros b. destruct (probe_good _ (peer_order env) rng b (ng_engine _ Hn)) as (He & _ & Hw).
      destruct (fst (fst (probeRandomPeer _ _ _ _))) as [e eff]. by apply after_gossip_good. }
    destruct ok; [apply Hp|]. destruct (perform _ _); apply Hp.
  - intros [= <- <-]. split; [|constructor]. destruct (probe_timeout_good _ target now (ng_engine _ Hn)) as [He _].
    destruct Hn. by split.
Qed.

Lemma node_step_good n o n' out : node_good n → node_step n o = Ok (n', out) → good (n', out).
Proof. intros Hn [E _]%node_step_effects. by eapply node_effects_good. Qed.

(** ** Runs *)

(** The state and the effects of a run, unless it ends in a panic. *)
Fixpoint node_exec (n : Node) (ops : list node_op) : res wire_error (Node * list neffect) :=
  match ops with
  | [] => Ok (n, [])
  | o :: ops =>
      '(n, out) ← node_step n o;
      '(n, out') ← node_exec n ops;
      Ok (n, out ++ out')
  end.

(** The operation hands over a message that is, when its signature is taken off, empty or an IPv6 route update that is
    cut short. *)
Definition poison (n : Node) (o : node_op) : Prop :=
  ∃ env from data m, o = ODispatch env from data ∧ authenticate n from data = Some m ∧
     (contents m = [] ∨
      ((34 ≤ length (contents m) < 46)%nat ∧ contents m !! 0%nat = Some MsgRouteUpdate ∧ contents m !! 3%nat = Some x06)).

(** What a node does not survive: such a message, and the use of a control stream that its peer has closed. *)
Definition fatal (n : Node) (o : node_op) : Prop :=
  poison n o ∨
  ∃ n' out e conn, node_effects conn_host n o = Ok (n', out) ∧ e ∈ out ∧ stream_of e = Some conn ∧ op_gone o conn = true.

Lemma node_effects_fails n o :
  match node_effects conn_host n o with Ok _ => True | Err _ => False | Panic => poison n o end.
Proof.
  destruct o as [env from data|keep peer conn|env s|env hop t p|env remote data|now|now|env|env orders rng|env rng ok|
    target now]; cbn [node_effects]; try done.
  - unfold dispatchControlMsg. case_decide; [done|]. destruct (authenticate n from data) as [m|] eqn:Ha; [|done].
    destruct (handle_verified n env from m) as [x|x|] eqn:E; [done|by apply handle_verified_no_err in E|].
    exists env, from, data, m. split_and!; [done|done|]. apply handle_verified_panic in E as [?|?%route_decode_panic_iff]; auto.
  - unfold udp_datagram. destruct (udp_sender _ _ _ _) as [[n1 peer]|]; [|done].
    destruct (HandleIncoming _ _ _ _) as [r|x|] eqn:E; cbn [mbind res_bind]; [done| |by apply HandleIncoming_no_panic in E].
    unfold HandleIncoming in E. by repeat (case_match; try done).
Qed.

Lemma node_step_fails n o :
  match node_step n o with Ok _ => True | Err _ => False | Panic => fatal n o end.
Proof.
  unfold node_step. pose proof (node_effects_fails n o) as H. destruct (node_effects conn_host n o) as [[n' out]|x|] eqn:E;
    cbn [mbind res_bind]; [|done|by left].
  destruct (perform_cases (op_gone o) (n', out)) as [[-> _]|[-> (e & conn & Hin & Hs & Hg)]]; [done|].
  right. by exists n', out, e, conn.
Qed.

Lemma New_good nets cfg adv ttl : node_good (New id addr nets cfg adv ttl).
Proof. split; try done; split; try done; apply map_Forall_empty. Qed.

Lemma node_exec_snoc n ops n1 out1 o :
  node_exec n ops = Ok (n1, out1) →
  node_exec n (ops ++ [o]) = match node_step n1 o with Ok (n2, out2) => Ok (n2, out1 ++ out2) | Err e => Err e | Panic => Panic end.
Proof.
  revert n out1. induction ops as [|o' ops IH]; intros n out1; cbn [node_exec app].
  - intros [= <- <-]. destruct (node_step n o) as [[n2 out2]| |]; cbn; [by rewrite app_nil_r|done..].
  - destruct (node_step n o') as [[n2 out2]| |]; cbn [mbind res_bind]; [|done..].
    destruct (node_exec n2 ops) as [[n3 out3]| |] eqn:E; cbn [mbind res_bind]; [|done..]. intros [= <- <-].
    rewrite (IH _ _ E). destruct (node_step n3 o) as [[n4 out4]| |]; cbn [mbind res_bind]; [by rewrite app_assoc|done..].
Qed.
(** The steps of a handler that nobody interrupts, as operations of the node. *)
Lemma perform_app {S} gone (x y : S) (out1 out2 : list neffect) :
  perform gone (y, out1 ++ out2) =
  (r ← perform gone (x, out1); r' ← perform gone (y, out2); Ok (fst r', snd r ++ snd r')).
Proof.
  unfold perform. cbn [snd]. rewrite existsb_app. by destruct (existsb _ out1); [|destruct (existsb _ out2)].
Qed.

Lemma conn_steps_exec n env ss : node_exec n (map (OStep env) ss) = perform (cs_gone env) (conn_steps n env ss).
Proof.
  revert n. induction ss as [|s ss IH]; intros n; [done|]. cbn [map node_exec conn_steps]. unfold Node.node_step.
  cbn [node_effects op_gone mbind res_bind]. destruct (conn_step_do n env s) as [n1 out1] eqn:E.
  specialize (IH n1). destruct (conn_steps n1 env ss) as [n2 out2]. rewrite (perform_app _ n1).
  destruct (perform_cases (cs_gone env) (n1, out1)) as [[-> _]|[-> _]]; cbn [mbind res_bind fst snd]; [|done].
  rewrite IH. by destruct (perform_cases (cs_gone env) (n2, out2)) as [[-> _]|[-> _]].
Qed.
End run.

(** ** An interleaving

    The node and its engine each keep the connections of the peers, and a handler changes one after the other. Here
    the connection to a peer is lost, a new one is registered while the handler of the old one is between two of its
    steps, and that handler then removes the new one from the engine: the node sends over a
    connection that the engine no longer knows, so that the peer gets no more gossip until it connects again. *)

Example conns_disagree :
  let c1 := mkConnRef 1 [x62] in let c2 := mkConnRef 2 [x62] in let b := RouteTable.node_b in
  ∃ n out,
    node_exec (Sig := toy_ed25519) (λ _, ""%string) example_node
      ([OClaim (λ _, false) b c1; OStep example_env (SAddConn b c1)] ++
       [OStep example_env (SForget b c1)] ++
       [OClaim (λ _, false) b c2; OStep example_env (SAddConn b c2)] ++
       map (OStep example_env) [SRemoveConn b; SMarkDead b; SWithdraw b]) = Ok (n, out) ∧
    getPeerConn n b = Some c2 ∧ conns (gossipEng n) !! NodeID_String b = None.
Proof. eexists _, _. split; [vm_compute; reflexivity|]. split; vm_compute; reflexivity. Qed.

(** ** Properties *)

