(* ===== verification/Overlay.v ===== *)
(** * The overlay: nodes that exchange control messages

    Every node is a whole [Node], with its connections, its engine and its relay. What the nodes write on
    their control streams stays on the wire and is read late, in any order, repeatedly or never, possibly with
    more behind it in the same read. The overlay refines [Network]: signatures, gossip, greetings, the
    registration of connections and everything else in between leave of it the exchange of routes. *)

From S2P Require Import Prelude Bytes Crypto Net Identity Wire WireRoute WireGossip WireForward.
From S2P Require Import RoutePath RouteTable RouteSelect Propagation Peers Gossip GossipNet Session Node Network NodeRun.
From stdpp Require Import options.

Section overlay.
#[local] Set Default Proof Using "Type*".
Context `{Sig : Ed25519} `{SigL : !Ed25519Laws Sig}.
(** The node at the other end of a connection of a node, and the host it has there. *)
Context (conn_peer : NodeID → ConnRef → NodeID) (conn_host : NodeID → ConnRef → string).

Record Overlay := mkOverlay {
  o_nodes : gmap NodeID Node;
  o_wire : list (NodeID * NodeID * list byte) }.

(** What node [i] puts on the wire. *)
Definition sent (i : NodeID) (e : neffect) : list (NodeID * NodeID * list byte) :=
  match e with NControl conn m => [(i, conn_peer i conn, m)] | _ => [] end.

(** What can happen at node [j]: it reads from a connection what the node at its other end has written to it; it registers
    a connection for the node at its other end; the enumerations are those of the table; and nobody closes a control
    stream, as none of the nodes does. The handlers of connections, the timers, the clients and the datagrams come in
    at any time. *)
Definition possible (o : Overlay) (j : NodeID) (n : Node) (op : node_op) : Prop :=
  (∀ conn, op_gone op conn = false) ∧
  match op with
  | ODispatch _ from data => ∃ m tail, (from, j, m) ∈ o_wire o ∧ contents data = m ++ tail
  | OClaim _ id conn => conn_peer j conn = id
  | OStep env (SWithdraw _) => enumerates (route_order env) (table (propagator n))
  | OAdvertise env => enumerates (route_order env) (table (fst (AdvertiseDirectNetworks (propagator n) (clock env))))
  | _ => True
  end.

Inductive o_step (o : Overlay) : Overlay → Prop :=
| o_step_intro i n op n' out :
    o_nodes o !! i = Some n → possible o i n op → node_step (conn_host i) n op = Ok (n', out) →
    o_step o (mkOverlay (<[i := n']> (o_nodes o)) (o_wire o ++ concat (map (sent i) out))).

(** At the start the nodes are new; their listen addresses are not shorter than [":9443"]. *)
Definition o_starts (o : Overlay) : Prop :=
  o_wire o = [] ∧
  ∀ i n, o_nodes o !! i = Some n →
    ∃ idt addr nets cfg adv ttl, n = New idt addr nets cfg adv ttl ∧ id_ID idt = i ∧ (3 < length addr)%nat ∧ Forall prefix_ok nets.

(** ** What is on the wire *)

(** A message about anything but routes: its reader takes nothing else for the name of its sender. *)
Record gossip_from (i : NodeID) (m : list byte) : Prop := {
  gf_type : ∃ t l, m = t :: l ∧ t ≠ MsgRouteUpdate;
  gf_length : (sigSize < length m)%nat;
  gf_names : ∀ tail sp id, identify (mkSlice (m ++ tail) sp) = Ok (Some id) → id = i }.

(** A message of the network [t] with a signature, or one about anything but routes. *)
Definition carried (t : Network) (i j : NodeID) (m : list byte) : Prop :=
  (∃ body sig, m = body ++ sig ∧ length sig = sigSize ∧ (i, j, body) ∈ wire t) ∨ gossip_from i m.

Lemma carried_mono t t' i j m : (∀ x, x ∈ wire t → x ∈ wire t') → carried t i j m → carried t' i j m.
Proof. intros Hw [(body & sig & ? & ? & ?)|?]; [left; exists body, sig; auto|by right]. Qed.

(** The first entry of a push can be read off its bytes. *)
Lemma push_first en es en' es' t t' :
  EncodeGossipPush (mkGossipPush (en :: es)) ++ t = EncodeGossipPush (mkGossipPush (en' :: es')) ++ t' → pe_ID en = pe_ID en'.
Proof.
  intros E. apply (f_equal (take 16 ∘ drop 3)) in E. cbn -[be_put take drop] in E. apply array_eq.
  unfold encode_peer in E. cbn [drop] in E. rewrite <- !app_assoc in E.
  rewrite !(drop_app_length' (be_put 2 _)), !(take_app_length' (bytes_of _)) in E by (by rewrite length_be_put || by rewrite length_array).
  done.
Qed.

Lemma identify_push en es tail sp id :
  identify (mkSlice (EncodeGossipPush (mkGossipPush (en :: es)) ++ tail) sp) = Ok (Some id) → id = pe_ID en.
Proof.
  unfold identify. set (l := EncodeGossipPush (mkGossipPush (en :: es)) ++ tail). cbn [contents].
  pose proof (gossip_decode_sound l sp) as Hs. destruct l as [|b l'] eqn:El; [done|]. case_decide; [|done].
  destruct (DecodeGossipPush _) as [[[|en' es']]|x|]; [done| |done|done]. destruct Hs as [_ [rest E]].
  destruct (IsZero _); [done|]. intros [= <-]. rewrite array_copy_bytes_of. rewrite <- El in E. symmetry. by eapply push_first.
Qed.

Lemma length_push en es : (61 + length (pe_Addr en) ≤ length (EncodeGossipPush (mkGossipPush (en :: es))))%nat.
Proof.
  unfold EncodeGossipPush. cbn [Peers map concat length]. rewrite !length_app, length_be_put, length_encode_peer. lia.
Qed.

(** What an engine says, signed. *)
Lemma engine_body_from idt body :
  engine_body idt body → gossip_from (id_ID idt) (SignMessage body (id_PrivKey idt)).
Proof.
  unfold SignMessage. intros Hb.
  assert (length (ed_Sign (id_PrivKey idt) body) = sigSize) as Hl by apply length_sign.
  destruct Hb as [->|[->|(en & es & -> & Hid & _)]].
  1,2: split; [by eexists _, _|rewrite length_app, Hl; cbn; lia|by intros tail sp id].
  split; [by eexists _, _|rewrite length_app, Hl; pose proof (length_push en es); lia|].
  intros tail sp id. rewrite <- app_assoc. intros ->%identify_push. done.
Qed.

(** The greeting of a node whose address is not too short. *)
Lemma hello_from idt addr n env :
  node_good idt addr n → (3 < length addr)%nat → gossip_from (id_ID idt) (buildSelfGossipPush n env).
Proof.
  intros [Hid [_ _ _ Ha] _] Hl. unfold buildSelfGossipPush. split; [by eexists _, _| |].
  - pose proof (length_push (mkPeerEntry (array_copy 16 (bytes_of (id_ID (n_identity n)))) (array_copy 32 (id_PubKey (n_identity n)))
      PeerAlive 1 (selfAddr (gossipEng n))) (map wire_entry (GetAll (hello_order env)))) as H.
    cbn [pe_Addr] in H. rewrite Ha in H. unfold sigSize, SignatureSize. rewrite Ha. lia.
  - intros tail sp id ->%identify_push. cbn. by rewrite array_copy_bytes_of, Hid.
Qed.

(** ** The steps of one node, as steps of the network *)

(** The connections of node [i] are registered for the nodes at their other ends. *)
Definition conns_right (i : NodeID) (n : Node) : Prop :=
  ∀ id conn, peerConns n !! NodeID_String id = Some conn → conn_peer i conn = id.

Definition out_ok (t : Network) (i : NodeID) (e : neffect) : Prop :=
  match e with NControl conn m => carried t i (conn_peer i conn) m | _ => True end.

(** The network goes on by steps of node [i], which becomes [p']. *)
Record moves (i : NodeID) (t t' : Network) (p' : Propagator) : Prop := {
  mv_steps : rtc net_step t t';
  mv_nodes : nodes t' = <[i := p']> (nodes t);
  mv_wire : ∀ x, x ∈ wire t → x ∈ wire t' }.

(** What a node becomes and sends has a counterpart in the network. *)
Definition goes (i : NodeID) (t : Network) (r : Node * list neffect) : Prop :=
  ∃ t', moves i t t' (propagator (fst r)) ∧ conns_right i (fst r) ∧ Forall (out_ok t' i) (snd r).

Lemma moves_stay i t p : nodes t !! i = Some p → moves i t t p.
Proof. intros Hi. split; [done|by rewrite insert_id|done]. Qed.

Lemma moves_step i t p' dsts eff : net_step t (after t i p' dsts eff) → moves i t (after t i p' dsts eff) p'.
Proof. intros Hs. split; [by apply rtc_once|done|]. intros x Hx. apply elem_of_app. by left. Qed.

Lemma moves_trans i t t1 t2 p1 p2 : moves i t t1 p1 → moves i t1 t2 p2 → moves i t t2 p2.
Proof.
  intros [S1 N1 W1] [S2 N2 W2]. split; [by etrans| |auto]. by rewrite N2, N1, insert_insert_eq.
Qed.

Lemma moves_lookup i t t' p : moves i t t' p → nodes t' !! i = Some p.
Proof. intros [_ -> _]. by apply lookup_insert_eq. Qed.

Lemma out_ok_mono t t' i out : (∀ x, x ∈ wire t → x ∈ wire t') → Forall (out_ok t i) out → Forall (out_ok t' i) out.
Proof.
  intros Hw Ho. eapply Forall_impl; [exact Ho|]. intros [] H; try done. by eapply carried_mono.
Qed.

(** An operation that leaves the propagator alone. *)
Lemma goes_stay i t n' out :
  nodes t !! i = Some (propagator n') → conns_right i n' → Forall (out_ok t i) out → goes i t (n', out).
Proof. intros Hi Hc Ho. exists t. split; [by apply moves_stay|done]. Qed.

(** One operation after another. *)
Lemma goes_app i t n1 out1 n2 out2 :
  goes i t (n1, out1) → (∀ t1, nodes t1 !! i = Some (propagator n1) → (∀ x, x ∈ wire t → x ∈ wire t1) →
    conns_right i n1 → goes i t1 (n2, out2)) → goes i t (n2, out1 ++ out2).
Proof.
  intros (t1 & Hm & Hc & Ho) H. destruct (H t1) as (t2 & Hm2 & Hc2 & Ho2); [by eapply moves_lookup|apply Hm|done|].
  exists t2. split_and!; [by eapply moves_trans|done|]. apply Forall_app. split; [|done].
  eapply out_ok_mono; [apply Hm2|done].
Qed.

Lemma gossip_goes i idt addr t n e eff :
  node_good idt addr n → id_ID idt = i → conns_right i n → nodes t !! i = Some (propagator n) → writes_good idt eff →
  goes i t (after_gossip n (e, eff)).
Proof.
  intros Hn <- Hc Hi Hw. apply goes_stay; [done|done|]. apply Forall_concat_map. intros [c m|p] Hin; apply Forall_singleton; [|done].
  right. destruct (Hw _ _ Hin) as (body & Hb & ->). by apply engine_body_from.
Qed.

Lemma relay_goes i t n r : conns_right i n → nodes t !! i = Some (propagator n) → goes i t (after_relay n r).
Proof.
  intros Hc Hi. apply goes_stay; [done|done|]. apply Forall_concat_map. intros [peer d|s d] _; cbn.
  - destruct (peerUDPAddrs n !! _); [|constructor]. destruct (udpLn n); [by apply Forall_singleton|constructor].
  - destruct (ClientAddr s); [by apply Forall_singleton|constructor].
Qed.

(** What the propagator sends leaves through the connections of the node, signed. *)
Lemma propagator_goes i idt addr t t' n env p eff dsts :
  node_good idt addr n → id_ID idt = i → conns_right i n → moves i t t' p →
  (∀ x, x ∈ concat (map (emitted i dsts) eff) → x ∈ wire t') →
  (∀ m, Propagation.Broadcast m ∈ eff → dsts = map (λ c, conn_peer i (snd c)) (conn_order env)) →
  goes i t (after_propagator n env (p, eff)).
Proof.
  intros Hn Hid Hc Hm Hw Hb. exists t'. split_and!; [done|done|]. cbn [snd fst after_propagator]. apply Forall_concat_map.
  assert (∀ e x, e ∈ eff → x ∈ emitted i dsts e → x ∈ wire t') as Hw'.
  { intros e x He Hx. apply Hw, list_elem_of_In, in_concat. exists (emitted i dsts e). split; [|by apply list_elem_of_In].
    apply in_map_iff. exists e. split; [done|by apply list_elem_of_In]. }
  intros [peer m|m] Hin; cbn [route_effect].
  - unfold sendControlMsg. destruct (getPeerConn _ peer) as [conn|] eqn:Hg; [|constructor]. apply Forall_singleton. left.
    exists m, (ed_Sign (id_PrivKey (n_identity n)) m). split_and!; [done|apply length_sign|].
    rewrite (Hc _ _ Hg). apply (Hw' _ _ Hin). by apply list_elem_of_singleton.
  - apply Forall_concat_map. intros x ([k conn] & -> & Hx)%list_elem_of_fmap. apply Forall_singleton. left.
    exists m, (ed_Sign (id_PrivKey idt) m). cbn [gossipEng set_propagator].
    rewrite (signMsg_eq idt addr) by apply Hn. split_and!; [done|apply length_sign|].
    apply (Hw' _ _ Hin). rewrite (Hb _ Hin). apply list_elem_of_fmap. exists (conn_peer i conn). split; [done|].
    apply list_elem_of_fmap. by exists (k, conn).
Qed.

(** What is left of a message that has been read, once its signature is taken off: the message of the network with
    something behind it, or not about routes. *)
Lemma read_cases t i n from data d m tail :
  authenticate n from data = Some d → carried t from i m → contents data = m ++ tail →
  (∃ body tail', (from, i, body) ∈ wire t ∧ contents d = body ++ tail') ∨
  (∃ b l, contents d = b :: l ∧ b ≠ MsgRouteUpdate).
Proof.
  intros Ha Hm E.
  assert (∃ end', contents data = contents d ++ end' ∧ (length end' = 0 ∨ length end' = sigSize)%nat) as (end' & E' & Hl).
  { destruct (authenticate_prefix _ _ _ _ Ha) as [->|(sig & -> & Hs)]; [exists []; rewrite app_nil_r; auto|exists sig; auto]. }
  rewrite E in E'. destruct Hm as [(body & sig & -> & Hs & Hin)|Hg].
  - left. exists body. rewrite <- app_assoc in E'. apply app_eq_inv in E' as [(k & Eb & E2)|(k & -> & E2)].
    + exists []. split; [done|]. rewrite app_nil_r, Eb. apply (f_equal length) in E2. rewrite !length_app in E2.
      destruct k; [by rewrite app_nil_r|cbn in E2; lia].
    + by exists k.
  - right. destruct (gf_type _ _ Hg) as (b & l & -> & Hb). pose proof (gf_length _ _ Hg) as Hlen.
    destruct (contents d) as [|b' l'] eqn:Ed.
    + apply (f_equal length) in E'. cbn [length app] in *. rewrite length_app in E'. lia.
    + injection E' as <- _. by exists b, l'.
Qed.

Lemma HandleRouteUpdate_moves t i p peers from body tail d now now' p' eff :
  (from, i, body) ∈ wire t → nodes t !! i = Some p → contents d = body ++ tail →
  HandleRouteUpdate (SetPeersFunc p peers) from d now now' = Ok (p', eff) →
  ∃ t', moves i t t' p' ∧ ∀ x, x ∈ concat (map (emitted i []) eff) → x ∈ wire t'.
Proof.
  intros Hin Hi E Hh. set (t1 := after t i (SetPeersFunc p peers) [] []).
  assert (moves i t t1 (SetPeersFunc p peers)) as M1 by by apply moves_step, step_peers.
  assert (moves i t1 (after t1 i p' [] eff) p') as M2.
  { apply moves_step. apply (step_receive t1 from i body tail (spare d) now now' (SetPeersFunc p peers)).
    - by apply M1.
    - by eapply moves_lookup.
    - rewrite <- E. by destruct d. }
  eexists. split; [by eapply moves_trans|]. intros x Hx. apply elem_of_app. by right.
Qed.

Lemma dispatch_goes i idt addr t n env from data n' out m tail :
  node_good idt addr n → id_ID idt = i → conns_right i n → nodes t !! i = Some (propagator n) →
  carried t from i m → contents data = m ++ tail → dispatchControlMsg n env from data = Ok (n', out) → goes i t (n', out).
Proof.
  intros Hn Hid Hc Hi Hm E. assert (goes i t (n, [])) as Hsame by by apply goes_stay.
  unfold dispatchControlMsg. case_decide as Hnil; [by intros [= <- <-]|].
  destruct (authenticate n from data) as [d|] eqn:Ha; [|by intros [= <- <-]].
  pose proof (read_cases _ _ _ _ _ _ _ _ Ha Hm E) as Hd. unfold handle_verified.
  destruct (HandleMessage_cases (gossipEng n) from d (clock env) (peer_order env)) as [(e' & eff & Eh)|[Eh _]].
  - rewrite Eh. cbn [mbind res_bind]. destruct (HandleMessage_good idt addr _ _ _ _ _ _ _ _ (ng_engine _ _ _ Hn) Eh) as (_ & _ & Hw).
    pose proof (gossip_goes i idt addr t n e' eff Hn Hid Hc Hi Hw) as Hg. destruct (after_gossip n (e', eff)) as [n1 out1].
    by intros [= <- <-].
  - rewrite Eh. cbn [mbind res_bind]. assert (after_gossip n (gossipEng n, []) = (n, [])) as -> by by destruct n.
    intros H. apply res_bind_Ok in H as (b & Hb & H). destruct (decide (b = MsgRouteUpdate)) as [->|].
    + destruct Hd as [(body & tail' & Hin & Ed)|(b' & l & Ed & Hne)]; [|unfold at_ in Hb; rewrite Ed in Hb; by apply Ok_inj in Hb].
      apply res_bind_Ok in H as ([p' eff] & Hp & H). apply Ok_inj in H. rewrite <- H.
      destruct (HandleRouteUpdate_moves t i (propagator n) _ from body tail' d _ _ p' eff Hin Hi Ed Hp) as (t' & Hmv & Hw).
      apply (propagator_goes i idt addr t t' n env p' eff []); try done.
      intros m' Hm'. apply HandleRouteUpdate_cases in Hp as [_ Hp]. destruct (Hp _ Hm') as (? & ? & [=] & _).
    + destruct (decide (b = MsgUDPForward)); [|by injection H as <- <-].
      apply res_bind_Ok in H as (r & _ & H). apply Ok_inj in H. rewrite <- H. by apply relay_goes.
Qed.

(** *** Connections *)

Lemma conns_right_claim i n keep peer conn n' :
  conns_right i n → conn_peer i conn = peer → claim n keep peer conn = Some n' → conns_right i n'.
Proof.
  intros Hc Hp Hn id c.
  assert (peerConns n' = <[NodeID_String peer := conn]> (peerConns n)) as ->.
  { unfold claim in Hn. by destruct (getPeerConn n peer); [destruct (keep _)|]; simplify_eq. }
  rewrite lookup_insert. case_decide as E; [apply (inj NodeID_String) in E as ->; by intros [= <-]|apply Hc].
Qed.

Lemma claim_propagator n keep peer conn n' : claim n keep peer conn = Some n' → propagator n' = propagator n.
Proof. unfold claim. by destruct (getPeerConn n peer); [destruct (keep _)|]; intros [= <-]. Qed.

Lemma goes_out i t n e out : out_ok t i e → goes i t (n, out) → goes i t (n, e :: out).
Proof.
  intros He (t' & Hm & Hc & Ho). exists t'. split_and!; [done..|]. apply Forall_cons. split; [|done].
  destruct e; try done. eapply carried_mono; [apply Hm|done].
Qed.

(** The direct networks are advertised. *)
Lemma advertise_goes i idt addr env n t :
  node_good idt addr n → id_ID idt = i → conns_right i n → nodes t !! i = Some (propagator n) →
  goes i t (after_propagator n env (AdvertiseDirectNetworks (propagator n) (λ k, clock env (S k)))).
Proof.
  intros Hn Hid Hc Hi. set (dsts := map (λ c, conn_peer i (snd c)) (conn_order env)).
  pose proof (step_direct t i (propagator n) (λ k, clock env (S k)) dsts Hi) as Hs.
  destruct (AdvertiseDirectNetworks _ _) as [p eff]. apply moves_step in Hs.
  eapply (propagator_goes i idt addr _ _ _ _ _ _ dsts); [done..|exact Hs| |done]. intros x Hx. apply elem_of_app. by right.
Qed.

(** One step of a handler of a connection. *)
Lemma conn_step_goes i idt addr t n env st :
  node_good idt addr n → (3 < length addr)%nat → id_ID idt = i → conns_right i n → nodes t !! i = Some (propagator n) →
  match st with SWithdraw _ => enumerates (route_order env) (table (propagator n)) | _ => True end →
  goes i t (conn_step_do n env st).
Proof.
  intros Hn Ha Hid Hc Hi Hord. destruct st as [peer a|conn|peer conn| |conn|peer conn|peer|peer|peer]; cbn [conn_step_do].
  - apply goes_stay; [by destruct a|by destruct a|constructor].
  - apply goes_stay; [done..|]. apply Forall_singleton. right. rewrite <- Hid. by apply (hello_from idt addr).
  - destruct (AddDirectConnection_good idt addr _ peer conn (clock env 0%nat) (peer_order env) (ng_engine _ _ _ Hn)) as (_ & _ & Hw).
    destruct (AddDirectConnection _ _ _ _ _) as [e eff]. by eapply gossip_goes.
  - by eapply advertise_goes.
  - apply goes_stay; [done..|by apply Forall_singleton].
  - apply goes_stay; [done| |by apply Forall_singleton]. intros id c Hl. cbn in Hl.
    apply lookup_delete_Some in Hl as [_ Hl]. by apply Hc.
  - by apply goes_stay.
  - by apply goes_stay.
  - set (dsts := map (λ c, conn_peer i (snd c)) (conn_order env)).
    pose proof (step_lost t i (propagator n) (route_order env) peer dsts Hi Hord) as Hs.
    destruct (WithdrawAllFromPeer _ _ _) as [p eff]. apply moves_step in Hs.
    eapply (propagator_goes i idt addr _ _ _ _ _ _ dsts); [done..|exact Hs| |done]. intros x Hx. apply elem_of_app. by right.
Qed.

(** A message about routes names nobody. *)
Lemma route_names_nobody i body tail d : message_right i body → contents d = body ++ tail → identify d = Ok None.
Proof.
  intros (msg & tl & -> & _) E. unfold identify. rewrite E. cbn. by rewrite decide_False by done.
Qed.

(** Whoever is named by the first message of a connection is at its other end. *)
Lemma identified t i from data m tail peer :
  net_right t → carried t from i m → contents data = m ++ tail → identify data = Ok (Some peer) → from = peer.
Proof.
  intros Ht Hw E Hwho. symmetry. destruct Hw as [(body & sig & -> & _ & Hb)|Hg].
  - rewrite <- app_assoc in E. rewrite (route_names_nobody _ _ _ data (proj2 Ht _ _ _ Hb) E) in Hwho. by apply Ok_inj in Hwho.
  - apply (gf_names _ _ Hg tail (spare data)). rewrite <- E. by destruct data.
Qed.

(** Every operation that is possible at a node has a counterpart in the network. *)
Lemma node_goes i idt addr o t n op n' out :
  net_right t → node_good idt addr n → (3 < length addr)%nat → id_ID idt = i → conns_right i n →
  nodes t !! i = Some (propagator n) → (∀ x y m, (x, y, m) ∈ o_wire o → carried t x y m) → possible o i n op →
  node_step (conn_host i) n op = Ok (n', out) → goes i t (n', out).
Proof.
  intros Ht Hn Ha Hid Hc Hi Hw [_ Hpos] [Hs _]%node_step_effects. revert Hs.
  destruct op as [env from data|keep peer conn|env st|env hop tgt p|env remote data|now|now|env|env orders rng|env rng ok|
    target now]; cbn [node_effects].
  - destruct Hpos as (m & tail & Hin & E). by eapply dispatch_goes; [..|by apply Hw|].
  - destruct (claim n keep peer conn) as [n1|] eqn:Ec; intros [= <- <-].
    + apply goes_stay; [by rewrite (claim_propagator _ _ _ _ _ Ec)|by eapply conns_right_claim|constructor].
    + apply goes_stay; [done..|by apply Forall_singleton].
  - intros Hr%Ok_inj. rewrite <- Hr. by eapply conn_step_goes.
  - unfold socks_udp_forward. destruct (CreateSession _ _ _ _ _ _) as [r s]. intros Hr%Ok_inj. rewrite <- Hr. by apply relay_goes.
  - unfold udp_datagram. destruct (udp_sender _ n env remote) as [[n1 peer]|] eqn:Es; [|intros [= <- <-]; by apply goes_stay].
    assert (propagator n1 = propagator n ∧ peerConns n1 = peerConns n) as [E1 E2].
    { unfold udp_sender in Es. destruct (list_find _ (udp_order env)) as [[? [? ?]]|]; [by injection Es as <- _|].
      destruct (list_find _ (peerconn_order env)) as [[? [? ?]]|]; [|done]. by injection Es as <- _. }
    intros Hr. apply res_bind_Ok in Hr as (r & _ & Hr). apply Ok_inj in Hr. rewrite <- Hr.
    apply relay_goes; [|by rewrite E1]. intros id conn. rewrite E2. apply Hc.
  - intros [= <- <-]. by apply goes_stay.
  - intros [= <- <-]. pose proof (step_gc t i (propagator n) (signed64 (interval (propagator n) * 3)) now Hi) as Hs%moves_step.
    eexists. split; [exact Hs|]. by split.
  - pose proof (step_advertise t i (propagator n) (clock env) (route_order env)
      (map (λ c, conn_peer i (snd c)) (conn_order env)) Hi Hpos) as Hs. unfold advertise.
    destruct (advertise_tick _ _ _) as [p eff]. apply moves_step in Hs. intros Hr%Ok_inj. rewrite <- Hr.
    eapply (propagator_goes i idt addr); [done..|exact Hs| |done]. intros x Hx. apply elem_of_app. by right.
  - intros Hr%Ok_inj. rewrite <- Hr. eapply gossip_goes; [done..|]. apply (push_random_good idt addr), Hn.
  - intros Hr%Ok_inj. rewrite <- Hr. unfold gossip_probe.
    assert (∀ b, goes i t (after_gossip n (fst (fst (probeRandomPeer (gossipEng n) (peer_order env) rng b))))) as Hp.
    { intros b. destruct (probe_good idt addr _ (peer_order env) rng b (ng_engine _ _ _ Hn)) as (_ & _ & Hwr).
      destruct (fst (fst (probeRandomPeer _ _ _ _))) as [e eff]. by eapply gossip_goes. }
    destruct ok; [apply Hp|]. destruct (perform _ _); apply Hp.
  - intros [= <- <-]. by apply goes_stay.
Qed.

(** ** Refinement *)

(** The overlay [o] is the network [t], as far as routes are concerned. *)
Record refined (o : Overlay) (t : Network) : Prop := {
  rf_nodes : nodes t = propagator <$> o_nodes o;
  rf_node : ∀ i n, o_nodes o !! i = Some n →
    ∃ idt addr, node_good idt addr n ∧ (3 < length addr)%nat ∧ id_ID idt = i ∧ conns_right i n;
  rf_wire : ∀ i j m, (i, j, m) ∈ o_wire o → carried t i j m }.

Lemma sent_carried t i out x y m : Forall (out_ok t i) out → (x, y, m) ∈ concat (map (sent i) out) → carried t x y m.
Proof.
  intros Ho Hin. apply list_elem_of_In, in_concat in Hin as (l & Hl & Hin). apply in_map_iff in Hl as (e & <- & He).
  apply list_elem_of_In in He, Hin. rewrite Forall_forall in Ho. specialize (Ho _ He).
  destruct e; try by apply not_elem_of_nil in Hin. apply list_elem_of_singleton in Hin as [= -> -> ->]. done.
Qed.

Lemma refined_step o t o' : net_right t → refined o t → o_step o o' → ∃ t', rtc net_step t t' ∧ refined o' t'.
Proof.
  intros Ht [Hn Hg Hw] [i n op n' out Hi Hpos Hs]. destruct (Hg _ _ Hi) as (idt & addr & Hgood & Ha & Hid & Hc).
  assert (nodes t !! i = Some (propagator n)) as Hti by by rewrite Hn, lookup_fmap, Hi.
  destruct (node_goes i idt addr o t n op n' out Ht Hgood Ha Hid Hc Hti Hw Hpos Hs) as (t' & [S N W] & Hc' & Ho).
  cbn [fst snd] in *. destruct (node_step_good (conn_host i) idt addr n op n' out Hgood Hs) as [Hgood' _].
  exists t'. split; [done|]. split.
  - cbn [o_nodes]. by rewrite N, Hn, fmap_insert.
  - cbn [o_nodes]. intros j m [[<- <-]|[_ Hj]]%lookup_insert_Some; [by exists idt, addr|by apply Hg].
  - cbn [o_wire]. intros x y m [Hin|Hin]%elem_of_app; [|by eapply sent_carried].
    eapply carried_mono; [exact W|]. by apply Hw.
Qed.

(** The network that an overlay of new nodes refines. *)
Definition net_of (o : Overlay) : Network := mkNetwork (propagator <$> o_nodes o) [].

Lemma starts_refined o : o_starts o → starts (net_of o) ∧ refined o (net_of o).
Proof.
  intros [Hw Hs]. split; [|split].
  - split; [done|]. intros i p Hi. cbn in Hi. rewrite lookup_fmap in Hi. apply fmap_Some in Hi as (n & Hn & ->).
    destruct (Hs _ _ Hn) as (idt & addr & nets & cfg & adv & ttl & -> & <- & _ & Hnets). exists nets, adv. split; [by right|done].
  - done.
  - intros i n Hn. destruct (Hs _ _ Hn) as (idt & addr & nets & cfg & adv & ttl & -> & Hid & Ha & _). exists idt, addr.
    split_and!; [apply New_good|done|done|]. intros id conn. cbn. by rewrite lookup_empty.
  - rewrite Hw. by intros i j m ?%not_elem_of_nil.
Qed.

Lemma run_refined o0 o : o_starts o0 → rtc o_step o0 o → ∃ t, rtc net_step (net_of o0) t ∧ refined o t ∧ net_right t.
Proof.
  intros H0 Hr. destruct (starts_refined _ H0) as [Hst Hrf].
  assert (∀ o1 t1, rtc net_step (net_of o0) t1 → refined o1 t1 → rtc o_step o1 o →
    ∃ t, rtc net_step (net_of o0) t ∧ refined o t ∧ net_right t) as H; [|by eapply H].
  clear Hr Hrf. intros o1 t1 Ht1 Hrf Hr. revert t1 Ht1 Hrf. induction Hr as [o|o1 o2 o Hs _ IH]; intros t1 Ht1 Hrf.
  - exists t1. split_and!; [done..|]. by eapply reachable_right.
  - destruct (refined_step o1 t1 o2 (reachable_right _ _ Hst Ht1) Hrf Hs) as (t2 & Hs2 & Hrf2).
    apply (IH t2); [by etrans|done].
Qed.

(** ** Nothing in the overlay is fatal *)

Lemma possible_not_fatal o t i n op :
  net_right t → (∀ x y m, (x, y, m) ∈ o_wire o → carried t x y m) → possible o i n op → ¬ fatal (conn_host i) n op.
Proof.
  intros Ht Hw [Hgone Hpos] [(env & from & data & d & -> & Ha & Hd)|(n' & out & e & conn & _ & _ & _ & Hg)]; [|by rewrite Hgone in Hg].
  destruct Hpos as (m & tail & Hin & E). specialize (Hw _ _ _ Hin).
  destruct (read_cases t i n from data d m tail Ha Hw E) as [(body & tail' & Hin' & Ed)|(b & l & Ed & Hb)].
  - destruct (proj2 Ht _ _ _ Hin') as (msg & tl & -> & Hok & _). rewrite <- app_assoc in Ed.
    destruct Hd as [Hnil|Hcut]; [by rewrite Hnil in Ed|]. apply route_decode_panic_iff in Hcut.
    replace d with (mkSlice (EncodeRouteMessage msg ++ tl ++ tail') (spare d)) in Hcut by (rewrite <- Ed; by destruct d).
    by rewrite decode_encode_route in Hcut.
  - rewrite Ed in Hd. destruct Hd as [|(_ & Ht0 & _)]; [done|]. by injection Ht0 as ->.
Qed.
End overlay.

(** ** Properties *)

(** What whole nodes do to each other's routes is what their propagators do in [Network]. Every run of an overlay of
    new nodes, with their connections, greetings, signatures, gossip, datagrams and timers, is a run of the network
    of their propagators: the propagators are the same, and every control message on the wire is a
    message of that network with a signature, or is about something else. *)
Lemma overlay_refines `{Sig : Ed25519, SigL : !Ed25519Laws Sig} conn_peer conn_host o0 o :
  o_starts o0 → rtc (o_step conn_peer conn_host) o0 o →
  ∃ t0 t, starts t0 ∧ nodes t0 = propagator <$> o_nodes o0 ∧ rtc net_step t0 t ∧ nodes t = propagator <$> o_nodes o ∧
    ∀ i j m, (i, j, m) ∈ o_wire o → carried t i j m.
Proof.
  intros H0 Hr. destruct (run_refined conn_peer conn_host _ _ H0 Hr) as (t & Ht & [Hn _ Hw] & _).
  exists (net_of o0), t. split_and!; [|done..]. by apply (starts_refined conn_peer).
Qed.

(** The nodes of an overlay are safe from each other. In every run, whatever is possible at a node succeeds: no
    message of another node makes it panic. Every route of its table is to its own network or leads by a simple path, that avoids the node, from
    the next hop to the origin. *)
Lemma overlay_safe `{Sig : Ed25519, SigL : !Ed25519Laws Sig} conn_peer conn_host o0 o i n :
  o_starts o0 → rtc (o_step conn_peer conn_host) o0 o → o_nodes o !! i = Some n →
  (∀ op, possible conn_peer o i n op → is_ok (node_step (conn_host i) n op)) ∧
  ∀ r, in_table (table (propagator n)) r → route_right i r.
Proof.
  intros H0 Hr Hi. destruct (run_refined conn_peer conn_host _ _ H0 Hr) as (t & _ & [Hn _ Hw] & Ht). split.
  - intros op Hpos. pose proof (node_step_fails (conn_host i) n op) as Hf. destruct (node_step _ _ _) as [r| |]; [by exists r|done|].
    by apply (possible_not_fatal conn_peer conn_host o t i n op Ht Hw Hpos) in Hf.
  - apply (node_routes i (propagator n)), (proj1 Ht). by rewrite Hn, lookup_fmap, Hi.
Qed.

(** Two nodes: the first dials the second, which reads the announcement of its network. *)
Definition id_5 : Identity := fromKeypair (C := toy_ed25519) (replicate 32 x05) (replicate 32 x05).
Definition peer_of (i : NodeID) (_ : ConnRef) : NodeID := if decide (i = id_ID id_7) then id_ID id_5 else id_ID id_7.
Definition hosts (_ : NodeID) (_ : ConnRef) : string := "".
Definition link : ConnRef := mkConnRef 1 [x61].

Definition node_7 : Node := New (C := toy_ed25519) id_7 [x3a; x39; x34; x34; x33] [example_net] DefaultConfig 30 60.
Definition node_5 : Node := New (C := toy_ed25519) id_5 [x3a; x39; x34; x34; x33] [] DefaultConfig 30 60.
Definition over0 : Overlay := mkOverlay (<[id_ID id_7 := node_7]> {[ id_ID id_5 := node_5 ]}) [].

Definition dial_env : Env := mkEnv [] [] [(NodeID_String (id_ID id_5), link)] [] [] [] Z.of_nat (λ _, false).

Definition o_do (o : Overlay) (x : NodeID * node_op) : Overlay :=
  match o_nodes o !! fst x with
  | Some n =>
      match node_step (C := toy_ed25519) (hosts (fst x)) n (snd x) with
      | Ok (n', out) => mkOverlay (<[fst x := n']> (o_nodes o)) (o_wire o ++ concat (map (sent peer_of (fst x)) out))
      | _ => o
      end
  | None => o
  end.

(** The first node registers the connection it has dialled, and its handler goes on to the end. *)
Definition dialling : list (NodeID * node_op) :=
  map (pair (id_ID id_7)) (OClaim (λ _, true) (id_ID id_5) link :: map (OStep dial_env) (dialled_steps (id_ID id_5) link None)).
Definition over1 : Overlay := foldl o_do over0 dialling.

Definition announcement : list byte :=
  SignMessage (C := toy_ed25519) (encodeRouteWithSelf (propagator node_7) (local_route (id_ID id_7) example_net)) (id_PrivKey id_7).
Definition over2 : Overlay := o_do over1 (id_ID id_5, ODispatch dial_env (id_ID id_7) (mkSlice announcement [])).

Lemma id_7_ne_5 : id_ID id_7 ≠ id_ID id_5.
Proof. intros H%(f_equal bytes_of). vm_compute in H. congruence. Qed.

Lemma over0_starts : o_starts (Sig := toy_ed25519) over0.
Proof.
  split; [done|]. intros i n Hi. unfold over0 in Hi. cbn [o_nodes] in Hi.
  apply lookup_insert_Some in Hi as [[<- <-]|[_ [<- <-]%lookup_singleton_Some]]; eexists _, _, _, _, _, _;
    (split; [reflexivity|]); (split; [done|]); (split; [cbn; lia|]); repeat constructor.
  exists 16%nat. vm_compute. split; [lia|done].
Qed.

Lemma announced : (id_ID id_7, id_ID id_5, announcement) ∈ o_wire over1.
Proof. apply (bool_decide_unpack _). vm_compute. exact I. Qed.

Lemma o_do_run o x :
  (∀ n, possible peer_of o (fst x) n (snd x)) → rtc (o_step (Sig := toy_ed25519) peer_of hosts) o (o_do o x).
Proof.
  intros Hp. unfold o_do. destruct (o_nodes o !! fst x) as [n|] eqn:Hn; [|done].
  destruct (node_step _ n (snd x)) as [[n' out]| |] eqn:Hs; [|done..]. apply rtc_once. by econstructor.
Qed.

Lemma dialling_run ops o :
  Forall (λ x, ∀ o n, possible peer_of o (fst x) n (snd x)) ops →
  rtc (o_step (Sig := toy_ed25519) peer_of hosts) o (foldl o_do o ops).
Proof.
  intros Hp. revert o. induction Hp as [|x ops Hx Hp IH]; intros o; [done|]. cbn [foldl].
  etrans; [apply o_do_run, Hx|apply IH].
Qed.

Lemma over_run : rtc (o_step (Sig := toy_ed25519) peer_of hosts) over0 over2.
Proof.
  etrans; [|apply o_do_run].
  - apply dialling_run. by repeat constructor.
  - intros n. split; [done|]. exists announcement, []. split; [exact announced|by rewrite app_nil_r].
Qed.

Definition heard_5 : Node := default node_5 (o_nodes over2 !! id_ID id_5).

Lemma overlay_refines_witness :
  ∃ t0 t, starts t0 ∧ nodes t0 = propagator <$> o_nodes over0 ∧ rtc net_step t0 t ∧ nodes t = propagator <$> o_nodes over2 ∧
    ∀ i j m, (i, j, m) ∈ o_wire over2 → carried t i j m.
Proof.
  apply (overlay_refines (SigL := toy_ed25519_laws) peer_of hosts over0 over2).
  - exact over0_starts.
  - exact over_run.
Defined.

Definition route_of_5 : Route := mkRoute (prefix_norm example_net) (id_ID id_7) (mkASPath [id_ID id_7]) 2 (id_ID id_7) 100 0.

Lemma overlay_safe_witness :
  is_ok (node_step (C := toy_ed25519) (hosts (id_ID id_5)) heard_5
           (ODispatch dial_env (id_ID id_7) (mkSlice (announcement ++ [x00]) [xff]))) ∧
  route_right (id_ID id_5) route_of_5.
Proof.
  destruct (overlay_safe (SigL := toy_ed25519_laws) peer_of hosts over0 over2 (id_ID id_5) heard_5
    over0_starts over_run) as [H1 H2]; [vm_compute; reflexivity|]. split.
  - apply H1. split; [done|]. exists announcement, [x00]. split; [|done]. apply (bool_decide_unpack _). vm_compute. exact I.
  - apply H2. exists "10.1.0.0/16", [route_of_5]. split; [|left]. apply (bool_decide_unpack _). vm_compute. exact I.
Defined.
