(* ===== verification/Hosts.v ===== *)
(** * Whole nodes at work ([node/node.go])

    A host is a node with its goroutines: those that dial ([Dialer]), the two that accept ([Acceptor]), those that
    wait for the first message of a connection, the handlers of registered connections, and those that have been
    started with [go] and have not run yet. A handler does the steps that follow a registration or a loss one by one,
    with whatever the other goroutines do in between. The hosts of a network exchange control messages through the
    control streams of their connections, each of which is a queue ([Control]). The hosts refine [Overlay]. *)

From S2P Require Import Prelude Bytes Crypto Net Identity Wire WireGossip RoutePath RouteTable RouteSelect Propagation.
From S2P Require Import Peers Gossip Session Acceptor Node Dialer Network NodeRun Overlay Control.
From stdpp Require Import options.

(** ** One host *)

(** What a handler goes on to when its steps are done: it is in the loop of [handleControlMessages], with the message it
    starts with; it hands the connection to the reconnecting or bootstrapping task [t] that it is part of; or it has lost its
    connection and ends. *)
Inductive next :=
| Reads (peerID : NodeID) (conn : ConnRef) (auto : bool) (first : option Slice)
| Serves (t : nat)
| Ends (peerID : NodeID) (auto : bool).

Record handler := mkHandler { hd_steps : list conn_step; hd_next : next }.

(** [go n.connectToPeer(...)] and [go n.reconnectPeer(...)]. *)
Inductive launch := GoConnect (id : NodeID) (addr : list byte) | GoReconnect (id : NodeID).

Definition launched (out : list neffect) : list launch :=
  omap (λ e, match e with NConnect id addr => Some (GoConnect id addr) | NReconnect id => Some (GoReconnect id) | _ => None end) out.

Section host.
Context `{Sig : Ed25519}.
Context (conn_host : ConnRef → string).
(** The connection that [newConn] makes of an accepted socket. *)
Context (conn_of : nat → ConnRef).

Record Host := mkHost {
  dialer : DNode; acceptor : Acceptor; launches : list launch; entering : list ConnRef; handlers : list handler }.

Definition h_node (h : Host) : Node := d_node (dialer h).

(** The dialling goroutines and the node go on; what the node says starts goroutines, and there are [new] handlers. *)
Definition go_on (h : Host) (d : DNode) (out : list neffect) (new : list handler) : Host :=
  mkHost d (acceptor h) (launches h ++ launched out) (entering h) (handlers h ++ new).

Definition set_handlers (h : Host) (hs : list handler) : Host := mkHost (dialer h) (acceptor h) (launches h) (entering h) hs.
Definition set_entering (h : Host) (cs : list ConnRef) : Host := mkHost (dialer h) (acceptor h) (launches h) cs (handlers h).

Inductive host_event :=
| HAccept (e : aevent)
| HFirst (k : nat) (data : option Slice) (resolved : option UDPAddr)
| HLaunch (k : nat)
| HTask (e : event)
| HServe (t : nat) (env : Env) (data : Slice)
| HStep (k : nat) (env : Env)
| HEnd (k : nat)
| HInitial (k : nat) (env : Env)
| HRead (k : nat) (env : Env) (data : Slice)
| HLost (k : nat)
| HOp (op : node_op)
| HCancel.

(** An event of the acceptor: the connections it takes are read from or closed. *)
Definition host_accept (h : Host) (e : aevent) : Host * list neffect :=
  let a := astep (acceptor h) e in
  let new := drop (length (handled (acceptor h))) (handled a) in
  (mkHost (dialer h) a (launches h) (entering h ++ omap (λ '(c, ok), if ok : bool then Some (conn_of c) else None) new) (handlers h),
   omap (λ '(c, ok), if ok : bool then None else Some (NClose (conn_of c))) new).

(** A step of the dialling goroutines: the node, what it says, and the steps of a handler. *)
Definition task_step (d : DNode) (e : event) : option (DNode * list neffect * list conn_step) :=
  match e with
  | ETurn t live => d' ← turn d live t; Some (d', [], [])
  | EWoke t fired => d' ← woke d t fired; Some (d', [], [])
  | EDialled t live conn a draw => dialled d live t conn a draw
  | EServed t => '(d', steps) ← served d t; Some (d', [], steps)
  | EFirst t live data a draw => first_message d live t data a draw
  | _ => None
  end.

(** What is done once those steps are. *)
Definition task_next (d : DNode) (e : event) : option next :=
  match e with
  | EDialled t _ (Some conn) _ _ =>
      Some (match tasks d !! t with Some (Connecting id _) => Reads id conn true None | _ => Serves t end)
  | EServed t => Some (Serves t)
  | EFirst t _ (Some data) _ _ =>
      match tasks d !! t, identify data with
      | Some (Bootstrapping _ _ (Serving conn)), Ok (Some id) => Some (Reads id conn true (Some data))
      | _, _ => None
      end
  | _ => None
  end.

Definition task_handlers (d : DNode) (e : event) (steps : list conn_step) : list handler :=
  match steps, task_next d e with _ :: _, Some nx => [mkHandler steps nx] | _, _ => [] end.

(** A task that is still at the steps of a handler. *)
Definition busy (h : Host) (t : nat) : bool :=
  existsb (λ hd, match hd_next hd with Serves t' => bool_decide (t' = t) | _ => false end) (handlers h).

Definition launch_start (d : DNode) (g : launch) : DNode :=
  match g with GoConnect id addr => connect_start d id addr | GoReconnect id => reconnect_start d id end.

(** The operations of the node's own loops and of its clients. *)
Definition loop_op (op : node_op) : bool :=
  match op with
  | OSocksUDP _ _ _ _ | OUDP _ _ _ | OSessionGC _ | ORouteGC _ | OAdvertise _ | OPush _ _ _ | OProbe _ _ _ | OTimeout _ _ => true
  | _ => false
  end.

(** An operation of the node at a host, and the new handlers after it. *)
Definition host_node (h : Host) (op : node_op) (new : list handler) : res wire_error (Host * list neffect) :=
  '(n, out) ← node_step conn_host (h_node h) op;
  Ok (go_on h (with_node (dialer h) n) out new, out).

(** [None]: the event is not possible now. *)
Definition host_step (h : Host) (e : host_event) : option (res wire_error (Host * list neffect)) :=
  match e with
  | HAccept e => Some (Ok (host_accept h e))
  | HFirst k data a =>
      conn ← entering h !! k;
      let h := set_entering h (delete k (entering h)) in
      Some (match data with
            | None => Ok (h, [NClose conn])
            | Some data =>
                who ← identify data;
                match who with
                | None => Ok (h, [NClose conn])
                | Some id =>
                    host_node h (OClaim (λ _, false) id conn) [mkHandler (incoming_steps id conn a) (Reads id conn true (Some data))]
                end
            end)
  | HLaunch k =>
      g ← launches h !! k;
      Some (Ok (mkHost (launch_start (dialer h) g) (acceptor h) (delete k (launches h)) (entering h) (handlers h), []))
  | HTask e =>
      t ← event_task e;
      if busy h t then None
      else '(d, out, steps) ← task_step (dialer h) e; Some (Ok (go_on h d out (task_handlers (dialer h) e steps), out))
  | HServe t env data =>
      if busy h t then None
      else match tasks (dialer h) !! t with
           | Some (Reconnecting id _ _ (Serving _)) => Some (host_node h (ODispatch env id data) [])
           | _ => None
           end
  | HStep k env =>
      hd ← handlers h !! k;
      match hd_steps hd with
      | s :: steps => Some (host_node (set_handlers h (<[k := mkHandler steps (hd_next hd)]> (handlers h))) (OStep env s) [])
      | [] => None
      end
  | HEnd k =>
      hd ← handlers h !! k;
      let h := set_handlers h (delete k (handlers h)) in
      match hd with
      | mkHandler [] (Serves _) => Some (Ok (h, []))
      | mkHandler [] (Ends id auto) =>
          let out := if auto : bool then [NReconnect id] else [] in Some (Ok (go_on h (dialer h) out [], out))
      | _ => None
      end
  | HInitial k env =>
      hd ← handlers h !! k;
      match hd with
      | mkHandler [] (Reads id conn auto (Some data)) =>
          Some (host_node (set_handlers h (<[k := mkHandler [] (Reads id conn auto None)]> (handlers h))) (ODispatch env id data) [])
      | _ => None
      end
  | HRead k env data =>
      hd ← handlers h !! k;
      match hd with mkHandler [] (Reads id _ _ None) => Some (host_node h (ODispatch env id data) []) | _ => None end
  | HLost k =>
      hd ← handlers h !! k;
      match hd with
      | mkHandler [] (Reads id conn auto None) =>
          Some (Ok (set_handlers h (<[k := mkHandler (lost_steps id conn) (Ends id auto)]> (handlers h)), []))
      | _ => None
      end
  | HOp op => if loop_op op then Some (host_node h op []) else None
  | HCancel =>
      Some (Ok (mkHost (dstep (dialer h) ECancel) (astep (acceptor h) ACancel) (launches h) (entering h) (handlers h), []))
  end.

(** The connection whose control stream an event reads, and what it reads there. *)
Definition reading (h : Host) (e : host_event) : option (ConnRef * Slice) :=
  match e with
  | HFirst k (Some data) _ => conn ← entering h !! k; Some (conn, data)
  | HTask (EFirst t _ (Some data) _ _) =>
      match tasks (dialer h) !! t with Some (Bootstrapping _ _ (Serving conn)) => Some (conn, data) | _ => None end
  | HServe t _ data =>
      match tasks (dialer h) !! t with Some (Reconnecting _ _ _ (Serving conn)) => Some (conn, data) | _ => None end
  | HRead k _ data =>
      hd ← handlers h !! k;
      match hd_next hd with Reads _ conn _ _ => Some (conn, data) | _ => None end
  | _ => None
  end.

(** The operation of the node that is in an event. *)
Definition host_op (h : Host) (e : host_event) : option node_op :=
  match e with
  | HFirst k (Some data) _ =>
      conn ← entering h !! k;
      match identify data with Ok (Some id) => Some (OClaim (λ _, false) id conn) | _ => None end
  | HTask (EDialled t live (Some conn) _ _) =>
      match tasks (dialer h) !! t with
      | Some (Connecting id _) => Some (OClaim (λ _, true) id conn)
      | Some (Reconnecting id _ _ (Dialling _)) => Some (OClaim live id conn)
      | _ => None
      end
  | HTask (EFirst t live (Some data) _ _) =>
      match tasks (dialer h) !! t, identify data with
      | Some (Bootstrapping _ _ (Serving conn)), Ok (Some id) => Some (OClaim live id conn)
      | _, _ => None
      end
  | HServe t env data =>
      match tasks (dialer h) !! t with Some (Reconnecting id _ _ (Serving _)) => Some (ODispatch env id data) | _ => None end
  | HStep k env => hd ← handlers h !! k; match hd_steps hd with s :: _ => Some (OStep env s) | [] => None end
  | HInitial k env =>
      hd ← handlers h !! k;
      match hd_next hd with Reads id _ _ (Some data) => Some (ODispatch env id data) | _ => None end
  | HRead k env data =>
      hd ← handlers h !! k;
      match hd_next hd with Reads id _ _ _ => Some (ODispatch env id data) | _ => None end
  | HOp op => Some op
  | _ => None
  end.

(** The peer that a dial is meant for, and the connection that it gives. *)
Definition dial_gives (h : Host) (e : host_event) : option (NodeID * ConnRef) :=
  match e with
  | HTask (EDialled t _ (Some conn) _ _) =>
      match tasks (dialer h) !! t with
      | Some (Connecting id _) | Some (Reconnecting id _ _ (Dialling _)) => Some (id, conn)
      | _ => None
      end
  | _ => None
  end.
End host.

(** ** The hosts of a network *)

#[export] Instance ConnRef_countable : Countable ConnRef.
Proof.
  refine (inj_countable' (λ c, (conn_id c, conn_RemoteAddr c)) (λ '(k, a), mkConnRef k a) _). by intros [].
Defined.

(** One [Read] of a control stream: a message that is longer than the buffer is read in pieces. *)
Definition take_message (q : list (list byte)) : option (list byte * list (list byte)) :=
  match q with
  | [] => None
  | m :: q => Some (take controlBuffer m, if decide (controlBuffer < length m)%nat then drop controlBuffer m :: q else q)
  end.

Section hosts.
Context `{Sig : Ed25519}.
(** The two ends of a connection: the node at the other end, the connection there, and the host it has here. *)
Context (conn_peer : NodeID → ConnRef → NodeID) (conn_other : NodeID → ConnRef → ConnRef).
Context (conn_host : NodeID → ConnRef → string) (conn_of : NodeID → nat → ConnRef).
(** The connections that a node may get when it dials the address it has for a peer. *)
Context (reaches : NodeID → NodeID → ConnRef → Prop).

(** [links]: the messages on their way to an end of a connection; [log]: all that have been sent. *)
Record Hosts := mkHosts {
  running : gmap NodeID Host; links : gmap (NodeID * ConnRef) (list (list byte)); log : list (NodeID * NodeID * list byte) }.

(** What node [i] writes enters the queue of the other end. *)
Definition post (i : NodeID) (ls : gmap (NodeID * ConnRef) (list (list byte))) (e : neffect)
    : gmap (NodeID * ConnRef) (list (list byte)) :=
  match e with
  | NControl conn m =>
      let k := (conn_peer i conn, conn_other i conn) in <[k := default [] (ls !! k) ++ [m]]> ls
  | _ => ls
  end.

(** The environment: a dial gives what [reaches] allows, no control stream is gone (nothing in the program closes one),
    and maps are enumerated as they are. *)
Record fair (i : NodeID) (h : Host) (e : host_event) : Prop := {
  fr_dial : ∀ id conn, dial_gives h e = Some (id, conn) → reaches i id conn;
  fr_streams : ∀ op conn, host_op h e = Some op → op_gone op conn = false;
  fr_orders : match host_op h e with
              | Some (OStep env (SWithdraw _)) => enumerates (route_order env) (table (propagator (h_node h)))
              | Some (OAdvertise env) =>
                  enumerates (route_order env) (table (fst (AdvertiseDirectNetworks (propagator (h_node h)) (clock env))))
              | _ => True
              end }.

(** What the event reads is what a read of the control stream gives; [ls]: the queues after it. *)
Definition reads (i : NodeID) (w : Hosts) (h : Host) (e : host_event) (ls : gmap (NodeID * ConnRef) (list (list byte))) : Prop :=
  match reading h e with
  | Some (conn, data) =>
      ∃ q, take_message (default [] (links w !! (i, conn))) = Some (contents data, q) ∧ ls = <[(i, conn) := q]> (links w)
  | None => ls = links w
  end.

Inductive hosts_step (w : Hosts) : Hosts → Prop :=
| hosts_step_intro i h e h' out ls :
    running w !! i = Some h → fair i h e → reads i w h e ls →
    host_step (conn_host i) (conn_of i) h e = Some (Ok (h', out)) →
    hosts_step w (mkHosts (<[i := h']> (running w)) (foldl (post i) ls out) (log w ++ concat (map (sent conn_peer i) out))).

(** At the start every node is new, with the goroutines that dial its bootstrap peers. *)
Definition host_start (n : Node) (peers : list (list byte)) (now : Z) : Host :=
  mkHost (bootstrap (dialer_start n) peers) (acceptor_start now) [] [] [].

Definition hosts_start (w : Hosts) : Prop :=
  links w = ∅ ∧ log w = [] ∧
  ∀ i h, running w !! i = Some h →
    ∃ idt addr nets cfg adv ttl peers now, h = host_start (New idt addr nets cfg adv ttl) peers now ∧
      id_ID idt = i ∧ (3 < length addr)%nat ∧ Forall prefix_ok nets.

(** The overlay of the nodes. *)
Definition over (w : Hosts) : Overlay := mkOverlay (h_node <$> running w) (log w).

(** No message sent is longer than the buffer of its reader. *)
Definition all_fit (w : Hosts) : Prop := ∀ i j m, (i, j, m) ∈ log w → (length m ≤ controlBuffer)%nat.

(** A dial reaches the peer that it is meant for. *)
Definition dials_right : Prop := ∀ i id conn, reaches i id conn → conn_peer i conn = id.
End hosts.

(** ** Lemmas: the operation of the node in an event *)

Section lemmas.
#[local] Set Default Proof Using "Type*".
Context `{Sig : Ed25519}.

Lemma turn_node d live t d' : turn d live t = Some d' → d_node d' = d_node d.
Proof.
  unfold turn, reconnect_turn, bootstrap_turn.
  destruct (tasks d !! t) as [[|id mark r []|addr r []]|]; try done; intros [= <-]; by repeat case_match.
Qed.

Lemma woke_node d t fired d' : woke d t fired = Some d' → d_node d' = d_node d.
Proof.
  unfold woke. destruct (tasks d !! t) as [[|id mark r []|addr r []]|]; try done;
    intros (b & _ & [= <-])%bind_Some; by destruct b.
Qed.

Lemma launch_node d g : d_node (launch_start d g) = d_node d.
Proof.
  destruct g as [id addr|id]; cbn; unfold connect_start, reconnect_start.
  - destruct (getPeerConn _ id); [done|]. by destruct (tryMarkDialing _ addr) as [m []].
  - destruct (known_addr d id); [|done]. by destruct (tryMarkDialing _ _) as [m []].
Qed.

(** The result of an event is that of an operation of the node. *)
Definition by_op (r : res wire_error (Host * list neffect)) (nr : res wire_error (Node * list neffect)) : Prop :=
  match nr with Ok (n, out) => ∃ h, r = Ok (h, out) ∧ h_node h = n | Err x => r = Err x | Panic => r = Panic end.

(** Without one, nothing is said to the peers. *)
Definition by_none (h : Host) (r : res wire_error (Host * list neffect)) : Prop :=
  ∃ h' out, r = Ok (h', out) ∧ h_node h' = h_node h ∧ ∀ conn m, NControl conn m ∉ out.

Lemma host_node_op conn_host h op new : by_op (host_node conn_host h op new) (node_step conn_host (h_node h) op).
Proof.
  unfold by_op, host_node. destruct (node_step _ _ op) as [[n out]|x|]; cbn [mbind res_bind]; [|done|done]. by eexists.
Qed.

Lemma host_quiet h h' out : h_node h' = h_node h → (∀ conn m, NControl conn m ∉ out) → by_none h (Ok (h', out)).
Proof. intros E Ho. by exists h', out. Qed.

Lemma nothing_said conn m : NControl conn m ∉ [].
Proof. apply not_elem_of_nil. Qed.

Lemma close_said conn conn' m : NControl conn' m ∉ [NClose conn].
Proof. by intros ?%list_elem_of_singleton. Qed.

(** A registration as an operation of the node. *)
Lemma claim_op conn_host n keep id conn :
  node_step conn_host n (OClaim keep id conn) =
  Ok (match claim n keep id conn with Some n' => (n', []) | None => (n, [NClose conn]) end).
Proof. unfold node_step. cbn. by destruct (claim n keep id conn). Qed.

Lemma identify_Ok data : ∃ who, identify data = Ok who.
Proof.
  unfold identify. destruct data as [l sp]. cbn [contents]. destruct l as [|b l]; [by eexists|]. case_decide; [|by eexists].
  pose proof (DecodeGossipPush_no_panic (mkSlice (b :: l) sp)). destruct (DecodeGossipPush _) as [[[|e es]]|x|]; [by eexists..|done].
Qed.

Lemma task_op conn_host h e d out steps :
  task_step (dialer h) e = Some (d, out, steps) →
  match host_op h (HTask e) with
  | Some op => node_step conn_host (h_node h) op = Ok (d_node d, out)
  | None => d_node d = h_node h ∧ ∀ conn m, NControl conn m ∉ out
  end.
Proof.
  unfold task_step, h_node.
  destruct e as [| | |t live|t live conn a draw|t fired|t|t live data a draw| |]; try done; cbn [host_op].
  - intros (d' & Ht & [= <- <- _])%bind_Some. split; [by eapply turn_node|apply nothing_said].
  - unfold dialled. destruct (tasks (dialer h) !! t) as [[id addr|id mark r []|addr r []]|]; try done; destruct conn as [conn|];
      unfold connect_dialled, reconnect_dialled, bootstrap_dialled; cbn [d_node end_task]; rewrite ?claim_op.
    + destruct (claim _ _ _ _); by intros [= <- <- _].
    + intros [= <- <- _]. split; [done|]. by intros conn m ?%list_elem_of_singleton.
    + destruct (claim _ _ _ _); by intros [= <- <- _].
    + destruct (go_to_sleep r draw). intros [= <- <- _]. split; [done|apply nothing_said].
    + intros [= <- <- _]. split; [done|apply nothing_said].
    + destruct (go_to_sleep r draw). intros [= <- <- _]. split; [done|apply nothing_said].
  - intros (d' & Ht & [= <- <- _])%bind_Some. split; [by eapply woke_node|apply nothing_said].
  - intros ([d' st] & Ht & [= <- <- _])%bind_Some. unfold served in Ht. split; [|apply nothing_said].
    destruct (tasks (dialer h) !! t) as [[|id mark r []|]|]; try done. by injection Ht as <- _.
  - unfold first_message. destruct (tasks (dialer h) !! t) as [[|id mark r []|addr r [| | |conn]]|]; try done.
    destruct (go_to_sleep r draw) as [r' ph].
    assert (∀ d1 o1 (st1 : list conn_step),
      Some (set_task (dialer h) t (Bootstrapping addr r' ph), [NClose conn], []) = Some (d1, o1, st1) →
      d_node d1 = d_node (dialer h) ∧ ∀ c m, NControl c m ∉ o1) as Hretry.
    { intros d1 o1 st1 [= <- <- _]. split; [done|apply close_said]. }
    destruct data as [data|]; [|by apply Hretry]. destruct (identify data) as [[id|]|x|]; [|by apply Hretry..].
    rewrite claim_op. destruct (claim _ _ _ _); by intros [= <- <- _].
Qed.

Lemma host_step_op conn_host conn_of h e r :
  host_step conn_host conn_of h e = Some r →
  match host_op h e with Some op => by_op r (node_step conn_host (h_node h) op) | None => by_none h r end.
Proof.
  destruct e as [e|k [data|] a|k|e|t env data|k env|k|k env|k env data|k|op|]; cbn [host_step host_op].
  - intros [= <-]. unfold host_accept. apply host_quiet; [done|]. by intros conn m ([c []] & _ & ?)%list_elem_of_omap.
  - intros (conn & -> & [= <-])%bind_Some. cbn [mbind option_bind]. destruct (identify_Ok data) as [[id|] ->]; cbn [mbind res_bind].
    + apply (host_node_op conn_host (set_entering h _)).
    + apply host_quiet; [done|apply close_said].
  - intros (conn & _ & [= <-])%bind_Some. apply host_quiet; [done|apply close_said].
  - intros (g & _ & [= <-])%bind_Some. apply host_quiet; [apply launch_node|apply nothing_said].
  - intros (t & _ & H)%bind_Some. destruct (busy h t); [done|]. apply bind_Some in H as ([[d out] st] & Ht & [= <-]).
    pose proof (task_op conn_host _ _ _ _ _ Ht) as H.
    destruct (host_op h (HTask e)) as [op|] eqn:Eo; cbn [host_op] in Eo; rewrite Eo.
    + rewrite H. by eexists.
    + destruct H. by apply host_quiet.
  - destruct (busy h t); [done|]. destruct (tasks _ !! t) as [[|id ? ? []|]|]; try done. intros [= <-]. apply host_node_op.
  - intros (hd & -> & H)%bind_Some. cbn [mbind option_bind]. destruct (hd_steps hd) as [|s st]; [done|]. injection H as <-.
    apply (host_node_op conn_host (set_handlers h _)).
  - intros (hd & _ & H)%bind_Some. destruct hd as [[|] [|t|id auto]]; try done; injection H as <-; apply host_quiet; try done.
    + apply nothing_said.
    + intros conn m. destruct auto; [by intros ?%list_elem_of_singleton|apply nothing_said].
  - intros (hd & -> & H)%bind_Some. cbn [mbind option_bind]. destruct hd as [[|] [id conn auto [data|]| |]]; try done. injection H as <-.
    apply (host_node_op conn_host (set_handlers h _)).
  - intros (hd & -> & H)%bind_Some. cbn [mbind option_bind]. destruct hd as [[|] [id conn auto [|]| |]]; try done. injection H as <-.
    apply host_node_op.
  - intros (hd & _ & H)%bind_Some. destruct hd as [[|] [id conn auto [|]| |]]; try done. injection H as <-.
    apply host_quiet; [done|apply nothing_said].
  - destruct (loop_op op); [|done]. intros [= <-]. apply host_node_op.
  - intros [= <-]. apply host_quiet; [done|apply nothing_said].
Qed.
End lemmas.

(** ** Refinement: hosts as nodes of an overlay *)

Section refinement.
#[local] Set Default Proof Using "Type*".
Context `{Sig : Ed25519} `{SigL : !Ed25519Laws Sig}.
Context (conn_peer : NodeID → ConnRef → NodeID) (conn_other : NodeID → ConnRef → ConnRef).
Context (conn_host : NodeID → ConnRef → string) (conn_of : NodeID → nat → ConnRef).
Context (reaches : NodeID → NodeID → ConnRef → Prop).
Context (other_end : ∀ i conn, conn_peer (conn_peer i conn) (conn_other i conn) = i).
Context (dials_meet : dials_right conn_peer reaches).

(** What a goroutine that has dialled a peer again goes on to read from. *)
Definition serves (d : DNode) (id : NodeID) (conn : ConnRef) : Prop :=
  ∃ t mark r, tasks d !! t = Some (Reconnecting id mark r (Serving conn)).

(** Whoever reads from a connection reads in the name of the node at its other end; [lg]: all that has been sent. *)
Definition next_right (i : NodeID) (lg : list (NodeID * NodeID * list byte)) (nx : next) : Prop :=
  match nx with
  | Reads id conn _ first => conn_peer i conn = id ∧ ∀ data, first = Some data → (id, i, contents data) ∈ lg
  | _ => True
  end.

Definition handlers_right (i : NodeID) (lg : list (NodeID * NodeID * list byte)) (hs : list handler) : Prop :=
  Forall (λ hd, next_right i lg (hd_next hd)) hs.

Record host_ok (i : NodeID) (lg : list (NodeID * NodeID * list byte)) (h : Host) : Prop := {
  ho_handlers : handlers_right i lg (handlers h);
  ho_serving : ∀ id conn, serves (dialer h) id conn → conn_peer i conn = id }.

(** What an event reads was sent by the node at the other end; a first message names nobody else. *)
Definition heard (i : NodeID) (lg : list (NodeID * NodeID * list byte)) (h : Host) (e : host_event) : Prop :=
  ∀ conn data, reading h e = Some (conn, data) →
    (conn_peer i conn, i, contents data) ∈ lg ∧ ∀ id, identify data = Ok (Some id) → conn_peer i conn = id.

(** Tasks that are changed, ended or started do not read, unless the change says so. *)
Lemma serves_insert d d' t k id conn :
  tasks d' = <[t := k]> (tasks d) → serves d' id conn → serves d id conn ∨ ∃ mark r, k = Reconnecting id mark r (Serving conn).
Proof.
  intros E (t' & mark & r & H). rewrite E in H. apply lookup_insert_Some in H as [[_ ->]|[_ H]]; [right; by eexists _, _|].
  left. by eexists _, _, _.
Qed.

Lemma serves_set d t k id conn :
  serves (set_task d t k) id conn → serves d id conn ∨ ∃ mark r, k = Reconnecting id mark r (Serving conn).
Proof. by eapply serves_insert. Qed.

Lemma serves_start d m k id conn :
  serves (start_task d m k) id conn → serves d id conn ∨ ∃ mark r, k = Reconnecting id mark r (Serving conn).
Proof. by eapply serves_insert. Qed.

Lemma serves_end d t mark id conn : serves (end_task d t mark) id conn → serves d id conn.
Proof. intros (t' & m & r & H). cbn [end_task tasks] in H. apply lookup_delete_Some in H as [_ H]. by eexists _, _, _. Qed.

Lemma serves_launch d g id conn : serves (launch_start d g) id conn → serves d id conn.
Proof.
  destruct g as [id' addr|id']; cbn; unfold connect_start, reconnect_start.
  - destruct (getPeerConn _ id'); [done|]. destruct (tryMarkDialing _ addr) as [m []]; [|done].
    by intros [H|(? & ? & ?)]%serves_start.
  - destruct (known_addr d id'); [|done]. destruct (tryMarkDialing _ _) as [m []]; [|done].
    by intros [H|(? & ? & ?)]%serves_start.
Qed.

(** Reading begins with a dial. *)
Lemma serves_task h e d out st id conn :
  task_step (dialer h) e = Some (d, out, st) → serves d id conn →
  serves (dialer h) id conn ∨ dial_gives h (HTask e) = Some (id, conn).
Proof.
  unfold task_step.
  destruct e as [| | |t live|t live c a draw|t fired|t|t live data a draw| |]; try done; cbn [dial_gives].
  - intros (d' & Ht & [= <- <- _])%bind_Some Hs. left. unfold turn, reconnect_turn, bootstrap_turn in Ht.
    destruct (tasks (dialer h) !! t) as [[|? ? ? []|? ? []]|]; try done; injection Ht as <-;
      repeat case_match; first [by eapply serves_end|by apply serves_set in Hs as [?|(? & ? & [=])]].
  - unfold dialled.
    destruct (tasks (dialer h) !! t) as [[id' addr|id' mark r []|addr r []]|]; try done; destruct c as [c|];
      unfold connect_dialled, reconnect_dialled, bootstrap_dialled; intros Ht Hs.
    + left. destruct (claim _ _ _ _) as [n|]; injection Ht as <- _ _; [|by eapply serves_end].
      exact (serves_end (with_node (dialer h) n) t None id conn Hs).
    + injection Ht as <- _ _. left. by eapply serves_end.
    + destruct (claim _ _ _ _) as [n|]; injection Ht as <- _ _; [|left; by eapply serves_end].
      apply (serves_set (with_node _ n)) in Hs as [Hs|(m & r' & [= <- _ _ <-])]; [by left|by right].
    + destruct (go_to_sleep r draw) as [r' ph] eqn:Er. injection Ht as <- _ _. left.
      apply serves_set in Hs as [?|(? & ? & [=])]; [done|]. by unfold go_to_sleep in Er; simplify_eq.
    + injection Ht as <- _ _. left. by apply serves_set in Hs as [?|(? & ? & [=])].
    + destruct (go_to_sleep r draw) as [r' ph]. injection Ht as <- _ _. left. by apply serves_set in Hs as [?|(? & ? & [=])].
  - intros (d' & Ht & [= <- <- _])%bind_Some Hs. left. unfold woke in Ht.
    destruct (tasks (dialer h) !! t) as [[|? ? ? []|? ? []]|]; try done; apply bind_Some in Ht as ([] & _ & [= <-]);
      first [by eapply serves_end|by apply serves_set in Hs as [?|(? & ? & [=])]].
  - intros ([d' st'] & Ht & [= <- <- _])%bind_Some Hs. left. unfold served in Ht.
    destruct (tasks (dialer h) !! t) as [[|? ? ? []|]|]; try done. injection Ht as <- _.
    by apply serves_set in Hs as [?|(? & ? & [=])].
  - unfold first_message. intros Ht Hs. left.
    destruct (tasks (dialer h) !! t) as [[|? ? ? []|addr r [| | |c]]|]; try done. destruct (go_to_sleep r draw) as [r' ph].
    destruct data as [data|]; [destruct (identify data) as [[id'|]|x|]|];
      try (injection Ht as <- _ _; by apply serves_set in Hs as [?|(? & ? & [=])]).
    destruct (claim _ _ _ _) as [n|]; injection Ht as <- _ _; [|by eapply serves_end].
    exact (serves_end (with_node (dialer h) n) t None id conn Hs).
Qed.

(** Where a new handler comes from: a dial, or the first message of a connection. *)
Lemma new_reads h e id conn auto first :
  task_next (dialer h) e = Some (Reads id conn auto first) →
  (dial_gives h (HTask e) = Some (id, conn) ∧ first = None) ∨
  (∃ data, reading h (HTask e) = Some (conn, data) ∧ identify data = Ok (Some id) ∧ first = Some data).
Proof.
  destruct e as [| | |t live|t live c a draw|t fired|t|t live data a draw| |]; try done; cbn [task_next dial_gives reading].
  - destruct c as [c|]; [|done]. destruct (tasks (dialer h) !! t) as [[id' addr|? ? ? ?|? ? ?]|]; try done.
    intros [= <- <- _ <-]. by left.
  - destruct data as [data|]; [|done]. destruct (tasks (dialer h) !! t) as [[|? ? ? ?|addr r [| | |c]]|]; try done.
    destruct (identify data) as [[id'|]|x|] eqn:Ei; try done. intros [= <- <- _ <-]. right. by exists data.
Qed.

Lemma task_handlers_right i lg h e st :
  fair reaches i h (HTask e) → heard i lg h (HTask e) → handlers_right i lg (task_handlers (dialer h) e st).
Proof.
  intros Hf Hh. unfold task_handlers, handlers_right. destruct st as [|s st]; [constructor|].
  destruct (task_next (dialer h) e) as [[id conn auto first| |]|] eqn:En; try (by repeat constructor). apply Forall_singleton. cbn.
  destruct (new_reads _ _ _ _ _ _ En) as [[Hd ->]|(data & Hr & Hid & ->)].
  - split; [by eapply dials_meet, fr_dial|done].
  - destruct (Hh _ _ Hr) as [Hin Hpeer]. rewrite (Hpeer _ Hid) in Hin. split; [by apply Hpeer|]. by intros ? [= <-].
Qed.

Lemma handlers_right_nil i lg : handlers_right i lg [].
Proof. constructor. Qed.

Lemma handlers_right_set i lg hs k hd steps :
  handlers_right i lg hs → hs !! k = Some hd → handlers_right i lg (<[k := mkHandler steps (hd_next hd)]> hs).
Proof. intros H Hk. apply Forall_insert; [done|]. by apply (Forall_lookup_1 _ _ _ _ H Hk). Qed.

(** An operation of the node by itself changes no task. *)
Lemma host_node_ok i lg h op new h' out :
  host_ok i lg h → handlers_right i lg new → host_node (conn_host i) h op new = Ok (h', out) → host_ok i lg h'.
Proof.
  intros [H1 H2] Hn H. unfold host_node in H. apply res_bind_Ok in H as ([n o] & _ & H). injection H as <- _.
  split; [by apply Forall_app|exact H2].
Qed.

Lemma host_step_ok i lg h e h' out :
  host_ok i lg h → fair reaches i h e → heard i lg h e →
  host_step (conn_host i) (conn_of i) h e = Some (Ok (h', out)) → host_ok i lg h'.
Proof.
  intros Hok Hf Hh. pose proof Hok as [H1 H2].
  destruct e as [e|k [data|] a|k|e|t env data|k env|k|k env|k env data|k|op|]; cbn [host_step].
  - intros [= <- _]. by split.
  - intros (conn & Hk & [= H])%bind_Some. destruct (Hh conn data) as [Hin Hid]; [cbn; by rewrite Hk|].
    apply res_bind_Ok in H as (who & Ew & H). destruct who as [id|]; [|injection H as <- _; by split].
    eapply (host_node_ok i lg (set_entering h _)); [by split| |exact H]. apply Forall_singleton. cbn.
    rewrite (Hid _ Ew) in Hin. split; [by apply Hid|]. by intros ? [= <-].
  - intros (conn & Hk & [= <- _])%bind_Some. by split.
  - intros (g & Hk & [= <- _])%bind_Some. split; [done|]. intros id conn Hs%serves_launch. by apply H2.
  - intros (t & _ & H)%bind_Some. destruct (busy h t); [done|]. apply bind_Some in H as ([[d o] st] & Ht & [= <- _]). split.
    + apply Forall_app. split; [done|by apply task_handlers_right].
    + intros id conn Hs. destruct (serves_task _ _ _ _ _ _ _ Ht Hs) as [?|Hd]; [by apply H2|]. by eapply dials_meet, fr_dial.
  - destruct (busy h t); [done|]. destruct (tasks _ !! t) as [[|id ? ? []|]|]; try done. intros [= H].
    eapply host_node_ok; [exact Hok|apply handlers_right_nil|exact H].
  - intros (hd & Hk & H)%bind_Some. destruct (hd_steps hd) as [|s st]; [done|]. injection H as H.
    eapply (host_node_ok i lg (set_handlers h _)); [|apply handlers_right_nil|exact H]. split; [|done]. by apply handlers_right_set.
  - intros (hd & Hk & H)%bind_Some.
    assert (handlers_right i lg (delete k (handlers h))) as Hdel by by apply Forall_delete.
    destruct hd as [[|] [|t|id auto]]; try done; injection H as <- _; (split; [|done]); [done|]. apply Forall_app. by split.
  - intros (hd & Hk & H)%bind_Some. destruct hd as [[|] [id conn auto [data|]| |]]; try done. injection H as H.
    eapply (host_node_ok i lg (set_handlers h _)); [|apply handlers_right_nil|exact H]. split; [|done].
    apply Forall_insert; [done|]. split; [|done]. by destruct (Forall_lookup_1 _ _ _ _ H1 Hk).
  - intros (hd & Hk & H)%bind_Some. destruct hd as [[|] [id conn auto [|]| |]]; try done. injection H as H.
    eapply host_node_ok; [exact Hok|apply handlers_right_nil|exact H].
  - intros (hd & Hk & H)%bind_Some. destruct hd as [[|] [id conn auto [|]| |]]; try done. injection H as <- _. split; [|done].
    by apply Forall_insert.
  - destruct (loop_op op); [|done]. intros [= H]. eapply host_node_ok; [exact Hok|apply handlers_right_nil|exact H].
  - intros [= <- _]. by split.
Qed.

(** The operation in an event is possible at the node. *)
Lemma host_possible i w h e op r :
  running w !! i = Some h → host_ok i (log w) h → fair reaches i h e → heard i (log w) h e →
  host_step (conn_host i) (conn_of i) h e = Some r → host_op h e = Some op → possible conn_peer (over w) i (h_node h) op.
Proof.
  intros Hi [H1 H2] Hf Hh Hs Ho. split; [intros conn; by eapply fr_streams|].
  pose proof (fr_orders _ _ _ _ Hf) as Hord. rewrite Ho in Hord.
  assert (∀ from data, (from, i, contents data) ∈ log w → ∃ m tail, (from, i, m) ∈ o_wire (over w) ∧ contents data = m ++ tail) as Hd.
  { intros from data Hin. exists (contents data), []. by rewrite app_nil_r. }
  destruct e as [e|k [data|] a|k|e|t env data|k env|k|k env|k env data|k|op'|]; cbn [host_step host_op] in *; try done.
  - apply bind_Some in Ho as (conn & Hk & Ho). destruct (identify data) as [[id|]|x|] eqn:Ei; try done. injection Ho as <-.
    destruct (Hh conn data) as [_ Hid]; [cbn; by rewrite Hk|]. by apply Hid.
  - destruct e as [| | |t live|t live [c|] a draw|t fired|t|t live [data|] a draw| |]; try done.
    + pose proof (fr_dial _ _ _ _ Hf) as Hdial. cbn [dial_gives] in Hdial.
      destruct (tasks (dialer h) !! t) as [[id addr|id mark rt []|addr rt []]|]; try done; injection Ho as <-; by apply dials_meet, Hdial.
    + destruct (tasks (dialer h) !! t) as [[|? ? ? ?|addr rt [| | |c]]|] eqn:Ht; try done.
      destruct (identify data) as [[id|]|x|] eqn:Ei; try done. injection Ho as <-.
      destruct (Hh c data) as [_ Hid]; [cbn; by rewrite Ht|]. by apply Hid.
  - destruct (tasks (dialer h) !! t) as [[|id mark rt [| | |c]|]|] eqn:Ht; try done. injection Ho as <-.
    destruct (Hh c data) as [Hin _]; [cbn; by rewrite Ht|]. apply Hd. rewrite <- (H2 id c); [done|]. by eexists _, _, _.
  - apply bind_Some in Ho as (hd & Hk & Ho). destruct (hd_steps hd) as [|s st]; [done|]. injection Ho as <-. exact Hord.
  - apply bind_Some in Ho as (hd & Hk & Ho). pose proof (Forall_lookup_1 _ _ _ _ H1 Hk) as Hn. cbn beta in Hn.
    destruct (hd_next hd) as [id conn auto [data|]| |]; try done. injection Ho as <-. by apply Hd, Hn.
  - apply bind_Some in Ho as (hd & Hk & Ho). pose proof (Forall_lookup_1 _ _ _ _ H1 Hk) as Hn. cbn beta in Hn.
    destruct (hd_next hd) as [id conn auto first| |] eqn:En; try done. injection Ho as <-. destruct Hn as [Hn _].
    destruct (Hh conn data) as [Hin _]; [cbn; rewrite Hk; cbn; by rewrite En|]. apply Hd. by rewrite <- Hn.
  - injection Ho as ->. by destruct op.
Qed.

(** ** Runs of hosts *)

Abbreviation hosts_step := (hosts_step conn_peer conn_other conn_host conn_of reaches).
Abbreviation o_step := (o_step conn_peer conn_host).

(** What is in a queue was there before, or has been written to it. *)
Lemma posted i out ls k m :
  m ∈ default [] (foldl (post conn_peer conn_other i) ls out !! k) →
  m ∈ default [] (ls !! k) ∨ ∃ conn, NControl conn m ∈ out ∧ k = (conn_peer i conn, conn_other i conn).
Proof.
  revert ls. induction out as [|e out IH]; intros ls H; [by left|]. cbn [foldl] in H.
  destruct (IH _ H) as [Hm|(conn & Hin & ->)]; [|right; exists conn; split; [by right|done]].
  destruct e as [conn m'| | | | | |]; cbn [post] in Hm; try by left.
  destruct (decide ((conn_peer i conn, conn_other i conn) = k)) as [<-|Hne].
  - rewrite lookup_insert_eq in Hm. cbn in Hm. apply elem_of_app in Hm as [Hm| ->%list_elem_of_singleton]; [by left|].
    right. exists conn. split; [left|done].
  - rewrite lookup_insert_ne in Hm by done. by left.
Qed.

(** Every queue holds what the node at the other end has sent. *)
Definition links_ok (w : Hosts) : Prop :=
  ∀ i conn m, m ∈ default [] (links w !! (i, conn)) → (conn_peer i conn, i, m) ∈ log w.

Record hosts_ok (o0 : Overlay) (w : Hosts) : Prop := {
  hs_run : rtc o_step o0 (over w);
  hs_hosts : ∀ i h, running w !! i = Some h → host_ok i (log w) h;
  hs_links : links_ok w }.

Lemma host_ok_mono i lg lg' h : (∀ x, x ∈ lg → x ∈ lg') → host_ok i lg h → host_ok i lg' h.
Proof.
  intros Hl [H1 H2]. split; [|done]. eapply Forall_impl; [exact H1|]. intros [st [id conn auto first| |]]; try done.
  intros [Hp Hf]. split; [done|]. auto.
Qed.

(** What an event reads has been sent by the node at the other end of the connection. *)
Lemma heard_reads o0 w i h e ls :
  o_starts o0 → hosts_ok o0 w → all_fit w → reads i w h e ls → heard i (log w) h e.
Proof.
  intros H0 [Hrun _ Hl] Hfit Hr conn data Hread. unfold reads in Hr. rewrite Hread in Hr. destruct Hr as (q & Hq & _).
  unfold take_message in Hq. destruct (default [] _) as [|m q'] eqn:Em; [done|].
  assert ((conn_peer i conn, i, m) ∈ log w) as Hin by (apply Hl; rewrite Em; left).
  rewrite take_ge in Hq by by eapply Hfit. assert (contents data = m) as E by by injection Hq. rewrite E. split; [done|].
  intros id Hid. destruct (run_refined _ _ _ _ H0 Hrun) as (t & _ & [_ _ Hw] & Ht).
  apply (identified t i (conn_peer i conn) data m [] id); [done|by apply Hw|by rewrite app_nil_r|done].
Qed.

Lemma links_step w i h e ls out :
  links_ok w → all_fit w → reads i w h e ls →
  ∀ j conn m, m ∈ default [] (foldl (post conn_peer conn_other i) ls out !! (j, conn)) →
    (conn_peer j conn, j, m) ∈ log w ++ concat (map (sent conn_peer i) out).
Proof.
  intros Hl Hfit Hr j conn m [Hm|(c & Hin & [= -> ->])]%posted; apply elem_of_app.
  - left. apply Hl. unfold reads in Hr. destruct (reading h e) as [[c data]|]; [|by subst ls].
    destruct Hr as (q & Hq & ->). destruct (decide ((i, c) = (j, conn))) as [[= <- <-]|Hne].
    + rewrite lookup_insert_eq in Hm. cbn in Hm. unfold take_message in Hq.
      assert (∀ m', m' ∈ default [] (links w !! (i, c)) → (length m' ≤ controlBuffer)%nat) as Hle.
      { intros m' Hm'. by eapply Hfit, Hl. }
      destruct (default [] _) as [|m' q']; [done|]. injection Hq as _ <-.
      rewrite decide_False in Hm; [by right|]. specialize (Hle m'). intros Hlt. apply (Nat.lt_irrefl controlBuffer).
      eapply Nat.lt_le_trans; [exact Hlt|]. apply Hle. left.
    + by rewrite lookup_insert_ne in Hm.
  - right. rewrite other_end. apply list_elem_of_In, in_concat. exists (sent conn_peer i (NControl c m)).
    split; [apply in_map; by apply list_elem_of_In|]. by left.
Qed.

(** One step of the hosts is a step of their nodes, or none. *)
Lemma over_step i h e h' (out : list neffect) (w : Hosts) ls :
  running w !! i = Some h → (∀ op, host_op h e = Some op → possible conn_peer (over w) i (h_node h) op) →
  host_step (conn_host i) (conn_of i) h e = Some (Ok (h', out)) →
  rtc o_step (over w) (over (mkHosts (<[i := h']> (running w)) ls (log w ++ concat (map (sent conn_peer i) out)))).
Proof.
  intros Hi Hpos Hs. pose proof (host_step_op _ _ _ _ _ Hs) as H. unfold over. cbn [running log]. rewrite fmap_insert.
  destruct (host_op h e) as [op|].
  - unfold by_op in H. destruct (node_step _ _ _) as [[n' out']| |] eqn:En; [|done|done]. destruct H as (h1 & [= <- <-] & ->).
    apply rtc_once. apply (o_step_intro _ _ (over w) i (h_node h) op n' out); [|by apply Hpos|done].
    unfold over. cbn [o_nodes]. by rewrite lookup_fmap, Hi.
  - destruct H as (h1 & out' & [= <- <-] & En & Hno).
    replace (concat (map (sent conn_peer i) out)) with (@nil (NodeID * NodeID * list byte)).
    + rewrite app_nil_r, insert_id; [done|]. rewrite lookup_fmap, Hi. cbn. by rewrite En.
    + clear -Hno. induction out as [|e out IH]; [done|]. cbn. rewrite <- IH.
      * destruct e as [conn m| | | | | |]; try done. by destruct (Hno conn m); left.
      * intros conn m Hin. apply (Hno conn m). by right.
Qed.

Lemma hosts_step_ok o0 w w' : o_starts o0 → hosts_ok o0 w → all_fit w → hosts_step w w' → hosts_ok o0 w'.
Proof.
  intros H0 Hok Hfit [i h e h' out ls Hi Hf Hr Hs]. pose proof (heard_reads o0 w i h e ls H0 Hok Hfit Hr) as Hh.
  destruct Hok as [Hrun Hhosts Hl]. pose proof (Hhosts _ _ Hi) as Hhi. split.
  - etrans; [exact Hrun|]. eapply over_step; [exact Hi| |exact Hs]. intros op Ho. by eapply host_possible.
  - cbn [running log]. intros j hj [[<- <-]|[_ Hj]]%lookup_insert_Some; (eapply host_ok_mono; [intros x Hx; apply elem_of_app; by left|]).
    + by eapply host_step_ok.
    + by apply Hhosts.
  - intros j conn m. cbn [links log]. by eapply links_step.
Qed.

Lemma bootstrap_node d peers : d_node (bootstrap d peers) = d_node d.
Proof. revert d. induction peers as [|a peers IH]; intros d; [done|]. unfold bootstrap in *. cbn [foldl]. by rewrite IH. Qed.

Lemma bootstrap_serves d peers id conn : ¬ serves d id conn → ¬ serves (bootstrap d peers) id conn.
Proof.
  revert d. induction peers as [|a peers IH]; intros d Hd; [done|]. apply IH. by intros [?|(? & ? & [=])]%serves_start.
Qed.

Lemma hosts_start_ok w : hosts_start w → o_starts (over w) ∧ hosts_ok (over w) w.
Proof.
  intros (Hl & Hg & Hs). split; [split|split].
  - done.
  - intros i n Hn. unfold over in Hn. cbn [o_nodes] in Hn. rewrite lookup_fmap in Hn. apply fmap_Some in Hn as (h & Hh & ->).
    destruct (Hs _ _ Hh) as (idt & addr & nets & cfg & adv & ttl & peers & now & -> & Hid & Ha & Hn).
    exists idt, addr, nets, cfg, adv, ttl. split_and!; try done. unfold h_node, host_start. cbn [dialer]. by rewrite bootstrap_node.
  - apply rtc_refl.
  - intros i h Hi. destruct (Hs _ _ Hi) as (idt & addr & nets & cfg & adv & ttl & peers & now & -> & _).
    split; [apply handlers_right_nil|]. intros id conn Hserve. exfalso. revert Hserve. apply bootstrap_serves.
    intros (t & m & r & H). cbn [dialer_start tasks] in H. by rewrite lookup_empty in H.
  - intros i conn m. rewrite Hl, lookup_empty. cbn. by intros ?%not_elem_of_nil.
Qed.

Lemma fit_before w w' : hosts_step w w' → all_fit w' → all_fit w.
Proof. intros [] Hfit i' j m Hin. apply (Hfit i' j m). cbn [log]. apply elem_of_app. by left. Qed.

Lemma hosts_run_ok w0 w : hosts_start w0 → rtc hosts_step w0 w → all_fit w → o_starts (over w0) ∧ hosts_ok (over w0) w.
Proof.
  intros H0 Hr. destruct (hosts_start_ok _ H0) as [Ho Hok]. revert w Hr. refine (rtc_ind_r _ _ _ _); [done|].
  intros w1 w2 _ Hs IH Hfit. pose proof (fit_before _ _ Hs Hfit) as Hfit1. destruct (IH Hfit1) as [_ Hok1]. split; [done|].
  by eapply hosts_step_ok.
Qed.
End refinement.

(** ** Every registered connection is minded *)

Section keeping.
#[local] Set Default Proof Using "Type*".
Context `{Sig : Ed25519}.

(** A task that serves a connection goes on, until it has lost it: then its handler is going to forget it. *)
Lemma serves_keep h e d out st id conn :
  task_step (dialer h) e = Some (d, out, st) → serves (dialer h) id conn →
  serves d id conn ∨ (SForget id conn ∈ st ∧ is_Some (task_next (dialer h) e)).
Proof.
  assert (∀ d' t k k', tasks (dialer h) !! t = Some k → tasks d' = <[t := k']> (tasks (dialer h)) →
    (∀ mark r, k ≠ Reconnecting id mark r (Serving conn)) → serves (dialer h) id conn → serves d' id conn) as Hset.
  { intros d' t k k' Ht E Hk (t' & mark & r & H). exists t', mark, r. rewrite E.
    rewrite lookup_insert_ne; [done|]. intros <-. apply (Hk mark r). congruence. }
  assert (∀ d' t k, tasks (dialer h) !! t = Some k → tasks d' = delete t (tasks (dialer h)) →
    (∀ mark r, k ≠ Reconnecting id mark r (Serving conn)) → serves (dialer h) id conn → serves d' id conn) as Hend.
  { intros d' t k Ht E Hk (t' & mark & r & H). exists t', mark, r. rewrite E.
    rewrite lookup_delete_ne; [done|]. intros <-. apply (Hk mark r). congruence. }
  unfold task_step.
  destruct e as [| | |t live|t live c a draw|t fired|t|t live data a draw| |]; try done.
  - intros (d' & Ht & [= <- <- _])%bind_Some Hs. left. unfold turn, reconnect_turn, bootstrap_turn in Ht.
    destruct (tasks (dialer h) !! t) as [[|? ? ? []|? ? []]|] eqn:Et; try done; injection Ht as <-;
      repeat case_match; first [by eapply (Hend _ _ _ Et)|by eapply (Hset _ _ _ _ Et)].
  - unfold dialled. intros Ht Hs. left.
    destruct (tasks (dialer h) !! t) as [[id' addr|id' mark r []|addr r []]|] eqn:Et; try done; destruct c as [c|];
      unfold connect_dialled, reconnect_dialled, bootstrap_dialled in Ht.
    + destruct (claim _ _ _ _); injection Ht as <- _; by eapply (Hend _ _ _ Et).
    + injection Ht as <- _. by eapply (Hend _ _ _ Et).
    + destruct (claim _ _ _ _); injection Ht as <- _; [by eapply (Hset _ _ _ _ Et)|by eapply (Hend _ _ _ Et)].
    + destruct (go_to_sleep r draw) as [r' ph]. injection Ht as <- _. by eapply (Hset _ _ _ _ Et).
    + injection Ht as <- _. by eapply (Hset _ _ _ _ Et).
    + destruct (go_to_sleep r draw) as [r' ph]. injection Ht as <- _. by eapply (Hset _ _ _ _ Et).
  - intros (d' & Ht & [= <- <- _])%bind_Some Hs. left. unfold woke in Ht.
    destruct (tasks (dialer h) !! t) as [[|? ? ? []|? ? []]|] eqn:Et; try done; apply bind_Some in Ht as ([] & _ & [= <-]);
      first [by eapply (Hend _ _ _ Et)|by eapply (Hset _ _ _ _ Et)].
  - intros ([d' st'] & Ht & [= <- _ <-])%bind_Some Hs. unfold served in Ht.
    destruct (tasks (dialer h) !! t) as [[|id' mark r [| | |c]|]|] eqn:Et; try done. injection Ht as <- <-.
    destruct (decide (id' = id ∧ c = conn)) as [[-> ->]|Hne]; [right; split; [left|by eexists]|left].
    eapply (Hset _ _ _ _ Et); [reflexivity| |done]. intros ? ? [=]. tauto.
  - unfold first_message. intros Ht Hs. left.
    destruct (tasks (dialer h) !! t) as [[|? ? ? []|addr r [| | |c]]|] eqn:Et; try done. destruct (go_to_sleep r draw) as [r' ph].
    destruct data as [data|]; [destruct (identify data) as [[id'|]|x|]|];
      try (injection Ht as <- _; by eapply (Hset _ _ _ _ Et)).
    destruct (claim _ _ _ _); injection Ht as <- _; by eapply (Hend _ _ _ Et).
Qed.
End keeping.

Section minded.
#[local] Set Default Proof Using "Type*".
Context `{Sig : Ed25519}.
Context (conn_host : ConnRef → string) (conn_of : nat → ConnRef).

(** A handler that reads the connection, or is at the steps before that, or that has lost it and is going to forget it. *)
Definition minds (id : NodeID) (conn : ConnRef) (hd : handler) : Prop :=
  (∃ auto first, hd_next hd = Reads id conn auto first) ∨ SForget id conn ∈ hd_steps hd.

Definition minded (h : Host) (id : NodeID) (conn : ConnRef) : Prop :=
  (∃ hd, hd ∈ handlers h ∧ minds id conn hd) ∨ serves (dialer h) id conn.

Definition conns_minded (h : Host) : Prop := ∀ id conn, getPeerConn (h_node h) id = Some conn → minded h id conn.

(** The connections after an operation of the node. *)
Definition registered (n : Node) (op : node_op) : gmap string ConnRef :=
  match op with
  | OClaim keep id conn =>
      match claim n keep id conn with Some _ => <[NodeID_String id := conn]> (peerConns n) | None => peerConns n end
  | OStep _ (SForget id _) => delete (NodeID_String id) (peerConns n)
  | _ => peerConns n
  end.

Lemma dispatch_conns n env from data n' out : dispatchControlMsg n env from data = Ok (n', out) → peerConns n' = peerConns n.
Proof.
  unfold dispatchControlMsg. case_decide as Hnil; [by intros [= <- _]|]. destruct (authenticate n from data) as [d|]; [|by intros [= <- _]].
  unfold handle_verified. intros H. apply res_bind_Ok in H as ([[e eff] handled] & _ & H). cbn [after_gossip fst snd] in H.
  destruct handled; [by injection H as <- _|]. apply res_bind_Ok in H as (t & _ & H).
  destruct (decide (t = MsgRouteUpdate)); [|destruct (decide (t = MsgUDPForward))].
  - apply res_bind_Ok in H as (r & _ & H). by injection H as <- _.
  - apply res_bind_Ok in H as (r & _ & H). by injection H as <- _.
  - by injection H as <- _.
Qed.

Lemma claim_conns n keep id conn n' : claim n keep id conn = Some n' → peerConns n' = <[NodeID_String id := conn]> (peerConns n).
Proof. unfold claim. by destruct (getPeerConn n id); [destruct (keep _)|]; intros [= <-]. Qed.

Lemma registered_step n op n' out : node_step conn_host n op = Ok (n', out) → peerConns n' = registered n op.
Proof.
  intros [H _]%node_step_effects. revert H.
  destruct op as [env from data|keep id conn|env st|env hop tgt p|env remote data|now|now|env|env orders rng|env rng ok|target now];
    cbn [node_effects registered].
  - apply dispatch_conns.
  - destruct (claim n keep id conn) eqn:E; intros [= <- _]; [by eapply claim_conns|done].
  - intros [= H]. destruct st as [? []| | | | | | | |]; cbn in H; by injection H as <- _.
  - unfold socks_udp_forward. destruct (CreateSession _ _ _ _ _ _) as [r s]. by intros [= <- _].
  - unfold udp_datagram. destruct (udp_sender _ n env remote) as [[n1 peer]|] eqn:Es; [|by intros [= <- _]].
    assert (peerConns n1 = peerConns n) as E.
    { unfold udp_sender in Es. destruct (list_find _ (udp_order env)) as [[? [? ?]]|]; [by injection Es as <- _|].
      destruct (list_find _ (peerconn_order env)) as [[? [? ?]]|]; [|done]. by injection Es as <- _. }
    intros H. apply res_bind_Ok in H as (r & _ & H). by injection H as <- _.
  - by intros [= <- _].
  - by intros [= <- _].
  - unfold advertise. by intros [= <- _].
  - by intros [= <- _].
  - unfold gossip_probe. destruct ok; [by intros [= <- _]|]. destruct (perform _ _); by intros [= <- _].
  - by intros [= <- _].
Qed.

(** *** The parts of a host go their own ways *)

Lemma with_same d : with_node d (d_node d) = d.
Proof. by destruct d. Qed.

Lemma task_dstep d e d' out st : task_step d e = Some (d', out, st) → d' = dstep d e.
Proof.
  unfold task_step. destruct e as [| | |t live|t live c a draw|t fired|t|t live data a draw| |]; try done; cbn [dstep].
  - by intros (x & -> & [= <- _ _])%bind_Some.
  - by intros ->.
  - by intros (x & -> & [= <- _ _])%bind_Some.
  - by intros ([x o] & -> & [= <- _ _])%bind_Some.
  - by intros ->.
Qed.

Lemma host_node_dialer h op new h' out :
  host_node conn_host h op new = Ok (h', out) → dialer h' = with_node (dialer h) (h_node h') ∧ acceptor h' = acceptor h.
Proof. unfold host_node. intros H. apply res_bind_Ok in H as ([n o] & _ & H). by injection H as <- _. Qed.

(** The dialling goroutines of a host take a step of [Dialer]; its accepting ones, one of [Acceptor] or none. *)
Lemma host_parts h e h' out :
  host_step conn_host conn_of h e = Some (Ok (h', out)) →
  (∃ ev, dialer h' = dstep (dialer h) ev) ∧ (acceptor h' = acceptor h ∨ ∃ ae, acceptor h' = astep (acceptor h) ae).
Proof.
  assert (∃ ev, dialer h = dstep (dialer h) ev) as Hsame by (exists (EOther (h_node h)); cbn; unfold h_node; by rewrite with_same).
  assert (∀ h0 op new, dialer h0 = dialer h → acceptor h0 = acceptor h → host_node conn_host h0 op new = Ok (h', out) →
    (∃ ev, dialer h' = dstep (dialer h) ev) ∧ (acceptor h' = acceptor h ∨ ∃ ae, acceptor h' = astep (acceptor h) ae)) as Hnode.
  { intros h0 op new E1 E2 [H1 H2]%host_node_dialer. split; [exists (EOther (h_node h')); cbn; by rewrite <- E1|left; by rewrite H2]. }
  destruct e as [e|k [data|] a|k|e|t env data|k env|k|k env|k env data|k|op|]; cbn [host_step].
  - intros [= <- _]. split; [done|right; by exists e].
  - intros (conn & _ & [= H])%bind_Some. apply res_bind_Ok in H as ([id|] & _ & H); [by eapply (Hnode (set_entering h _))|].
    injection H as <- _. split; [done|by left].
  - intros (conn & _ & [= <- _])%bind_Some. split; [done|by left].
  - intros (g & _ & [= <- _])%bind_Some. split; [|by left]. destruct g as [id addr|id]; [by exists (EConnect id addr)|by exists (EReconnect id)].
  - intros (t & _ & H)%bind_Some. destruct (busy h t); [done|]. apply bind_Some in H as ([[d o] st] & Ht & [= <- _]).
    split; [|by left]. exists e. by eapply task_dstep.
  - destruct (busy h t); [done|]. destruct (tasks _ !! t) as [[|id ? ? []|]|]; try done. intros [= H]. by eapply Hnode.
  - intros (hd & _ & H)%bind_Some. destruct (hd_steps hd); [done|]. injection H as H. by eapply (Hnode (set_handlers h _)).
  - intros (hd & _ & H)%bind_Some. destruct hd as [[|] [|t|id auto]]; try done; injection H as <- _; (split; [done|by left]).
  - intros (hd & _ & H)%bind_Some. destruct hd as [[|] [id conn auto [data|]| |]]; try done. injection H as H.
    by eapply (Hnode (set_handlers h _)).
  - intros (hd & _ & H)%bind_Some. destruct hd as [[|] [id conn auto [|]| |]]; try done. injection H as H. by eapply Hnode.
  - intros (hd & _ & H)%bind_Some. destruct hd as [[|] [id conn auto [|]| |]]; try done. injection H as <- _. split; [done|by left].
  - destruct (loop_op op); [|done]. intros [= H]. by eapply Hnode.
  - intros [= <- _]. split; [by exists ECancel|right; by exists ACancel].
Qed.

(** *** The invariant *)

(** After an operation, what is registered is minded as before or by a new handler. *)
Lemma host_node_minded h op new h' out :
  host_node conn_host h op new = Ok (h', out) →
  (∀ id conn, registered (h_node h) op !! NodeID_String id = Some conn → minded h id conn ∨ ∃ hd, hd ∈ new ∧ minds id conn hd) →
  conns_minded h'.
Proof.
  unfold host_node. intros H Hr. apply res_bind_Ok in H as ([n o] & Hn & H). injection H as <- _.
  intros id conn Hc. unfold getPeerConn, h_node in Hc. cbn [go_on dialer with_node d_node] in Hc.
  rewrite (registered_step _ _ _ _ Hn) in Hc. unfold minded. cbn [go_on dialer handlers].
  destruct (Hr id conn Hc) as [[(hd & Hin & Hp)|Hs]|(hd & Hin & Hp)].
  - left. exists hd. split; [apply elem_of_app; by left|done].
  - right. exact Hs.
  - left. exists hd. split; [apply elem_of_app; by right|done].
Qed.

(** An operation that registers nothing. *)
Lemma host_node_minded_same h op h' out :
  host_node conn_host h op [] = Ok (h', out) → registered (h_node h) op = peerConns (h_node h) → conns_minded h → conns_minded h'.
Proof. intros H E Hc. eapply host_node_minded; [exact H|]. intros id conn. rewrite E. left. by apply Hc. Qed.

(** A handler goes on, or ends. *)
Lemma minded_set h k hd hd' id conn :
  handlers h !! k = Some hd → (minds id conn hd → minds id conn hd') → minded h id conn →
  minded (set_handlers h (<[k := hd']> (handlers h))) id conn.
Proof.
  intros Hk Hm [(hd0 & Hin & Hp)|Hs]; [left|by right]. cbn [set_handlers handlers]. apply list_elem_of_lookup in Hin as (j & Hj).
  destruct (decide (k = j)) as [<-|Hne].
  - assert (hd0 = hd) as -> by congruence. exists hd'. split; [|by apply Hm].
    apply list_elem_of_lookup. exists k. by rewrite list_lookup_insert_eq by by eapply lookup_lt_Some.
  - exists hd0. split; [|done]. apply list_elem_of_lookup. exists j. by rewrite list_lookup_insert_ne.
Qed.

Lemma minded_delete h k hd id conn :
  handlers h !! k = Some hd → ¬ minds id conn hd → minded h id conn → minded (set_handlers h (delete k (handlers h))) id conn.
Proof.
  intros Hk Hne [(hd0 & Hin & Hp)|Hs]; [left|by right]. exists hd0. split; [|done]. cbn [set_handlers handlers].
  rewrite <- (take_drop_middle _ _ _ Hk) in Hin. rewrite delete_take_drop.
  apply elem_of_app in Hin as [Hin|Hin]; apply elem_of_app; [by left|right].
  by apply elem_of_cons in Hin as [->|Hin].
Qed.

Lemma not_minds_nil id conn nx : (∀ auto first, nx ≠ Reads id conn auto first) → ¬ minds id conn (mkHandler [] nx).
Proof. intros Hn [(auto & first & E)|Hin]; [by eapply Hn|by apply not_elem_of_nil in Hin]. Qed.

(** A connection that a dialling goroutine has registered. *)
Lemma task_claimed h e d out st id conn :
  task_step (dialer h) e = Some (d, out, st) →
  (match host_op h (HTask e) with Some op => registered (h_node h) op | None => peerConns (h_node h) end) !! NodeID_String id = Some conn →
  getPeerConn (h_node h) id = Some conn ∨ serves d id conn ∨ ∃ hd, hd ∈ task_handlers (dialer h) e st ∧ minds id conn hd.
Proof.
  unfold task_step.
  destruct e as [| | |t live|t live [c|] a draw|t fired|t|t live [data|] a draw| |]; try done; cbn [host_op]; try (intros _ H; by left).
  - unfold dialled, task_handlers. cbn [task_next]. destruct (tasks (dialer h) !! t) as [[id' addr|id' mark r []|addr r []]|] eqn:Et; try done;
      cbn [registered]; unfold connect_dialled, reconnect_dialled; cbn [d_node end_task];
      change (d_node (dialer h)) with (h_node h); [| |intros _ H; by left].
    + destruct (claim (h_node h) _ id' c) as [n|]; intros [= <- _ <-] H; [|by left].
      apply lookup_insert_Some in H as [[->%(inj NodeID_String) <-]|[_ H]]; [|by left].
      right. right. eexists. split; [by left|]. left. by eexists _, _.
    + destruct (claim (h_node h) _ id' c) as [n|]; intros [= <- _ <-] H; [|by left].
      apply lookup_insert_Some in H as [[->%(inj NodeID_String) <-]|[_ H]]; [|by left].
      right. left. exists t, mark, r. apply lookup_insert_eq.
  - unfold first_message, task_handlers. cbn [task_next]. destruct (tasks (dialer h) !! t) as [[|? ? ? ?|addr r [| | |c]]|] eqn:Et; try done.
    destruct (go_to_sleep r draw) as [r' ph].
    destruct (identify data) as [[id'|]|x|] eqn:Ei; try (intros _ H; by left). cbn [registered].
    change (d_node (dialer h)) with (h_node h). destruct (claim (h_node h) _ id' c) as [n|]; intros [= <- _ <-] H; [|by left].
    apply lookup_insert_Some in H as [[->%(inj NodeID_String) <-]|[_ H]]; [|by left].
    right. right. eexists. split; [by left|]. left. by eexists _, _.
Qed.

(** The connections that a step of a dialling goroutine leaves registered. *)
Lemma task_minded h e d out st :
  task_step (dialer h) e = Some (d, out, st) → conns_minded h → conns_minded (go_on h d out (task_handlers (dialer h) e st)).
Proof using Sig conn_host.
  intros Ht Hc id conn Hg. unfold getPeerConn, h_node in Hg. cbn [go_on dialer] in Hg.
  pose proof (task_op conn_host _ _ _ _ _ Ht) as Ho.
  assert (peerConns (d_node d) = match host_op h (HTask e) with Some op => registered (h_node h) op | None => peerConns (h_node h) end) as Er.
  { destruct (host_op h (HTask e)) as [op|]; [by eapply registered_step|]. by destruct Ho as [-> _]. }
  rewrite Er in Hg. unfold minded. cbn [go_on dialer handlers].
  assert (∀ hd, hd ∈ task_handlers (dialer h) e st → hd ∈ handlers h ++ task_handlers (dialer h) e st) as Hnew
    by (intros; apply elem_of_app; by right).
  destruct (task_claimed _ _ _ _ _ _ _ Ht Hg) as [Hold|[Hs|(hd & Hin & Hm)]]; [|by right|left; by eauto].
  destruct (Hc _ _ Hold) as [(hd & Hin & Hm)|Hs]; [left; exists hd; split; [apply elem_of_app; by left|done]|].
  destruct (serves_keep _ _ _ _ _ _ _ Ht Hs) as [?|[Hin [nx Hnx]]]; [by right|]. left.
  exists (mkHandler st nx). split; [|by right]. apply Hnew. unfold task_handlers. rewrite Hnx.
  destruct st; [by apply not_elem_of_nil in Hin|by left].
Qed.

Lemma launch_serves d g id conn : marks_ok d → serves d id conn → serves (launch_start d g) id conn.
Proof.
  intros Hm Hs.
  assert (∀ m k, serves (start_task d m k) id conn) as Hstart.
  { intros m k. destruct Hs as (t & mark & r & H). exists t, mark, r. cbn [start_task tasks]. rewrite lookup_insert_ne; [done|].
    intros E. assert (t < next_task d)%nat; [by apply (mk_next _ Hm); eexists|lia]. }
  destruct g as [id' addr|id']; cbn; unfold connect_start, reconnect_start.
  - destruct (getPeerConn _ id'); [done|]. destruct (tryMarkDialing _ addr) as [m []]; [apply Hstart|done].
  - destruct (known_addr d id'); [|done]. destruct (tryMarkDialing _ _) as [m []]; [apply Hstart|done].
Qed.

(** A step of a handler. *)
Lemma step_minded h k hd s st env h' out :
  handlers h !! k = Some hd → hd_steps hd = s :: st → conns_minded h →
  host_node conn_host (set_handlers h (<[k := mkHandler st (hd_next hd)]> (handlers h))) (OStep env s) [] = Ok (h', out) →
  conns_minded h'.
Proof.
  intros Hk Es Hc H. eapply host_node_minded; [exact H|]. intros id conn Hg. left.
  change (h_node (set_handlers h _)) with (h_node h) in Hg.
  assert (getPeerConn (h_node h) id = Some conn ∧ s ≠ SForget id conn) as [Hg' Hne].
  { destruct s as [| | | | |id' c'| | |]; cbn [registered] in Hg; try by split.
    apply lookup_delete_Some in Hg as [Hne Hg]. split; [done|]. intros [= -> _]. done. }
  eapply minded_set; [exact Hk| |by apply Hc]. intros [?|Hin]; [by left|right]. rewrite Es in Hin. cbn.
  apply elem_of_cons in Hin as [E|Hin]; [by destruct Hne|done].
Qed.

Lemma conns_minded_step h e h' out :
  marks_ok (dialer h) → conns_minded h → host_step conn_host conn_of h e = Some (Ok (h', out)) → conns_minded h'.
Proof.
  intros Hm Hc. destruct e as [e|k [data|] a|k|e|t env data|k env|k|k env|k env data|k|op|]; cbn [host_step].
  - intros [= <- _]. exact Hc.
  - intros (conn & _ & [= H])%bind_Some. apply res_bind_Ok in H as ([id|] & _ & H); [|by injection H as <- _].
    eapply (host_node_minded (set_entering h _)); [exact H|]. intros id' c. cbn [registered].
    change (h_node (set_entering h _)) with (h_node h). destruct (claim _ _ _ _); [|left; by apply Hc].
    intros [[->%(inj NodeID_String) <-]|[_ Hl]]%lookup_insert_Some; [right|left; by apply Hc].
    eexists. split; [by left|]. left. by eexists _, _.
  - intros (conn & _ & [= <- _])%bind_Some. exact Hc.
  - intros (g & _ & [= <- _])%bind_Some. intros id conn Hg. unfold getPeerConn, h_node in Hg. cbn [dialer] in Hg. rewrite launch_node in Hg.
    destruct (Hc id conn Hg) as [?|?]; [by left|right]. by apply launch_serves.
  - intros (t & _ & H)%bind_Some. destruct (busy h t); [done|]. apply bind_Some in H as ([[d o] st] & Ht & [= <- _]).
    by apply (task_minded _ e).
  - destruct (busy h t); [done|]. destruct (tasks _ !! t) as [[|id ? ? []|]|]; try done. intros [= H]. by eapply host_node_minded_same.
  - intros (hd & Hk & H)%bind_Some. destruct (hd_steps hd) as [|s st] eqn:Es; [done|]. injection H as H. by eapply step_minded.
  - intros (hd & Hk & H)%bind_Some.
    destruct hd as [[|] [|t|id auto]]; try done; injection H as <- _; intros id' conn Hg;
      (destruct (minded_delete h k _ id' conn Hk) as [(hd & Hin & Hp)|Hs]; [by apply not_minds_nil|by apply Hc|left|by right]).
    + by exists hd.
    + exists hd. split; [apply elem_of_app; by left|done].
  - intros (hd & Hk & H)%bind_Some. destruct hd as [[|] [id conn auto [data|]| |]]; try done. injection H as H.
    eapply (host_node_minded (set_handlers h _)); [exact H|]. intros id' c Hg. left. eapply minded_set; [exact Hk| |by apply Hc].
    intros [(auto' & first & [= -> -> _ _])|Hin]; [left; by eexists _, _|by right].
  - intros (hd & Hk & H)%bind_Some. destruct hd as [[|] [id conn auto [|]| |]]; try done. injection H as H. by eapply host_node_minded_same.
  - intros (hd & Hk & H)%bind_Some. destruct hd as [[|] [id conn auto [|]| |]]; try done. injection H as <- _.
    intros id' c Hg. eapply minded_set; [exact Hk| |by apply Hc].
    intros [(auto' & first & [= -> -> _ _])|Hin]; [right; by left|by apply not_elem_of_nil in Hin].
  - destruct (loop_op op) eqn:El; [|done]. intros [= H]. by eapply host_node_minded_same; [exact H|destruct op|].
  - intros [= <- _]. exact Hc.
Qed.
End minded.

(** ** Runs, step by step *)

Section play.
Context `{Sig : Ed25519}.
Context (conn_peer : NodeID → ConnRef → NodeID) (conn_other : NodeID → ConnRef → ConnRef).
Context (conn_host : NodeID → ConnRef → string) (conn_of : NodeID → nat → ConnRef).
Context (reaches : NodeID → NodeID → ConnRef → Prop).

(** An event at host [i], if it is possible there. *)
Definition hosts_do (w : Hosts) (i : NodeID) (e : host_event) : option Hosts :=
  h ← running w !! i;
  ls ← match reading h e with
       | Some (conn, data) =>
           '(m, q) ← take_message (default [] (links w !! (i, conn)));
           if decide (m = contents data) then Some (<[(i, conn) := q]> (links w)) else None
       | None => Some (links w)
       end;
  match host_step (conn_host i) (conn_of i) h e with
  | Some (Ok (h', out)) =>
      Some (mkHosts (<[i := h']> (running w)) (foldl (post conn_peer conn_other i) ls out) (log w ++ concat (map (sent conn_peer i) out)))
  | _ => None
  end.

Lemma hosts_do_step w i e w' :
  (∀ h, running w !! i = Some h → fair reaches i h e) → hosts_do w i e = Some w' →
  hosts_step conn_peer conn_other conn_host conn_of reaches w w'.
Proof using Type.
  intros Hf H. apply bind_Some in H as (h & Hi & H). apply bind_Some in H as (ls & Hls & H).
  destruct (host_step _ _ h e) as [[[h' out]| |]|] eqn:Hs; [|done..]. injection H as <-.
  apply (hosts_step_intro _ _ _ _ _ w i h e h' out ls Hi (Hf h Hi)); [|exact Hs]. unfold reads.
  destruct (reading h e) as [[conn data]|]; [|by injection Hls as <-].
  apply bind_Some in Hls as ([m q] & -> & Hls). case_decide as E; [|done]. injection Hls as <-. exists q. by rewrite E.
Qed.

(** An event that asks nothing of dials and of enumerations. *)
Definition plain (h : Host) (e : host_event) : bool :=
  match e with
  | HTask (EDialled t _ (Some _) _ _) =>
      match tasks (dialer h) !! t with
      | Some (Connecting _ _) | Some (Reconnecting _ _ _ (Dialling _)) => false
      | _ => true
      end
  | HStep k _ => match handlers h !! k with Some (mkHandler (SWithdraw _ :: _) _) => false | _ => true end
  | HOp (OAdvertise _) | HOp (OStep _ (SWithdraw _)) => false
  | _ => true
  end.

Definition streams_there (e : host_event) : Prop :=
  match e with
  | HServe _ env _ | HStep _ env | HInitial _ env | HRead _ env _ => ∀ conn, cs_gone env conn = false
  | HOp op => ∀ conn, op_gone op conn = false
  | _ => True
  end.

Lemma host_op_streams h e op conn : streams_there e → host_op h e = Some op → op_gone op conn = false.
Proof using Type.
  destruct e as [e|k [data|] a|k|e|t env data|k env|k|k env|k env data|k|op'|]; cbn [host_op streams_there]; try done; intros Hs.
  - intros (c & _ & H)%bind_Some. destruct (identify data) as [[id|]|x|]; by simplify_eq.
  - destruct e as [| | |t live|t live [c|] a draw|t fired|t|t live [data|] a draw| |]; try done.
    + destruct (tasks (dialer h) !! t) as [[id addr|id mark rt []|addr rt []]|]; intros [= <-]; done.
    + destruct (tasks (dialer h) !! t) as [[|? ? ? ?|addr rt [| | |c]]|]; try done.
      destruct (identify data) as [[id|]|x|]; by intros [= <-].
  - destruct (tasks (dialer h) !! t) as [[|id mark rt [| | |c]|]|]; intros [= <-]. apply Hs.
  - intros (hd & _ & H)%bind_Some. destruct (hd_steps hd); simplify_eq. apply Hs.
  - intros (hd & _ & H)%bind_Some. destruct (hd_next hd) as [? ? ? [|]| |]; simplify_eq. apply Hs.
  - intros (hd & _ & H)%bind_Some. destruct (hd_next hd) as [? ? ? [|]| |]; simplify_eq; apply Hs.
  - intros [= <-]. apply Hs.
Qed.

Lemma plain_fair i h e : plain h e = true → streams_there e → fair reaches i h e.
Proof using Type.
  intros Hp Hs. split.
  - intros id conn. destruct e as [| | |[| | | |t live [c|] a draw| | | | |]| | | | | | | |]; try done. cbn [dial_gives plain] in *.
    by destruct (tasks (dialer h) !! t) as [[|? ? ? []|]|].
  - intros op conn. by apply host_op_streams.
  - destruct e as [e|k [data|] a|k|e|t env data|k env|k|k env|k env data|k|op'|]; cbn [host_op plain] in *; try done.
    + destruct (entering h !! k); [|done]. cbn. by destruct (identify data) as [[id|]|x|].
    + destruct e as [| | |t live|t live [c|] a draw|t fired|t|t live [data|] a draw| |]; try done.
      * by destruct (tasks (dialer h) !! t) as [[id addr|id mark rt []|addr rt []]|].
      * destruct (tasks (dialer h) !! t) as [[|? ? ? ?|addr rt [| | |c]]|]; try done. by destruct (identify data) as [[id|]|x|].
    + by destruct (tasks (dialer h) !! t) as [[|id mark rt [| | |c]|]|].
    + destruct (handlers h !! k) as [[st nx]|]; [|done]. cbn. by destruct st as [|[] st].
    + destruct (handlers h !! k) as [[st nx]|]; [|done]. cbn. by destruct nx as [? ? ? [|]| |].
    + destruct (handlers h !! k) as [[st nx]|]; [|done]. cbn. by destruct nx as [? ? ? [|]| |].
    + by destruct op' as [| |? []| | | | | | | |].
Qed.
End play.

(** *** What holds of every host *)

Section every.
#[local] Set Default Proof Using "Type*".
Context `{Sig : Ed25519}.
Context (conn_peer : NodeID → ConnRef → NodeID) (conn_other : NodeID → ConnRef → ConnRef).
Context (conn_host : NodeID → ConnRef → string) (conn_of : NodeID → nat → ConnRef).
Context (reaches : NodeID → NodeID → ConnRef → Prop).

(** The dialling goroutines of a host make a run of [Dialer], its accepting ones one of [Acceptor]. *)
Definition parts_run (h : Host) : Prop :=
  (∃ n es, dialer h = drun (dialer_start n) es) ∧ ∃ now aes, acceptor h = arun (acceptor_start now) aes.

Lemma parts_run_step i h e h' out : parts_run h → host_step (conn_host i) (conn_of i) h e = Some (Ok (h', out)) → parts_run h'.
Proof.
  intros [(n & es & E) (now & aes & Ea)] Hs. destruct (host_parts _ _ _ _ _ _ Hs) as [(ev & Ed) Hacc]. split.
  - exists n, (es ++ [ev]). unfold drun. rewrite foldl_app. by rewrite Ed, E.
  - destruct Hacc as [->|(ae & ->)]; [by exists now, aes|]. exists now, (aes ++ [ae]). unfold arun. rewrite foldl_app. by rewrite Ea.
Qed.

Lemma parts_run_marks h : parts_run h → marks_ok (dialer h).
Proof. intros [(n & es & ->) _]. apply drun_ok, dialer_start_ok. Qed.

Lemma every_host w0 w :
  hosts_start w0 → rtc (hosts_step conn_peer conn_other conn_host conn_of reaches) w0 w →
  ∀ i h, running w !! i = Some h → parts_run h ∧ conns_minded h.
Proof.
  intros (_ & _ & H0) Hr. revert w Hr. refine (rtc_ind_r _ _ _ _).
  - intros i h Hi. destruct (H0 _ _ Hi) as (idt & addr & nets & cfg & adv & ttl & peers & now & -> & _). split.
    + split; [by exists (New idt addr nets cfg adv ttl), [EBootstrap peers]|by exists now, []].
    + intros id conn Hc. unfold getPeerConn, h_node, host_start in Hc. cbn [dialer] in Hc. rewrite bootstrap_node in Hc.
      cbn in Hc. by rewrite lookup_empty in Hc.
  - intros w1 w2 _ Hs IH i' h' Hi'. destruct Hs as [i h e h1 out ls Hi _ _ Hs]. cbn [running] in Hi'.
    apply lookup_insert_Some in Hi' as [[<- <-]|[_ Hi']]; [|exact (IH _ _ Hi')]. destruct (IH _ _ Hi) as [Hp Hc]. split.
    + by apply (parts_run_step i h e h1 out).
    + by apply (conns_minded_step (conn_host i) (conn_of i) h e h1 out); [apply parts_run_marks|..].
Qed.
End every.

(** ** Properties *)

(** C4: what hosts do to each other's routes is what their propagators do in [Network]. Every run of hosts, with the
    goroutines that dial, accept and read, their signatures, gossip, datagrams and timers, in which no message is
    longer than a reader's buffer, is a run of the network of their propagators: the propagators are the same, and every control
    message that has been sent is a message of that network with a signature, or is about something else. The
    assumptions: a dial reaches the peer that it is meant for, and control streams stay open. *)
Theorem hosts_refine `{Sig : Ed25519, SigL : !Ed25519Laws Sig} conn_peer conn_other conn_host conn_of reaches w0 w :
  (∀ i conn, conn_peer (conn_peer i conn) (conn_other i conn) = i) → dials_right conn_peer reaches →
  hosts_start w0 → rtc (hosts_step conn_peer conn_other conn_host conn_of reaches) w0 w → all_fit w →
  ∃ t0 t, starts t0 ∧ nodes t0 = propagator <$> (h_node <$> running w0) ∧
    rtc net_step t0 t ∧ nodes t = propagator <$> (h_node <$> running w) ∧
    ∀ i j m, (i, j, m) ∈ log w → carried t i j m.
Proof.
  intros He Hd H0 Hr Hfit.
  destruct (hosts_run_ok conn_peer conn_other conn_host conn_of reaches He Hd w0 w H0 Hr Hfit) as [Ho [Hrun _ _]].
  destruct (run_refined conn_peer conn_host _ _ Ho Hrun) as (t & Ht & [Hn _ Hw] & _).
  exists (net_of (over w0)), t. split_and!; [|done..]. by apply (starts_refined conn_peer).
Qed.

(** C5: hosts are safe from each other. In every run of hosts in which no message is longer than a reader's buffer, dials
    reach the peers that they are meant for and control streams stay open, whatever event is possible at a host
    succeeds: nothing that it reads, on a connection that it knows or as the first message of a new one, makes it panic.
    Every route of its table is to its own network or leads by a simple path, that avoids the node, from the next hop to the origin. *)
Theorem hosts_safe `{Sig : Ed25519, SigL : !Ed25519Laws Sig} conn_peer conn_other conn_host conn_of reaches w0 w i h :
  (∀ i conn, conn_peer (conn_peer i conn) (conn_other i conn) = i) → dials_right conn_peer reaches →
  hosts_start w0 → rtc (hosts_step conn_peer conn_other conn_host conn_of reaches) w0 w → all_fit w → running w !! i = Some h →
  (∀ e ls r, fair reaches i h e → reads i w h e ls → host_step (conn_host i) (conn_of i) h e = Some r → is_ok r) ∧
  ∀ r, in_table (table (propagator (h_node h))) r → route_right i r.
Proof.
  intros He Hd H0 Hr Hfit Hi.
  destruct (hosts_run_ok conn_peer conn_other conn_host conn_of reaches He Hd w0 w H0 Hr Hfit) as [Ho Hok].
  pose proof Hok as [Hrun Hhosts _]. destruct (run_refined conn_peer conn_host _ _ Ho Hrun) as (t & _ & [Hn _ Hw] & Ht).
  assert (o_nodes (over w) !! i = Some (h_node h)) as Hni by (unfold over; cbn; by rewrite lookup_fmap, Hi). split.
  - intros e ls r Hf Hread Hs. assert (heard conn_peer i (log w) h e) as Hh by by eapply heard_reads.
    pose proof (host_step_op _ _ _ _ _ Hs) as H. destruct (host_op h e) as [op|] eqn:Eo.
    + assert (possible conn_peer (over w) i (h_node h) op) as Hpos
        by (eapply host_possible; [exact He|exact Hd|exact Hi|by apply Hhosts|exact Hf|exact Hh|exact Hs|exact Eo]).
      pose proof (node_step_fails (conn_host i) (h_node h) op) as Hfail. unfold by_op in H.
      destruct (node_step _ _ _) as [[n' out]|x|]; [destruct H as (h' & -> & _); by eexists|done|].
      by apply (possible_not_fatal conn_peer conn_host (over w) t i (h_node h) op Ht Hw Hpos) in Hfail.
    + destruct H as (h' & out & -> & _). by eexists.
  - apply (node_routes i (propagator (h_node h))), (proj1 Ht). by rewrite Hn, lookup_fmap, Hni.
Qed.

(** C6: no registered connection is orphaned. In every run of hosts, whatever they send, whoever their dials reach, and
    however the steps of their goroutines interleave, every connection that a node has registered for a peer is in
    the hands of a goroutine: one that is in the loop that reads its control messages, or at the steps that come before that,
    or one that has lost the connection and whose steps still hold its removal. If dials reach the peers that they are meant
    for and no message is longer than a reader's buffer, the registered peer is the node at the other end. The dialling
    and the accepting goroutines of the host make runs of [Dialer] and of [Acceptor]. Whether a reader is woken
    when the connection ends is not part of this ([Conn.teardown_wakes]). *)
Theorem connections_read `{Sig : Ed25519, SigL : !Ed25519Laws Sig} conn_peer conn_other conn_host conn_of reaches w0 w i h :
  (∀ i conn, conn_peer (conn_peer i conn) (conn_other i conn) = i) →
  hosts_start w0 → rtc (hosts_step conn_peer conn_other conn_host conn_of reaches) w0 w → running w !! i = Some h →
  parts_run h ∧
  ∀ id conn, getPeerConn (h_node h) id = Some conn →
    ((∃ hd, hd ∈ handlers h ∧ ((∃ auto first, hd_next hd = Reads id conn auto first) ∨ SForget id conn ∈ hd_steps hd)) ∨
     (∃ t mark r, tasks (dialer h) !! t = Some (Reconnecting id mark r (Serving conn)))) ∧
    (dials_right conn_peer reaches → all_fit w → conn_peer i conn = id).
Proof.
  intros He H0 Hr Hi. destruct (every_host conn_peer conn_other conn_host conn_of reaches _ _ H0 Hr _ _ Hi) as [Hp Hc].
  split; [done|]. intros id conn Hg. split; [exact (Hc _ _ Hg)|]. intros Hd Hfit.
  destruct (hosts_run_ok conn_peer conn_other conn_host conn_of reaches He Hd w0 w H0 Hr Hfit) as [Ho [Hrun _ _]].
  destruct (run_refined conn_peer conn_host _ _ Ho Hrun) as (t & _ & [_ Hn _] & _).
  destruct (Hn i (h_node h)) as (idt & addr & _ & _ & _ & Hright); [unfold over; cbn; by rewrite lookup_fmap, Hi|]. by apply Hright.
Qed.

(** ** An example *)

(** Two hosts: the first dials the second as its bootstrap peer, each learns who the other is, the first advertises its
    network, and the second reads that. *)
Definition across (i : NodeID) (_ : ConnRef) : NodeID :=
  if decide (i = id_ID id_7) then id_ID id_5 else if decide (i = id_ID id_5) then id_ID id_7 else i.
Definition same_ref (_ : NodeID) (conn : ConnRef) : ConnRef := conn.
Definition one_link (_ : NodeID) (_ : nat) : ConnRef := link.
Definition reached (i id : NodeID) (conn : ConnRef) : Prop := across i conn = id.
Definition idle_env : Env := mkEnv [] [] [] [] [] [] Z.of_nat (λ _, false).
Definition any_live (_ : ConnRef) : bool := true.

Abbreviation toy_step := (hosts_step (Sig := toy_ed25519) across same_ref hosts one_link reached).

Definition hosts_0 : Hosts :=
  mkHosts (<[id_ID id_7 := host_start node_7 [[x61]] 0]> {[ id_ID id_5 := host_start node_5 [] 0 ]}) ∅ [].

(** An event at a host, which reads the next message on its way there; nothing if that is not possible. *)
Definition play (w : Hosts) (step : NodeID * (Slice → host_event)) : Hosts :=
  let '(i, e) := step in
  let data := mkSlice (default [] (head (default [] (links w !! (i, link))))) [] in
  default w (hosts_do (Sig := toy_ed25519) across same_ref hosts one_link w i (e data)).

(** The steps of the handler that is first in the list. *)
Definition steps_of (i : NodeID) (n : nat) : list (NodeID * (Slice → host_event)) := repeat (i, λ _, HStep 0 idle_env) n.

Definition meeting : list (NodeID * (Slice → host_event)) :=
  [(id_ID id_7, λ _, HTask (ETurn 0 any_live));
   (id_ID id_7, λ _, HTask (EDialled 0 any_live (Some link) None 0))] ++ steps_of (id_ID id_7) 2 ++
  [(id_ID id_7, λ _, HEnd 0);
   (id_ID id_5, λ _, HAccept (ASocket (Some 1%nat)));
   (id_ID id_5, λ _, HAccept (AConn 1));
   (id_ID id_5, λ data, HFirst 0 (Some data) None)] ++ steps_of (id_ID id_5) 3 ++
  [(id_ID id_7, λ data, HTask (EFirst 0 any_live (Some data) None 0))] ++ steps_of (id_ID id_7) 3 ++
  [(id_ID id_7, λ _, HInitial 0 idle_env);
   (id_ID id_5, λ _, HInitial 0 idle_env);
   (id_ID id_5, λ data, HRead 0 idle_env data)].

Definition hosts_1 : Hosts := foldl play hosts_0 meeting.

(** What the ticker of [advertiseLoop] sees. *)
Definition tick_env : Env :=
  let p := propagator (default node_7 (h_node <$> running hosts_1 !! id_ID id_7)) in
  mkEnv [] [] [(NodeID_String (id_ID id_5), link)] (map_to_list (routes (table (fst (AdvertiseDirectNetworks p Z.of_nat)))))
    [] [] Z.of_nat (λ _, false).

Definition hosts_2 : Hosts := play hosts_1 (id_ID id_7, λ _, HOp (OAdvertise tick_env)).
Definition hosts_3 : Hosts := play hosts_2 (id_ID id_5, λ data, HRead 0 idle_env data).

Lemma across_other i conn : across (across i conn) (same_ref i conn) = i.
Proof.
  unfold across. destruct (decide (i = id_ID id_7)) as [->|H7]; [|destruct (decide (i = id_ID id_5)) as [->|H5]].
  - rewrite decide_False by (intros E; symmetry in E; by apply id_7_ne_5 in E). by rewrite decide_True.
  - by rewrite decide_True.
  - by rewrite !decide_False.
Qed.

Lemma reached_right : dials_right across reached.
Proof. by intros i id conn. Qed.

Lemma hosts_0_start : hosts_start (Sig := toy_ed25519) hosts_0.
Proof.
  split; [done|]. split; [done|]. intros i h Hi. cbn [running hosts_0] in Hi.
  assert (Forall prefix_ok [example_net]) as Hp by (repeat constructor; exists 16%nat; vm_compute; split; [lia|done]).
  apply lookup_insert_Some in Hi as [[<- <-]|[_ [<- <-]%lookup_singleton_Some]];
    [exists id_7, [x3a; x39; x34; x34; x33], [example_net]|exists id_5, [x3a; x39; x34; x34; x33], []];
    eexists _, _, _, _, _; (split; [reflexivity|]); (split; [done|]); (split; [cbn; lia|]); [done|constructor].
Qed.

Definition play_fair (w : Hosts) (step : NodeID * (Slice → host_event)) : Prop :=
  ∀ h data, running w !! fst step = Some h → fair reached (fst step) h (snd step data).

(** The events of a list are plain, each in the state that those before it leave. *)
Fixpoint plays_plain (w : Hosts) (steps : list (NodeID * (Slice → host_event))) : Prop :=
  match steps with
  | [] => True
  | s :: steps =>
      (∀ data, match running w !! fst s with Some h => plain h (snd s data) | None => true end = true ∧ streams_there (snd s data)) ∧
      plays_plain (play w s) steps
  end.

Lemma play_run w s : play_fair w s → rtc toy_step w (play w s).
Proof.
  destruct s as [i e]. intros Hf. unfold play. set (data := mkSlice _ _).
  destruct (hosts_do _ _ _ _ w i (e data)) as [w'|] eqn:E; [|done]. cbn [default]. apply rtc_once.
  eapply hosts_do_step; [|exact E]. intros h Hh. by apply Hf.
Qed.

Lemma plays_run steps w : plays_plain w steps → rtc toy_step w (foldl play w steps).
Proof.
  revert w. induction steps as [|s steps IH]; intros w; [done|]. intros [Hs Hf]. cbn [foldl].
  etrans; [apply play_run|by apply IH]. intros h data Hh. destruct (Hs data) as [Hp Hst]. rewrite Hh in Hp. by apply plain_fair.
Qed.

Lemma hosts_1_run : rtc toy_step hosts_0 hosts_1.
Proof.
  apply plays_run. unfold meeting. cbn [plays_plain app steps_of repeat].
  repeat (split; [intros data; split; [vm_compute; reflexivity|done]|]). exact I.
Qed.

Lemma hosts_2_run : rtc toy_step hosts_1 hosts_2.
Proof.
  apply (play_run hosts_1 (id_ID id_7, λ _, HOp (OAdvertise tick_env))). intros h data Hh. cbn [fst snd] in *. split.
  - done.
  - by intros op conn [= <-].
  - cbn [host_op]. unfold tick_env. rewrite Hh. unfold enumerates. reflexivity.
Qed.

Lemma hosts_3_run : rtc toy_step hosts_0 hosts_3.
Proof.
  transitivity hosts_1; [exact hosts_1_run|]. transitivity hosts_2; [exact hosts_2_run|].
  apply (play_run hosts_2 (id_ID id_5, λ data, HRead 0 idle_env data)). intros h data _. by apply plain_fair.
Qed.

Lemma hosts_3_fit : all_fit hosts_3.
Proof.
  assert (forallb (λ x, Z.of_nat (length (snd x)) <=? 65536) (log hosts_3) = true) as H by (vm_compute; reflexivity).
  intros i j m Hin. rewrite forallb_forall in H. apply list_elem_of_In in Hin. specialize (H _ Hin). cbn [snd] in H.
  apply Z.leb_le in H. unfold controlBuffer. lia.
Qed.

Lemma hosts_refine_witness :
  ∃ t0 t, starts t0 ∧ nodes t0 = propagator <$> (h_node <$> running hosts_0) ∧
    rtc net_step t0 t ∧ nodes t = propagator <$> (h_node <$> running hosts_3) ∧
    ∀ i j m, (i, j, m) ∈ log hosts_3 → carried t i j m.
Proof.
  apply (hosts_refine (SigL := toy_ed25519_laws) across same_ref hosts one_link reached).
  - exact across_other.
  - exact reached_right.
  - exact hosts_0_start.
  - exact hosts_3_run.
  - exact hosts_3_fit.
Defined.

(** The second host has a route to the first one's network. *)
Definition host_5 : Host := default (host_start node_5 [] 0) (running hosts_3 !! id_ID id_5).

Lemma host_5_is : running hosts_3 !! id_ID id_5 = Some host_5.
Proof. vm_compute. reflexivity. Qed.

Definition next_message : Slice := mkSlice (default [] (head (default [] (links hosts_3 !! (id_ID id_5, link))))) [xff].

Lemma reader_5 : handlers host_5 !! 0%nat = Some (mkHandler [] (Reads (id_ID id_7) link true None)).
Proof. vm_compute. reflexivity. Qed.

Lemma hosts_safe_witness :
  is_ok (host_node (Sig := toy_ed25519) (hosts (id_ID id_5)) host_5 (ODispatch idle_env (id_ID id_7) next_message) []) ∧
  route_right (id_ID id_5) (mkRoute (prefix_norm example_net) (id_ID id_7) (mkASPath [id_ID id_7]) 2 (id_ID id_7) 100 0).
Proof.
  destruct (hosts_safe (SigL := toy_ed25519_laws) across same_ref hosts one_link reached hosts_0 hosts_3 (id_ID id_5) host_5
    across_other reached_right hosts_0_start hosts_3_run hosts_3_fit host_5_is) as [H1 H2]. split.
  - apply (H1 (HRead 0 idle_env next_message) (<[(id_ID id_5, link) := []]> (links hosts_3))); [by apply plain_fair|..].
    + unfold reads. cbn [reading]. rewrite reader_5. exists []. split; [vm_compute; reflexivity|reflexivity].
    + unfold host_step. rewrite reader_5. reflexivity.
  - apply H2. exists "10.1.0.0/16". eexists [_]. split; [vm_compute; reflexivity|left].
Defined.

Lemma connections_read_witness :
  parts_run host_5 ∧
  ((∃ hd, hd ∈ handlers host_5 ∧
      ((∃ auto first, hd_next hd = Reads (id_ID id_7) link auto first) ∨ SForget (id_ID id_7) link ∈ hd_steps hd)) ∨
   (∃ t mark r, tasks (dialer host_5) !! t = Some (Reconnecting (id_ID id_7) mark r (Serving link)))) ∧
  across (id_ID id_5) link = id_ID id_7.
Proof.
  destruct (connections_read (SigL := toy_ed25519_laws) across same_ref hosts one_link reached hosts_0 hosts_3 (id_ID id_5) host_5
    across_other hosts_0_start hosts_3_run host_5_is) as [H1 H2].
  destruct (H2 (id_ID id_7) link) as [H3 H4]; [vm_compute; reflexivity|]. split_and!; [exact H1|exact H3|exact (H4 reached_right hosts_3_fit)].
Defined.
