(* ===== verification/Loops.v ===== *)
(** * The loops of the tickers ([gossip/gossip.go], [route/propagation.go], [node/node.go])

    Each loop waits for its ticker or for the end, whichever comes first; between two turns the
    other goroutines change what they share. A run of a loop is the list of these events, in the order
    in which they take effect. *)

From S2P Require Import Prelude Bytes Crypto Net Identity Wire RoutePath RouteTable RouteSelect Propagation.
From S2P Require Import Peers Gossip Session Node Network.
From stdpp Require Import options.

(** ** Loops *)

(** The ticker fires, with what the body reads; another goroutine acts; the end is seen. *)
Inductive loop_event (S A : Type) := LTick (a : A) | LOther (f : S → S) | LQuit.
Arguments LTick {S A} a.
Arguments LOther {S A} f.
Arguments LQuit {S A}.

Section loop.
Context {S A E : Type} (body : S → A → S * list E).

(** The shared state, whether the loop runs, and what its turns have done so far. *)
Definition loop_turn (st : S * bool * list E) (e : loop_event S A) : S * bool * list E :=
  let '(s, running, out) := st in
  match e with
  | LTick a => if running : bool then let '(s, eff) := body s a in (s, true, out ++ eff) else st
  | LOther f => (f s, running, out)
  | LQuit => (s, false, out)
  end.

Definition loop_run (s : S) (evs : list (loop_event S A)) : S * bool * list E := foldl loop_turn (s, true, []) evs.

(** The turns of a loop that has ended change nothing. *)
Lemma loop_ended s out evs :
  snd (foldl loop_turn (s, false, out) evs) = out ∧
  fst (fst (foldl loop_turn (s, false, out) evs)) = foldl (λ s e, match e with LOther f => f s | _ => s end) s evs.
Proof. revert s. induction evs as [|[a|f|] evs IH]; intros s; [done|..]; apply IH. Qed.

Lemma loop_running s out evs : LQuit ∉ evs → snd (fst (foldl loop_turn (s, true, out) evs)) = true.
Proof.
  revert s out. induction evs as [|e evs IH]; intros s out Hq; [done|]. apply not_elem_of_cons in Hq as [He Hq].
  destruct e as [a|f|]; cbn [foldl loop_turn]; [|by apply IH|done]. destruct (body s a). by apply IH.
Qed.

Lemma loop_run_app s evs evs' : loop_run s (evs ++ evs') = foldl loop_turn (loop_run s evs) evs'.
Proof. apply foldl_app. Qed.
End loop.

(** ** The loops of the program *)

Section loops.
Context `{Sig : Ed25519}.

(** The engine is shared, and so is the state of the random generator. *)
Definition pushLoop : Engine * Z → list (loop_event (Engine * Z) (nat → list (string * Peer))) → (Engine * Z) * bool * list geffect :=
  loop_run (λ '(e, rng) orders, let '(eff, rng) := pushToRandom e orders rng in ((e, rng), eff)).

Definition probeLoop : Engine * Z → list (loop_event (Engine * Z) (list (string * Peer) * bool)) → (Engine * Z) * bool * list geffect :=
  loop_run (λ '(e, rng) '(order, write_ok), let '(e, eff, _, rng) := probeRandomPeer e order rng write_ok in ((e, rng), eff)).

(** The first advertisement comes two seconds after the start, whether the end has come by then or not;
    [p] is the propagator at that time. *)
Definition advertiseLoop (p : Propagator) (clock : nat → Z)
    (evs : list (loop_event Propagator ((nat → Z) * list (string * list Route)))) : Propagator * bool * list effect :=
  let '(p, eff) := AdvertiseDirectNetworks p clock in
  foldl (loop_turn (λ p '(clock, order), advertise_tick p clock order)) (p, true, eff) evs.

Definition sessionGCLoop : SessionTable → list (loop_event SessionTable Z) → SessionTable * bool * list () :=
  loop_run (λ st now, (Session_GC st now, [])).

(** The number of routes removed is logged. *)
Definition routeTTL (interval : Z) : Z := signed64 (interval * 3).

Definition routeGCLoop (interval : Z) : RoutingTable → list (loop_event RoutingTable Z) → RoutingTable * bool * list nat :=
  loop_run (λ rt now, let '(rt, removed) := GC rt (routeTTL interval) now in (rt, [removed])).
End loops.

(** ** Stale routes *)

(** An operation of another goroutine that adds no route older than [t]. *)
Definition adds_since (t : Z) (f : RoutingTable → RoutingTable) : Prop :=
  ∀ rt r, in_table (f rt) r → in_table rt r ∨ t < Timestamp r.

Lemma AddRoute_adds_since t r now now' : t < now → t < now' → adds_since t (λ rt, fst (AddRoute rt r now now')).
Proof. intros H H' rt r' [Hin|[->|(er & Her & ->)]]%AddRoute_routes; [by left|by right..]. Qed.

Lemma RemoveRoute_adds_since t d o : adds_since t (λ rt, RemoveRoute rt d o).
Proof. intros rt r H. left. by apply RemoveRoute_routes in H. Qed.

Lemma RemoveAll_adds_since t o : adds_since t (λ rt, RemoveAllFromOrigin rt o).
Proof. intros rt r H. left. by apply sweep_routes in H. Qed.

Lemma GC_fresh rt ttl now r : 0 <= ttl < 2 ^ 63 → in_table (fst (GC rt ttl now)) r → now - ttl < Timestamp r.
Proof.
  intros Ht (k & rs & Hk & Hin). cbn in Hk. rewrite lookup_omap in Hk.
  destruct (routes rt !! k) as [rs0|]; cbn in Hk; [|done]. unfold keep_some in Hk.
  destruct (filter _ rs0) as [|r0 l] eqn:Ef; [done|]. injection Hk as <-. rewrite <- Ef in Hin.
  apply list_elem_of_filter in Hin as [Hf _]. unfold fresh in Hf. apply Z.ltb_lt in Hf.
  unfold time_sub, min_duration, max_duration in Hf. lia.
Qed.

Lemma GC_adds_since t ttl now : adds_since t (λ rt, fst (GC rt ttl now)).
Proof. intros rt r H. left. by apply sweep_routes in H. Qed.

(** No route outlives three intervals by more than the time to the next tick: after a tick at [now], whatever the
    other goroutines do that adds no older route, and whatever happened before, every route in the
    table was refreshed less than three intervals before [now]. *)
Lemma no_stale_routes interval rt evs now evs' r :
  0 < interval → interval * 3 < 2 ^ 63 → LQuit ∉ evs → (∀ f, LOther f ∈ evs' → adds_since (now - interval * 3) f) →
  in_table (fst (fst (routeGCLoop interval rt (evs ++ LTick now :: evs')))) r → now - interval * 3 < Timestamp r.
Proof.
  intros Hi Hov Hq Hf. unfold routeGCLoop. rewrite loop_run_app. cbn [foldl].
  pose proof (loop_running (λ rt now, let '(rt, removed) := GC rt (routeTTL interval) now in (rt, [removed])) rt [] evs Hq) as Hr.
  unfold loop_run. destruct (foldl _ (rt, true, []) evs) as [[rt1 run1] out1]. cbn [fst snd] in Hr. subst run1.
  assert (routeTTL interval = interval * 3) as Ettl.
  { unfold routeTTL, signed64. rewrite Z.mod_small by lia. lia. }
  cbn [loop_turn]. destruct (GC rt1 (routeTTL interval) now) as [rt2 removed] eqn:Eg.
  assert (∀ r, in_table rt2 r → now - interval * 3 < Timestamp r) as H2.
  { intros r' Hin. replace rt2 with (fst (GC rt1 (routeTTL interval) now)) in Hin by by rewrite Eg.
    rewrite Ettl in Hin. apply GC_fresh in Hin; [done|lia]. }
  clear Eg. generalize (out1 ++ [removed]). generalize true. revert rt2 H2 Hf.
  induction evs' as [|e evs' IH]; intros rt2 H2 Hf run out; [by apply H2|]. cbn [foldl].
  assert (∀ f, LOther f ∈ evs' → adds_since (now - interval * 3) f) as Hf' by (intros f Hin; apply Hf; by right).
  destruct e as [t|f|]; cbn [loop_turn].
  - destruct run; [|by apply IH]. destruct (GC rt2 (routeTTL interval) t) as [rt3 removed'] eqn:Eg. apply IH; [|done].
    intros r' Hin. replace rt3 with (fst (GC rt2 (routeTTL interval) t)) in Hin by by rewrite Eg.
    apply H2. by apply sweep_routes in Hin.
  - apply IH; [|done]. intros r' Hin. destruct (Hf f ltac:(left) rt2 r' Hin) as [?|?]; [by apply H2|done].
  - by apply IH.
Qed.
