(* ===== verification/Config.v ===== *)
(** * The configuration ([config/config.go], [cmd/magictun/main.go] and [New] in [node/node.go])

    A configuration is made from the flags or read from a file, is validated, and makes a
    node. The bytes of a JSON text are parsed by an argument of the model, which gives the
    tree of the text ([Json]). *)

From Stdlib Require Import Strings.Ascii.
From S2P Require Import Prelude Bytes Crypto Net NetText Identity Wire WireRoute RouteTable Propagation.
From S2P Require Import Gossip Session Duration Json Node Network.
From stdpp Require Import options.

#[local] Set Warnings "-clear-no-such-hyp".

(** ** Data *)

Record NodeConfig := mkNodeConfig {
  Name : string; IdentityFile : string; ListenAddr : string;
  Socks5Addr : string; Socks5Auth : string; HealthAddr : string }.

Record RoutingConfig := mkRoutingConfig {
  DirectNetworks : list string; cfg_LocalPreference : Z; MaxASPathLength : Z;
  RouteAdvertisementIntervalS : string }.

Record GossipConfig := mkGossipConfig {
  BootstrapPeers : list string; PushIntervalS : string; PeerTimeoutS : string;
  ProbeIntervalS : string; cfg_Fanout : Z }.

Record UDPConfig := mkUDPConfig {
  SessionTTLS : string; SessionGCIntervalS : string; MaxDatagramSize : Z }.

Record LoggingConfig := mkLoggingConfig { Level : string; Format : string }.

Record Config := mkConfig {
  c_Node : NodeConfig; Routing : RoutingConfig; c_Gossip : GossipConfig;
  c_UDP : UDPConfig; Logging : LoggingConfig }.

Definition DefaultConfig : Config :=
  mkConfig
    (mkNodeConfig "" "" "0.0.0.0:9443" "127.0.0.1:1080" "noauth" "")
    (mkRoutingConfig [] 100 32 "30s")
    (mkGossipConfig [] "5s" "15s" "3s" 3)
    (mkUDPConfig "120s" "30s" 1200)
    (mkLoggingConfig "info" "json").

(** ** Validation *)

Inductive config_error :=
| ErrReading
| ErrParsing
| ErrListenAddrRequired
| ErrSocks5AddrRequired
| ErrBadDuration (field : string) (e : duration_error)
| ErrFanout
| ErrMaxDatagramSize
| ErrDirectNetwork (nw : string).

(** An empty duration is not looked at. *)
Definition check_duration (field s : string) : res config_error () :=
  if decide (s = EmptyString) then Ok ()
  else match ParseDuration s with
       | Ok _ => Ok ()
       | Err e => Err (ErrBadDuration field e)
       | Panic => Panic
       end.

Fixpoint check_networks (l : list string) : res config_error () :=
  match l with
  | [] => Ok ()
  | nw :: l => match ParseCIDR nw with Some _ => check_networks l | None => Err (ErrDirectNetwork nw) end
  end.

Definition Validate (c : Config) : res config_error () :=
  if decide (ListenAddr (c_Node c) = EmptyString) then Err ErrListenAddrRequired
  else if decide (Socks5Addr (c_Node c) = EmptyString) then Err ErrSocks5AddrRequired
  else
    _ ← check_duration "routing.route_advertisement_interval" (RouteAdvertisementIntervalS (Routing c));
    _ ← check_duration "gossip.push_interval" (PushIntervalS (c_Gossip c));
    _ ← check_duration "gossip.peer_timeout" (PeerTimeoutS (c_Gossip c));
    _ ← check_duration "gossip.probe_interval" (ProbeIntervalS (c_Gossip c));
    _ ← check_duration "udp.session_ttl" (SessionTTLS (c_UDP c));
    _ ← check_duration "udp.session_gc_interval" (SessionGCIntervalS (c_UDP c));
    if cfg_Fanout (c_Gossip c) <? 0 then Err ErrFanout
    else if MaxDatagramSize (c_UDP c) <? 0 then Err ErrMaxDatagramSize
    else check_networks (DirectNetworks (Routing c)).

(** ** Durations: an error gives 0 *)

Definition parseDuration (s : string) : Z := match ParseDuration s with Ok d => d | _ => 0 end.

Definition RouteAdvertisementInterval (c : Config) : Z := parseDuration (RouteAdvertisementIntervalS (Routing c)).
Definition PushInterval (c : Config) : Z := parseDuration (PushIntervalS (c_Gossip c)).
Definition PeerTimeout (c : Config) : Z := parseDuration (PeerTimeoutS (c_Gossip c)).
Definition ProbeInterval (c : Config) : Z := parseDuration (ProbeIntervalS (c_Gossip c)).
Definition SessionTTL (c : Config) : Z := parseDuration (SessionTTLS (c_UDP c)).
Definition SessionGCInterval (c : Config) : Z := parseDuration (SessionGCIntervalS (c_UDP c)).

(** ** Files: the fields of the structs, with their tags *)

Definition node_fields : fields NodeConfig :=
  [("name", λ j '(mkNodeConfig a b c d e f), a ← as_string j a; Some (mkNodeConfig a b c d e f));
   ("identity_file", λ j '(mkNodeConfig a b c d e f), b ← as_string j b; Some (mkNodeConfig a b c d e f));
   ("listen_addr", λ j '(mkNodeConfig a b c d e f), c ← as_string j c; Some (mkNodeConfig a b c d e f));
   ("socks5_addr", λ j '(mkNodeConfig a b c d e f), d ← as_string j d; Some (mkNodeConfig a b c d e f));
   ("socks5_auth", λ j '(mkNodeConfig a b c d e f), e ← as_string j e; Some (mkNodeConfig a b c d e f));
   ("health_addr", λ j '(mkNodeConfig a b c d e f), f ← as_string j f; Some (mkNodeConfig a b c d e f))]%string.

Definition routing_fields : fields RoutingConfig :=
  [("direct_networks", λ j '(mkRoutingConfig a b c d), a ← as_strings j a; Some (mkRoutingConfig a b c d));
   ("local_preference", λ j '(mkRoutingConfig a b c d), b ← as_uint32 j b; Some (mkRoutingConfig a b c d));
   ("max_as_path_length", λ j '(mkRoutingConfig a b c d), c ← as_int64 j c; Some (mkRoutingConfig a b c d));
   ("route_advertisement_interval",
      λ j '(mkRoutingConfig a b c d), d ← as_string j d; Some (mkRoutingConfig a b c d))]%string.

Definition gossip_fields : fields GossipConfig :=
  [("bootstrap_peers", λ j '(mkGossipConfig a b c d e), a ← as_strings j a; Some (mkGossipConfig a b c d e));
   ("push_interval", λ j '(mkGossipConfig a b c d e), b ← as_string j b; Some (mkGossipConfig a b c d e));
   ("peer_timeout", λ j '(mkGossipConfig a b c d e), c ← as_string j c; Some (mkGossipConfig a b c d e));
   ("probe_interval", λ j '(mkGossipConfig a b c d e), d ← as_string j d; Some (mkGossipConfig a b c d e));
   ("fanout", λ j '(mkGossipConfig a b c d e), e ← as_int64 j e; Some (mkGossipConfig a b c d e))]%string.

Definition udp_fields : fields UDPConfig :=
  [("session_ttl", λ j '(mkUDPConfig a b c), a ← as_string j a; Some (mkUDPConfig a b c));
   ("session_gc_interval", λ j '(mkUDPConfig a b c), b ← as_string j b; Some (mkUDPConfig a b c));
   ("max_datagram_size", λ j '(mkUDPConfig a b c), c ← as_int64 j c; Some (mkUDPConfig a b c))]%string.

Definition logging_fields : fields LoggingConfig :=
  [("level", λ j '(mkLoggingConfig a b), a ← as_string j a; Some (mkLoggingConfig a b));
   ("format", λ j '(mkLoggingConfig a b), b ← as_string j b; Some (mkLoggingConfig a b))]%string.

Definition config_fields : fields Config :=
  [("node", λ j '(mkConfig a b c d e), a ← decode_struct node_fields j a; Some (mkConfig a b c d e));
   ("routing", λ j '(mkConfig a b c d e), b ← decode_struct routing_fields j b; Some (mkConfig a b c d e));
   ("gossip", λ j '(mkConfig a b c d e), c ← decode_struct gossip_fields j c; Some (mkConfig a b c d e));
   ("udp", λ j '(mkConfig a b c d e), d ← decode_struct udp_fields j d; Some (mkConfig a b c d e));
   ("logging", λ j '(mkConfig a b c d e), e ← decode_struct logging_fields j e; Some (mkConfig a b c d e))]%string.

Definition decode_config (j : json) (c : Config) : option Config := decode_struct config_fields j c.

Section load.
Context (read_file : string → option (list byte)) (parse_json : list byte → option json).

Definition Load (path : string) : res config_error Config :=
  match read_file path with
  | None => Err ErrReading
  | Some data =>
      match j ← parse_json data; decode_config j DefaultConfig with
      | None => Err ErrParsing
      | Some cfg => _ ← Validate cfg; Ok cfg
      end
  end.
End load.

(** ** Flags *)

Record Flags := mkFlags {
  fl_config : string; fl_name : string; fl_identity : string; fl_listen : string;
  fl_socks : string; fl_peers : string; fl_net : string }.

Definition default_flags : Flags := mkFlags "" "" "" ":9443" ":1080" "" "".

Fixpoint split (sep : ascii) (s : string) : list string :=
  match s with
  | EmptyString => [EmptyString]
  | String c s =>
      if ascii_is c sep then EmptyString :: split sep s
      else match split sep s with
           | w :: l => String c w :: l
           | [] => [String c EmptyString]
           end
  end.

(** White space of one, two and three bytes, [unicode.IsSpace] in UTF-8. *)
Definition space1 (c : ascii) : bool :=
  let n := N_of_ascii c in ((n =? 32) || ((9 <=? n) && (n <=? 13)))%N.
Definition space2 (c d : ascii) : bool :=
  let n := N_of_ascii d in ((N_of_ascii c =? 194) && ((n =? 133) || (n =? 160)))%N.
Definition space3 (c d e : ascii) : bool :=
  let '(x, y, z) := (N_of_ascii c, N_of_ascii d, N_of_ascii e) in
  (((x =? 225) && (y =? 154) && (z =? 128)) ||
   ((x =? 226) && (y =? 128) && (((128 <=? z) && (z <=? 138)) || (z =? 168) || (z =? 169) || (z =? 175))) ||
   ((x =? 226) && (y =? 129) && (z =? 159)) ||
   ((x =? 227) && (y =? 128) && (z =? 128)))%N.

(** Drops the white space in front. [back]: the text is reversed. *)
Fixpoint trim_front (back : bool) (s : string) : string :=
  match s with
  | String c s1 =>
      if space1 c then trim_front back s1 else
      match s1 with
      | String d s2 =>
          if (if back then space2 d c else space2 c d) then trim_front back s2 else
          match s2 with
          | String e s3 =>
              if (if back then space3 e d c else space3 c d e) then trim_front back s3 else s
          | EmptyString => s
          end
      | EmptyString => s
      end
  | EmptyString => s
  end.

Definition TrimSpace (s : string) : string :=
  String.rev (trim_front true (String.rev (trim_front false s))).

(** A list given as one flag. *)
Definition list_flag (s : string) : list string :=
  if decide (s = EmptyString) then []
  else filter (λ w, w ≠ EmptyString) (map TrimSpace (split ","%char s)).

(** The configuration without a file. *)
Definition flag_config (f : Flags) : Config :=
  let d := DefaultConfig in
  let name := if decide (fl_name f = EmptyString) then "magictun"%string else fl_name f in
  let identity := if decide (fl_identity f = EmptyString) then "/tmp/magictun-" +:+ name +:+ ".key"
                  else fl_identity f in
  mkConfig
    (mkNodeConfig name identity (fl_listen f) (fl_socks f) (Socks5Auth (c_Node d)) (HealthAddr (c_Node d)))
    (mkRoutingConfig (DirectNetworks (Routing d) ++ list_flag (fl_net f)) (cfg_LocalPreference (Routing d))
       (MaxASPathLength (Routing d)) (RouteAdvertisementIntervalS (Routing d)))
    (mkGossipConfig (BootstrapPeers (c_Gossip d) ++ list_flag (fl_peers f)) (PushIntervalS (c_Gossip d))
       (PeerTimeoutS (c_Gossip d)) (ProbeIntervalS (c_Gossip d)) (cfg_Fanout (c_Gossip d)))
    (c_UDP d) (Logging d).

(** [main], up to the node: an error ends the program. *)
Definition main_config (read_file : string → option (list byte)) (parse_json : list byte → option json)
    (f : Flags) : res config_error Config :=
  if decide (fl_config f = EmptyString) then
    let cfg := flag_config f in _ ← Validate cfg; Ok cfg
  else Load read_file parse_json (fl_config f).

(** ** The node of a configuration *)

Fixpoint parse_networks (l : list string) : res config_error (list IPNet) :=
  match l with
  | [] => Ok []
  | nw :: l =>
      match ParseCIDR nw with
      | None => Err (ErrDirectNetwork nw)
      | Some (_, parsed) => rest ← parse_networks l; Ok (parsed :: rest)
      end
  end.

(** The fan-out is not negative once the configuration is validated. *)
Definition gossip_config (c : Config) : Gossip.Config :=
  Gossip.mkConfig (PushInterval c) (ProbeInterval c) (PeerTimeout c) (Z.to_nat (cfg_Fanout (c_Gossip c))).

(** [New], once the identity is loaded. *)
Definition New_config `{C : Ed25519} (c : Config) (id : Identity) : res config_error Node :=
  nets ← parse_networks (DirectNetworks (Routing c));
  Ok (New id (String.list_byte_of_string (ListenAddr (c_Node c))) nets (gossip_config c)
        (RouteAdvertisementInterval c) (SessionTTL c)).

(** The port of the listen address, which the node takes for the UDP port of its peers too. *)
Definition udpPort (c : Config) : string :=
  match SplitHostPort (ListenAddr (c_Node c)) with Ok (_, port) => port | _ => "9443"%string end.

(** The name that [registerPeerUDPAddr] resolves for a peer with address [addr]. *)
Definition peer_udp_name (c : Config) (addr : string) : option string :=
  match SplitHostPort addr with Ok (host, _) => Some (JoinHostPort host (udpPort c)) | _ => None end.

(** [time.NewTicker] panics on an interval that is not positive. *)
Definition NewTicker (d : Z) : res config_error Z := if d <=? 0 then Panic else Ok d.

(** The tickers of the loops that [Start] starts: pushes, probes, advertisements, the
    collection of sessions and that of routes. *)
Definition start_tickers (c : Config) : res config_error (list Z) :=
  push ← NewTicker (PushInterval c);
  probe ← NewTicker (ProbeInterval c);
  adv ← NewTicker (RouteAdvertisementInterval c);
  sgc ← NewTicker (SessionGCInterval c);
  rgc ← NewTicker (RouteAdvertisementInterval c);
  Ok [push; probe; adv; sgc; rgc].

(** ** Lemmas: lists in flags *)

#[local] Arguments String.append !_ _ / : simpl nomatch.

Lemma split_last sep w : has sep w = false → split sep w = [w].
Proof.
  induction w as [|c w IH]; [done|]. cbn. intros [Hc Hw]%orb_false_iff.
  assert (ascii_is c sep = false) as ->.
  { unfold ascii_is in *. apply bool_decide_eq_false. apply bool_decide_eq_false in Hc. congruence. }
  by rewrite IH.
Qed.

Lemma split_first sep w s : has sep w = false → split sep (w +:+ String sep s) = w :: split sep s.
Proof.
  induction w as [|c w IH]; cbn.
  - intros _. unfold ascii_is. by rewrite bool_decide_true.
  - intros [Hc Hw]%orb_false_iff.
    assert (ascii_is c sep = false) as ->.
    { unfold ascii_is in *. apply bool_decide_eq_false. apply bool_decide_eq_false in Hc. congruence. }
    by rewrite IH.
Qed.

Lemma split_join sep w l :
  Forall (λ w, has sep w = false) (w :: l) → split sep (join (String sep "") (w :: l)) = w :: l.
Proof.
  revert w. induction l as [|v l IH]; intros w [Hw Hl]%Forall_cons; [by apply split_last|].
  change (join (String sep "") (w :: v :: l)) with (w +:+ String sep "" +:+ join (String sep "") (v :: l)).
  change (String sep "" +:+ join (String sep "") (v :: l)) with (String sep (join (String sep "") (v :: l))).
  by rewrite split_first, IH.
Qed.

(** ** Lemmas: validation *)

Lemma res_seq {E} (a : res E ()) b :
  (_ ← a; b) = Ok () ↔ a = Ok () ∧ b = Ok ().
Proof. destruct a as [[]| |]; cbn; split; by try intros [? ?] || intros ?. Qed.

Definition duration_ok (s : string) : Prop := s = EmptyString ∨ ∃ d, ParseDuration s = Ok d.

Lemma check_duration_ok field s : check_duration field s = Ok () ↔ duration_ok s.
Proof.
  unfold check_duration, duration_ok. destruct (decide (s = EmptyString)); [naive_solver|].
  destruct (ParseDuration s); naive_solver.
Qed.

Lemma check_networks_ok l : check_networks l = Ok () ↔ Forall (λ nw, is_Some (ParseCIDR nw)) l.
Proof.
  induction l as [|nw l IH]; [done|]. cbn [check_networks]. rewrite Forall_cons.
  destruct (ParseCIDR nw) eqn:E; [rewrite IH; naive_solver|].
  split; [done|]. intros [[? [=]] _].
Qed.

(** What a valid configuration is. *)
Record valid_config (c : Config) : Prop := {
  v_listen : ListenAddr (c_Node c) ≠ EmptyString;
  v_socks : Socks5Addr (c_Node c) ≠ EmptyString;
  v_durations : Forall duration_ok
    [RouteAdvertisementIntervalS (Routing c); PushIntervalS (c_Gossip c); PeerTimeoutS (c_Gossip c);
     ProbeIntervalS (c_Gossip c); SessionTTLS (c_UDP c); SessionGCIntervalS (c_UDP c)];
  v_fanout : 0 <= cfg_Fanout (c_Gossip c);
  v_datagram : 0 <= MaxDatagramSize (c_UDP c);
  v_networks : Forall (λ nw, is_Some (ParseCIDR nw)) (DirectNetworks (Routing c)) }.

Lemma Validate_ok c : Validate c = Ok () ↔ valid_config c.
Proof.
  transitivity (ListenAddr (c_Node c) ≠ EmptyString ∧ Socks5Addr (c_Node c) ≠ EmptyString ∧
    Forall duration_ok
      [RouteAdvertisementIntervalS (Routing c); PushIntervalS (c_Gossip c); PeerTimeoutS (c_Gossip c);
       ProbeIntervalS (c_Gossip c); SessionTTLS (c_UDP c); SessionGCIntervalS (c_UDP c)] ∧
    0 <= cfg_Fanout (c_Gossip c) ∧ 0 <= MaxDatagramSize (c_UDP c) ∧
    Forall (λ nw, is_Some (ParseCIDR nw)) (DirectNetworks (Routing c))).
  2:{ split; [intros (?&?&?&?&?&?); by split|by intros []]. }
  unfold Validate. destruct (decide (ListenAddr _ = _)); [naive_solver|].
  destruct (decide (Socks5Addr _ = _)); [naive_solver|].
  rewrite !res_seq, !check_duration_ok, !Forall_cons, <- check_networks_ok.
  destruct (Z.ltb_spec (cfg_Fanout (c_Gossip c)) 0); [split; [naive_solver|intros; exfalso; naive_solver lia]|].
  destruct (Z.ltb_spec (MaxDatagramSize (c_UDP c)) 0); [split; [naive_solver|intros; exfalso; naive_solver lia]|].
  naive_solver.
Qed.

Lemma Validate_no_panic c : Validate c ≠ Panic.
Proof.
  assert (∀ f s, check_duration f s ≠ Panic) as Hd.
  { intros f s. unfold check_duration. case_decide; [done|].
    destruct (ParseDuration s) as [| |] eqn:E; [done|done|].
    by apply ParseDuration_no_panic in E. }
  assert (∀ l, check_networks l ≠ Panic) as Hn.
  { induction l as [|nw l IH]; [done|]. cbn. by destruct (ParseCIDR nw). }
  assert (∀ (a : res config_error ()) b, a ≠ Panic → b ≠ Panic → (_ ← a; b) ≠ Panic) as Hs by (by intros [] ?).
  unfold Validate. case_decide; [done|]. case_decide; [done|].
  repeat (apply Hs; [apply Hd|]). by repeat case_match.
Qed.

(** ** Lemmas: files *)

(** The trees that set every field. *)
Definition encode_node (n : NodeConfig) : json :=
  JObj [("name", JStr (Name n)); ("identity_file", JStr (IdentityFile n));
        ("listen_addr", JStr (ListenAddr n)); ("socks5_addr", JStr (Socks5Addr n));
        ("socks5_auth", JStr (Socks5Auth n)); ("health_addr", JStr (HealthAddr n))]%string.

Definition encode_routing (r : RoutingConfig) : json :=
  JObj [("direct_networks", JArr (map JStr (DirectNetworks r)));
        ("local_preference", JNum (Some (cfg_LocalPreference r)));
        ("max_as_path_length", JNum (Some (MaxASPathLength r)));
        ("route_advertisement_interval", JStr (RouteAdvertisementIntervalS r))]%string.

Definition encode_gossip (g : GossipConfig) : json :=
  JObj [("bootstrap_peers", JArr (map JStr (BootstrapPeers g))); ("push_interval", JStr (PushIntervalS g));
        ("peer_timeout", JStr (PeerTimeoutS g)); ("probe_interval", JStr (ProbeIntervalS g));
        ("fanout", JNum (Some (cfg_Fanout g)))]%string.

Definition encode_udp (u : UDPConfig) : json :=
  JObj [("session_ttl", JStr (SessionTTLS u)); ("session_gc_interval", JStr (SessionGCIntervalS u));
        ("max_datagram_size", JNum (Some (MaxDatagramSize u)))]%string.

Definition encode_logging (l : LoggingConfig) : json :=
  JObj [("level", JStr (Level l)); ("format", JStr (Format l))]%string.

Definition encode_config (c : Config) : json :=
  JObj [("node", encode_node (c_Node c)); ("routing", encode_routing (Routing c));
        ("gossip", encode_gossip (c_Gossip c)); ("udp", encode_udp (c_UDP c));
        ("logging", encode_logging (Logging c))]%string.

(** The integers of a configuration fit their Go types. *)
Record config_fits (c : Config) : Prop := {
  fit_pref : fits 32 (cfg_LocalPreference (Routing c));
  fit_path : - 2 ^ 63 <= MaxASPathLength (Routing c) <= 2 ^ 63 - 1;
  fit_fanout : - 2 ^ 63 <= cfg_Fanout (c_Gossip c) <= 2 ^ 63 - 1;
  fit_datagram : - 2 ^ 63 <= MaxDatagramSize (c_UDP c) <= 2 ^ 63 - 1 }.

Ltac members :=
  cbn [decode_struct];
  repeat (erewrite decode_member by reflexivity; try unfold as_uint32; try unfold as_int64;
          cbn [as_strings DirectNetworks cfg_LocalPreference MaxASPathLength BootstrapPeers cfg_Fanout MaxDatagramSize];
          rewrite ?as_elements_strings, ?as_int_in by lia; cbn [as_string as_strings mbind option_bind]);
  try done.

Lemma decode_node n base : decode_struct node_fields (encode_node n) base = Some n.
Proof. destruct n, base. unfold encode_node. members. Qed.

Lemma decode_routing r base :
  fits 32 (cfg_LocalPreference r) → - 2 ^ 63 <= MaxASPathLength r <= 2 ^ 63 - 1 →
  decode_struct routing_fields (encode_routing r) base = Some r.
Proof. intros [H1 H2] H3. destruct r, base. cbn in H1, H2, H3. unfold encode_routing. members. Qed.

Lemma decode_gossip g base :
  - 2 ^ 63 <= cfg_Fanout g <= 2 ^ 63 - 1 → decode_struct gossip_fields (encode_gossip g) base = Some g.
Proof. intros H. destruct g, base. cbn in H. unfold encode_gossip. members. Qed.

Lemma decode_udp u base :
  - 2 ^ 63 <= MaxDatagramSize u <= 2 ^ 63 - 1 → decode_struct udp_fields (encode_udp u) base = Some u.
Proof. intros H. destruct u, base. cbn in H. unfold encode_udp. members. Qed.

Lemma decode_logging l base : decode_struct logging_fields (encode_logging l) base = Some l.
Proof. destruct l, base. unfold encode_logging. members. Qed.

Lemma decode_encode_config c base : config_fits c → decode_config (encode_config c) base = Some c.
Proof.
  intros [Hp Hl Hf Hd]. destruct c, base. unfold decode_config, encode_config.
  cbn [decode_struct c_Node Routing c_Gossip c_UDP Logging] in *.
  repeat (erewrite decode_member by reflexivity; cbv iota beta;
          rewrite ?decode_node, ?decode_routing, ?decode_gossip, ?decode_udp, ?decode_logging by done;
          cbn [mbind option_bind]).
  done.
Qed.

(** ** Lemmas: the node *)

(** No network is written inside the range of the IPv4-mapped addresses. *)
Definition unmapped (nw : string) : Prop :=
  ∀ ip n, ParseCIDR nw = Some (ip, n) → length (IPNet_Mask n) = 4%nat ∨ To4 (IPNet_IP n) = None.

Lemma parse_networks_ok l :
  Forall (λ nw, is_Some (ParseCIDR nw)) l →
  ∃ nets, parse_networks l = Ok nets ∧ Forall2 (λ nw n, ∃ ip, ParseCIDR nw = Some (ip, n)) l nets.
Proof.
  induction l as [|nw l IH]; intros Hl; [by exists []|]. apply Forall_cons in Hl as [[[ip n] Hn] Hl].
  destruct (IH Hl) as (nets & E & H). exists (n :: nets). cbn [parse_networks]. rewrite Hn, E.
  split; [done|]. constructor; [by exists ip|done].
Qed.

Lemma unmapped_prefix_ok l nets :
  Forall unmapped l → Forall2 (λ nw n, ∃ ip, ParseCIDR nw = Some (ip, n)) l nets → Forall prefix_ok nets.
Proof.
  intros Hu H. induction H as [|nw n l nets [ip Hn] _ IH]; [done|]. apply Forall_cons in Hu as [Hu Hl].
  constructor; [|by apply IH]. apply (ParseCIDR_prefix_ok nw ip n Hn), (Hu ip n Hn).
Qed.

Lemma parseDuration_seconds n : 0 < n <= maxSeconds → parseDuration (seconds n) = n * Second.
Proof. intros H. unfold parseDuration. by rewrite ParseDuration_seconds. Qed.

Lemma NewTicker_panic d : NewTicker d = Panic ↔ d <= 0.
Proof. unfold NewTicker. destruct (Z.leb_spec d 0); split; (done || lia). Qed.

Lemma NewTicker_pos d : 0 < d → NewTicker d = Ok d.
Proof. intros H. unfold NewTicker. by rewrite (proj2 (Z.leb_gt d 0)). Qed.

(** A duration that passed validation and is not positive: not written, zero or negative. *)
Lemma parseDuration_bad s : duration_ok s →
  (parseDuration s <= 0 ↔ s = EmptyString ∨ ∃ d, ParseDuration s = Ok d ∧ d <= 0).
Proof.
  unfold parseDuration. intros [->|[d Hd]].
  - split; [by left|]. intros _. vm_compute. done.
  - rewrite Hd. split; [eauto|]. intros [->|(d' & [= ->] & ?)]; [|done]. by vm_compute in Hd.
Qed.

(** ** Properties *)

(** C26: a valid configuration, none of whose networks is written as an IPv4-mapped IPv6 prefix, makes a node. The node has
    the given identity and exactly the networks that are written, in their order, as its own; they are well-formed
    prefixes, so that its route propagator is one that a network of nodes may start with ([Network.starts]), with the
    configured interval. What the gossip engine is configured with is the translation [gossip_config] of the file. The condition is needed:
    such a prefix is valid and is lost ([mapped_network_lost]). *)
Theorem valid_config_node `{C : Ed25519} c id :
  Validate c = Ok () → Forall unmapped (DirectNetworks (Routing c)) →
  ∃ n nets,
    New_config c id = Ok n ∧
    Forall2 (λ nw net, ∃ ip, ParseCIDR nw = Some (ip, net)) (DirectNetworks (Routing c)) nets ∧
    propagator n = SetPeersFunc (new_node (id_ID id) nets (RouteAdvertisementInterval c)) [] ∧
    starts (mkNetwork {[ id_ID id := new_node (id_ID id) nets (RouteAdvertisementInterval c) ]} []) ∧
    config (gossipEng n) = gossip_config c ∧ n_identity n = id.
Proof.
  intros Hv Hu. apply Validate_ok in Hv as [_ _ _ _ _ Hn].
  destruct (parse_networks_ok _ Hn) as (nets & E & Hnets). unfold New_config. rewrite E.
  eexists _, nets. split_and!; try done. split; [done|]. intros i p H. cbn in H.
  apply lookup_singleton_Some in H as [<- <-].
  eexists nets, _. split; [by left|]. by eapply unmapped_prefix_ok.
Qed.

Definition example_config : Config :=
  flag_config (mkFlags "" "" "" ":9443" ":1080" "" " 10.1.0.0/16, 2001:db8::/32").

Lemma valid_config_node_witness :
  ∃ n nets,
    New_config (C := toy_ed25519) example_config id_7 = Ok n ∧
    Forall2 (λ nw net, ∃ ip, ParseCIDR nw = Some (ip, net)) (DirectNetworks (Routing example_config)) nets ∧
    propagator n = SetPeersFunc (new_node (id_ID id_7) nets (RouteAdvertisementInterval example_config)) [] ∧
    starts (mkNetwork {[ id_ID id_7 := new_node (id_ID id_7) nets (RouteAdvertisementInterval example_config) ]} []) ∧
    config (gossipEng n) = gossip_config example_config ∧ n_identity n = id_7.
Proof.
  apply (valid_config_node (C := toy_ed25519)); [vm_compute; reflexivity|].
  change (DirectNetworks (Routing example_config)) with ["10.1.0.0/16"; "2001:db8::/32"]%string.
  repeat (apply Forall_cons; split; [intros ip n H; vm_compute in H; injection H as <- <-; vm_compute; auto|]).
  by apply Forall_nil.
Defined.

(** Which valid configurations crash the program. The loops that [Start] starts panic
    exactly when one of the intervals of the pushes, the probes, the advertisements or the session
    collection is empty in the configuration, or zero, or negative, all of which [Validate]
    accepts. *)
Lemma start_panics_iff c :
  Validate c = Ok () →
  (start_tickers c = Panic ↔
   ∃ s, (s = PushIntervalS (c_Gossip c) ∨ s = ProbeIntervalS (c_Gossip c) ∨
         s = RouteAdvertisementIntervalS (Routing c) ∨ s = SessionGCIntervalS (c_UDP c)) ∧
     (s = EmptyString ∨ ∃ d, ParseDuration s = Ok d ∧ d <= 0)).
Proof.
  intros Hv. apply Validate_ok in Hv as [_ _ Hd _ _ _]. rewrite !Forall_cons in Hd.
  destruct Hd as (Ha & Hp & _ & Hpr & _ & Hg & _).
  transitivity (PushInterval c <= 0 ∨ ProbeInterval c <= 0 ∨ RouteAdvertisementInterval c <= 0 ∨
    SessionGCInterval c <= 0).
  - unfold start_tickers, NewTicker.
    destruct (Z.leb_spec (PushInterval c) 0); cbn [mbind res_bind]; [tauto|].
    destruct (Z.leb_spec (ProbeInterval c) 0); cbn [mbind res_bind]; [tauto|].
    destruct (Z.leb_spec (RouteAdvertisementInterval c) 0); cbn [mbind res_bind]; [tauto|].
    destruct (Z.leb_spec (SessionGCInterval c) 0); cbn [mbind res_bind]; [tauto|].
    split; [done|lia].
  - unfold PushInterval, ProbeInterval, RouteAdvertisementInterval, SessionGCInterval.
    rewrite !parseDuration_bad by done. split.
    + intros [H|[H|[H|H]]]; (eexists; split; [|exact H]); auto.
    + intros (s & [->|[->|[->| ->]]] & H); auto.
Qed.

(** A configuration with an empty push interval *)
Definition empty_push : Config :=
  let g := c_Gossip DefaultConfig in
  mkConfig (c_Node DefaultConfig) (Routing DefaultConfig)
    (mkGossipConfig (BootstrapPeers g) "" (PeerTimeoutS g) (ProbeIntervalS g) (cfg_Fanout g))
    (c_UDP DefaultConfig) (Logging DefaultConfig).

Lemma start_panics_iff_witness :
  Validate empty_push = Ok () ∧ start_tickers empty_push = Panic.
Proof.
  split; [vm_compute; reflexivity|].
  apply (start_panics_iff empty_push); [vm_compute; reflexivity|].
  exists ""%string. split; [by left|by left].
Defined.

(** Intervals written as whole numbers of seconds are valid and mean that many seconds:
    the engine, the propagator and the session table get them, and every loop starts with its
    interval. *)
Lemma seconds_start `{C : Ed25519} c id a p t b s g :
  Forall (λ n, 0 < n <= maxSeconds) [a; p; t; b; s; g] →
  RouteAdvertisementIntervalS (Routing c) = seconds a → PushIntervalS (c_Gossip c) = seconds p →
  PeerTimeoutS (c_Gossip c) = seconds t → ProbeIntervalS (c_Gossip c) = seconds b →
  SessionTTLS (c_UDP c) = seconds s → SessionGCIntervalS (c_UDP c) = seconds g →
  ListenAddr (c_Node c) ≠ EmptyString → Socks5Addr (c_Node c) ≠ EmptyString →
  0 <= cfg_Fanout (c_Gossip c) → 0 <= MaxDatagramSize (c_UDP c) →
  Forall (λ nw, is_Some (ParseCIDR nw)) (DirectNetworks (Routing c)) →
  Validate c = Ok () ∧
  start_tickers c = Ok [p * Second; b * Second; a * Second; g * Second; a * Second] ∧
  ∃ n, New_config c id = Ok n ∧
    config (gossipEng n) =
      Gossip.mkConfig (p * Second) (b * Second) (t * Second) (Z.to_nat (cfg_Fanout (c_Gossip c))) ∧
    interval (propagator n) = a * Second ∧ st_ttl (ur_sessions (udpRelay n)) = s * Second.
Proof.
  rewrite !Forall_cons. intros (Ha & Hp & Ht & Hb & Hs & Hg & _) Ea Ep Et Eb Es Eg Hl Hso Hf Hm Hn.
  destruct (parse_networks_ok _ Hn) as (nets & E & _).
  split; [|split].
  - apply Validate_ok. split; try done. rewrite Ea, Ep, Et, Eb, Es, Eg.
    assert (∀ n, 0 < n <= maxSeconds → duration_ok (seconds n)) as Hd.
    { intros n H. right. eexists. by apply ParseDuration_seconds. }
    repeat (apply Forall_cons; split; [by apply Hd|]). by apply Forall_nil.
  - unfold start_tickers, PushInterval, ProbeInterval, RouteAdvertisementInterval, SessionGCInterval.
    rewrite Ea, Ep, Eb, Eg, !parseDuration_seconds by done.
    rewrite !NewTicker_pos by (unfold Second; lia). done.
  - unfold New_config. rewrite E. eexists. split; [done|].
    unfold gossip_config, PushInterval, ProbeInterval, PeerTimeout, RouteAdvertisementInterval, SessionTTL.
    rewrite Ea, Ep, Et, Eb, Es, !parseDuration_seconds by done. done.
Qed.

Lemma seconds_start_witness :
  let c := DefaultConfig in
  Validate c = Ok () ∧
  start_tickers c = Ok [5 * Second; 3 * Second; 30 * Second; 30 * Second; 30 * Second] ∧
  ∃ n, New_config (C := toy_ed25519) c id_7 = Ok n ∧
    config (gossipEng n) = Gossip.mkConfig (5 * Second) (3 * Second) (15 * Second) 3 ∧
    interval (propagator n) = 30 * Second ∧ st_ttl (ur_sessions (udpRelay n)) = 120 * Second.
Proof.
  apply (seconds_start (C := toy_ed25519) DefaultConfig id_7 30 5 15 3 120 30); try reflexivity; try done.
  repeat (apply Forall_cons; split; [unfold maxSeconds; lia|]). by apply Forall_nil.
Defined.

(** A configuration file that sets every field is read back exactly: whatever the defaults
    are, loading it gives the configuration it was written from, or the first error that
    validation finds in it. *)
Lemma load_roundtrip read_file parse_json path data c :
  read_file path = Some data → parse_json data = Some (encode_config c) → config_fits c →
  Load read_file parse_json path =
    match Validate c with Ok _ => Ok c | Err e => Err e | Panic => Panic end.
Proof.
  intros Hr Hp Hf. unfold Load. rewrite Hr, Hp. cbn [mbind option_bind].
  rewrite decode_encode_config by done. by destruct (Validate c).
Qed.

Lemma load_roundtrip_witness :
  Load (λ _, Some [x7b]) (λ _, Some (encode_config example_config)) "node.json" =
    match Validate example_config with Ok _ => Ok example_config | Err e => Err e | Panic => Panic end.
Proof.
  apply (load_roundtrip _ _ _ [x7b]); [reflexivity|reflexivity|].
  split; vm_compute; split; congruence.
Defined.

(** The configuration of the README: what it leaves out keeps its default. *)
Example readme_config :
  decode_config
    (JObj [("node", JObj [("name", JStr "exit-node"); ("identity_file", JStr "/etc/magictun/identity.key");
                          ("listen_addr", JStr "0.0.0.0:9443"); ("socks5_addr", JStr "127.0.0.1:1080")]);
           ("routing", JObj [("direct_networks", JArr [JStr "0.0.0.0/0"]);
                             ("route_advertisement_interval", JStr "30s")]);
           ("gossip", JObj [("bootstrap_peers", JArr []); ("push_interval", JStr "5s");
                            ("peer_timeout", JStr "15s")])]%string) DefaultConfig =
  Some (mkConfig
    (mkNodeConfig "exit-node" "/etc/magictun/identity.key" "0.0.0.0:9443" "127.0.0.1:1080" "noauth" "")
    (mkRoutingConfig ["0.0.0.0/0"%string] 100 32 "30s") (c_Gossip DefaultConfig) (c_UDP DefaultConfig)
    (Logging DefaultConfig)).
Proof. vm_compute. reflexivity. Qed.

(** The defaults of the file are those of the gossip engine. *)
Example defaults_agree : gossip_config DefaultConfig = Gossip.DefaultConfig.
Proof. vm_compute. reflexivity. Qed.

(** A list flag gives its items, without the white space around them and without those
    that are empty. *)
Lemma list_flag_items ws :
  Forall (λ w, has ","%char w = false) ws →
  list_flag (join "," ws) = filter (λ w, w ≠ EmptyString) (map TrimSpace ws).
Proof.
  intros Hw. unfold list_flag. destruct ws as [|w ws]; [done|].
  case_decide as E; [|by rewrite split_join].
  assert (w = EmptyString ∧ ws = []) as [-> ->]; [|done].
  destruct ws as [|v ws]; [done|]. cbn in E. by destruct w.
Qed.

Lemma list_flag_items_witness :
  list_flag (join "," ["10.1.0.0/16"; " 10.2.0.0/16 "; ""]%string) = ["10.1.0.0/16"; "10.2.0.0/16"]%string.
Proof.
  etrans; [apply list_flag_items|vm_compute; reflexivity].
  repeat (apply Forall_cons; split; [vm_compute; reflexivity|]). by apply Forall_nil.
Defined.

(** A network inside the range of the IPv4-mapped addresses is valid, but is announced as an
    IPv4 network with the length of its 128-bit mask, which no receiver can use. *)
Definition mapped_net : IPNet :=
  mkIPNet (IPv4 [x0a; x00; x00; x00]) (CIDRMask 104 128).

Lemma mapped_network_lost :
  snd <$> ParseCIDR "::ffff:10.0.0.0/104" = Some mapped_net ∧
  Contains mapped_net [x0a; x01; x02; x03] = true ∧
  ∃ m, DecodeRouteMessage (mkSlice (EncodeRouteMessage
         (mkRouteMessage RouteFlagUpdate mapped_net 1 zeroID 100 [zeroID])) []) = Ok m ∧
       IPNet_Mask (rm_Prefix m) = [] ∧ Contains (rm_Prefix m) [x0a; x01; x02; x03] = false.
Proof. vm_compute. split; [done|]. split; [done|]. by eexists. Qed.

(** A node that listens on port 9444 sends its datagrams for a peer that listens on port 9443,
    as in the example of the README, to port 9444 of the peer. *)
Lemma udp_port_is_own :
  let c := flag_config (mkFlags "" "b" "" ":9444" ":1081" "192.0.2.1:9443" "") in
  peer_udp_name c "192.0.2.1:9443" = Some "192.0.2.1:9444"%string.
Proof. vm_compute. reflexivity. Qed.
