(* ===== verification/Program.v ===== *)
(** * The program ([cmd/magictun/main.go], [New] in [node/node.go])

    From the flags to the end: the configuration, the identity and the node, its start, whatever
    happens while it runs, and the stop at the signal. It puts [Config], [Identity] and [Lifecycle]
    together. *)

From S2P Require Import Prelude Bytes Crypto Net NetText Identity Wire RouteTable Propagation Gossip Session Json.
From S2P Require Import Duration Node Network Acceptor Dialer Lifecycle Config.
From stdpp Require Import options.

Section program.
Context `{Sig : Ed25519}.

(** ** [New] *)

Inductive new_error := ErrIdentity (e : key_error) | ErrParseNetworks (e : config_error).

(** [keyfile] reads the identity file, [rnd] and [write_ok] are for the one that is written when there
    is none: the second result is its text. *)
Definition New_node (keyfile : string → read_result) (rnd : option (array 32)) (write_ok : bool) (c : Config)
    : res new_error Node * option string :=
  let '(id, text) := LoadOrCreate (keyfile (IdentityFile (c_Node c))) rnd write_ok in
  (match id with
   | Ok id => match New_config c id with Ok n => Ok n | Err e => Err (ErrParseNetworks e) | Panic => Panic end
   | Err e => Err (ErrIdentity e)
   | Panic => Panic
   end, text).

(** ** [main] *)

(** What the program meets: the files, the random source, the clock, and which of the calls of the start
    succeed. *)
Record World := mkWorld {
  w_read_file : string → option (list byte);
  w_parse_json : list byte → option json;
  w_keyfile : string → read_result;
  w_rnd : option (array 32);
  w_write_ok : bool;
  w_now : Z;
  w_calls : Outcomes }.

(** [log.Fatalf] *)
Inductive fatal := FailedToLoad (e : config_error) | FailedToCreate (e : new_error) | FailedToStart (e : start_error).

Definition health_on (c : Config) : bool := bool_decide (HealthAddr (c_Node c) ≠ EmptyString).

Definition bootstrap_peers (c : Config) : list (list byte) := map String.list_byte_of_string (BootstrapPeers (c_Gossip c)).

(** Up to the wait for a signal. The goroutines of the tickers run from here on, and a panic in one of them
    ends the program. *)
Definition main_start (w : World) (f : Flags) : res fatal (Config * Life) :=
  match main_config (w_read_file w) (w_parse_json w) f with
  | Panic => Panic
  | Err e => Err (FailedToLoad e)
  | Ok cfg =>
      match fst (New_node (w_keyfile w) (w_rnd w) (w_write_ok w) cfg) with
      | Panic => Panic
      | Err e => Err (FailedToCreate e)
      | Ok n =>
          match Start (health_on cfg) (w_calls w) (new_life n (w_now w)) with
          | (_, Panic) => Panic
          | (_, Err e) => Err (FailedToStart e)
          | (l, Ok _) => match start_tickers cfg with Panic => Panic | _ => Ok (cfg, l) end
          end
      end
  end.

(** After the signal. [order] enumerates the connections. *)
Definition main_stop (cfg : Config) (l : Life) (order : list (string * ConnRef)) : res () (Life * list neffect) :=
  Stop (health_on cfg) order l.

(** ** Lemmas *)

Lemma main_config_valid read_file parse_json f c : main_config read_file parse_json f = Ok c → Validate c = Ok ().
Proof.
  assert (∀ c0, (_ ← Validate c0; Ok c0) = Ok c → Validate c = Ok ()) as H.
  { intros c0. destruct (Validate c0) as [[]| |] eqn:E; [|done..]. by intros [= <-]. }
  unfold main_config, Load. destruct (decide _); [apply H|]. destruct (read_file _); [|done].
  destruct (_ ≫= _); [apply H|done].
Qed.

Lemma main_config_no_panic read_file parse_json f : main_config read_file parse_json f ≠ Panic.
Proof.
  assert (∀ c0, (_ ← Validate c0; Ok c0) ≠ (Panic : res config_error Config)) as H.
  { intros c0. pose proof (Validate_no_panic c0). by destruct (Validate c0). }
  unfold main_config, Load. destruct (decide _); [apply H|]. destruct (read_file _); [|done].
  destruct (_ ≫= _); [apply H|done].
Qed.

Lemma LoadOrCreate_no_panic file rnd write_ok : fst (LoadOrCreate file rnd write_ok) ≠ Panic.
Proof.
  assert (∀ seed : list byte, length seed = 32%nat → @FromSeed Sig key_error seed ≠ Panic) as H.
  { intros seed Hl. unfold FromSeed. by rewrite decide_True. }
  destruct file as [| |data]; cbn [LoadOrCreate fst]; [|done|].
  - unfold createAndSave. destruct rnd as [seed|]; [|done]. cbn. destruct write_ok; [|done]. apply H, length_array.
  - destruct (hex_DecodeString data) as [seed|e|] eqn:E; cbn; try done.
    + unfold guard_err. case_bool_decide; [by apply H|done].
    + by apply hex_DecodeString_no_panic in E.
Qed.

(** The networks of a valid configuration are parsed again, without error. *)
Lemma New_config_ok c id :
  Validate c = Ok () → ∃ n nets, New_config c id = Ok n ∧ n_identity n = id ∧
    Forall2 (λ nw net, ∃ ip, ParseCIDR nw = Some (ip, net)) (DirectNetworks (Routing c)) nets ∧
    propagator n = SetPeersFunc (new_node (id_ID id) nets (RouteAdvertisementInterval c)) [].
Proof.
  intros Hv. apply Validate_ok in Hv as [_ _ _ _ _ Hn]. destruct (parse_networks_ok _ Hn) as (nets & E & Hnets).
  unfold New_config. rewrite E. by eexists _, nets.
Qed.

Lemma tickers_panic c :
  start_tickers c = Panic → PushInterval c <= 0 ∨ ProbeInterval c <= 0 ∨ RouteAdvertisementInterval c <= 0 ∨ SessionGCInterval c <= 0.
Proof.
  unfold start_tickers, NewTicker.
  destruct (Z.leb_spec (PushInterval c) 0), (Z.leb_spec (ProbeInterval c) 0), (Z.leb_spec (RouteAdvertisementInterval c) 0),
    (Z.leb_spec (SessionGCInterval c) 0); cbn; auto. done.
Qed.

(** Only [Stop] closes the channel of the propagator. *)
Definition no_stop (e : levent) : bool := match e with LStop _ => false | _ => true end.

Lemma lstep_no_stop health peers l e : no_stop e = true → stopCh (lstep health peers l e) = stopCh l.
Proof.
  intros He. destruct e as [e|e| |g|order]; [| | | |done]; cbn [lstep].
  - assert (stopCh (dial_step l e) = stopCh l) as H.
    { unfold dial_step. by destruct (event_task e); [destruct (_ && _)|]. }
    by destruct e.
  - unfold accept_step. destruct (negb _); [done|]. by destruct (_ && _).
  - destruct (decide (Bootstrap ∈ loops l)); [|done]. unfold end_loop. by destruct (decide _).
  - destruct (decide (g ∈ loops l)); [|done]. destruct (loop_ends l g); [|done]. unfold end_loop. by destruct (decide _).
Qed.

Lemma lrun_no_stop health peers l es :
  Forall (λ e, no_stop e = true) es → stopCh (lrun health peers l es) = stopCh l.
Proof.
  unfold lrun. revert l. induction es as [|e es IH]; intros l H; [done|]. apply Forall_cons in H as [He H]. cbn.
  rewrite IH by done. by apply lstep_no_stop.
Qed.

(** A start that succeeds opens every socket. *)
Lemma Start_opens health o n now l :
  Start health o (new_life n now) = (l, Ok ()) →
  transportLn l = Opened ∧ udpSock l = Opened ∧ socksLn l = Opened ∧ healthLn l = (if health then Opened else Unopened) ∧
  running (acceptor l) = true ∧ stopCh l = false ∧
  (n_identity (d_node (dials l)) = n_identity n ∧ propagator (d_node (dials l)) = propagator n) ∧
  loops l = {[ UDPRead; GossipPush; GossipProbe; Advertise; SocksAccept; SessionGC; RouteGC; StatsUpdate; Bootstrap ]} ∪
            (if health then {[ HealthServe ]} else ∅).
Proof.
  unfold Start. destruct o as [[] [] [] [] [] []], health;
    cbn [negb tls_ok listen_ok resolve_ok udp_ok socks_ok health_ok fst snd Server_Start HealthServer_Start]; intros [= <-];
    split_and!; try done; cbn; set_solver.
Qed.

(** ** Properties *)

(** What the program has once it waits for the signal. *)
Record up (w : World) (f : Flags) (c : Config) (l : Life) : Prop := {
  up_config : main_config (w_read_file w) (w_parse_json w) f = Ok c ∧ Validate c = Ok ();
  up_identity : ∃ id nets, n_identity (d_node (dials l)) = id ∧
    fst (LoadOrCreate (w_keyfile w (IdentityFile (c_Node c))) (w_rnd w) (w_write_ok w)) = Ok id ∧
    Forall2 (λ nw net, ∃ ip, ParseCIDR nw = Some (ip, net)) (DirectNetworks (Routing c)) nets ∧
    propagator (d_node (dials l)) = SetPeersFunc (new_node (id_ID id) nets (RouteAdvertisementInterval c)) [];
  up_calls : first_failure (health_on c) (w_calls w) = None;
  up_socks : transportLn l = Opened ∧ udpSock l = Opened ∧ socksLn l = Opened ∧
    healthLn l = (if health_on c then Opened else Unopened);
  up_runs : running (acceptor l) = true ∧ ∀ g, g ∈ loops l ↔ g ≠ HealthServe ∨ health_on c = true }.

Lemma main_start_up w f c l n :
  main_config (w_read_file w) (w_parse_json w) f = Ok c →
  fst (New_node (w_keyfile w) (w_rnd w) (w_write_ok w) c) = Ok n →
  Start (health_on c) (w_calls w) (new_life n (w_now w)) = (l, Ok ()) → up w f c l.
Proof.
  intros Ec En Es. pose proof (main_config_valid _ _ _ _ Ec) as Hv.
  pose proof (Start_opens _ _ _ _ _ Es) as (S1 & S2 & S3 & S4 & S5 & _ & [S6 S6'] & S7).
  split; try done.
  - unfold New_node in En. destruct (LoadOrCreate _ _ _) as [[id|e|] text] eqn:El; [|done..]. cbn in En.
    destruct (New_config_ok c id Hv) as (n' & nets & E' & E1 & E2 & E3). rewrite E' in En. injection En as ->.
    exists id, nets. rewrite S6, S6'. by split_and!.
  - pose proof (Start_result (health_on c) (w_calls w) (new_life n (w_now w))) as Hr. rewrite Es in Hr. cbn in Hr.
    by destruct (first_failure _ _).
  - split; [done|]. intros g. rewrite S7. destruct (health_on c), g; split; intros Hg;
      first [by left|by right|by destruct Hg|set_solver].
Qed.

End program.

(** A first start without a configuration file: the identity is made, every call succeeds, and two connections
    come in before the signal. *)
Definition example_world : World :=
  mkWorld (λ _, None) (λ _, None) (λ _, NotExist) (Some (array_copy 32 [x07])) true 0 all_well.

Definition example_flags : Flags := mkFlags "" "" "" ":9443" ":1080" "10.0.0.2:9443" "10.1.0.0/16".

Lemma example_main :
  match main_start (Sig := toy_ed25519) example_world example_flags with
  | Ok (c, l) =>
      Name (c_Node c) = "magictun"%string ∧ transportLn l = Opened ∧
      match main_stop c (lrun (health_on c) (bootstrap_peers c) l started) [] with
      | Ok (l', _) => transportLn l' = Closed ∧ socksLn l' = Closed
      | _ => False
      end
  | _ => False
  end.
Proof. vm_compute. auto. Qed.
