(* ===== verification/Health.v ===== *)
(** * The health server ([obs/health.go]) and the loop that feeds it ([node/node.go])

    The two handlers of the server are functions from the statistics to a response. *)

From S2P Require Import Prelude Bytes Net Duration Float RouteTable Propagation Peers Gossip Json Node.
From stdpp Require Import options.

Record Stats := mkStats { PeerCount : Z; RouteCount : Z; Uptime : Z; Connected : bool }.

Definition NewStats (now : Z) : Stats := mkStats 0 0 now true.

Definition Update (s : Stats) (peers routes : Z) : Stats := mkStats peers routes (Uptime s) (Connected s).

(** The status and the JSON object of a response. *)
Record Response := mkResponse { r_code : Z; r_body : list (string * json) }.

Definition handleHealth (s : Stats) (now : Z) : Response :=
  let uptime := time_sub now (Uptime s) in
  if negb (Connected s) then
    mkResponse 503 [("status", JStr "unhealthy"); ("uptime", JStr (Duration_String uptime))]%string
  else mkResponse 200 [("status", JStr "healthy"); ("uptime", JStr (Duration_String uptime))]%string.

Definition handleMetrics (s : Stats) (now : Z) : Response :=
  let uptime := time_sub now (Uptime s) in
  mkResponse 200
    [("uptime_seconds", JNum (Some (to_int (Seconds uptime)))); ("peer_count", JNum (Some (PeerCount s)));
     ("route_count", JNum (Some (RouteCount s)))]%string.

(** The server: its address, and the two paths of its multiplexer. *)
Record HealthServer := mkHealthServer { hs_addr : string; hs_mux : list (string * (Stats → Z → Response)) }.

Definition NewHealthServer (addr : string) : HealthServer :=
  mkHealthServer addr [("/health", handleHealth); ("/metrics", handleMetrics)]%string.

(** A pattern without a slash at its end matches exactly this path. *)
Definition serve_path (hs : HealthServer) (path : string) (s : Stats) (now : Z) : Response :=
  match list_find (λ '(p, _), p = path) (hs_mux hs) with
  | Some (_, (_, handler)) => handler s now
  | None => mkResponse 404 []
  end.

(** A tick of [statsUpdateLoop]. [order] enumerates the peers. *)
Definition stats_tick (s : Stats) (n : Node) (order : list (string * Peer)) : Stats :=
  Update s (Z.of_nat (length (GetAlive order))) (Z.of_nat (Size (table (propagator n)))).

Definition stats_run (s : Stats) (ticks : list (Node * list (string * Peer))) : Stats :=
  foldl (λ s '(n, order), stats_tick s n order) s ticks.

Lemma stats_run_frame s ticks :
  Uptime (stats_run s ticks) = Uptime s ∧ Connected (stats_run s ticks) = Connected s.
Proof.
  unfold stats_run. revert s. induction ticks as [|[n order] ticks IH]; intros s; [done|]. cbn [foldl].
  destruct (IH (stats_tick s n order)) as [-> ->]. done.
Qed.

(** The server never reports that the node is unhealthy, also when it has no peer: nothing
    sets [Connected] after [NewStats]. *)
Lemma always_healthy start ticks now :
  handleHealth (stats_run (NewStats start) ticks) now =
    mkResponse 200 [("status", JStr "healthy"); ("uptime", JStr (Duration_String (time_sub now start)))]%string.
Proof. destruct (stats_run_frame (NewStats start) ticks) as [E1 E2]. unfold handleHealth. by rewrite E1, E2. Qed.

(** The metrics are those of the node at the last tick. *)
Lemma metrics_last start ticks n order now :
  r_body (handleMetrics (stats_run (NewStats start) (ticks ++ [(n, order)])) now) =
    [("uptime_seconds", JNum (Some (to_int (Seconds (time_sub now start)))));
     ("peer_count", JNum (Some (Z.of_nat (length (GetAlive order)))));
     ("route_count", JNum (Some (Z.of_nat (Size (table (propagator n))))))]%string.
Proof.
  unfold stats_run at 1. rewrite foldl_app. fold (stats_run (NewStats start) ticks). cbn [foldl].
  unfold handleMetrics. cbn [Uptime PeerCount RouteCount stats_tick Update r_body].
  by destruct (stats_run_frame (NewStats start) ticks) as [-> _].
Qed.

(** Every path but the two is not found, and neither of them is ever an error. *)
Lemma serve_path_codes addr path start ticks now :
  r_code (serve_path (NewHealthServer addr) path (stats_run (NewStats start) ticks) now) =
    if decide (path = "/health" ∨ path = "/metrics")%string then 200 else 404.
Proof.
  unfold serve_path, NewHealthServer. cbn [hs_mux list_find].
  destruct (decide ("/health" = path)%string) as [<-|H1]; [rewrite always_healthy, decide_True by auto; done|].
  cbn. destruct (decide ("/metrics" = path)%string) as [<-|H2]; [by rewrite decide_True by auto|].
  cbn. rewrite decide_False; [done|]. intros [?|?]; congruence.
Qed.
